(* ===== verification/_CoqProject ===== *)
-Q . S2P
Prelude.v
GoStrings.v
Models.v
Database.v
GoTime.v
GoTimeSpec.v
Auth.v
EventID.v
Sha256.v
Effects.v
Syncer.v
SyncerFacts.v
SyncSound.v
SyncOutcome.v
SyncComplete.v
GoFloat.v
Extractor.v
ExtractorSpec.v
Extraction.v
Queue.v
QueueSpec.v
Consumers.v
ConsumersSpec.v
Middleware.v
MiddlewareSpec.v
Handlers.v
Feed.v
Scheduler.v
Admin.v
Router.v
Telegram.v
TelegramSpec.v
Notifier.v
Otel.v
Setup.v
Main.v
Scenario.v
ExtractionSpec.v
SchedulerSpec.v
SyncSpec.v
HandlersSpec.v
Cooldown.v
RouterSpec.v
AccountSpec.v
FeedSpec.v
