(* ===== verification/Prelude.v ===== *)
(** * ContestSync: a verification development

    ContestSync is a Go service that scrapes the upcoming programming contests
    of seven platforms, stores them in Postgres and keeps them in its users'
    Google calendars.  A server and a worker share a Postgres database, a
    Valkey (Redis) store and an AMQP broker.

    The parts of the program and how they interact
    - [internal/scheduler] runs cron jobs: it queues one extraction task per
      platform and one synchronisation task per user, and prunes old rows.
    - [internal/queue] publishes tasks to the broker, or to Go channels when
      there is no broker, consumes them with bounded retries and reconnects
      with a backoff.  It calls [handleExtraction] for a platform and
      [Syncer.SyncUser] for a user.
    - [internal/extractor] fetches and parses the contests of a platform.
    - [internal/sync] brings one user's calendar up to date under a lock.
    - [internal/auth] encrypts the stored refresh tokens.
    - [internal/api] is the HTTP side: rate limits, sessions, CSRF, handlers,
      static files.
    - [internal/observability] sends Telegram notifications and sets
      OpenTelemetry up.
    - [cmd/server] and [cmd/worker] wire all of it together: start-up, routes,
      shutdown.
    - [models], [migrations], [config] and [internal/db] hold the cached
      structs and key formats, the schema, the configuration and the pools.

    ** Files

    Language and standard library: [Prelude] (machine integers, errors, hint
    database, generic lemmas), [GoStrings] (byte strings, [strings],
    [strconv], [utf8]), [GoTime] (calendar, [Format], [Parse]) with its round
    trip in [GoTimeSpec], [GoFloat] (binary64).

    Data: [Models] is [models/models.go] with every Valkey key of the
    program; [Database] is the schema with every SQL statement, executed by
    [exec] on a record of tables, constraint violations being errors.

    The world: [Effects] has the record [World] (tables, Valkey, the
    process-wide set [syncingUsers], a trace of what was sent), the monad [M]
    of code that may return early, and the environment [Env], which decides
    for every external call whether it is done, fails, or takes effect with a
    lost answer, what the clock, Google and the replicas answer, and which
    rows of a result arrive.  Theorems quantify over [Env]; where one needs a
    cooperative environment it says so.  [wstep] is the relation of the atomic
    steps of a handler within a footprint, so that what every step preserves
    holds for every interleaving of handlers.

    Components, each with the file of its theorems
    - [Auth]: [EncryptToken], [DecryptToken]; AES-GCM is the class [AEAD].
    - [EventID]: [GenerateDeterministicEventID] with MD5 and base32hex.
    - [Syncer]: [SyncUser] and [handleSyncError]; facts in [SyncerFacts]
      (footprint), [SyncSound] (recorded events), [SyncOutcome] (status and
      revoked tokens), [SyncComplete] (completeness); properties in [SyncSpec].
    - [Extractor]: the retry loops and the seven fetchers; [ExtractorSpec].
    - [Extraction]: [handleExtraction] with the class [Fetching] between queue
      and extractor; [ExtractionSpec].
    - [Queue]: connection, publishing, settlement, reconnection; [QueueSpec].
    - [Consumers]: the consumer loops with their semaphores and wait group, the
      goroutines with their deferred calls, the broker behind the channel,
      connection loss and shutdown as labelled steps; [ConsumersSpec].
    - [Middleware]: limiter, sessions, authentication, CSRF, security headers;
      [MiddlewareSpec].
    - [Handlers]: the user handlers of [internal/api/handlers.go], against the
      class [SessionStore] that the Valkey store implements and the record
      [Net] of the services behind them; [HandlersSpec] (isolation, login) and
      [AccountSpec] (preferences, deletion, manual synchronisation).
    - [Feed]: the iCalendar feed of the same file, with [Sha256] for its
      secret; [Admin]: [admin_handlers.go]; both in [FeedSpec].
    - [Router]: the routing table of [cmd/server/main.go] with the middlewares
      around each handler, as one function [serve] from a request and the
      state of the server to a response; chi is the class [Mux]; [RouterSpec].
    - [Cooldown]: [SyncUser] and [ManualSync] together.
    - [Scheduler]: the cron jobs; [SchedulerSpec].
    - [Telegram]: escaping, splitting, client; [TelegramSpec].
    - [Notifier]: the goroutine that sends the notifications, beside those
      that queue them; [Otel]: the OpenTelemetry set-up; both with their
      properties.
    - [Setup]: configuration and pools, with their properties.
    - [Main]: start-up and shutdown of both programs, the cron table, the
      worker's health check and keep-alive, with their properties.
    - [Scenario]: a concrete environment and database in which the witnesses
      and the counterexamples run.

    ** What is shown

    Synchronisation (C1-C6, C10, C31, C39): completeness in a reliable
    environment; in any environment, only events Google confirmed are recorded,
    only revoked accounts are deleted and stay so, the lock excludes, what is
    left of it in each case, other users are untouched, the status is the
    outcome, event identifiers have the form Google wants; and the minute
    between two synchronisations is kept.  Requests (C7-C9, C20-C22, C32):
    through the whole server a request touches no user but that of its session,
    routes that change data want the session and its CSRF token, requests and
    synchronisations may interleave in any way, an OAuth state is good once,
    for ten minutes and with its cookie, a login ends in a fresh session of the
    right account, which then opens the routes to a client below the rate
    limits, and no handler panics.  Extraction (C11-C13, C33, C38): the
    retries of a fetch, the table after a task, isolation of platforms, the
    scraper on any page, the form of what is fetched.  Queue (C14-C19, C37): in
    every interleaving a task is kept until it ended, unless the broker
    silently drops its retry, which is published without confirmation;
    executions are bounded by the redeliveries, failed tasks are kept, the
    semaphores and the wait group count what they should, what a shutdown
    gives back, the invariant of the connection with anything happening while
    it dials, the backoff in float64.  Accounts (C23-C26, C34): preferences,
    deletion with its clean-up, manual synchronisation, feed.  The rest: the
    limiter refines a fixed window (C27), tokens round trip (C28), the
    scheduler's paging with its publications and its pruning (C29, C40), when
    the server starts (C30), telemetry headers round trip (C35), what the
    notification goroutine hands over and posts (C36).  Theorems marked
    Property are proved as well.

    The constraints of the schema are Postgres's: [exec] refuses what they
    forbid and cascades as they say, so [exec_wf_db], which the isolation
    theorems use, is about the model of the database and not about the
    program.  In [Consumers] the prefetch limit and the return of unsettled
    deliveries to the queue when a channel closes are the broker's, by the AMQP
    specification; the semaphore, the wait group, the goroutines and the
    closing of the channel are the program's.

    Some theorems establish flaws: [SyncUser_caches_no_access],
    [stale_synced_set], [simultaneous_contests_collide],
    [fallback_never_consumed], [requeue_unbounded],
    [admin_limit_not_enforced], [valkey_limit_counts], [sendChunk_nil],
    [notification_markup_escaped], [hackerrank_lookalike],
    [empty_identity_shared], [profile_hides_access], [feed_by_plain_number],
    [shutdown_redelivers], [task_after_drain], [restart_doubles_concurrency],
    [retry_vanishes], [drain_in_warmup_loses], [half_probed]; and cases of
    [SyncUser_unlocks], [failed_task_kept] and [SyncAllUsers_every_user].

    ** Bounds and fuel

    Retry loops are structural on their three attempts.  [extractCells_fuel]
    and [atcoder_rows_fuel] are given the length of the text plus one and
    [split_loop] the length of the text: every round consumes a byte, and the
    theorems are about the result with that fuel.  [sync_pages] takes the
    number of pages it may read; [SyncAllUsers_every_user] shows that it ends
    by itself, with every page published, once that many pages hold all users.
    [reconnect_loop] runs over the rounds of the environment.  Integers are
    [Z]; where width matters (pool index, [float64] conversions, [INTEGER]
    columns) it is written out.  Timestamps are nanoseconds; values beyond
    [int64] are not reached.

    ** Not modelled

    [encoding/json] and [net/url] are parameters: the fetchers start from the
    decoded struct, and cached values go through the class [Codec], whose law
    is that a stored value is read back; a value that does not decode is
    taken to leave the destination alone.  [securecookie] is the class
    [Cookies], Valkey the class [Valkey], chi the class [Mux]; each has an
    instance.  In the handlers the broker and the scheduling of goroutines are
    the environment; their interleavings are those of [Consumers] and
    [Notifier].  HTTP itself, gzip and log lines are left out, and so is the
    counter that an extraction adds to.  The exporters of OpenTelemetry, the
    cron library's clock, the listeners and signals are outside.  Sessions are
    those of the Valkey store; without Valkey the server uses a cookie store
    of a library, of which the theorems assume only [SessionStore].  The
    parallel deletions of the background clean-up run in their starting order;
    what the scheduling decides, which goroutine gets its turn before the
    deadline of [cleanup_timeout] and which sees a refused token, are
    parameters.  [server_shutdown] and [worker_shutdown] are the calls of a
    shutdown with their timeouts, in order; what goes on beside them is in
    [Consumers] and [Notifier].  The front end under [web]
    is in another language.  Next: the JSON of requests, tasks and caches in
    place of [Codec], and the queue and the engine composed into one system,
    from a published task to the user's calendar. *)

From stdpp Require Import base gmap strings list sets pretty relations.
From Stdlib Require Import ZArith Lia.

(** ** Machine integers

    Go's [int] and [int64] are 64-bit two's complement, [uint64] is modulo
    [2^64]; [int32] is used for pool sizes. *)

Definition wrap_u (w z : Z) : Z := z mod 2 ^ w.
Definition wrap_s (w z : Z) : Z := (z + 2 ^ (w - 1)) mod 2 ^ w - 2 ^ (w - 1).
Abbreviation wrap64 := (wrap_s 64).
Abbreviation wrapu64 := (wrap_u 64).
Definition in_int (w z : Z) : Prop := (- 2 ^ (w - 1) ≤ z < 2 ^ (w - 1))%Z.

(** Go error values: the message of [err.Error()], and the code when the
    dynamic type is [*googleapi.Error]. *)
Record error := mk_error { Error : string; gapi_code : option Z }.
Definition errorf (m : string) : error := mk_error m None.

(** Concatenation of strings computes on a visible head character. *)
#[global] Arguments String.append !_ _ / : simpl nomatch.

(** ** Hint database and tactics of the development *)
Create HintDb cs discriminated.
#[export] Hint Constants Opaque : cs.

(** Case analysis on the [match]/[if] scrutinee of a hypothesis. *)
Ltac case_in H :=
  match type of H with
  | context [match ?x with _ => _ end] => destruct x eqn:?
  end.
Ltac crush_match := repeat (case_match; simplify_eq/=; try done).

(** ** Integer lemmas *)

Lemma wrap_s_range w z : (0 < w)%Z → in_int w (wrap_s w z).
Proof.
  intros Hw. unfold in_int, wrap_s.
  assert (0 < 2 ^ w)%Z by (apply Z.pow_pos_nonneg; lia).
  assert (2 ^ w = 2 * 2 ^ (w - 1))%Z by (rewrite <- Z.pow_succ_r by lia; f_equal; lia).
  pose proof (Z.mod_pos_bound (z + 2 ^ (w - 1)) (2 ^ w)). lia.
Qed.

Lemma wrap_s_id w z : (0 < w)%Z → in_int w z → wrap_s w z = z.
Proof.
  intros Hw Hz. unfold in_int, wrap_s in *.
  assert (2 ^ w = 2 * 2 ^ (w - 1))%Z by (rewrite <- Z.pow_succ_r by lia; f_equal; lia).
  rewrite Z.mod_small; lia.
Qed.

Lemma wrap_u_range w z : (0 ≤ w)%Z → (0 ≤ wrap_u w z < 2 ^ w)%Z.
Proof. intros. apply Z.mod_pos_bound, Z.pow_pos_nonneg; lia. Qed.

#[export] Hint Resolve wrap_s_range wrap_s_id wrap_u_range : cs.

(** ** List lemmas *)

Lemma fmap_snoc_inv {A B} (f : A → B) l k : f <$> l = f <$> k → length l = length k.
Proof. intros H%(f_equal length). by rewrite !length_fmap in H. Qed.

Lemma elem_of_omap_Some {A B} (f : A → option B) (l : list A) y :
  y ∈ omap f l ↔ ∃ x, x ∈ l ∧ f x = Some y.
Proof. apply list_elem_of_omap. Qed.
