(* ===== verification/GoStrings.v ===== *)
(** * Go byte strings

    Go's [string] is a byte sequence; it is modelled by [String.string], whose
    characters are bytes.  The file models what the sources use of the packages
    [strings], [strconv], [unicode/utf8] and of [fmt]'s [%d], with the lemmas
    the components share. *)

From stdpp Require Import base gmap strings list sets pretty.
From Stdlib Require Import ZArith Lia Ascii.
From S2P Require Import Prelude.

(** ** Slices *)

(** [s[:n]] *)
Fixpoint stake (n : nat) (s : string) : string :=
  match n, s with
  | S n, String c s => String c (stake n s)
  | _, _ => ""
  end.
(** [s[n:]] *)
Fixpoint sdrop (n : nat) (s : string) : string :=
  match n, s with
  | S n, String _ s => sdrop n s
  | _, _ => s
  end.

(** ** Package [strings] *)

(** [strings.Index]: the first occurrence, [None] for -1. *)
Fixpoint Index (s sub : string) : option nat :=
  if String.prefix sub s then Some 0
  else match s with
       | "" => None
       | String _ s' => S <$> Index s' sub
       end.

Definition Contains (s sub : string) : bool := bool_decide (is_Some (Index s sub)).

Definition HasPrefix (s p : string) : bool := String.prefix p s.

Definition HasSuffix (s suf : string) : bool :=
  (String.length suf <=? String.length s)%nat
  && bool_decide (sdrop (String.length s - String.length suf) s = suf).

Definition TrimPrefix (s p : string) : string :=
  if HasPrefix s p then sdrop (String.length p) s else s.

(** [strings.LastIndex] for a one-byte separator. *)
Fixpoint LastIndexByte (s : string) (c : ascii) : option nat :=
  match s with
  | "" => None
  | String d s' =>
      match LastIndexByte s' c with
      | Some i => Some (S i)
      | None => if decide (d = c) then Some 0 else None
      end
  end.

(** [strings.ReplaceAll] for a one-byte pattern, the only use in the sources. *)
Fixpoint ReplaceAll (s : string) (old : ascii) (new : string) : string :=
  match s with
  | "" => ""
  | String c s' =>
      (if decide (c = old) then new else String c "") +:+ ReplaceAll s' old new
  end.

(** [strings.Replace(s, old, new, 1)] for a one-byte pattern. *)
Fixpoint Replace1 (s : string) (old : ascii) (new : string) : string :=
  match s with
  | "" => ""
  | String c s' => if decide (c = old) then new +:+ s' else String c (Replace1 s' old new)
  end.

(** [strings.Split] for a one-byte separator. *)
Fixpoint Split (s : string) (sep : ascii) : list string :=
  match s with
  | "" => [""]
  | String c s' =>
      if decide (c = sep) then "" :: Split s' sep
      else match Split s' sep with
           | x :: l => String c x :: l
           | [] => [String c ""]
           end
  end.

Arguments ReplaceAll _ _%_char _.
Arguments Replace1 _ _%_char _.
Arguments Split _ _%_char.
Arguments LastIndexByte _ _%_char.

(** [strings.ToLower] and [strings.ToUpper] on ASCII text. *)
Definition lower_ascii (c : ascii) : ascii :=
  let n := N_of_ascii c in
  if ((65 <=? n) && (n <=? 90))%N then ascii_of_N (n + 32) else c.
Definition upper_ascii (c : ascii) : ascii :=
  let n := N_of_ascii c in
  if ((97 <=? n) && (n <=? 122))%N then ascii_of_N (n - 32) else c.
Fixpoint smap (f : ascii → ascii) (s : string) : string :=
  match s with "" => "" | String c s => String (f c) (smap f s) end.
Definition ToLower : string → string := smap lower_ascii.
Definition ToUpper : string → string := smap upper_ascii.

(** *** [strings.TrimSpace]

    The white space of [unicode.IsSpace], as UTF-8 byte sequences. *)
Definition bytes_str (l : list N) : string :=
  foldr (λ n s, String (ascii_of_N n) s) "" l.
Definition space_encodings : list string :=
  bytes_str <$> [[9]; [10]; [11]; [12]; [13]; [32]; [0xC2; 0x85]; [0xC2; 0xA0];
    [0xE1; 0x9A; 0x80]; [0xE2; 0x80; 0x80]; [0xE2; 0x80; 0x81]; [0xE2; 0x80; 0x82];
    [0xE2; 0x80; 0x83]; [0xE2; 0x80; 0x84]; [0xE2; 0x80; 0x85]; [0xE2; 0x80; 0x86];
    [0xE2; 0x80; 0x87]; [0xE2; 0x80; 0x88]; [0xE2; 0x80; 0x89]; [0xE2; 0x80; 0x8A];
    [0xE2; 0x80; 0xA8]; [0xE2; 0x80; 0xA9]; [0xE2; 0x80; 0xAF]; [0xE2; 0x81; 0x9F];
    [0xE3; 0x80; 0x80]]%N.

Definition prefix_of_list (ps : list string) (s : string) : option string :=
  head (filter (λ p, String.prefix p s = true) ps).

(** Strip leading members of [ps]; every member is non-empty, so
    [String.length s] rounds are enough. *)
Fixpoint strip_leading (fuel : nat) (ps : list string) (s : string) : string :=
  match fuel with
  | 0 => s
  | S fuel =>
      match prefix_of_list ps s with
      | Some p => strip_leading fuel ps (sdrop (String.length p) s)
      | None => s
      end
  end.
Definition trim_left (ps : list string) (s : string) : string :=
  strip_leading (String.length s) ps s.
Definition TrimSpace (s : string) : string :=
  let l := trim_left space_encodings s in
  String.rev (trim_left (String.rev <$> space_encodings) (String.rev l)).

(** *** Runes: [for _, c := range s] and [utf8]

    [next_rune s] is the encoding of the first rune and the rest; [None] in
    the first component marks an invalid byte (width 1, U+FFFD). *)
Definition byte_in (lo hi : N) (c : ascii) : bool :=
  ((lo <=? N_of_ascii c) && (N_of_ascii c <=? hi))%N.
Definition cont (c : ascii) : bool := byte_in 0x80 0xBF c.
Definition rune3_ok (a b : ascii) : bool :=
  let n := N_of_ascii a in
  if (n =? 0xE0)%N then byte_in 0xA0 0xBF b
  else if (n =? 0xED)%N then byte_in 0x80 0x9F b else cont b.
Definition rune4_ok (a b : ascii) : bool :=
  let n := N_of_ascii a in
  if (n =? 0xF0)%N then byte_in 0x90 0xBF b
  else if (n =? 0xF4)%N then byte_in 0x80 0x8F b else cont b.
Definition rune_width (s : string) : option nat :=
  match s with
  | "" => None
  | String a s1 =>
      if byte_in 0 0x7F a then Some 1
      else if byte_in 0xC2 0xDF a then
        match s1 with String b _ => if cont b then Some 2 else None | _ => None end
      else if byte_in 0xE0 0xEF a then
        match s1 with
        | String b (String c _) => if rune3_ok a b && cont c then Some 3 else None
        | _ => None
        end
      else if byte_in 0xF0 0xF4 a then
        match s1 with
        | String b (String c (String d _)) =>
            if rune4_ok a b && cont c && cont d then Some 4 else None
        | _ => None
        end
      else None
  end.

(** The runes of [s] in order: [Some bytes] for a valid rune, [None] for an
    invalid byte.  Each round consumes at least one byte. *)
Fixpoint runes_fuel (fuel : nat) (s : string) : list (option string) :=
  match fuel, s with
  | S fuel, String _ s' =>
      match rune_width s with
      | Some n => Some (stake n s) :: runes_fuel fuel (sdrop n s)
      | None => None :: runes_fuel fuel s'
      end
  | _, _ => []
  end.
Definition runes (s : string) : list (option string) := runes_fuel (String.length s) s.
(** [utf8.RuneError] as [WriteRune] writes it. *)
Definition rune_error : string := bytes_str [0xEF; 0xBF; 0xBD]%N.
Definition ToValidUTF8 (s replacement_empty : string) : string :=
  foldr (λ r acc, default replacement_empty r +:+ acc) "" (runes s).

(** ** Package [strconv] *)

(** [strconv.Itoa] and [fmt]'s [%d] *)
Definition Itoa (n : Z) : string := pretty n.

Definition digit (c : ascii) : option Z :=
  let n := N_of_ascii c in
  if ((48 <=? n) && (n <=? 57))%N then Some (Z.of_N n - 48)%Z else None.
Fixpoint digits_val (acc : Z) (s : string) : option Z :=
  match s with
  | "" => Some acc
  | String c s => match digit c with Some d => digits_val (acc * 10 + d) s | None => None end
  end.
Definition parse_uint (s : string) : option Z :=
  match s with "" => None | _ => digits_val 0 s end.

(** [strconv.Atoi]: the value and whether the error is nil.  A syntax error
    yields 0, a range error the nearest [int]. *)
Definition Atoi (s : string) : Z * bool :=
  let signed :=
    match s with
    | String "-" r => (λ v, (- v)%Z) <$> parse_uint r
    | String "+" r => parse_uint r
    | _ => parse_uint s
    end in
  match signed with
  | None => (0%Z, false)
  | Some v =>
      if decide (v < - 2 ^ 63)%Z then ((- 2 ^ 63)%Z, false)
      else if decide (2 ^ 63 - 1 < v)%Z then ((2 ^ 63 - 1)%Z, false)
      else (v, true)
  end.

(** ** Lemmas: slices and lengths *)

Lemma app_nil_r_s (s : string) : s +:+ "" = s.
Proof. induction s; simpl; congruence. Qed.
Lemma app_assoc_s (a b c : string) : (a +:+ b) +:+ c = a +:+ (b +:+ c).
Proof. induction a; simpl; congruence. Qed.
Lemma length_app_s (a b : string) :
  String.length (a +:+ b) = String.length a + String.length b.
Proof. induction a; simpl; congruence. Qed.
Lemma app_inv_r_s (a b c : string) : a +:+ c = b +:+ c → a = b.
Proof.
  intros H. assert (String.length a = String.length b) as Hl.
  { apply (f_equal String.length) in H. rewrite !length_app_s in H. lia. }
  revert b H Hl. induction a as [|x a IH]; intros [|y b] H Hl; simplify_eq/=; [done|].
  f_equal; eauto.
Qed.

Lemma stake_sdrop n s : stake n s +:+ sdrop n s = s.
Proof. revert s; induction n; intros [|c s]; simpl; try done. by rewrite IHn. Qed.
Lemma length_stake n s : String.length (stake n s) = min n (String.length s).
Proof. revert s; induction n; intros [|c s]; simpl; auto. Qed.
Lemma length_sdrop n s : String.length (sdrop n s) = String.length s - n.
Proof. revert s; induction n; intros [|c s]; simpl; auto. Qed.
Lemma stake_app a b : stake (String.length a) (a +:+ b) = a.
Proof. induction a as [|c a IH]; simpl; [by destruct b|by rewrite IH]. Qed.
Lemma sdrop_app a b : sdrop (String.length a) (a +:+ b) = b.
Proof. induction a; simpl; [by destruct b|done]. Qed.
Lemma sdrop_sdrop n m s : sdrop n (sdrop m s) = sdrop (m + n) s.
Proof. revert s; induction m; intros [|c s]; simpl; try done; by destruct n. Qed.
Lemma sdrop_0 s : sdrop 0 s = s.
Proof. by destruct s. Qed.

Create Rewrite HintDb str.
#[export] Hint Rewrite app_nil_r_s app_assoc_s length_app_s length_stake length_sdrop
  stake_app sdrop_app : str.

(** ** Lemmas: searching *)

Lemma prefix_spec p s : String.prefix p s = true ↔ ∃ t, s = p +:+ t.
Proof.
  revert s; induction p as [|c p IH]; intros s.
  - split; [intros _; by exists s|by destruct s].
  - destruct s as [|d s]; simpl; [naive_solver|].
    destruct (ascii_dec c d) as [->|]; [|naive_solver].
    rewrite IH. naive_solver.
Qed.
#[global] Arguments String.prefix : simpl never.
Lemma prefix_refl p t : String.prefix p (p +:+ t) = true.
Proof. apply prefix_spec. eauto. Qed.
Lemma prefix_drop p s : String.prefix p s = true → s = p +:+ sdrop (String.length p) s.
Proof. intros [t ->]%prefix_spec. by rewrite sdrop_app. Qed.

(** [Index] finds an occurrence, and the first one. *)
Lemma Index_Some s sub i :
  Index s sub = Some i →
  s = stake i s +:+ sub +:+ sdrop (i + String.length sub) s.
Proof.
  revert i; induction s as [|c s IH]; intros i; simpl.
  - destruct (String.prefix sub "") eqn:Hp; intros; simplify_eq/=.
    apply prefix_drop in Hp. done.
  - destruct (String.prefix sub (String c s)) eqn:Hp; intros; simplify_eq/=.
    + apply prefix_drop in Hp. done.
    + apply fmap_Some in H as (j & Hj & ->). simpl. f_equal. auto.
Qed.
Lemma Index_first s sub i j t :
  Index s sub = Some i → (j < i)%nat → sdrop j s ≠ sub +:+ t.
Proof.
  revert i j; induction s as [|c s IH]; intros i j; simpl.
  - destruct (String.prefix sub ""); intros; simplify_eq/=; lia.
  - destruct (String.prefix sub (String c s)) eqn:Hp; intros Hi Hj; simplify_eq/=; [lia|].
    apply fmap_Some in Hi as (k & Hk & ->).
    destruct j as [|j]; simpl.
    + intros Heq. rewrite Heq, prefix_refl in Hp. done.
    + eapply IH; eauto. lia.
Qed.
Lemma Index_None s sub : Index s sub = None ↔ ∀ a b, s ≠ a +:+ sub +:+ b.
Proof.
  induction s as [|c s IH]; simpl.
  - destruct (String.prefix sub "") eqn:Hp; split; try done.
    + apply prefix_spec in Hp as [t Ht]. intros H. by destruct (H "" t).
    + intros _ a b Heq. destruct a; simplify_eq/=. rewrite Heq, prefix_refl in Hp. done.
  - destruct (String.prefix sub (String c s)) eqn:Hp; split; try done.
    + apply prefix_spec in Hp as [t Ht]. intros H. by destruct (H "" t).
    + intros H%fmap_None a b Heq.
      destruct a as [|d a]; simplify_eq/=.
      * rewrite Heq, prefix_refl in Hp. done.
      * by eapply IH.
    + intros H. rewrite (proj2 IH); [done|]. intros a b ->.
      by apply (H (String c a) b).
Qed.
Lemma Index_bound s sub i :
  Index s sub = Some i → (i + String.length sub ≤ String.length s)%nat.
Proof.
  revert i; induction s as [|c s IH]; intros i; simpl;
    destruct (String.prefix _ _) eqn:Hp; intros Hi; simplify_eq/=.
  - apply prefix_drop, (f_equal String.length) in Hp. rewrite length_app_s in Hp.
    simpl in Hp. lia.
  - apply prefix_drop, (f_equal String.length) in Hp. rewrite length_app_s in Hp.
    simpl in Hp. lia.
  - apply fmap_Some in Hi as (j & Hj%IH & ->). lia.
Qed.
Lemma Contains_spec s sub : Contains s sub = true ↔ ∃ a b, s = a +:+ sub +:+ b.
Proof.
  unfold Contains. rewrite bool_decide_eq_true. split.
  - intros [i Hi%Index_Some]. eauto.
  - intros (a & b & ->). destruct (Index _ sub) eqn:Hi; [eauto|].
    rewrite Index_None in Hi. by destruct (Hi a b).
Qed.
Lemma HasPrefix_spec s p : HasPrefix s p = true ↔ ∃ t, s = p +:+ t.
Proof. apply prefix_spec. Qed.
Lemma HasSuffix_spec s suf : HasSuffix s suf = true ↔ ∃ t, s = t +:+ suf.
Proof.
  unfold HasSuffix. rewrite andb_true_iff, Nat.leb_le, bool_decide_eq_true. split.
  - intros [Hl Heq]. exists (stake (String.length s - String.length suf) s).
    set (n := String.length s - String.length suf) in *.
    rewrite <- Heq. by rewrite stake_sdrop.
  - intros [t ->]. rewrite length_app_s. split; [lia|].
    replace (_ - _) with (String.length t) by lia. apply sdrop_app.
Qed.

Lemma LastIndexByte_Some s c i :
  LastIndexByte s c = Some i →
  (i < String.length s)%nat ∧ sdrop i s = String c (sdrop (S i) s).
Proof.
  revert i; induction s as [|d s IH]; intros i; simpl; [done|].
  destruct (LastIndexByte s c) as [j|] eqn:Hj; intros; simplify_eq.
  - destruct (IH j eq_refl). simpl. split; [lia|done].
  - case_decide; simplify_eq. simpl. split; [lia|by destruct s].
Qed.

(** ** Lemmas: replacing *)

Lemma ReplaceAll_app a b c r :
  ReplaceAll (a +:+ b) c r = ReplaceAll a c r +:+ ReplaceAll b c r.
Proof. induction a as [|x a IH]; simpl; [done|]. by rewrite IH, app_assoc_s. Qed.

(** The characters of a string, as a list. *)
Fixpoint chars (s : string) : list ascii :=
  match s with "" => [] | String c s => c :: chars s end.
Lemma chars_app a b : chars (a +:+ b) = chars a ++ chars b.
Proof. induction a; simpl; congruence. Qed.
Lemma chars_inj a b : chars a = chars b → a = b.
Proof. revert b; induction a; intros [|? ?]; simpl; intros; simplify_eq; f_equal; auto. Qed.
Lemma length_chars s : length (chars s) = String.length s.
Proof. induction s; simpl; congruence. Qed.

Lemma ReplaceAll_chars s c r x :
  x ∈ chars (ReplaceAll s c r) → (x ∈ chars s ∧ x ≠ c) ∨ (x ∈ chars r ∧ c ∈ chars s).
Proof.
  induction s as [|d s IH]; simpl; [by intros ?%elem_of_nil|].
  rewrite chars_app, elem_of_app, elem_of_cons. intros [Hx|Hx].
  - case_decide as Hd; [subst; set_solver|]. simpl in Hx. set_solver.
  - destruct (IH Hx) as [[]|[]]; [left|right]; set_solver.
Qed.

(** ** Lemmas: numbers *)

#[export] Instance Itoa_inj : Inj (=) (=) Itoa.
Proof. unfold Itoa. apply _. Qed.

(** ** Lemmas: trimming and runes *)

Lemma chars_sdrop n s x : x ∈ chars (sdrop n s) → x ∈ chars s.
Proof. rewrite <- (stake_sdrop n s) at 2. rewrite chars_app. set_solver. Qed.
Lemma chars_rev s x : x ∈ chars (String.rev s) → x ∈ chars s.
Proof.
  unfold String.rev. enough (∀ a, x ∈ chars (String.rev_app s a) → x ∈ chars s ∨ x ∈ chars a) as Hr.
  { intros [H|H]%Hr; [done|by apply elem_of_nil in H]. }
  induction s as [|c s IH]; intros a; simpl; [auto|]. intros [H|H]%IH; simpl in *; set_solver.
Qed.
Lemma chars_trim_left ps s x : x ∈ chars (trim_left ps s) → x ∈ chars s.
Proof.
  unfold trim_left. generalize (String.length s). intros n. revert s.
  induction n as [|n IH]; intros s; simpl; [done|].
  destruct (prefix_of_list ps s); [|done]. intros H%IH. by eapply chars_sdrop.
Qed.
Lemma chars_TrimSpace s x : x ∈ chars (TrimSpace s) → x ∈ chars s.
Proof. unfold TrimSpace. eauto using chars_rev, chars_trim_left. Qed.

(** An encoded rune is one ASCII byte or has no ASCII byte. *)
Definition high (c : ascii) : Prop := (128 ≤ N_of_ascii c)%N.
Lemma byte_in_high lo hi c : (128 ≤ lo)%N → byte_in lo hi c = true → high c.
Proof. unfold byte_in, high. rewrite andb_true_iff, !N.leb_le. lia. Qed.
Lemma cont_high c : cont c = true → high c.
Proof. apply byte_in_high. done. Qed.
Lemma rune3_high a b : rune3_ok a b = true → high b.
Proof. unfold rune3_ok. repeat case_match; first [apply byte_in_high; done|apply cont_high]. Qed.
Lemma rune4_high a b : rune4_ok a b = true → high b.
Proof. unfold rune4_ok. repeat case_match; first [apply byte_in_high; done|apply cont_high]. Qed.
Lemma rune_width_bytes s n :
  rune_width s = Some n → n = 1%nat ∨ Forall high (chars (stake n s)).
Proof.
  destruct s as [|a s1]; simpl; [done|].
  repeat case_match; intros; simplify_eq; auto; right; simpl;
    repeat match goal with H : _ && _ = true |- _ => apply andb_true_iff in H as [? ?] end;
    repeat constructor; eauto using cont_high, rune3_high, rune4_high;
    (eapply byte_in_high; [|eassumption]; done).
Qed.
Lemma runes_bytes s r :
  r ∈ runes s → match r with None => True | Some c => String.length c ≤ 1 ∨ Forall high (chars c) end.
Proof.
  unfold runes. generalize (String.length s). intros n. revert s.
  induction n as [|n IH]; intros s; simpl; [by intros ?%elem_of_nil|].
  destruct s as [|a s1]; [by intros ?%elem_of_nil|].
  destruct (rune_width (String a s1)) as [k|] eqn:Hk; rewrite elem_of_cons;
    (intros [->|H]; [|by eapply IH]); [|done].
  destruct (rune_width_bytes _ _ Hk) as [->|?]; [|auto]. left. simpl. by destruct s1.
Qed.

(** ** Lemmas: the first occurrence after a clean prefix *)

Lemma app_split a x p t :
  a +:+ x = p +:+ t → (∃ r, a = p +:+ r) ∨ (∃ d r, p = a +:+ String d r ∧ x = String d r +:+ t).
Proof.
  revert p. induction a as [|c a IH]; intros [|d p]; simpl; intros Heq.
  - left. by exists "".
  - right. by exists d, p.
  - left. by exists (String c a).
  - injection Heq as -> Heq. destruct (IH _ Heq) as [[r ->]|(e & r & -> & ->)]; [left; by exists r|right; by exists e, r].
Qed.
Lemma Index_cons c s p :
  Index (String c s) p = if String.prefix p (String c s) then Some 0 else S <$> Index s p.
Proof. done. Qed.
(** A pattern whose first character does not occur again is found right after
    a text that does not contain it. *)
Lemma Index_app a c p b :
  c ∉ chars p → Index a (String c p) = None →
  Index (a +:+ String c p +:+ b) (String c p) = Some (String.length a).
Proof.
  intros Hc. induction a as [|d a IH]; intros Ha.
  - change ("" +:+ ?x) with x. change (String c p +:+ b) with (String c (p +:+ b)).
    rewrite Index_cons. by rewrite (prefix_refl (String c p) b : String.prefix _ (String c (p +:+ b)) = true).
  - rewrite Index_cons in Ha. destruct (String.prefix (String c p) (String d a)) eqn:Hp; [done|].
    apply fmap_None in Ha. change (String d a +:+ ?x) with (String d (a +:+ x)). rewrite Index_cons.
    destruct (String.prefix (String c p) (String d (a +:+ String c p +:+ b))) eqn:Hp'.
    + apply prefix_spec in Hp' as [t Ht].
      destruct (app_split (String d a) (String c p +:+ b) (String c p) t Ht)
        as [[r Hr]|(e & r & Hr & Hr')].
      * rewrite Hr, prefix_refl in Hp. done.
      * simplify_eq/=. destruct Hc. rewrite chars_app. simpl. set_solver.
    + by rewrite IH.
Qed.
Lemma sdrop_add_app a b n : sdrop (String.length a + n) (a +:+ b) = sdrop n b.
Proof. induction a; simpl; [done|done]. Qed.

(** ** Lemmas: printing and reading numbers *)

Lemma digit_pretty x : (x < 10)%N → digit (pretty_N_char x) = Some (Z.of_N x).
Proof.
  intros Hx. assert (x = 0 ∨ x = 1 ∨ x = 2 ∨ x = 3 ∨ x = 4 ∨ x = 5 ∨ x = 6 ∨ x = 7 ∨ x = 8 ∨ x = 9)%N
    as Hc by lia. repeat destruct Hc as [->|Hc]; try done. by subst.
Qed.
Lemma digits_val_pretty_go x s : digits_val 0 (pretty_N_go x s) = digits_val (Z.of_N x) s.
Proof.
  revert s. induction (N.lt_wf_0 x) as [x _ IH]; intros s.
  destruct (decide (x = 0)%N) as [->|Hx]; [done|].
  rewrite pretty_N_go_step by lia. rewrite IH by (apply N.div_lt; lia). simpl.
  rewrite digit_pretty by (by apply N.mod_lt). f_equal.
  pose proof (N.div_mod x 10 ltac:(done)). lia.
Qed.
Lemma pretty_N_go_nonempty x s : s ≠ "" → pretty_N_go x s ≠ "".
Proof.
  revert s. induction (N.lt_wf_0 x) as [x _ IH]; intros s Hs.
  destruct (decide (x = 0)%N) as [->|Hx]; [done|].
  rewrite pretty_N_go_step by lia. apply IH; [apply N.div_lt; lia|done].
Qed.
Lemma parse_uint_pretty x : parse_uint (pretty x) = Some (Z.of_N x).
Proof.
  unfold pretty, pretty_N. case_decide as Hx; [by subst|]. unfold parse_uint.
  destruct (pretty_N_go x "") eqn:Hp; [|rewrite <- Hp; apply digits_val_pretty_go].
  rewrite pretty_N_go_step in Hp by lia. exfalso. revert Hp. by apply pretty_N_go_nonempty.
Qed.
Lemma parse_uint_head s v : parse_uint s = Some v → ∀ r, s ≠ "-" +:+ r ∧ s ≠ "+" +:+ r.
Proof. intros Hs r. split; intros ->; done. Qed.
(** What is printed is read back. *)
Lemma Atoi_Itoa z : in_int 64 z → Atoi (Itoa z) = (z, true).
Proof.
  unfold in_int. change (64 - 1)%Z with 63%Z. intros Hz. unfold Atoi.
  assert (match Itoa z with
    | String "-" r => (λ v, (- v)%Z) <$> parse_uint r
    | String "+" r => parse_uint r
    | _ => parse_uint (Itoa z)
    end = Some z) as ->.
  { unfold Itoa, pretty, pretty_Z. destruct z as [|p|p]; [done| |].
    - pose proof (parse_uint_pretty (Npos p)) as Hp. change (pretty p) with (pretty (Npos p)).
      destruct (pretty (N.pos p)) as [|c s] eqn:Hs; [done|].
      destruct (parse_uint_head _ _ Hp s) as [H1 H2].
      destruct (decide (c = "-"%char)) as [->|]; [by destruct H1|].
      destruct (decide (c = "+"%char)) as [->|]; [by destruct H2|].
      etrans; [|exact Hp]. destruct c as [[] [] [] [] [] [] [] []]; try done; exfalso; congruence.
    - simpl. change (pretty p) with (pretty (Npos p)). by rewrite (parse_uint_pretty (Npos p)). }
  rewrite decide_False by lia. rewrite decide_False by lia. done.
Qed.
