(* ===== verification/Models.v ===== *)
(** * Package [models], and every Valkey key of the program

    The structs of [models/models.go], the cache lifetimes, and the formats of
    the Valkey keys.  The keys of the other packages are collected here too,
    because what matters about them is that no two families collide. *)

From stdpp Require Import base gmap strings list.
From Stdlib Require Import ZArith Lia Ascii.
From S2P Require Import Prelude GoStrings.

(** ** Durations, in nanoseconds as [time.Duration] *)
Definition Second : Z := 1000000000.
Definition Minute : Z := 60 * Second.
Definition Hour : Z := 60 * Minute.

Definition UserCacheTTL : Z := 24 * Hour.
Definition ContestsCacheTTL : Z := 12 * Hour.
Definition SyncedEventsCacheTTL : Z := 24 * Hour.
Definition PlatformsCacheTTL : Z := 24 * Hour.

(** ** Keys of package [models] *)
Definition UserCacheKey (userID : Z) : string := "cache:user:v2:" +:+ Itoa userID.
Definition ContestsCacheKey (platform : string) : string := "cache:contests:" +:+ platform.
Definition SyncedEventsCacheKey (userID : Z) : string := "cache:synced_events:" +:+ Itoa userID.
Definition PlatformsCacheKey : string := "cache:platforms".

(** ** Keys of the other packages *)
Definition syncLockKey (userID : Z) : string := "lock:sync:" +:+ Itoa userID.
Definition lastSyncKey (userID : Z) : string := "user:last_sync_at:" +:+ Itoa userID.
Definition CalendarValidationCacheKey (userID : Z) : string := "user:cal_val:" +:+ Itoa userID.
Definition sessionKey (id : string) : string := "session:" +:+ id.
Definition rateLimitKey (scope ip : string) : string := "ratelimit:" +:+ scope +:+ ":" +:+ ip.

(** ** Structs.  [time.Time] values are nanoseconds since the epoch. *)
Record CachedUser := {
  cu_ID : Z; cu_GoogleID : string; cu_Email : string; cu_RefreshToken : string;
  cu_CalendarID : string; cu_UseDedicated : bool; cu_Platforms : list string;
  cu_HasCalendarAccess : bool }.

Record Contest := {
  ct_ID : string; ct_Name : string; ct_URL : string;
  ct_StartTime : Z; ct_EndTime : Z; ct_Duration : Z;
  ct_Platform : string; ct_UpdatedAt : Z }.

(** The zero [time.Time], January 1 of year 1. *)
Definition zero_time : Z := -62135596800 * Second.

#[export] Instance CachedUser_eq_dec : EqDecision CachedUser.
Proof. solve_decision. Defined.
#[export] Instance Contest_eq_dec : EqDecision Contest.
Proof. solve_decision. Defined.

(** ** Key families *)

(** The families of keys the program writes, with their parameters. *)
Inductive vkey :=
| KUser (u : Z) | KContests (p : string) | KSynced (u : Z) | KPlatforms
| KLock (u : Z) | KLastSync (u : Z) | KCalVal (u : Z)
| KSession (id : string) | KRate (scope_ip : string).
Definition render (k : vkey) : string :=
  match k with
  | KUser u => UserCacheKey u
  | KContests p => ContestsCacheKey p
  | KSynced u => SyncedEventsCacheKey u
  | KPlatforms => PlatformsCacheKey
  | KLock u => syncLockKey u
  | KLastSync u => lastSyncKey u
  | KCalVal u => CalendarValidationCacheKey u
  | KSession id => sessionKey id
  | KRate s => "ratelimit:" +:+ s
  end.

(** Two strings differ at a position inside both. *)
Fixpoint diverge (p q : string) : bool :=
  match p, q with
  | String a p, String b q => if decide (a = b) then diverge p q else true
  | _, _ => false
  end.
Lemma diverge_ne p q a b : diverge p q = true → p +:+ a ≠ q +:+ b.
Proof.
  revert q; induction p as [|x p IH]; intros [|y q]; simpl; try done.
  case_decide; [|congruence]. intros ? [=]; subst. by eapply IH.
Qed.

Lemma diverge_ne_l p q a : diverge p q = true → p +:+ a ≠ q.
Proof. intros H. rewrite <- (app_nil_r_s q). by apply diverge_ne. Qed.

(** Rendering is injective: keys of different families, or of one family with
    different parameters, are different strings. *)
#[export] Instance render_inj : Inj (=) (=) render.
Proof.
  assert (∀ p q a b, diverge p q = true → p +:+ a = q +:+ b → False) as D
    by (intros; by eapply diverge_ne).
  assert (∀ p q a, diverge p q = true → p +:+ a = q → False) as D'
    by (intros; by eapply diverge_ne_l).
  intros k1 k2. destruct k1, k2; unfold render, UserCacheKey, ContestsCacheKey,
    SyncedEventsCacheKey, PlatformsCacheKey, syncLockKey, lastSyncKey,
    CalendarValidationCacheKey, sessionKey; intros Heq;
    try (exfalso; first [ eapply D; [|exact Heq]; reflexivity
                        | eapply D'; [|exact Heq]; reflexivity
                        | eapply D'; [|exact (eq_sym Heq)]; reflexivity ]);
    try done; apply (inj (String.append _)) in Heq;
    try (apply (inj Itoa) in Heq); by subst.
Qed.

(** Property (safety).  No two Valkey keys of the program collide: keys of different
    families, or of one family with different users, platforms, sessions or
    addresses, are different strings. *)
Theorem keys_never_collide k k' : k ≠ k' → render k ≠ render k'.
Proof. intros Hne Heq. by apply (inj render) in Heq. Qed.
Lemma keys_never_collide_witness : UserCacheKey 1 ≠ SyncedEventsCacheKey 1.
Proof. apply (keys_never_collide (KUser 1) (KSynced 1)). discriminate. Defined.
