(* ===== verification/Database.v ===== *)
(** * The Postgres schema and the SQL of the program

    Tables and constraints of [migrations/001_init.sql] and [002], and every
    statement the Go sources send, each as a function of the tables and of
    [NOW()].  A statement that violates a constraint is an error value and
    leaves the tables alone.  Rows of a [SELECT] without [ORDER BY] come in
    the order of [map_to_list]; callers go through [deliver] of
    [Effects.Env], which reorders and truncates.  Timestamps are nanoseconds. *)

From stdpp Require Import base gmap strings list sets sorting.
From Stdlib Require Import ZArith Lia.
From S2P Require Import Prelude GoStrings Models.

(** ** Tables *)

Inductive sync_status_type := pending | syncing | success | failed.
#[export] Instance sync_status_eq_dec : EqDecision sync_status_type.
Proof. solve_decision. Defined.

Record user_row := mk_user {
  google_id : string; email : string; refresh_token : option string;
  calendar_id : option string; use_dedicated : bool;
  platforms : option (list string); has_calendar_access : bool;
  last_sync_at : option Z; sync_status : sync_status_type; created_at : Z }.

Record contest_row := mk_contest {
  c_name : string; c_url : string; c_start : Z; c_end : Z;
  c_duration : Z; c_platform : string; c_updated_at : Z }.

Record synced_row := mk_synced { google_event_id : string; synced_at : Z }.

Record DB := mk_db {
  users : gmap Z user_row;
  users_id_seq : Z;
  contests : gmap string contest_row;
  synced_events : gmap (Z * string) synced_row;
  oauth_states : gmap string Z }.

Definition empty_db : DB := mk_db ∅ 1 ∅ ∅ ∅.

Definition set_users (f : gmap Z user_row → gmap Z user_row) (d : DB) : DB :=
  mk_db (f (users d)) (users_id_seq d) (contests d) (synced_events d) (oauth_states d).
Definition set_contests f (d : DB) : DB :=
  mk_db (users d) (users_id_seq d) (f (contests d)) (synced_events d) (oauth_states d).
Definition set_synced f (d : DB) : DB :=
  mk_db (users d) (users_id_seq d) (contests d) (f (synced_events d)) (oauth_states d).
Definition set_oauth f (d : DB) : DB :=
  mk_db (users d) (users_id_seq d) (contests d) (synced_events d) (f (oauth_states d)).

(** The platform names of the two CHECK constraints. *)
Definition check_platforms : list string :=
  ["leetcode"; "codeforces"; "codechef"; "atcoder"; "hackerrank"; "geeksforgeeks"; "code360"].

(** ** Statements that write *)

Inductive stmt :=
| UpdateSyncing (id : Z)
| UpdateStatus (st : sync_status_type) (id : Z)
| UpdateCalendarID (cal : string) (id : Z)
| DeleteUser (id : Z)
| UpsertUser (gid mail token : string) (access : bool)
| UpdatePreferences (ps : option (list string)) (dedicated : bool) (id : Z)
| PruneUngranted
| PruneObsolete (platform : string) (newIDs : list string)
| UpsertContest (id name url : string) (start_t end_t duration : Z) (platform : string)
| PruneEnded
| InsertSynced (uid : Z) (cid geid : string)
| DeleteSynced (uid : Z) (cid : string)
| InsertState (state : string)
| ConsumeState (state : string) (after : Z)
| CleanupStates.

Definition with_status st last (u : user_row) : user_row :=
  mk_user (google_id u) (email u) (refresh_token u) (calendar_id u) (use_dedicated u)
    (platforms u) (has_calendar_access u) last st (created_at u).
Definition with_calendar cal (u : user_row) : user_row :=
  mk_user (google_id u) (email u) (refresh_token u) cal (use_dedicated u)
    (platforms u) (has_calendar_access u) (last_sync_at u) (sync_status u) (created_at u).
Definition with_prefs ps ded cal (u : user_row) : user_row :=
  mk_user (google_id u) (email u) (refresh_token u) cal ded ps
    (has_calendar_access u) (last_sync_at u) (sync_status u) (created_at u).
Definition with_login mail tok access (u : user_row) : user_row :=
  mk_user (google_id u) mail tok (calendar_id u) (use_dedicated u)
    (platforms u) access (last_sync_at u) (sync_status u) (created_at u).

Definition platforms_ok (ps : option (list string)) : bool :=
  match ps with None => true | Some l => forallb (λ p, bool_decide (p ∈ check_platforms)) l end.

(** [DELETE FROM users WHERE p], with ON DELETE CASCADE to [synced_events]. *)
Definition delete_users (p : Z → user_row → bool) (d : DB) : DB :=
  let us := filter (λ kv, p kv.1 kv.2 = false) (users d) in
  mk_db us (users_id_seq d) (contests d)
    (filter (λ kv, is_Some (us !! kv.1.1)) (synced_events d)) (oauth_states d).
(** [DELETE FROM contests WHERE p], with the same cascade. *)
Definition delete_contests (p : string → contest_row → bool) (d : DB) : DB :=
  let cs := filter (λ kv, p kv.1 kv.2 = false) (contests d) in
  mk_db (users d) (users_id_seq d) cs
    (filter (λ kv, is_Some (cs !! kv.1.2)) (synced_events d)) (oauth_states d).

Definition ungranted (now : Z) (u : user_row) : bool :=
  bool_decide (refresh_token u = None ∨ refresh_token u = Some "")
  && (created_at u <? now - 24 * Hour)%Z.
Definition obsolete (now : Z) platform (newIDs : list string) id (c : contest_row) : bool :=
  bool_decide (c_platform c = platform) && (now <? c_start c)%Z && bool_decide (id ∉ newIDs).

Definition find_google (gid : string) (d : DB) : option (Z * user_row) :=
  head (filter (λ kv, google_id kv.2 = gid) (map_to_list (users d))).
Definition event_taken (uid : Z) (cid geid : string) (d : DB) : bool :=
  bool_decide (is_Some (synced_events d !! (uid, cid)))
  || bool_decide (Exists (λ kv, kv.1.1 = uid ∧ google_event_id kv.2 = geid)
                    (map_to_list (synced_events d))).

(** What a statement returns: the rows of a RETURNING clause, or the number of
    rows affected where the program asks for it. *)
Inductive returned :=
| RNone
| RUser (id : Z) (ps : option (list string))
| RState (o : option string)
| RCount (n : Z).

(** [DEFAULT nextval] is evaluated before the conflict is looked for, so the
    sequence advances on both branches. *)
Definition upsert_user now gid mail token access (d : DB) : error + (DB * returned) :=
  let next := users_id_seq d in
  if decide (2 ^ 31 ≤ next)%Z then inl (errorf "nextval: reached maximum value of sequence")
  else match find_google gid d with
  | Some (id, u) =>
      let tok := if decide (token = "") then refresh_token u else Some token in
      let u' := with_login mail tok access u in
      inr (mk_db (<[id := u']> (users d)) (next + 1) (contests d) (synced_events d)
             (oauth_states d), RUser id (platforms u'))
  | None =>
      let u := mk_user gid mail (Some token) None false (Some []) access None pending now in
      inr (mk_db (<[next := u]> (users d)) (next + 1) (contests d) (synced_events d)
             (oauth_states d), RUser next (platforms u))
  end.

Definition upsert_contest now id name url st en dur platform (d : DB) : error + (DB * returned) :=
  if decide (¬ (- 2 ^ 31 ≤ dur < 2 ^ 31)%Z) then inl (errorf "duration out of range for integer")
  else if decide (platform ∉ check_platforms) then inl (errorf "violates check constraint")
  else
    let row := match contests d !! id with
               | Some c => mk_contest name url st en dur (c_platform c) now
               | None => mk_contest name url st en dur platform now
               end in
    inr (set_contests (insert id row) d, RNone).

Definition insert_synced now uid cid geid (d : DB) : error + (DB * returned) :=
  if event_taken uid cid geid d then inr (d, RNone)
  else if decide (is_Some (users d !! uid) ∧ is_Some (contests d !! cid)) then
    inr (set_synced (insert (uid, cid) (mk_synced geid now)) d, RNone)
  else inl (errorf "violates foreign key constraint").

Definition exec (now : Z) (s : stmt) (d : DB) : error + (DB * returned) :=
  match s with
  | UpdateSyncing id =>
      inr (set_users (alter (λ u, with_status syncing (last_sync_at u) u) id) d, RNone)
  | UpdateStatus st id => inr (set_users (alter (with_status st (Some now)) id) d, RNone)
  | UpdateCalendarID cal id => inr (set_users (alter (with_calendar (Some cal)) id) d, RNone)
  | DeleteUser id => inr (delete_users (λ i _, bool_decide (i = id)) d, RNone)
  | UpsertUser gid mail tok access => upsert_user now gid mail tok access d
  | UpdatePreferences ps ded id =>
      if bool_decide (is_Some (users d !! id)) && negb (platforms_ok ps)
      then inl (errorf "violates check constraint")
      else inr (set_users (alter (λ u, with_prefs ps ded (if ded then calendar_id u else None) u) id) d, RNone)
  | PruneUngranted =>
      let d' := delete_users (λ _ u, ungranted now u) d in
      inr (d', RCount (Z.of_nat (size (users d)) - Z.of_nat (size (users d'))))
  | PruneObsolete p ids => inr (delete_contests (obsolete now p ids) d, RNone)
  | UpsertContest id name url st en dur p => upsert_contest now id name url st en dur p d
  | PruneEnded => inr (delete_contests (λ _ c, (c_end c <? now)%Z) d, RNone)
  | InsertSynced uid cid geid => insert_synced now uid cid geid d
  | DeleteSynced uid cid => inr (set_synced (delete (uid, cid)) d, RNone)
  | InsertState st =>
      match oauth_states d !! st with
      | Some _ => inl (errorf "duplicate key value violates unique constraint")
      | None => inr (set_oauth (insert st now) d, RNone)
      end
  | ConsumeState st after =>
      match oauth_states d !! st with
      | Some t => if (after <? t)%Z then inr (set_oauth (delete st) d, RState (Some st))
                  else inr (d, RState None)
      | None => inr (d, RState None)
      end
  | CleanupStates =>
      inr (set_oauth (filter (λ kv, (kv.2 <? now - 10 * Minute)%Z = false)) d, RNone)
  end.

(** ** Queries *)

(** [SELECT ... FROM users WHERE id = $1] *)
Definition select_user (id : Z) (d : DB) : option user_row := users d !! id.

(** [SELECT se.contest_id, se.google_event_id, c.platform FROM synced_events se
    JOIN contests c ON se.contest_id = c.id WHERE se.user_id = $1] *)
Definition select_synced_platforms (uid : Z) (d : DB) : list (string * string * string) :=
  omap (λ kv, if decide (kv.1.1 = uid) then
                (λ c, (kv.1.2, google_event_id kv.2, c_platform c)) <$> contests d !! kv.1.2
              else None) (map_to_list (synced_events d)).

(** [SELECT contest_id FROM synced_events WHERE user_id = $1] *)
Definition select_synced_ids (uid : Z) (d : DB) : list string :=
  omap (λ kv, if decide (kv.1.1 = uid) then Some kv.1.2 else None)
    (map_to_list (synced_events d)).

(** A contests row as the [Scan] of [id, name, url, start_time, end_time,
    platform] fills a zero [models.Contest]. *)
Definition scan_contest (id : string) (c : contest_row) : Contest :=
  {| ct_ID := id; ct_Name := c_name c; ct_URL := c_url c; ct_StartTime := c_start c;
     ct_EndTime := c_end c; ct_Duration := 0; ct_Platform := c_platform c;
     ct_UpdatedAt := zero_time |}.

(** [SELECT id, name, url, start_time, end_time, platform FROM contests
    WHERE platform = ANY($1) AND start_time > NOW()] *)
Definition select_upcoming (now : Z) (ps : list string) (d : DB) : list Contest :=
  omap (λ kv, if decide (c_platform kv.2 ∈ ps ∧ now < c_start kv.2)%Z
              then Some (scan_contest kv.1 kv.2) else None) (map_to_list (contests d)).

(** [SELECT id FROM users WHERE has_calendar_access = TRUE AND refresh_token IS
    NOT NULL AND refresh_token != '' ...], before ORDER BY, LIMIT and OFFSET. *)
Definition syncable (u : user_row) : bool :=
  has_calendar_access u && bool_decide (refresh_token u ≠ None ∧ refresh_token u ≠ Some "").

Definition syncable_ids (d : DB) : list Z :=
  merge_sort Z.le (omap (λ kv, if syncable kv.2 then Some kv.1 else None) (map_to_list (users d))).
(** [... ORDER BY id LIMIT $1 OFFSET $2] *)
Definition select_syncable (limit offset : nat) (d : DB) : list Z :=
  take limit (drop offset (syncable_ids d)).

(** [SELECT platform, COUNT( * ) FROM contests WHERE start_time > NOW() GROUP BY platform] *)
Definition select_counts (now : Z) (d : DB) : list (string * Z) :=
  let upcoming := filter (λ p : string * contest_row, (now < c_start p.2)%Z) (map_to_list (contests d)) in
  (λ p, (p, Z.of_nat (length (filter (λ q : string * contest_row, c_platform q.2 = p) upcoming))))
    <$> remove_dups ((λ p : string * contest_row, c_platform p.2) <$> upcoming).

(** Several statements sent as one batch: one implicit transaction, so that an
    error undoes them all. *)
Fixpoint exec_batch (now : Z) (l : list stmt) (d : DB) : error + DB :=
  match l with
  | [] => inr d
  | s :: l => match exec now s d with inl e => inl e | inr (d', _) => exec_batch now l d' end
  end.

(** ** The schema's integrity *)

Record wf_db (d : DB) : Prop := {
  wf_fk_user : ∀ u c r, synced_events d !! (u, c) = Some r → is_Some (users d !! u);
  wf_fk_contest : ∀ u c r, synced_events d !! (u, c) = Some r → is_Some (contests d !! c);
  wf_uq_event : ∀ u c c' r r', synced_events d !! (u, c) = Some r →
     synced_events d !! (u, c') = Some r' → google_event_id r = google_event_id r' → c = c';
  wf_uq_google : ∀ i j u v, users d !! i = Some u → users d !! j = Some v →
     google_id u = google_id v → i = j;
  wf_platforms : ∀ i u, users d !! i = Some u → platforms_ok (platforms u) = true;
  wf_contest_platform : ∀ i c, contests d !! i = Some c → c_platform c ∈ check_platforms;
  wf_duration : ∀ i c, contests d !! i = Some c → in_int 32 (c_duration c);
  wf_seq : ∀ i u, users d !! i = Some u → (0 < i < users_id_seq d)%Z ∧ (i < 2 ^ 31)%Z;
  wf_seq_pos : (0 < users_id_seq d)%Z }.

(** ** Lemmas *)

Lemma wf_empty : wf_db empty_db.
Proof. constructor; simpl; intros; simplify_map_eq; lia. Qed.

Lemma find_google_Some gid d id u :
  find_google gid d = Some (id, u) → users d !! id = Some u ∧ google_id u = gid.
Proof.
  unfold find_google. intros H%head_Some_elem_of.
  apply list_elem_of_filter in H as [? H%elem_of_map_to_list]. done.
Qed.
Lemma find_google_None gid d i u :
  find_google gid d = None → users d !! i = Some u → google_id u ≠ gid.
Proof.
  unfold find_google. intros Hn Hu Heq.
  assert ((i, u) ∈ filter (λ kv : Z * user_row, google_id kv.2 = gid) (map_to_list (users d))) as Hin.
  { apply list_elem_of_filter. split; [done|]. by apply elem_of_map_to_list. }
  destruct (filter _ _) eqn:E; [by apply elem_of_nil in Hin|done].
Qed.

Lemma event_taken_false uid cid geid d :
  event_taken uid cid geid d = false →
  synced_events d !! (uid, cid) = None ∧
  ∀ c r, synced_events d !! (uid, c) = Some r → google_event_id r ≠ geid.
Proof.
  unfold event_taken. intros [H1 H2]%orb_false_iff.
  apply bool_decide_eq_false in H1, H2. split; [by apply eq_None_not_Some|].
  intros c r Hr Heq. apply H2, Exists_exists. exists ((uid, c), r).
  split; [by apply elem_of_map_to_list|done].
Qed.

Lemma delete_users_lookup p d i u :
  users (delete_users p d) !! i = Some u ↔ users d !! i = Some u ∧ p i u = false.
Proof. simpl. rewrite map_lookup_filter_Some. done. Qed.
Lemma delete_users_synced p d u c r :
  synced_events (delete_users p d) !! (u, c) = Some r ↔
  synced_events d !! (u, c) = Some r ∧ is_Some (users (delete_users p d) !! u).
Proof. simpl. rewrite map_lookup_filter_Some. done. Qed.
Lemma delete_contests_lookup p d i c :
  contests (delete_contests p d) !! i = Some c ↔ contests d !! i = Some c ∧ p i c = false.
Proof. simpl. rewrite map_lookup_filter_Some. done. Qed.
Lemma delete_contests_synced p d u c r :
  synced_events (delete_contests p d) !! (u, c) = Some r ↔
  synced_events d !! (u, c) = Some r ∧ is_Some (contests (delete_contests p d) !! c).
Proof. simpl. rewrite map_lookup_filter_Some. done. Qed.

Lemma delete_users_wf p d : wf_db d → wf_db (delete_users p d).
Proof.
  intros [F1 F2 U1 U2 P C D S Q]. constructor; intros *;
    rewrite ?delete_users_synced, ?delete_users_lookup; try naive_solver.
Qed.
Lemma delete_contests_wf p d : wf_db d → wf_db (delete_contests p d).
Proof.
  intros [F1 F2 U1 U2 P C D S Q]. constructor; intros *;
    rewrite ?delete_contests_synced, ?delete_contests_lookup; try naive_solver.
Qed.
Lemma alter_users_wf f i d :
  (∀ u, google_id (f u) = google_id u) →
  (∀ u, users d !! i = Some u → platforms_ok (platforms u) = true →
        platforms_ok (platforms (f u)) = true) →
  wf_db d → wf_db (set_users (alter f i) d).
Proof.
  intros Hg Hp [F1 F2 U1 U2 P C D S Q]. constructor; simpl; try done.
  - intros u c r Hr. apply F1 in Hr as [x Hx]. rewrite lookup_alter.
    case_decide; subst; rewrite ?Hx; eauto.
  - intros a b u v. rewrite !lookup_alter_Some.
    intros [(->&x&?&->)|[??]] [(->&y&?&->)|[??]]; rewrite ?Hg; eauto.
  - intros a u. rewrite lookup_alter_Some. intros [(->&x&?&->)|[??]]; eauto.
  - intros a u. rewrite lookup_alter_Some. intros [(->&x&?&->)|[??]]; eauto.
Qed.
Lemma set_oauth_wf f d : wf_db d → wf_db (set_oauth f d).
Proof. intros []. by constructor. Qed.
Lemma delete_synced_wf k d : wf_db d → wf_db (set_synced (delete k) d).
Proof.
  intros [F1 F2 U1 U2 P C D S Q]. constructor; simpl; try done; intros *;
    rewrite ?lookup_delete_Some; try naive_solver.
Qed.

Lemma upsert_user_wf now gid mail tok acc d d' r :
  wf_db d → upsert_user now gid mail tok acc d = inr (d', r) → wf_db d'.
Proof.
  intros [F1 F2 U1 U2 P C D S Q]. unfold upsert_user. case_decide; [done|].
  destruct (find_google gid d) as [[id u]|] eqn:Hf; intros [= <- <-].
  - apply find_google_Some in Hf as [Hu <-]. constructor; simpl; try done.
    + intros a c x Hx. destruct (decide (id = a)) as [->|]; simplify_map_eq; eauto.
    + intros a b x y. rewrite !lookup_insert_Some.
      intros [[<- <-]|[??]] [[<- <-]|[??]]; simpl; eauto.
    + intros a x. rewrite lookup_insert_Some. intros [[<- <-]|[??]]; simpl; eauto.
    + intros a x. rewrite lookup_insert_Some. intros [[<- <-]|[? Hx]].
      * apply S in Hu. lia.
      * apply S in Hx. lia.
    + lia.
  - pose proof (λ i u, find_google_None gid d i u Hf) as Hn.
    constructor; simpl; try done.
    + intros a c x Hx. destruct (decide (users_id_seq d = a)) as [->|]; simplify_map_eq; eauto.
    + intros a b x y. rewrite !lookup_insert_Some.
      intros [[<- <-]|[??]] [[<- <-]|[??]]; simpl; eauto; intros; exfalso.
      * eapply Hn; eauto.
      * eapply Hn; eauto.
    + intros a x. rewrite lookup_insert_Some. intros [[<- <-]|[??]]; simpl; eauto.
    + intros a x. rewrite lookup_insert_Some. intros [[<- <-]|[? Hx]]; [lia|].
      apply S in Hx. lia.
    + lia.
Qed.

(** The row an upsert leaves: found by its Google id or new. *)
Lemma upsert_user_row now gid mail tok acc d d' r :
  upsert_user now gid mail tok acc d = inr (d', r) →
  ∃ id u, r = RUser id (platforms u) ∧ users d' !! id = Some u ∧
    google_id u = gid ∧ email u = mail ∧ has_calendar_access u = acc ∧
    (tok ≠ "" → refresh_token u = Some tok).
Proof.
  unfold upsert_user. case_decide; [done|].
  destruct (find_google gid d) as [[id u]|] eqn:Hf; intros [= <- <-].
  - apply find_google_Some in Hf as [Hu <-].
    exists id, (with_login mail (if decide (tok = "") then refresh_token u else Some tok) acc u).
    simpl. split_and!; try done; [apply lookup_insert_eq|]. intros. by case_decide.
  - exists (users_id_seq d), (mk_user gid mail (Some tok) None false (Some []) acc None pending now).
    simpl. split_and!; try done. apply lookup_insert_eq.
Qed.

Lemma upsert_contest_wf now id name url st en dur p d d' r :
  wf_db d → upsert_contest now id name url st en dur p d = inr (d', r) → wf_db d'.
Proof.
  intros [F1 F2 U1 U2 P C D S Q]. unfold upsert_contest.
  case_decide as Hdur; [done|]. case_decide as Hp; [done|]. intros [= <- <-].
  constructor; simpl; try done.
  - intros a c x Hx. destruct (decide (id = c)) as [->|]; simplify_map_eq; eauto.
  - intros a x. rewrite lookup_insert_Some. intros [[<- <-]|[??]]; [|eauto].
    destruct (contests d !! id) eqn:Hc; simpl; [by eapply C|].
    by destruct (decide (p ∈ check_platforms)).
  - intros a x. rewrite lookup_insert_Some. intros [[<- <-]|[??]]; [|eauto].
    unfold in_int. destruct (contests d !! id); simpl; lia.
Qed.

Lemma insert_synced_wf now uid cid geid d d' r :
  wf_db d → insert_synced now uid cid geid d = inr (d', r) → wf_db d'.
Proof.
  intros Hwf. pose proof Hwf as [F1 F2 U1 U2 P C D S Q]. unfold insert_synced.
  destruct (event_taken uid cid geid d) eqn:Ht; [by intros [= <- <-]|].
  case_decide as Hfk; [|done]. intros [= <- <-].
  apply event_taken_false in Ht as [Hpk Huq].
  constructor; simpl; try done; intros *; rewrite ?lookup_insert_Some; try naive_solver.
Qed.

(** A row after an insert was there before or is the inserted one. *)
Lemma insert_synced_lookup now uid cid geid d d' x k r :
  insert_synced now uid cid geid d = inr (d', x) → synced_events d' !! k = Some r →
  synced_events d !! k = Some r ∨ (k = (uid, cid) ∧ r = mk_synced geid now).
Proof.
  unfold insert_synced. intros He Hr. destruct (event_taken _ _ _ _); [by simplify_eq; left|].
  case_decide; [|done]. simplify_eq/=. apply lookup_insert_Some in Hr. naive_solver.
Qed.

(** Every statement preserves the integrity of the schema. *)
Lemma exec_wf_db now s d d' r : wf_db d → exec now s d = inr (d', r) → wf_db d'.
Proof.
  intros Hwf. destruct s; simpl;
    try (intros [= <- <-]; first [ by apply delete_users_wf | by apply delete_contests_wf
       | by apply set_oauth_wf | by apply delete_synced_wf | by apply alter_users_wf ]).
  - by eapply upsert_user_wf.
  - case_match eqn:Hb; [done|]. intros [= <- <-]. apply alter_users_wf; [done| |done].
    intros u Hu _. rewrite Hu in Hb. simpl. by destruct (platforms_ok ps).
  - by eapply upsert_contest_wf.
  - by eapply insert_synced_wf.
  - case_match; [done|]. intros [= <- <-]. by apply set_oauth_wf.
  - repeat case_match; intros [= <- <-]; try done. by apply set_oauth_wf.
Qed.
#[export] Hint Resolve exec_wf_db wf_empty : cs.
