(* ===== verification/GoTime.v ===== *)
(** * Package [time]: the calendar, [Format] and [Parse]

    What the sources use of [time]: the proleptic Gregorian calendar, the
    RFC 3339 rendering (in UTC, the zone of the [FROM scratch] images) and
    [time.Parse] for the three layouts of the extractors.  A [time.Time] is
    its number of nanoseconds since 1970-01-01T00:00:00Z. *)

From stdpp Require Import base strings list.
From Stdlib Require Import ZArith Lia Ascii.
From S2P Require Import Prelude GoStrings Models.
Local Open Scope Z_scope.

(** ** Calendar *)

Definition is_leap (y : Z) : bool :=
  ((y mod 4 =? 0) && (negb (y mod 100 =? 0) || (y mod 400 =? 0))).
Definition daysIn (m y : Z) : Z :=
  if m =? 2 then if is_leap y then 29 else 28
  else if (m =? 4) || (m =? 6) || (m =? 9) || (m =? 11) then 30 else 31.

(** Days since the epoch of a civil date, years counted from March. *)
Definition days_from_civil (y m d : Z) : Z :=
  let y' := if m <=? 2 then y - 1 else y in
  let era := y' / 400 in
  let yoe := y' mod 400 in
  let mp := if m <=? 2 then m + 9 else m - 3 in
  let doy := (153 * mp + 2) / 5 + d - 1 in
  era * 146097 + (yoe * 365 + yoe / 4 - yoe / 100 + doy) - 719468.

Definition civil_of_doe (era doe : Z) : Z * Z * Z :=
  let yoe := (doe - doe / 1460 + doe / 36524 - doe / 146096) / 365 in
  let doy := doe - (365 * yoe + yoe / 4 - yoe / 100) in
  let mp := (5 * doy + 2) / 153 in
  let d := doy - (153 * mp + 2) / 5 + 1 in
  let m := if mp <? 10 then mp + 3 else mp - 9 in
  ((if m <=? 2 then yoe + era * 400 + 1 else yoe + era * 400), m, d).
Definition civil_from_days (z : Z) : Z * Z * Z :=
  civil_of_doe ((z + 719468) / 146097) ((z + 719468) mod 146097).

(** [t.Unix()] *)
Definition Unix (t : Z) : Z := t / Second.

(** ** [Format] *)

Definition digit_char (n : Z) : ascii := ascii_of_N (48 + Z.to_N (n mod 10))%N.
Definition pad2 (n : Z) : string := String (digit_char (n / 10)) (String (digit_char n) "").
Definition pad4 (n : Z) : string := pad2 (n / 100) +:+ pad2 n.

(** Years outside 0..9999 print with a sign or more digits; the program's
    times are not there, so four digits are printed. *)
Definition FormatRFC3339 (t : Z) : string :=
  let s := Unix t in
  let '(y, m, d) := civil_from_days (s / 86400) in
  let r := s mod 86400 in
  pad4 y +:+ "-" +:+ pad2 m +:+ "-" +:+ pad2 d +:+ "T" +:+
  pad2 (r / 3600) +:+ ":" +:+ pad2 (r mod 3600 / 60) +:+ ":" +:+ pad2 (r mod 60) +:+ "Z".

(** The layout "20060102T150405Z" of the iCal feed. *)
Definition FormatICal (t : Z) : string :=
  let s := Unix t in
  let '(y, m, d) := civil_from_days (s / 86400) in
  let r := s mod 86400 in
  pad4 y +:+ pad2 m +:+ pad2 d +:+ "T" +:+
  pad2 (r / 3600) +:+ pad2 (r mod 3600 / 60) +:+ pad2 (r mod 60) +:+ "Z".

(** ** [Parse] *)

Inductive chunk := CYear | CMonth | CDay | CHour | CMinute | CSecond | CZone | CLit (c : ascii).

Definition layout_local : list chunk :=
  [CYear; CLit "-"; CMonth; CLit "-"; CDay; CLit "T"; CHour; CLit ":"; CMinute; CLit ":"; CSecond].
Definition layout_RFC3339 : list chunk := layout_local ++ [CZone].
Definition layout_atcoder : list chunk := [CYear; CMonth; CDay; CLit "T"; CHour; CMinute].

Record fields := mk_fields {
  f_year : Z; f_month : Z; f_day : Z; f_hour : Z; f_min : Z; f_sec : Z;
  f_nsec : Z; f_offset : Z }.

(** [getnum]: one or two digits, two when [fixed]. *)
Definition getnum (fixed : bool) (s : string) : option (Z * string) :=
  match s with
  | "" => None
  | String a s1 =>
      match digit a with
      | None => None
      | Some x =>
          match s1 with
          | String b s2 =>
              match digit b with
              | Some y => Some (x * 10 + y, s2)
              | None => if fixed then None else Some (x, s1)
              end
          | "" => if fixed then None else Some (x, s1)
          end
      end
  end.
Definition getnum_range (fixed : bool) (lo hi : Z) (s : string) : option (Z * string) :=
  match getnum fixed s with
  | Some (v, s') => if (lo <=? v) && (v <=? hi) then Some (v, s') else None
  | None => None
  end.

(** The fraction that may follow the seconds: at most nine digits count. *)
Fixpoint count_digits (s : string) : nat :=
  match s with
  | String c s => match digit c with Some _ => S (count_digits s) | None => 0 end
  | "" => 0
  end.
Definition fraction (s : string) : Z * string :=
  match s with
  | String c r =>
      if decide (c = "."%char ∨ c = ","%char) then
        match count_digits r with
        | O => (0, s)
        | n => let k := Nat.min n 9 in
               (default 0 (digits_val 0 (stake k r)) * 10 ^ (9 - Z.of_nat k), sdrop n r)
        end
      else (0, s)
  | "" => (0, s)
  end.

(** [Z07:00]: "Z", or a sign and hh:mm with the lenient bounds 24 and 60. *)
Definition parse_zone (s : string) : option (Z * string) :=
  match s with
  | String "Z" r => Some (0, r)
  | String sg (String h1 (String h2 (String ":" (String m1 (String m2 r))))) =>
      match getnum_range true 0 24 (String h1 (String h2 "")),
            getnum_range true 0 60 (String m1 (String m2 "")) with
      | Some (h, _), Some (m, _) =>
          let o := (h * 60 + m) * 60 in
          if decide (sg = "+"%char) then Some (o, r)
          else if decide (sg = "-"%char) then Some (- o, r) else None
      | _, _ => None
      end
  | _ => None
  end.

Definition parse_year (s : string) : option (Z * string) :=
  match parse_uint (stake 4 s) with
  | Some y => if (4 <=? String.length s)%nat then Some (y, sdrop 4 s) else None
  | None => None
  end.

Definition parse_chunk (c : chunk) (f : fields) (s : string) : option (fields * string) :=
  let 'mk_fields y mo d h mi se ns off := f in
  match c with
  | CYear => (λ '(v, r), (mk_fields v mo d h mi se ns off, r)) <$> parse_year s
  | CMonth => (λ '(v, r), (mk_fields y v d h mi se ns off, r)) <$> getnum_range true 1 12 s
  | CDay => (λ '(v, r), (mk_fields y mo v h mi se ns off, r)) <$> getnum true s
  | CHour => (λ '(v, r), (mk_fields y mo d v mi se ns off, r)) <$> getnum_range false 0 23 s
  | CMinute => (λ '(v, r), (mk_fields y mo d h v se ns off, r)) <$> getnum_range true 0 59 s
  | CSecond =>
      match getnum_range true 0 59 s with
      | Some (v, r) => let '(frac, r') := fraction r in Some (mk_fields y mo d h mi v frac off, r')
      | None => None
      end
  | CZone => (λ '(v, r), (mk_fields y mo d h mi se ns v, r)) <$> parse_zone s
  | CLit c => match s with
              | String c' r => if decide (c = c') then Some (f, r) else None
              | "" => None
              end
  end.
Fixpoint parse_chunks (cs : list chunk) (f : fields) (s : string) : option (fields * string) :=
  match cs with
  | [] => Some (f, s)
  | c :: cs => match parse_chunk c f s with
               | Some (f', s') => parse_chunks cs f' s'
               | None => None
               end
  end.

Definition to_time (f : fields) : option Z :=
  if (1 <=? f_day f) && (f_day f <=? daysIn (f_month f) (f_year f)) then
    Some ((days_from_civil (f_year f) (f_month f) (f_day f) * 86400
           + f_hour f * 3600 + f_min f * 60 + f_sec f - f_offset f) * Second + f_nsec f)
  else None.

(** [time.Parse(layout, s)] *)
Definition Parse (layout : list chunk) (s : string) : option Z :=
  match parse_chunks layout (mk_fields 0 1 1 0 0 0 0 0) s with
  | Some (f, "") => to_time f
  | _ => None
  end.

Example parse_ex1 : Parse layout_RFC3339 "2026-05-25T14:00:00+05:30" = Some (1779697800 * Second).
Proof. reflexivity. Qed.
Example parse_ex2 : Parse layout_atcoder "20260525T2100" = Some (1779742800 * Second).
Proof. reflexivity. Qed.
Example parse_ex3 : FormatRFC3339 (1779697800 * Second) = "2026-05-25T08:30:00Z".
Proof. reflexivity. Qed.
Example parse_ex4 : Parse layout_local "2026-02-29T10:00:00" = None.
Proof. reflexivity. Qed.
