(* ===== verification/GoTimeSpec.v ===== *)
(** * Reading back a formatted time

    The calendar of [GoTime] is consistent, and what [FormatRFC3339] prints
    [Parse] reads as the same second. *)

From stdpp Require Import base strings list.
From Stdlib Require Import ZArith Lia Ascii.
From S2P Require Import Prelude GoStrings Models GoTime.
Local Open Scope Z_scope.

(** ** The calendar *)

Section Era.
Context (doe : Z) (Hdoe : 0 ≤ doe < 146097).
Definition year_of (doe : Z) : Z := (doe - doe / 1460 + doe / 36524 - doe / 146096) / 365.
Definition day_of (doe : Z) : Z := doe - (365 * year_of doe + year_of doe / 4 - year_of doe / 100).

Lemma year_day_bounds : 0 ≤ year_of doe < 400 ∧ 0 ≤ day_of doe ≤ 365.
Proof. unfold day_of, year_of. Z.to_euclidean_division_equations. lia. Qed.
(** The year that starts in March has a 366th day only before a leap year ends. *)
Lemma last_day_leap : day_of doe = 365 → is_leap (year_of doe + 1) = true.
Proof.
  intros Hd. unfold is_leap.
  enough ((year_of doe + 1) mod 4 = 0 ∧ ((year_of doe + 1) mod 100 ≠ 0 ∨ (year_of doe + 1) mod 400 = 0)) as [H4 Hc].
  { rewrite (proj2 (Z.eqb_eq _ _) H4). simpl. destruct Hc as [Hc|Hc].
    - by rewrite (proj2 (Z.eqb_neq _ _) Hc).
    - rewrite (proj2 (Z.eqb_eq _ _) Hc). apply orb_true_r. }
  revert Hd. unfold day_of, year_of. Z.to_euclidean_division_equations. lia.
Qed.
End Era.

(** Month and day of the [n]-th day since the first of March. *)
Definition month_day (n : Z) : Z * Z :=
  let mp := (5 * n + 2) / 153 in
  (if mp <? 10 then mp + 3 else mp - 9, n - (153 * mp + 2) / 5 + 1).
Definition month_day_ok (n : Z) : bool :=
  let '(m, d) := month_day n in
  let mp := if m <=? 2 then m + 9 else m - 3 in
  (1 <=? m) && (m <=? 12) && (1 <=? d) && (((153 * mp + 2) / 5 + d - 1) =? n) &&
  (d <=? (if m =? 2 then if n =? 365 then 29 else 28 else daysIn m 0)).
Lemma month_day_table : forallb month_day_ok (Z.of_nat <$> seq 0 366) = true.
Proof. vm_compute. reflexivity. Qed.
Lemma month_day_spec n :
  0 ≤ n ≤ 365 →
  let '(m, d) := month_day n in
  1 ≤ m ≤ 12 ∧ 1 ≤ d ∧ (153 * (if m <=? 2 then m + 9 else m - 3) + 2) / 5 + d - 1 = n ∧
  d ≤ (if m =? 2 then if n =? 365 then 29 else 28 else daysIn m 0).
Proof.
  intros Hn. pose proof month_day_table as Ht. rewrite forallb_forall in Ht.
  specialize (Ht n). unfold month_day_ok in Ht. destruct (month_day n) as [m d].
  assert ((1 <=? m) && (m <=? 12) && (1 <=? d) && (((153 * (if m <=? 2 then m + 9 else m - 3) + 2) / 5 + d - 1) =? n) &&
    (d <=? (if m =? 2 then if n =? 365 then 29 else 28 else daysIn m 0)) = true) as Hb.
  { apply Ht, list_elem_of_In, list_elem_of_fmap. exists (Z.to_nat n). rewrite elem_of_seq. lia. }
  rewrite !andb_true_iff, !Z.leb_le, Z.eqb_eq in Hb. naive_solver.
Qed.

Lemma is_leap_era y e : is_leap (y + e * 400) = is_leap y.
Proof.
  unfold is_leap. replace (y + e * 400) with (y + (e * 100) * 4) at 1 by lia. rewrite Z_mod_plus_full.
  replace (y + e * 400) with (y + (e * 4) * 100) at 1 by lia. by rewrite !Z_mod_plus_full.
Qed.
Lemma daysIn_other m y y' : m ≠ 2 → daysIn m y = daysIn m y'.
Proof. intros Hm. unfold daysIn. by rewrite (proj2 (Z.eqb_neq _ _) Hm). Qed.

(** Every day has a valid date, and the date is that day. *)
Lemma civil_round_trip z :
  let '(y, m, d) := civil_from_days z in
  1 ≤ m ≤ 12 ∧ 1 ≤ d ≤ daysIn m y ∧ days_from_civil y m d = z.
Proof.
  unfold civil_from_days, civil_of_doe.
  set (era := (z + 719468) / 146097). set (doe := (z + 719468) mod 146097).
  assert (0 ≤ doe < 146097) as Hdoe by (apply Z.mod_pos_bound; lia).
  assert (z = era * 146097 + doe - 719468) as Hz by (unfold era, doe; pose proof (Z.div_mod (z + 719468) 146097); lia).
  clearbody era doe. fold (year_of doe). fold (day_of doe).
  destruct (year_day_bounds doe Hdoe) as [Hy Hd]. pose proof (last_day_leap doe Hdoe) as Hleap.
  pose proof (month_day_spec (day_of doe) Hd) as Hm. unfold month_day in Hm.
  set (mp := (5 * day_of doe + 2) / 153) in *. set (m := if mp <? 10 then mp + 3 else mp - 9) in *.
  set (d := day_of doe - (153 * mp + 2) / 5 + 1) in *. destruct Hm as (H1 & H2 & H3 & H4).
  assert (doe = 365 * year_of doe + year_of doe / 4 - year_of doe / 100 + day_of doe) as Hsum by (unfold day_of; lia).
  clearbody m d mp. split; [done|]. split.
  - split; [done|]. etrans; [exact H4|]. destruct (Z.eqb_spec m 2) as [->|Hne].
    + simpl. unfold daysIn. rewrite Z.eqb_refl.
      replace (year_of doe + era * 400 + 1) with (year_of doe + 1 + era * 400) by lia. rewrite is_leap_era.
      destruct (Z.eqb_spec (day_of doe) 365) as [He|]; [by rewrite Hleap|]. destruct (is_leap _); lia.
    + apply Z.eq_le_incl. by apply daysIn_other.
  - unfold days_from_civil.
    replace (if m <=? 2 then (if m <=? 2 then year_of doe + era * 400 + 1 else year_of doe + era * 400) - 1
             else if m <=? 2 then year_of doe + era * 400 + 1 else year_of doe + era * 400)
      with (year_of doe + era * 400) by (destruct (m <=? 2); lia).
    rewrite Z.div_add, Z.mod_add, Z.div_small, Z.mod_small by lia. lia.
Qed.

(** ** Digits *)

Lemma digit_digit_char n : digit (digit_char n) = Some (n mod 10).
Proof.
  unfold digit_char. pose proof (Z.mod_pos_bound n 10). set (k := n mod 10) in *. clearbody k.
  assert (k ∈ (Z.of_nat <$> seq 0 10)) as Hk by (apply list_elem_of_fmap; exists (Z.to_nat k); rewrite elem_of_seq; lia).
  repeat (apply elem_of_cons in Hk as [->|Hk]; [reflexivity|]). by apply elem_of_nil in Hk.
Qed.
Lemma getnum_pad2 fixed n r : 0 ≤ n < 100 → getnum fixed (pad2 n +:+ r) = Some (n, r).
Proof.
  intros Hn. unfold pad2, getnum. cbn [String.append]. rewrite !digit_digit_char.
  rewrite (Z.mod_small (n / 10)) by (split; [apply Z.div_pos; lia|apply Z.div_lt_upper_bound; lia]).
  do 3 f_equal. pose proof (Z.div_mod n 10). lia.
Qed.
Lemma getnum_range_pad2 fixed lo hi n r :
  0 ≤ n < 100 → lo ≤ n ≤ hi → getnum_range fixed lo hi (pad2 n +:+ r) = Some (n, r).
Proof.
  intros Hn Hr. unfold getnum_range. rewrite getnum_pad2 by done.
  destruct (Z.leb_spec lo n), (Z.leb_spec n hi); simpl; (done || lia).
Qed.
Lemma parse_year_pad4 n r : 0 ≤ n < 10000 → parse_year (pad4 n +:+ r) = Some (n, r).
Proof.
  intros Hn. unfold parse_year, pad4, pad2. cbn [String.append stake sdrop String.length].
  unfold parse_uint. cbn [digits_val]. rewrite !digit_digit_char. simpl. do 2 f_equal.
  Z.to_euclidean_division_equations. lia.
Qed.

(** ** The chunks of a layout, on what [Format] printed for them *)

Section Chunks.
Context (cs : list chunk) (y mo d h mi se ns off : Z).
Notation f := (mk_fields y mo d h mi se ns off).

Lemma chunk_lit c r : parse_chunks (CLit c :: cs) f (String c "" +:+ r) = parse_chunks cs f r.
Proof. cbn [parse_chunks parse_chunk String.append]. by rewrite decide_True. Qed.
Lemma chunk_year n r :
  0 ≤ n < 10000 → parse_chunks (CYear :: cs) f (pad4 n +:+ r) = parse_chunks cs (mk_fields n mo d h mi se ns off) r.
Proof. intros. cbn [parse_chunks parse_chunk]. by rewrite parse_year_pad4. Qed.
Lemma chunk_month n r :
  1 ≤ n ≤ 12 → parse_chunks (CMonth :: cs) f (pad2 n +:+ r) = parse_chunks cs (mk_fields y n d h mi se ns off) r.
Proof. intros. cbn [parse_chunks parse_chunk]. by rewrite getnum_range_pad2 by lia. Qed.
Lemma chunk_day n r :
  0 ≤ n < 100 → parse_chunks (CDay :: cs) f (pad2 n +:+ r) = parse_chunks cs (mk_fields y mo n h mi se ns off) r.
Proof. intros. cbn [parse_chunks parse_chunk]. by rewrite getnum_pad2. Qed.
Lemma chunk_hour n r :
  0 ≤ n < 24 → parse_chunks (CHour :: cs) f (pad2 n +:+ r) = parse_chunks cs (mk_fields y mo d n mi se ns off) r.
Proof. intros. cbn [parse_chunks parse_chunk]. by rewrite getnum_range_pad2 by lia. Qed.
Lemma chunk_minute n r :
  0 ≤ n < 60 → parse_chunks (CMinute :: cs) f (pad2 n +:+ r) = parse_chunks cs (mk_fields y mo d h n se ns off) r.
Proof. intros. cbn [parse_chunks parse_chunk]. by rewrite getnum_range_pad2 by lia. Qed.
Lemma chunk_second n r :
  0 ≤ n < 60 → fraction r = (0, r) →
  parse_chunks (CSecond :: cs) f (pad2 n +:+ r) = parse_chunks cs (mk_fields y mo d h mi n 0 off) r.
Proof. intros Hn Hr. cbn [parse_chunks parse_chunk]. by rewrite getnum_range_pad2, Hr by lia. Qed.
End Chunks.

(** Times whose year has four digits. *)
Definition printable (t : Z) : Prop := let '(y, _, _) := civil_from_days (Unix t / 86400) in 0 ≤ y < 10000.
#[export] Instance printable_dec t : Decision (printable t).
Proof. unfold printable. destruct (civil_from_days (Unix t / 86400)) as [[y m] d]. apply _. Defined.
(** A time printed in RFC 3339 is read back as the same second. *)
Lemma RFC3339_round_trip t : printable t → Parse layout_RFC3339 (FormatRFC3339 t) = Some (Unix t * Second).
Proof.
  unfold FormatRFC3339, printable. pose proof (civil_round_trip (Unix t / 86400)) as Hc.
  destruct (civil_from_days (Unix t / 86400)) as [[y m] d]. destruct Hc as (Hm & Hd & Hz). intros Hy.
  set (r := Unix t mod 86400). assert (0 ≤ r < 86400) as Hr by (apply Z.mod_pos_bound; lia).
  assert (d ≤ 31) by (etrans; [apply Hd|]; unfold daysIn; repeat case_match; lia).
  assert (0 ≤ r / 3600 < 24 ∧ 0 ≤ r mod 3600 / 60 < 60 ∧ 0 ≤ r mod 60 < 60 ∧
    r / 3600 * 3600 + r mod 3600 / 60 * 60 + r mod 60 = r) as (Hh & Hmi & Hse & Hsum)
    by (Z.to_euclidean_division_equations; lia).
  unfold Parse, layout_RFC3339, layout_local. cbn [app].
  rewrite chunk_year, chunk_lit, chunk_month, chunk_lit, chunk_day, chunk_lit, chunk_hour, chunk_lit,
    chunk_minute, chunk_lit, chunk_second by (done || lia). cbn [parse_chunks parse_chunk parse_zone fmap option_fmap option_map].
  unfold to_time. cbn [f_year f_month f_day f_hour f_min f_sec f_nsec f_offset].
  rewrite (proj2 (Z.leb_le 1 d)), (proj2 (Z.leb_le d (daysIn m y))) by lia. cbn [andb].
  f_equal. rewrite Hz. unfold r in *. pose proof (Z.div_mod (Unix t) 86400). nia.
Qed.
