(* ===== verification/Auth.v ===== *)
(** * Package [auth]: the OAuth configuration and the encrypted refresh token

    [NewProvider], [EncryptToken] and [DecryptToken] of [internal/auth/auth.go].  The base64
    codec is modelled byte by byte; AES-GCM is the interface [AEAD], with the
    documented law that opening what was sealed under the same key and nonce
    gives the plaintext back.  The random nonce is an input. *)

From stdpp Require Import base strings list.
From Stdlib Require Import NArith ZArith Lia ZifyN Ascii Wf_nat.
From S2P Require Import Prelude GoStrings.

(** ** The OAuth configuration *)

(** [oauth2.Config]; the endpoint and the calendar scope are constants of the
    libraries. *)
Record oauth2_Config (Endpoint : Type) := mk_oauth {
  ClientID : string; ClientSecret : string; RedirectURL : string; oauth_Endpoint : Endpoint; Scopes : list string }.
Arguments mk_oauth {Endpoint}.
Definition NewProvider {Endpoint} (google_Endpoint : Endpoint) (CalendarScope : string)
  (clientID clientSecret redirectURL : string) : oauth2_Config Endpoint :=
  mk_oauth clientID clientSecret redirectURL google_Endpoint
    ["https://www.googleapis.com/auth/userinfo.email"; CalendarScope].

(** ** [encoding/base64], StdEncoding *)

Module Base64.
Local Open Scope N_scope.

(** The alphabet. *)
Definition enc6 (n : N) : ascii :=
  ascii_of_N (if n <? 26 then 65 + n else if n <? 52 then 71 + n
              else if n <? 62 then n - 4 else if n =? 62 then 43 else 47).
Definition dec6 (c : ascii) : option N :=
  let n := N_of_ascii c in
  if (65 <=? n) && (n <=? 90) then Some (n - 65)
  else if (97 <=? n) && (n <=? 122) then Some (n - 71)
  else if (48 <=? n) && (n <=? 57) then Some (n + 4)
  else if n =? 43 then Some 62 else if n =? 47 then Some 63 else None.

Definition s1 (a : N) := enc6 (a / 4).
Definition s2 (a b : N) := enc6 (a mod 4 * 16 + b / 16).
Definition s3 (b c : N) := enc6 (b mod 16 * 4 + c / 64).
Definition s4 (c : N) := enc6 (c mod 64).

Fixpoint EncodeToString (s : string) : string :=
  match s with
  | "" => ""
  | String a "" =>
      let a := N_of_ascii a in String (s1 a) (String (s2 a 0) "==")
  | String a (String b "") =>
      let a := N_of_ascii a in let b := N_of_ascii b in
      String (s1 a) (String (s2 a b) (String (s3 b 0) "="))
  | String a (String b (String c r)) =>
      let a := N_of_ascii a in let b := N_of_ascii b in let c := N_of_ascii c in
      String (s1 a) (String (s2 a b) (String (s3 b c) (String (s4 c) (EncodeToString r))))
  end.

Definition d1 (p q : N) := ascii_of_N (p * 4 + q / 16).
Definition d2 (q r : N) := ascii_of_N (q mod 16 * 16 + r / 4).
Definition d3 (r t : N) := ascii_of_N (r mod 4 * 64 + t).

(** A quantum of four characters; padding only in the last one.  As in
    [StdEncoding], the unused low bits of a padded quantum are not looked at. *)
Fixpoint decode_quanta (s : string) : option string :=
  match s with
  | "" => Some ""
  | String p (String q (String r (String t rest))) =>
      match dec6 p, dec6 q with
      | Some p, Some q =>
          if decide (t = "="%char) then
            if decide (rest = "") then
              if decide (r = "="%char) then Some (String (d1 p q) "")
              else (λ r, String (d1 p q) (String (d2 q r) "")) <$> dec6 r
            else None
          else match dec6 r, dec6 t, decode_quanta rest with
               | Some r, Some t, Some x => Some (String (d1 p q) (String (d2 q r) (String (d3 r t) x)))
               | _, _, _ => None
               end
      | _, _ => None
      end
  | _ => None
  end.
(** Carriage returns and line feeds are skipped wherever they are. *)
Fixpoint strip_crlf (s : string) : string :=
  match s with
  | "" => ""
  | String c s => if decide (c = "013"%char ∨ c = "010"%char) then strip_crlf s
                  else String c (strip_crlf s)
  end.
Definition DecodeString (s : string) : option string := decode_quanta (strip_crlf s).
End Base64.

(** ** AES-GCM *)

(** [cipher.AEAD.Seal] and [Open] with no additional data; [Open]'s failure is
    an error value. *)
Class AEAD := {
  seal : string → string → string → string;
  open : string → string → string → error + string;
  open_seal : ∀ key nonce text,
    String.length nonce = 12 → open key nonce (seal key nonce text) = inr text }.

(** [aes.NewCipher]: AES-128, AES-192 or AES-256. *)
Definition NewCipher (key : string) : option error :=
  if decide (String.length key ∈ [16; 24; 32]) then None
  else Some (errorf ("crypto/aes: invalid key size " +:+ Itoa (Z.of_nat (String.length key)))).
Definition NonceSize : nat := 12.

Section Tokens.
Context `{AEAD}.

(** [rand] is the outcome of [io.ReadFull(rand.Reader, nonce)]. *)
Definition EncryptToken (rand : error + string) (plaintext key : string) : error + string :=
  match NewCipher key with
  | Some e => inl e
  | None =>
      match rand with
      | inl e => inl e
      | inr nonce =>
          let ciphertext := nonce +:+ seal key nonce plaintext in
          inr (Base64.EncodeToString ciphertext)
      end
  end.

Definition DecryptToken (encoded key : string) : error + string :=
  match Base64.DecodeString encoded with
  | None => inl (errorf "illegal base64 data")
  | Some data =>
      match NewCipher key with
      | Some e => inl e
      | None =>
          if (String.length data <? NonceSize)%nat then inl (errorf "ciphertext too short")
          else
            let nonce := stake NonceSize data in
            let ciphertext := sdrop NonceSize data in
            match open key nonce ciphertext with
            | inl e => inl e
            | inr plaintext => inr plaintext
            end
      end
  end.
End Tokens.

(** A stand-in cipher that satisfies the law: the key is prepended. *)
Definition toy_aead : AEAD.
Proof.
  refine {| seal k _ p := k +:+ p;
            open k _ c := if HasPrefix c k then inr (sdrop (String.length k) c)
                          else inl (errorf "cipher: message authentication failed") |}.
  intros k n p _. unfold HasPrefix. by rewrite prefix_refl, sdrop_app.
Defined.

(** ** Lemmas *)

Module Base64Facts.
Import Base64.
Local Open Scope N_scope.

Lemma N_of_ascii_lt c : N_of_ascii c < 256.
Proof. apply N_ascii_bounded. Qed.

(** A property of the first [n] numbers can be checked by running it. *)
Lemma N_below (P : N → bool) (n : nat) :
  forallb P (N.of_nat <$> seq 0 n) = true → ∀ m, m < N.of_nat n → P m = true.
Proof.
  intros H m Hm. rewrite forallb_forall in H. apply H.
  apply list_elem_of_In, list_elem_of_fmap. exists (N.to_nat m). split; [lia|].
  apply elem_of_seq. lia.
Qed.

Lemma dec6_enc6 n : n < 64 → dec6 (enc6 n) = Some n ∧ enc6 n ≠ "="%char ∧
  enc6 n ≠ "013"%char ∧ enc6 n ≠ "010"%char.
Proof.
  intros Hn. pose proof (N_below (λ n, bool_decide (dec6 (enc6 n) = Some n ∧ enc6 n ≠ "="%char
    ∧ enc6 n ≠ "013"%char ∧ enc6 n ≠ "010"%char)) 64 eq_refl n Hn) as H.
  by apply bool_decide_eq_true in H.
Qed.

Lemma strip_cons c s : c ≠ "013"%char → c ≠ "010"%char →
  strip_crlf (String c s) = String c (strip_crlf s).
Proof. intros. simpl. case_decide; [naive_solver|done]. Qed.

(** [enc6] of something below 64, at every place the encoder uses it. *)
Ltac sextet :=
  match goal with
  | |- context [enc6 ?n] =>
      lazymatch goal with
      | _ : dec6 (enc6 n) = Some n |- _ => fail
      | _ => idtac
      end;
      let H := fresh "D" in
      destruct (dec6_enc6 n) as (H & ? & ? & ?);
      [repeat match goal with c : ascii |- _ =>
         lazymatch goal with _ : N_of_ascii c < 256 |- _ => fail | _ =>
           pose proof (N_of_ascii_lt c) end end; lia|]
  end.

Lemma d1_s a b : a < 256 → b < 256 → d1 (a / 4) (a mod 4 * 16 + b / 16) = ascii_of_N a.
Proof. intros. unfold d1. f_equal. lia. Qed.
Lemma d2_s a b c : b < 256 → c < 256 →
  d2 (a mod 4 * 16 + b / 16) (b mod 16 * 4 + c / 64) = ascii_of_N b.
Proof. intros. unfold d2. f_equal. lia. Qed.
Lemma d3_s b c : c < 256 → d3 (b mod 16 * 4 + c / 64) (c mod 64) = ascii_of_N c.
Proof. intros. unfold d3. f_equal. lia. Qed.

Lemma strip_encode s : strip_crlf (EncodeToString s) = EncodeToString s.
Proof.
  induction s as [s IH] using (induction_ltof1 _ String.length); unfold ltof in IH.
  destruct s as [|a [|b [|c r]]]; [done|..]; cbn -[strip_crlf]; unfold s1, s2, s3, s4;
    repeat sextet; rewrite ?strip_cons by done; try done.
  rewrite IH; [done|simpl; lia].
Qed.

Lemma decode_encode s : DecodeString (EncodeToString s) = Some s.
Proof.
  unfold DecodeString. rewrite strip_encode.
  induction s as [s IH] using (induction_ltof1 _ String.length); unfold ltof in IH.
  destruct s as [|a [|b [|c r]]]; [done|..]; simpl; unfold s1, s2, s3, s4; repeat sextet;
    rewrite ?D, ?D0, ?D1, ?D2.
  - rewrite d1_s by (lia || apply N_of_ascii_lt). by rewrite ascii_N_embedding.
  - rewrite decide_False by done. simpl.
    rewrite d1_s, d2_s by (lia || apply N_of_ascii_lt). by rewrite !ascii_N_embedding.
  - rewrite decide_False by done. rewrite IH by (simpl; lia).
    rewrite d1_s, d2_s, d3_s by (lia || apply N_of_ascii_lt). by rewrite !ascii_N_embedding.
Qed.
End Base64Facts.

Lemma NewCipher_None key : NewCipher key = None ↔ String.length key ∈ [16; 24; 32].
Proof. unfold NewCipher. case_decide; naive_solver. Qed.

Lemma decrypt_sealed `{AEAD} plaintext key nonce enc :
  String.length nonce = NonceSize → EncryptToken (inr nonce) plaintext key = inr enc →
  DecryptToken enc key = inr plaintext.
Proof.
  intros Hn. unfold EncryptToken, DecryptToken. destruct (NewCipher key) eqn:Hkey; [done|].
  intros [= <-]. rewrite Base64Facts.decode_encode, length_app_s, Hn.
  change (NonceSize + _ <? NonceSize)%nat with false; cbv iota zeta.
  rewrite <- Hn, stake_app, sdrop_app, open_seal by done. done.
Qed.

(** C28 (round trip).  What [EncryptToken] stored, [DecryptToken] reads back with
    the same key: encryption succeeds for every AES key size and every random
    nonce, and decryption of its output is the plaintext. *)
Theorem DecryptToken_EncryptToken `{AEAD} plaintext key nonce :
  String.length key ∈ [16; 24; 32] → String.length nonce = NonceSize →
  ∃ enc, EncryptToken (inr nonce) plaintext key = inr enc ∧ DecryptToken enc key = inr plaintext.
Proof.
  intros Hkey Hn. apply NewCipher_None in Hkey.
  destruct (EncryptToken (inr nonce) plaintext key) as [e|enc] eqn:He.
  - unfold EncryptToken in He. by rewrite Hkey in He.
  - exists enc. split; [done|]. by eapply decrypt_sealed.
Qed.

Lemma DecryptToken_EncryptToken_witness :
  ∃ enc, EncryptToken (H := toy_aead) (inr "0123456789ab") "my-secret-token"
           "0123456789abcdef0123456789abcdef" = inr enc
         ∧ DecryptToken (H := toy_aead) enc "0123456789abcdef0123456789abcdef"
           = inr "my-secret-token".
Proof.
  apply (DecryptToken_EncryptToken (H := toy_aead)); [|reflexivity].
  apply (bool_decide_unpack _). vm_compute. exact I.
Defined.

(** Property (errors).  [DecryptToken] never succeeds on a key that is not an AES key,
    nor on text whose decoded length is below the nonce, such as the empty
    string of a user without a token. *)
Theorem DecryptToken_rejects `{AEAD} enc key :
  String.length key ∉ [16; 24; 32] ∨
  (∀ data, Base64.DecodeString enc = Some data → String.length data < NonceSize) →
  ∃ e, DecryptToken enc key = inl e.
Proof.
  intros Hc. unfold DecryptToken. destruct (Base64.DecodeString enc) as [data|]; [|eauto].
  destruct (NewCipher key) eqn:Hk; [eauto|]. apply NewCipher_None in Hk.
  destruct Hc as [?|Hs]; [done|]. specialize (Hs _ eq_refl).
  rewrite (proj2 (Nat.ltb_lt _ _)) by done. eauto.
Qed.

Lemma DecryptToken_rejects_witness : ∃ e, DecryptToken (H := toy_aead) "" "k" = inl e.
Proof.
  apply (DecryptToken_rejects (H := toy_aead)). right. intros data [= <-]. simpl. unfold NonceSize. lia.
Defined.
