(* ===== verification/EventID.v ===== *)
(** * Deterministic calendar event identifiers

    [GenerateDeterministicEventID] of [internal/sync/sync.go]: the MD5 digest
    of the Google id and the contest id, in lower-case base32hex without
    padding.  MD5 and base32hex are modelled so that the identifier computes. *)

From stdpp Require Import base strings list.
From Stdlib Require Import NArith ZArith Lia Ascii.
From S2P Require Import Prelude GoStrings.
Local Open Scope Z_scope.

(** ** [crypto/md5] *)

Module Md5.
Definition w32 (z : Z) : Z := z mod 2 ^ 32.
Definition rotl (x c : Z) : Z := Z.lor (w32 (Z.shiftl x c)) (Z.shiftr x (32 - c)).
Definition not32 (x : Z) : Z := Z.lxor x 0xFFFFFFFF.

Definition K : list Z := [
 0xd76aa478;0xe8c7b756;0x242070db;0xc1bdceee;0xf57c0faf;0x4787c62a;0xa8304613;0xfd469501;
 0x698098d8;0x8b44f7af;0xffff5bb1;0x895cd7be;0x6b901122;0xfd987193;0xa679438e;0x49b40821;
 0xf61e2562;0xc040b340;0x265e5a51;0xe9b6c7aa;0xd62f105d;0x02441453;0xd8a1e681;0xe7d3fbc8;
 0x21e1cde6;0xc33707d6;0xf4d50d87;0x455a14ed;0xa9e3e905;0xfcefa3f8;0x676f02d9;0x8d2a4c8a;
 0xfffa3942;0x8771f681;0x6d9d6122;0xfde5380c;0xa4beea44;0x4bdecfa9;0xf6bb4b60;0xbebfbc70;
 0x289b7ec6;0xeaa127fa;0xd4ef3085;0x04881d05;0xd9d4d039;0xe6db99e5;0x1fa27cf8;0xc4ac5665;
 0xf4292244;0x432aff97;0xab9423a7;0xfc93a039;0x655b59c3;0x8f0ccc92;0xffeff47d;0x85845dd1;
 0x6fa87e4f;0xfe2ce6e0;0xa3014314;0x4e0811a1;0xf7537e82;0xbd3af235;0x2ad7d2bb;0xeb86d391].
Definition shifts (r i : nat) : Z :=
  nth (i mod 4) (nth r [[7;12;17;22];[5;9;14;20];[4;11;16;23];[6;10;15;21]] []) 0.

Definition mix (r : nat) (b c d : Z) : Z :=
  match r with
  | 0%nat => Z.lor (Z.land b c) (Z.land (not32 b) d)
  | 1%nat => Z.lor (Z.land d b) (Z.land (not32 d) c)
  | 2%nat => Z.lxor b (Z.lxor c d)
  | _ => Z.lxor c (Z.lor b (not32 d))
  end.
Definition msg_index (r i : nat) : nat :=
  match r with
  | 0%nat => i
  | 1%nat => (5 * i + 1) mod 16
  | 2%nat => (3 * i + 5) mod 16
  | _ => (7 * i) mod 16
  end.

Definition state : Type := Z * Z * Z * Z.
Definition step (ws : list Z) (st : state) (i : nat) : state :=
  let '(a, b, c, d) := st in
  let r := (i / 16)%nat in
  let f := w32 (mix r b c d + a + nth i K 0 + nth (msg_index r i) ws 0) in
  (d, w32 (b + rotl f (shifts r i)), b, c).
Definition block (st : state) (ws : list Z) : state :=
  let '(a, b, c, d) := st in
  let '(a', b', c', d') := fold_left (step ws) (seq 0 64) st in
  (w32 (a + a'), w32 (b + b'), w32 (c + c'), w32 (d + d')).

Fixpoint le_val (bs : list Z) : Z :=
  match bs with [] => 0 | b :: bs => b + 256 * le_val bs end.
Fixpoint le_bytes (n : nat) (z : Z) : list Z :=
  match n with O => [] | S n => z mod 256 :: le_bytes n (z / 256) end.
Fixpoint chunks (fuel n : nat) (l : list Z) : list (list Z) :=
  match fuel, l with
  | S fuel, _ :: _ => take n l :: chunks fuel n (drop n l)
  | _, _ => []
  end.

Definition pad (msg : list Z) : list Z :=
  let n := Z.of_nat (length msg) in
  msg ++ [128] ++ replicate (Z.to_nat ((55 - n) mod 64)) 0 ++ le_bytes 8 (8 * n).

Definition bytes_of (s : string) : list Z := (λ c, Z.of_N (N_of_ascii c)) <$> chars s.
(** The digest, sixteen bytes. *)
Definition Sum (msg : string) : list Z :=
  let p := pad (bytes_of msg) in
  let bl := (λ b, le_val <$> chunks 16 4 b) <$> chunks (length p) 64 p in
  let '(a, b, c, d) := fold_left block bl (0x67452301, 0xefcdab89, 0x98badcfe, 0x10325476) in
  le_bytes 4 a ++ le_bytes 4 b ++ le_bytes 4 c ++ le_bytes 4 d.
End Md5.

(** ** [encoding/base32], HexEncoding without padding *)

Module Base32.
Definition bits8 (z : Z) : list bool := (λ i, Z.testbit z (Z.of_nat i)) <$> [7;6;5;4;3;2;1;0]%nat.
Definition bits (bs : list Z) : list bool := bs ≫= bits8.
(** Most significant bit first. *)
Definition val (l : list bool) : Z := fold_left (λ acc b, 2 * acc + Z.b2z b) l 0.
Definition alphabet (n : Z) : ascii :=
  ascii_of_N (Z.to_N (if n <? 10 then 48 + n else 55 + n)).
(** Groups of five bits, the last one filled with zeros. *)
Fixpoint groups (fuel : nat) (l : list bool) : list (list bool) :=
  match fuel, l with
  | S fuel, _ :: _ => take 5 (l ++ replicate 4 false) :: groups fuel (drop 5 l)
  | _, _ => []
  end.
Definition of_chars (l : list ascii) : string := foldr String "" l.
Definition EncodeToString (bs : list Z) : string :=
  of_chars ((λ g, alphabet (val g)) <$> groups (length (bits bs)) (bits bs)).
End Base32.

Definition GenerateDeterministicEventID (googleID contestID : string) : string :=
  ToLower (Base32.EncodeToString (Md5.Sum (googleID +:+ "_" +:+ contestID))).

Example md5_empty : Md5.Sum "" =
  [0xd4;0x1d;0x8c;0xd9;0x8f;0x00;0xb2;0x04;0xe9;0x80;0x09;0x98;0xec;0xf8;0x42;0x7e].
Proof. vm_compute. reflexivity. Qed.
Example md5_long : take 4 (Md5.Sum
  "12345678901234567890123456789012345678901234567890123456789012345678901234567890")
  = [0x57;0xed;0xf4;0xa2].
Proof. vm_compute. reflexivity. Qed.
Example event_id_example :
  GenerateDeterministicEventID "1122334455667788" "codeforces_999" = "uvf6019b5mrtsh4i0gh5rs8h2c".
Proof. vm_compute. reflexivity. Qed.

(** ** Lemmas *)

Module Md5Facts.
Import Md5.
Lemma length_le_bytes n z : length (le_bytes n z) = n.
Proof. revert z; induction n; intros z; simpl; auto. Qed.
Lemma le_bytes_byte n z : Forall (λ b, 0 ≤ b < 256) (le_bytes n z).
Proof. revert z; induction n; intros z; constructor; [apply Z.mod_pos_bound; lia|auto]. Qed.
Lemma Sum_shape m : length (Sum m) = 16%nat ∧ Forall (λ b, 0 ≤ b < 256) (Sum m).
Proof.
  unfold Sum. destruct (fold_left block _ _) as [[[a b] c] d].
  rewrite !length_app, !length_le_bytes, !Forall_app. auto 10 using le_bytes_byte.
Qed.
End Md5Facts.

Module Base32Facts.
Import Base32.
(** The five bits a lower-case digit of the encoding stands for. *)
Definition undigit (c : ascii) : list bool :=
  let n := Z.of_N (N_of_ascii c) in
  let v := if n <? 58 then n - 48 else n - 87 in
  (λ i, Z.testbit v (Z.of_nat i)) <$> [4;3;2;1;0]%nat.
Definition is_event_char (c : ascii) : bool :=
  byte_in 48 57 c || byte_in 97 118 c.

Lemma digit_ok g : length g = 5%nat →
  undigit (lower_ascii (alphabet (val g))) = g ∧
  is_event_char (lower_ascii (alphabet (val g))) = true.
Proof.
  intros Hl. do 5 (destruct g as [|[] g]; [done| |]); destruct g; try done.
  all: vm_compute; auto.
Qed.

Lemma groups_spec fuel l : (length l ≤ fuel)%nat →
  Forall (λ g, length g = 5%nat) (groups fuel l) ∧
  length (groups fuel l) = Z.to_nat ((Z.of_nat (length l) + 4) / 5) ∧
  ∃ p, concat (groups fuel l) = l ++ p.
Proof.
  revert l; induction fuel as [|fuel IH]; intros [|x l] Hf; simpl in Hf;
    try (simpl; split_and!; [constructor|reflexivity|by exists []]); [lia|].
  destruct (IH (drop 5 (x :: l))) as (H1 & H2 & p & H3); [rewrite length_drop; simpl; lia|].
  set (l' := x :: l) in *. assert (length l' = S (length l)) as Hl by done.
  change (groups (S fuel) l') with (take 5 (l' ++ replicate 4 false) :: groups fuel (drop 5 l')).
  split_and!.
  - constructor; [rewrite length_take, length_app, length_replicate; lia|done].
  - cbn [length]. rewrite H2, length_drop. clearbody l'.
    destruct (decide (length l' < 5)%nat) as [Hs|Hs].
    + replace (length l' - 5)%nat with 0%nat by lia.
      assert (length l' ∈ [1;2;3;4]%nat) as Hin by (rewrite !elem_of_cons; lia).
      repeat (apply elem_of_cons in Hin as [->|Hin]; [reflexivity|]). by apply elem_of_nil in Hin.
    + replace (Z.of_nat (length l') + 4) with (Z.of_nat (length l' - 5) + 4 + 1 * 5) by lia.
      rewrite Z.div_add by lia.
      assert (0 ≤ (Z.of_nat (length l' - 5) + 4) / 5) by (apply Z.div_pos; lia). lia.
  - cbn [concat]. rewrite H3. destruct (decide (length l' < 5)%nat) as [Hs|Hs].
    + rewrite take_app_ge by lia. rewrite drop_ge by lia. eexists. by rewrite <- app_assoc.
    + rewrite take_app_le by lia. exists p. by rewrite app_assoc, take_drop.
Qed.

Lemma chars_of_chars l : chars (of_chars l) = l.
Proof. induction l; simpl; congruence. Qed.
Lemma chars_smap f s : chars (smap f s) = f <$> chars s.
Proof. induction s; simpl; [done|]. by rewrite IHs. Qed.

Definition the_groups (bs : list Z) : list (list bool) := groups (length (bits bs)) (bits bs).
Lemma encoded_chars bs :
  chars (ToLower (EncodeToString bs)) = (λ g, lower_ascii (alphabet (val g))) <$> the_groups bs.
Proof.
  unfold ToLower, EncodeToString. rewrite chars_smap, chars_of_chars.
  by rewrite <- list_fmap_compose.
Qed.
Lemma undigit_encoded bs : undigit <$> chars (ToLower (EncodeToString bs)) = the_groups bs.
Proof.
  rewrite encoded_chars, <- list_fmap_compose.
  destruct (groups_spec (length (bits bs)) (bits bs) ltac:(lia)) as [H _].
  unfold the_groups. induction H as [|g gs Hg _ IH]; [done|].
  simpl. f_equal; [|exact IH]. apply digit_ok, Hg.
Qed.

Lemma length_bits bs : length (bits bs) = (8 * length bs)%nat.
Proof. unfold bits. induction bs; [done|]. rewrite bind_cons, length_app, IHbs. simpl. lia. Qed.

Lemma val_bits8 z : 0 ≤ z < 256 → val (bits8 z) = z.
Proof.
  intros Hz. assert (Hall : forallb (λ n, val (bits8 (Z.of_nat n)) =? Z.of_nat n) (seq 0 256) = true)
    by (vm_compute; reflexivity).
  rewrite forallb_forall in Hall. specialize (Hall (Z.to_nat z)).
  rewrite Z2Nat.id, Z.eqb_eq in Hall by lia. apply Hall, in_seq. lia.
Qed.
Lemma bits_inj bs bs' :
  Forall (λ b, 0 ≤ b < 256) bs → Forall (λ b, 0 ≤ b < 256) bs' → bits bs = bits bs' → bs = bs'.
Proof.
  intros H; revert bs'; induction H as [|b bs Hb _ IH]; intros bs' H'; inversion H'; subst; try done.
  unfold bits. rewrite !bind_cons. intros Heq.
  apply app_inj_1 in Heq as [H8 Hr]; [|done].
  apply (f_equal val) in H8. rewrite !val_bits8 in H8 by done. f_equal; auto.
Qed.

Lemma encode_inj bs bs' :
  length bs = length bs' →
  Forall (λ b, 0 ≤ b < 256) bs → Forall (λ b, 0 ≤ b < 256) bs' →
  ToLower (EncodeToString bs) = ToLower (EncodeToString bs') → bs = bs'.
Proof.
  intros Hl Hb Hb' Heq. apply (f_equal (λ s, undigit <$> chars s)) in Heq.
  rewrite !undigit_encoded in Heq.
  destruct (groups_spec (length (bits bs)) (bits bs) ltac:(lia)) as (_ & _ & p & Hp).
  destruct (groups_spec (length (bits bs')) (bits bs') ltac:(lia)) as (_ & _ & p' & Hp').
  unfold the_groups in Heq. rewrite Heq, Hp' in Hp.
  apply app_inj_1 in Hp as [Hbits _]; [by apply bits_inj|].
  rewrite !length_bits. lia.
Qed.
End Base32Facts.

(** C31 (functional).  Every identifier the program generates is one Google
    accepts for an event: 26 characters, each a base32hex digit in lower case
    ([0-9a-v]). *)
Theorem event_id_format googleID contestID :
  String.length (GenerateDeterministicEventID googleID contestID) = 26%nat ∧
  Forall (λ c, Base32Facts.is_event_char c = true)
    (chars (GenerateDeterministicEventID googleID contestID)).
Proof.
  unfold GenerateDeterministicEventID. rewrite <- length_chars, Base32Facts.encoded_chars.
  destruct (Md5Facts.Sum_shape (googleID +:+ "_" +:+ contestID)) as [Hl _].
  set (bs := Md5.Sum _) in *. unfold Base32Facts.the_groups.
  destruct (Base32Facts.groups_spec (length (Base32.bits bs)) (Base32.bits bs) ltac:(lia))
    as (Hg & Hn & _).
  split.
  - rewrite length_fmap, Hn, Base32Facts.length_bits, Hl. reflexivity.
  - apply Forall_fmap. eapply Forall_impl; [exact Hg|]. intros g H. by apply Base32Facts.digit_ok.
Qed.

(** Property (functional).  Two events share an identifier only when the MD5 digests
    of their "googleID_contestID" texts are the same: the encoding itself
    loses nothing. *)
Theorem event_id_collision g c g' c' :
  GenerateDeterministicEventID g c = GenerateDeterministicEventID g' c' ↔
  Md5.Sum (g +:+ "_" +:+ c) = Md5.Sum (g' +:+ "_" +:+ c').
Proof.
  unfold GenerateDeterministicEventID. split; [|by intros ->].
  destruct (Md5Facts.Sum_shape (g +:+ "_" +:+ c)) as [L1 B1].
  destruct (Md5Facts.Sum_shape (g' +:+ "_" +:+ c')) as [L2 B2].
  apply Base32Facts.encode_inj; congruence.
Qed.
