(* ===== verification/Sha256.v ===== *)
(** * SHA-256 and hexadecimal

    [crypto/sha256] and [hex.EncodeToString] as the handlers use them: for the
    secret of a calendar feed and for random tokens. *)

From stdpp Require Import base strings list.
From Stdlib Require Import NArith ZArith Lia Ascii.
From S2P Require Import Prelude GoStrings EventID.
Local Open Scope Z_scope.

(** ** [encoding/hex] *)

Definition hex_digit (n : N) : ascii := ascii_of_N (if (n <? 10)%N then 48 + n else 87 + n).
Definition hex_byte (b : N) : string := String (hex_digit (b / 16)) (String (hex_digit (b mod 16)) "").
Fixpoint hex_EncodeToString (s : string) : string :=
  match s with
  | "" => ""
  | String c s => hex_byte (N_of_ascii c) +:+ hex_EncodeToString s
  end.

Lemma hex_EncodeToString_length s : String.length (hex_EncodeToString s) = (2 * String.length s)%nat.
Proof. induction s as [|c s IH]; [done|]. cbn [hex_EncodeToString]. rewrite length_app_s, IH. simpl. lia. Qed.

(** Equal digits of bytes are equal bytes, so the encoding is injective. *)
Lemma hex_digit_inj a b : (a < 16)%N → (b < 16)%N → hex_digit a = hex_digit b → a = b.
Proof.
  intros Ha Hb Heq. apply (f_equal N_of_ascii) in Heq. unfold hex_digit in Heq.
  destruct (N.ltb_spec a 10), (N.ltb_spec b 10);
    rewrite !N_ascii_embedding in Heq by lia; lia.
Qed.
Lemma hex_EncodeToString_inj s t : hex_EncodeToString s = hex_EncodeToString t → s = t.
Proof.
  revert t. induction s as [|c s IH]; intros [|d t]; try done. cbn [hex_EncodeToString]. unfold hex_byte.
  simpl. intros [= H1 H2 H3%IH]. subst t. f_equal.
  pose proof (N_ascii_bounded c). pose proof (N_ascii_bounded d).
  apply hex_digit_inj in H1; [|apply N.Div0.div_lt_upper_bound; lia..].
  apply hex_digit_inj in H2; [|apply N.mod_lt; lia..].
  rewrite <- (ascii_N_embedding c), <- (ascii_N_embedding d). f_equal.
  rewrite (N.div_mod (N_of_ascii c) 16), (N.div_mod (N_of_ascii d) 16) by lia. congruence.
Qed.

(** ** [sha256.Sum256] *)

Module Sha256.
Import Md5(w32, not32, chunks).
Definition rotr (x c : Z) : Z := Z.lor (Z.shiftr x c) (w32 (Z.shiftl x (32 - c))).

(** The constants: 32 bits of the fractions of the cube roots of the first 64
    primes, and of the square roots of the first eight. *)
Definition is_prime (p : nat) : bool := forallb (λ d, negb (p mod d =? 0)%nat) (seq 2 (p - 2)).
Definition primes : list Z := Z.of_nat <$> filter (λ p, is_prime p = true) (seq 2 310).
(** The integer cube root, bit by bit from bit [n - 1] down. *)
Fixpoint cbrt_bits (n : nat) (acc z : Z) : Z :=
  match n with
  | O => acc
  | S n => let try := acc + 2 ^ Z.of_nat n in
           cbrt_bits n (if try * try * try <=? z then try else acc) z
  end.
Definition K : list Z := Eval vm_compute in (λ p, w32 (cbrt_bits 40 0 (p * 2 ^ 96))) <$> primes.

(** The message schedule, the latest word first. *)
Definition extend (ws : list Z) : list Z :=
  let w n := nth n ws 0 in
  let s0 := Z.lxor (rotr (w 14%nat) 7) (Z.lxor (rotr (w 14%nat) 18) (Z.shiftr (w 14%nat) 3)) in
  let s1 := Z.lxor (rotr (w 1%nat) 17) (Z.lxor (rotr (w 1%nat) 19) (Z.shiftr (w 1%nat) 10)) in
  w32 (w 15%nat + s0 + w 6%nat + s1) :: ws.
Definition schedule (ws : list Z) : list Z := rev (Nat.iter 48 extend (rev ws)).

Definition state : Type := Z * Z * Z * Z * Z * Z * Z * Z.
Definition round (st : state) (kw : Z * Z) : state :=
  let '(a, b, c, d, e, f, g, h) := st in
  let S1 := Z.lxor (rotr e 6) (Z.lxor (rotr e 11) (rotr e 25)) in
  let ch := Z.lxor (Z.land e f) (Z.land (not32 e) g) in
  let t1 := h + S1 + ch + kw.1 + kw.2 in
  let S0 := Z.lxor (rotr a 2) (Z.lxor (rotr a 13) (rotr a 22)) in
  let maj := Z.lxor (Z.land a b) (Z.lxor (Z.land a c) (Z.land b c)) in
  (w32 (t1 + S0 + maj), a, b, c, w32 (d + t1), e, f, g).
Definition block (st : state) (ws : list Z) : state :=
  let '(a, b, c, d, e, f, g, h) := st in
  let '(a', b', c', d', e', f', g', h') := fold_left round (combine K (schedule ws)) st in
  (w32 (a + a'), w32 (b + b'), w32 (c + c'), w32 (d + d'),
   w32 (e + e'), w32 (f + f'), w32 (g + g'), w32 (h + h')).

Fixpoint be_bytes (n : nat) (z : Z) : list Z :=
  match n with O => [] | S n => be_bytes n (z / 256) ++ [z mod 256] end.
Definition be_val (bs : list Z) : Z := fold_left (λ acc b, 256 * acc + b) bs 0.
Definition pad (msg : list Z) : list Z :=
  let n := Z.of_nat (length msg) in
  msg ++ [128] ++ replicate (Z.to_nat ((55 - n) mod 64)) 0 ++ be_bytes 8 (8 * n).

Definition init : state := Eval vm_compute in
  match (λ p, w32 (Z.sqrt (p * 2 ^ 64))) <$> take 8 primes with
  | [a; b; c; d; e; f; g; h] => (a, b, c, d, e, f, g, h)
  | _ => (0, 0, 0, 0, 0, 0, 0, 0)
  end.
Definition Sum256 (msg : string) : string :=
  let bytes := Md5.bytes_of msg in
  let p := pad bytes in
  let words bs := be_val <$> chunks (length bs) 4 bs in
  let '(a, b, c, d, e, f, g, h) := fold_left block (words <$> chunks (length p) 64 p) init in
  bytes_str (Z.to_N <$> concat (be_bytes 4 <$> [a; b; c; d; e; f; g; h])).
End Sha256.

Example sha256_abc : hex_EncodeToString (Sha256.Sum256 "abc") =
  "ba7816bf8f01cfea414140de5dae2223b00361a396177a9cb410ff61f20015ad".
Proof. vm_compute. reflexivity. Qed.
Example sha256_long : hex_EncodeToString (Sha256.Sum256
    "abcdbcdecdefdefgefghfghighijhijkijkljklmklmnlmnomnopnopq") =
  "248d6a61d20638b8e5c026930c3e6039a33ce45964ff2167f6ecedd419db06c1".
Proof. vm_compute. reflexivity. Qed.
