(* ===== verification/Effects.v ===== *)
(** * The world of a handler: services, clock, and the early-return monad

    A Go function that talks to Postgres, Valkey and Google and leaves early
    with [return] is a computation of the monad [M R A]: it threads the world
    and either continues with an [A] or has returned an [R].

    What is outside the repository is a parameter: [Valkey] states what the
    code relies on of the key-value server, and [Env] is the behaviour of the
    network, the replicas, the clock and Google for every call the process
    makes.  No theorem fixes an [Env]; what one needs of it is a hypothesis. *)

From stdpp Require Import base gmap strings list sets.
From Stdlib Require Import ZArith Lia Ascii.
From S2P Require Import Prelude GoStrings Models Database.

(** ** Valkey *)

(** GET, SET with a lifetime, and DEL, at a given time. *)
Class Valkey (kv : Type) := {
  vk_get : Z → string → kv → option string;
  vk_set : Z → string → string → Z → kv → kv;
  vk_del : Z → string → kv → kv;
  vk_get_set_eq : ∀ t now k v ttl s, (now ≤ t < now + ttl)%Z →
    vk_get t k (vk_set now k v ttl s) = Some v;
  vk_get_set_expired : ∀ t now k v ttl s, (0 < ttl)%Z → (now + ttl ≤ t)%Z →
    vk_get t k (vk_set now k v ttl s) = None;
  vk_get_set_ne : ∀ t now k k' v ttl s, k ≠ k' →
    vk_get t k' (vk_set now k v ttl s) = vk_get t k' s;
  vk_get_del_eq : ∀ t now k s, vk_get t k (vk_del now k s) = None;
  vk_get_del_ne : ∀ t now k k' s, k ≠ k' → vk_get t k' (vk_del now k s) = vk_get t k' s }.

(** SET with NX: succeeds on a missing key only, atomically. *)
Definition vk_setnx `{Valkey kv} (now : Z) (k v : string) (ttl : Z) (s : kv) : bool * kv :=
  match vk_get now k s with
  | Some _ => (false, s)
  | None => (true, vk_set now k v ttl s)
  end.

(** A store that satisfies the interface: each key with its value and expiry. *)
Definition kv_map := gmap string (string * Z).
#[export] Instance kv_map_valkey : Valkey kv_map.
Proof.
  refine {|
    vk_get t k (s : kv_map) :=
      match s !! k with Some (v, e) => if (t <? e)%Z then Some v else None | None => None end;
    vk_set now k v ttl (s : kv_map) := <[k := (v, (now + ttl)%Z)]> s : kv_map;
    vk_del _ k (s : kv_map) := delete k s : kv_map |}; unfold kv_map.
  - intros. rewrite lookup_insert_eq. case_match; [done|lia].
  - intros. rewrite lookup_insert_eq. case_match; [lia|done].
  - intros. by rewrite lookup_insert_ne.
  - intros. by rewrite lookup_delete_eq.
  - intros. by rewrite lookup_delete_ne.
Defined.

(** ** Google Calendar requests and answers *)

Record gevent := {
  ev_Id : string; ev_Summary : string; ev_Description : string; ev_Location : string;
  ev_Start : string; ev_End : string; ev_TimeZone : string;
  (** sent although false, by [ForceSendFields] *)
  ev_UseDefault : bool; ev_Overrides : list (string * Z); ev_Transparency : string; ev_Status : string }.

Inductive greq :=
| CalendarsGet (cal : string)
| CalendarsInsert (summary tz : string)
| CalendarsDelete (cal : string)
| EventsInsert (cal : string) (ev : gevent)
| EventsUpdate (cal id : string) (ev : gevent)
| EventsDelete (cal id : string).

Record gok := { ok_Id : string; ok_TimeZone : string }.
Definition gresp : Type := error + gok.

(** ** The environment *)

(** What became of a call to a server: it was done, it failed before taking
    effect, or it took effect and the answer was lost. *)
Inductive fate := Done | Lost (e : error) | Unacked (e : error).

(** The [nat] is the number of external calls the process made before. *)
Record Env := {
  clock : nat → Z;
  fate_db : nat → fate;
  fate_kv : nat → fate;
  (** what a read replica shows, given the primary's tables *)
  replica : nat → DB → DB;
  (** the rows a result set delivers before it ends or the connection drops:
      in any order, none twice *)
  deliver : nat → ∀ A, list A → list A;
  deliver_sub : ∀ n A (l : list A), deliver n A l ⊆+ l;
  google : nat → greq → gresp;
  new_service : nat → option error }.
Arguments deliver _ _ {_}.
Arguments deliver_sub _ _ {_}.

(** ** The world *)

Inductive event :=
| EvSql (s : stmt) (applied : bool)
| EvGoogle (q : greq) (r : gresp)
| EvTelegram (name details : string)
| EvPublishSync (uid : Z) (err : option error)
| EvRevoke (token : string).

Record World (kv : Type) := mk_world {
  tick : nat; db : DB; store : kv; syncingUsers : gset Z; trace : list event }.
Arguments mk_world {_}.
Arguments tick {_}.
Arguments db {_}.
Arguments store {_}.
Arguments syncingUsers {_}.
Arguments trace {_}.

Section Monad.
Context {kv : Type} `{!Valkey kv} (E : Env).

Abbreviation W := (World kv).

Definition bump (w : W) : W := mk_world (S (tick w)) (db w) (store w) (syncingUsers w) (trace w).
Definition set_db (d : DB) (w : W) : W := mk_world (tick w) d (store w) (syncingUsers w) (trace w).
Definition set_store (s : kv) (w : W) : W := mk_world (tick w) (db w) s (syncingUsers w) (trace w).
Definition set_local (l : gset Z) (w : W) : W := mk_world (tick w) (db w) (store w) l (trace w).
Definition log (e : event) (w : W) : W :=
  mk_world (tick w) (db w) (store w) (syncingUsers w) (trace w ++ [e]).

Definition M (R A : Type) : Type := W → (R + A) * W.

Definition ret {R A} (a : A) : M R A := λ w, (inr a, w).
(** [return r] *)
Definition leave {R A} (r : R) : M R A := λ w, (inl r, w).
Definition bind {R A B} (m : M R A) (k : A → M R B) : M R B := λ w,
  match m w with
  | (inl r, w') => (inl r, w')
  | (inr a, w') => k a w'
  end.

(** A function body whose every path returns, as a function. *)
Definition run {R} (m : M R R) (w : W) : R * W :=
  match m w with (inl r, w') => (r, w') | (inr r, w') => (r, w') end.
(** A call: the callee's return value becomes the caller's value. *)
Definition call {R A} (f : W → A * W) : M R A := λ w, let '(a, w') := f w in (inr a, w').
(** [defer]: run [d] with the body's result before the result is delivered. *)
Definition deferring {A} (body : W → A * W) (d : A → M A unit) : W → A * W := λ w,
  let '(a, w') := body w in (a, snd (d a w')).

(** An external call: one tick of the environment. *)
Definition ext {R A} (f : nat → W → A * W) : M R A := λ w,
  let '(a, w') := f (tick w) w in (inr a, bump w').

Definition sql_exec {R} (s : stmt) : M R (error + returned) := ext (λ n w,
  let applied e := match exec (clock E n) s (db w) with
    | inr (d', r) => (from_option inl (inr r) e, log (EvSql s true) (set_db d' w))
    | inl e' => (inl e', log (EvSql s false) w)
    end in
  match fate_db E n with
  | Done => applied None
  | Lost e => (inl e, log (EvSql s false) w)
  | Unacked e => applied (Some e)
  end).

Definition view (rep : bool) (n : nat) (d : DB) : DB := if rep then replica E n d else d.

(** A query of one row or of one value. *)
Definition sql_query {R A} (rep : bool) (q : Z → DB → A) : M R (error + A) := ext (λ n w,
  (match fate_db E n with
   | Done => inr (q (clock E n) (view rep n (db w)))
   | Lost e | Unacked e => inl e
   end, w)).
(** A query whose rows the program reads to the end without asking [rows.Err()]. *)
Definition sql_rows {R A} (rep : bool) (q : Z → DB → list A) : M R (error + list A) := ext (λ n w,
  (match fate_db E n with
   | Done => inr (deliver E n (q (clock E n) (view rep n (db w))))
   | Lost e | Unacked e => inl e
   end, w)).

(** A query whose rows are read to the end and [rows.Err()] is checked. *)
Definition sql_rows_checked {R A} (rep : bool) (q : Z → DB → list A) : M R (error + list A) := ext (λ n w,
  (match fate_db E n with
   | Done =>
       let l := q (clock E n) (view rep n (db w)) in
       if (length (deliver E n l) =? length l)%nat then inr (deliver E n l)
       else inl (errorf "unexpected EOF")
   | Lost e | Unacked e => inl e
   end, w)).
(** The same with the rows that came before the error of [rows.Err()]. *)
Definition sql_rows_err {R A} (rep : bool) (q : Z → DB → list A) : M R (error + (list A * option error)) :=
  ext (λ n w,
  (match fate_db E n with
   | Done =>
       let l := q (clock E n) (view rep n (db w)) in
       inr (deliver E n l,
            if (length (deliver E n l) =? length l)%nat then None else Some (errorf "unexpected EOF"))
   | Lost e | Unacked e => inl e
   end, w)).
(** [SendBatch] and the reading of its results: the first error, if any. *)
Definition sql_batch {R} (l : list stmt) : M R (option error) := ext (λ n w,
  let applied e := match exec_batch (clock E n) l (db w) with
    | inr d' => (e, foldl (λ w s, log (EvSql s true) w) (set_db d' w) l)
    | inl e' => (Some e', w)
    end in
  match fate_db E n with
  | Done => applied None
  | Lost e => (Some e, w)
  | Unacked e => applied (Some e)
  end).

Definition redis_nil : error := errorf "redis: nil".

Definition kv_get {R} (k : string) : M R (error + string) := ext (λ n w,
  (match fate_kv E n with
   | Done => from_option inr (inl redis_nil) (vk_get (clock E n) k (store w))
   | Lost e | Unacked e => inl e
   end, w)).
Definition kv_write {R} (f : Z → kv → kv) : M R (option error) := ext (λ n w,
  match fate_kv E n with
  | Done => (None, set_store (f (clock E n) (store w)) w)
  | Lost e => (Some e, w)
  | Unacked e => (Some e, set_store (f (clock E n) (store w)) w)
  end).
Definition kv_set {R} (k v : string) (ttl : Z) : M R (option error) :=
  kv_write (λ now s, vk_set now k v ttl s).
Definition kv_del {R} (k : string) : M R (option error) := kv_write (λ now s, vk_del now k s).
Definition kv_setnx {R} (k v : string) (ttl : Z) : M R (error + bool) := ext (λ n w,
  let '(ok, s') := vk_setnx (clock E n) k v ttl (store w) in
  match fate_kv E n with
  | Done => (inr ok, set_store s' w)
  | Lost e => (inl e, w)
  | Unacked e => (inl e, set_store s' w)
  end).

Definition google_do {R} (q : greq) : M R gresp := ext (λ n w,
  let r := google E n q in (r, log (EvGoogle q r) w)).
Definition new_calendar_service {R} : M R (option error) := ext (λ n w, (new_service E n, w)).
(** [time.Sleep]: time passes, nothing else of this process happens. *)
Definition sleep {R} : M R unit := ext (λ n w, (tt, w)).
Definition time_now {R} : M R Z := ext (λ n w, (clock E n, w)).
Definition telegram {R} (name details : string) : M R unit := λ w, (inr tt, log (EvTelegram name details) w).

(** Loops: [for _, x := range l]. *)
Fixpoint foreach {R A B} (f : B → A → M R B) (l : list A) (b : B) : M R B :=
  match l with
  | [] => ret b
  | x :: l => bind (f b x) (foreach f l)
  end.
End Monad.

Declare Scope go_scope.
Delimit Scope go_scope with go.
Notation "x <- m ;; k" := (bind m (λ x, k))
  (at level 100, m at next level, right associativity) : go_scope.
Notation "m ;;; k" := (bind m (λ _, k)) (at level 100, right associativity) : go_scope.

(** ** Weakest preconditions *)

Section Wp.
Context {kv : Type}.
Abbreviation W := (World kv).

(** [wp m Q L w]: from [w], [m] continues with a value and world in [Q] or
    returns early with a value and world in [L]. *)
Definition wp {R A} (m : M R A) (Q : A → W → Prop) (L : R → W → Prop) (w : W) : Prop :=
  match m w with
  | (inr a, w') => Q a w'
  | (inl r, w') => L r w'
  end.

(** [m] relates every start world to its end world by [P]. *)
Definition respects (P : W → W → Prop) {R A} (m : M R A) : Prop :=
  ∀ w, wp m (λ _, P w) (λ _, P w) w.

Lemma wp_ret {R A} (a : A) Q (L : R → W → Prop) w : Q a w → wp (ret a) Q L w.
Proof. done. Qed.
Lemma wp_leave {R A} (r : R) (Q : A → W → Prop) L w : L r w → wp (leave r) Q L w.
Proof. done. Qed.
Lemma wp_bind {R A B} (m : M R A) (k : A → M R B) Q L w :
  wp m (λ a, wp (k a) Q L) L w → wp (bind m k) Q L w.
Proof. unfold wp, bind. by destruct (m w) as [[r|a] w']. Qed.
Lemma wp_mono {R A} (m : M R A) (Q Q' : A → W → Prop) (L L' : R → W → Prop) w :
  wp m Q L w → (∀ a w', Q a w' → Q' a w') → (∀ r w', L r w' → L' r w') → wp m Q' L' w.
Proof. unfold wp. destruct (m w) as [[r|a] w']; eauto. Qed.
Lemma wp_run {R} (m : M R R) Q w :
  wp m Q Q w → Q (run m w).1 (run m w).2.
Proof. unfold wp, run. by destruct (m w) as [[r|a] w']. Qed.
Lemma wp_call {R A} (f : W → A * W) Q (L : R → W → Prop) w :
  Q (f w).1 (f w).2 → wp (call f) Q L w.
Proof. unfold wp, call. by destruct (f w). Qed.
Lemma wp_ext {R A} (f : nat → W → A * W) Q (L : R → W → Prop) w :
  Q (f (tick w) w).1 (bump (f (tick w) w).2) → wp (ext f) Q L w.
Proof. unfold wp, ext. by destruct (f _ _). Qed.

(** An external call does not return early. *)
Lemma wp_ext_never {R A} (f : nat → W → A * W) Q (L L' : R → W → Prop) w :
  wp (ext f) Q L w → wp (ext f) Q L' w.
Proof. unfold wp, ext. by destruct (f _ _). Qed.

Lemma wp_and {R A} (m : M R A) (Q Q' : A → W → Prop) (L L' : R → W → Prop) w :
  wp m Q L w → wp m Q' L' w → wp m (λ a w, Q a w ∧ Q' a w) (λ r w, L r w ∧ L' r w) w.
Proof. unfold wp. by destruct (m w) as [[r|a] w']. Qed.
(** After a part that respects [P], continue from any [P]-successor. *)
Lemma wp_bind_respects (P : W → W → Prop) {R A B} (m : M R A) (k : A → M R B) Q (L : R → W → Prop) w :
  respects P m → (∀ a w', P w w' → wp (k a) Q L w') → (∀ r w', P w w' → L r w') →
  wp (bind m k) Q L w.
Proof. intros Hm Hk HL. apply wp_bind. eapply wp_mono; [apply Hm|..]; simpl; eauto. Qed.

(** A loop, with what holds after each prefix of the list. *)
Lemma wp_foreach {R A B} (I : list A → B → W → Prop) (f : B → A → M R B) (L : R → W → Prop) l b w :
  (∀ pre x b w, pre ++ [x] `prefix_of` l → I pre b w → wp (f b x) (I (pre ++ [x])) L w) →
  I [] b w → wp (foreach f l b) (I l) L w.
Proof.
  intros Hf. enough (∀ l2 l1 b w, l = l1 ++ l2 → I l1 b w → wp (foreach f l2 b) (I l) L w) as Hgen
    by (intros; by apply (Hgen l [])).
  clear b w. induction l2 as [|x l2 IH]; intros l1 b w -> HI; simpl.
  - rewrite app_nil_r. by apply wp_ret.
  - apply wp_bind. eapply wp_mono; [apply Hf; [|exact HI]| |done].
    + exists l2. by rewrite <- app_assoc.
    + cbn beta. intros b' w' HI'. apply (IH (l1 ++ [x])); [by rewrite <- app_assoc|done].
Qed.

(** [respects] is closed under the constructs of the monad. *)
Section Respects.
Context (P : W → W → Prop) `{!PreOrder P}.

Lemma respects_ret {R A} (a : A) : respects P (ret a : M R A).
Proof. intros w. by apply wp_ret. Qed.
Lemma respects_leave {R A} (r : R) : respects P (leave r : M R A).
Proof. intros w. by apply wp_leave. Qed.
Lemma respects_bind {R A B} (m : M R A) (k : A → M R B) :
  respects P m → (∀ a, respects P (k a)) → respects P (bind m k).
Proof.
  intros Hm Hk w. apply wp_bind. eapply wp_mono; [apply Hm| |done].
  intros a w' Hw. eapply wp_mono; [apply Hk|..]; simpl; intros; by transitivity w'.
Qed.
Lemma respects_foreach {R A B} (f : B → A → M R B) l b :
  (∀ b x, respects P (f b x)) → respects P (foreach f l b).
Proof.
  intros Hf. revert b. induction l; intros b; [apply respects_ret|].
  apply respects_bind; auto.
Qed.
Lemma respects_call {R A} (f : W → A * W) :
  (∀ w, P w (f w).2) → respects P (call f : M R A).
Proof. intros H w. apply wp_call, H. Qed.
Lemma respects_run {R} (m : M R R) w : respects P m → P w (run m w).2.
Proof. intros H. apply (wp_run m (λ _, P w)), H. Qed.
Lemma respects_deferring {A} (body : W → A * W) (d : A → M A unit) w :
  (∀ w, P w (body w).2) → (∀ a, respects P (d a)) → P w (deferring body d w).2.
Proof.
  intros Hb Hd. unfold deferring. specialize (Hb w). destruct (body w) as [a w']; simpl in *.
  etrans; [exact Hb|]. specialize (Hd a w'). unfold wp in Hd.
  by destruct (d a w') as [[r|u] w''].
Qed.
End Respects.
End Wp.

(** ** Atomic steps

    What one process can do to the world between two of its external calls,
    as a step relation restricted to a footprint [allow].  A handler is shown
    to be a sequence of steps in its footprint; an invariant of the steps is
    then an invariant of every interleaving of handlers. *)

Inductive effect :=
| FSql (s : stmt) | FKv (k : string) | FGoogle (q : greq) | FTelegram (name : string)
| FLocal (uid : Z) | FPublish (uid : Z) | FRevoke.

Inductive wstep {kv} `{!Valkey kv} (allow : effect → Prop) : World kv → World kv → Prop :=
| step_tick w : wstep allow w (bump w)
| step_sql now s d' r w :
    allow (FSql s) → exec now s (db w) = inr (d', r) →
    wstep allow w (log (EvSql s true) (set_db d' w))
| step_sql_failed s w : allow (FSql s) → wstep allow w (log (EvSql s false) w)
| step_kv_set now k v ttl w :
    allow (FKv k) → wstep allow w (set_store (vk_set now k v ttl (store w)) w)
| step_kv_del now k w :
    allow (FKv k) → wstep allow w (set_store (vk_del now k (store w)) w)
| step_google q r w : allow (FGoogle q) → wstep allow w (log (EvGoogle q r) w)
| step_telegram name details w :
    allow (FTelegram name) → wstep allow w (log (EvTelegram name details) w)
| step_local f uid w :
    allow (FLocal uid) → (∀ v, v ≠ uid → v ∈ f (syncingUsers w) ↔ v ∈ syncingUsers w) →
    wstep allow w (set_local (f (syncingUsers w)) w)
| step_publish uid err w :
    allow (FPublish uid) → wstep allow w (log (EvPublishSync uid err) w)
| step_revoke token w : allow FRevoke → wstep allow w (log (EvRevoke token) w).

Abbreviation wsteps allow := (rtc (wstep allow)).

Section Steps.
Context {kv : Type} `{!Valkey kv} (E : Env) (allow : effect → Prop).
Abbreviation W := (World kv).

Lemma step_bump w w' : wsteps allow w w' → wsteps allow w (bump w').
Proof. intros H. eapply rtc_r; [exact H|constructor]. Qed.

Lemma set_store_same (w : W) : set_store (store w) w = w.
Proof. by destruct w. Qed.

(** A statement took effect, with or without an acknowledgement, or did not. *)
Lemma wp_sql_exec {R} s (Q : error + returned → W → Prop) (L : R → W → Prop) w :
  (∀ d' r e, exec (clock E (tick w)) s (db w) = inr (d', r) → e = inr r ∨ (∃ x, e = inl x) →
     Q e (bump (log (EvSql s true) (set_db d' w)))) →
  (∀ e, Q (inl e) (bump (log (EvSql s false) w))) → wp (sql_exec E s) Q L w.
Proof.
  intros Hok Hko. apply wp_ext. destruct (fate_db E (tick w)) as [|e|e]; simpl; [|done|];
    (destruct (exec _ _ _) as [e'|[d' r]] eqn:Hx; simpl; [done|eapply Hok; eauto]).
Qed.
Lemma wp_sql_done {R} s d' r (Q : error + returned → W → Prop) (L : R → W → Prop) w :
  fate_db E (tick w) = Done → exec (clock E (tick w)) s (db w) = inr (d', r) →
  Q (inr r) (bump (log (EvSql s true) (set_db d' w))) → wp (sql_exec E s) Q L w.
Proof. intros Hf He HQ. apply wp_ext. by rewrite Hf, He. Qed.
Lemma wp_rows_done {R A} rep (q : Z → DB → list A) (Q : error + list A → W → Prop) (L : R → W → Prop) w :
  fate_db E (tick w) = Done →
  Q (inr (deliver E (tick w) (q (clock E (tick w)) (view E rep (tick w) (db w))))) (bump w) →
  wp (sql_rows E rep q) Q L w.
Proof. intros Hf HQ. apply wp_ext. by rewrite Hf. Qed.
Lemma steps_sql_exec {R} s : allow (FSql s) → respects (wsteps allow) (sql_exec E s : M R _).
Proof.
  intros Ha w. apply wp_sql_exec; intros; apply step_bump, rtc_once.
  - by eapply step_sql.
  - by apply step_sql_failed.
Qed.
Lemma steps_query {R A} rep (q : Z → DB → A) : respects (wsteps allow) (sql_query E rep q : M R _).
Proof. intros w. apply wp_ext, step_bump. done. Qed.
Lemma steps_rows {R A} rep (q : Z → DB → list A) : respects (wsteps allow) (sql_rows E rep q : M R _).
Proof. intros w. apply wp_ext, step_bump. done. Qed.
Lemma steps_rows_checked {R A} rep (q : Z → DB → list A) :
  respects (wsteps allow) (sql_rows_checked E rep q : M R _).
Proof. intros w. apply wp_ext, step_bump. done. Qed.
Lemma steps_rows_err {R A} rep (q : Z → DB → list A) :
  respects (wsteps allow) (sql_rows_err E rep q : M R _).
Proof. intros w. apply wp_ext, step_bump. done. Qed.
(** A batch that took effect is the sequence of its statements. *)
Lemma batch_steps now l d' (w : W) :
  Forall (λ s, allow (FSql s)) l → exec_batch now l (db w) = inr d' →
  wsteps allow w (foldl (λ w s, log (EvSql s true) w) (set_db d' w) l).
Proof.
  intros Hl. revert w. induction Hl as [|s l Hs _ IH]; intros w; simpl.
  - intros [= <-]. by destruct w.
  - destruct (exec now s (db w)) as [e|[d1 r]] eqn:Hx; [done|]. intros Hb.
    eapply rtc_l; [by eapply step_sql|]. apply (IH (log (EvSql s true) (set_db d1 w))). done.
Qed.
Lemma steps_batch {R} l :
  Forall (λ s, allow (FSql s)) l → respects (wsteps allow) (sql_batch E l : M R _).
Proof.
  intros Hl w. apply wp_ext, step_bump. cbv zeta.
  destruct (fate_db E (tick w)); try done;
    (destruct (exec_batch _ l (db w)) eqn:Hb; [done|]; by eapply batch_steps).
Qed.
Lemma steps_kv_get {R} k : respects (wsteps allow) (kv_get E k : M R _).
Proof. intros w. apply wp_ext, step_bump. done. Qed.
Lemma steps_kv_set {R} k v ttl : allow (FKv k) → respects (wsteps allow) (kv_set E k v ttl : M R _).
Proof.
  intros Ha w. apply wp_ext, step_bump. destruct (fate_kv E (tick w)); simpl; [|done|];
    apply rtc_once; by apply step_kv_set.
Qed.
Lemma steps_kv_del {R} k : allow (FKv k) → respects (wsteps allow) (kv_del E k : M R _).
Proof.
  intros Ha w. apply wp_ext, step_bump. destruct (fate_kv E (tick w)); simpl; [|done|];
    apply rtc_once; by apply step_kv_del.
Qed.
Lemma steps_kv_setnx {R} k v ttl : allow (FKv k) → respects (wsteps allow) (kv_setnx E k v ttl : M R _).
Proof.
  intros Ha w. apply wp_ext, step_bump. unfold vk_setnx.
  destruct (vk_get _ _ _), (fate_kv E (tick w)); simpl; rewrite ?set_store_same; try done;
    apply rtc_once; by apply step_kv_set.
Qed.
Lemma steps_google {R} q : allow (FGoogle q) → respects (wsteps allow) (google_do E q : M R _).
Proof. intros Ha w. apply wp_ext, step_bump, rtc_once. by apply step_google. Qed.
Lemma steps_new_service {R} : respects (wsteps allow) (new_calendar_service E : M R _).
Proof. intros w. apply wp_ext, step_bump. done. Qed.
Lemma steps_sleep {R} : respects (wsteps allow) (sleep : M R _).
Proof. intros w. apply wp_ext, step_bump. done. Qed.
Lemma steps_now {R} : respects (wsteps allow) (time_now E : M R _).
Proof. intros w. apply wp_ext, step_bump. done. Qed.
Lemma steps_telegram {R} n d : allow (FTelegram n) → respects (wsteps allow) (telegram n d : M R _).
Proof. intros Ha w. apply rtc_once. by apply step_telegram. Qed.

Lemma wsteps_mono (allow' : effect → Prop) (w w' : W) :
  (∀ e, allow e → allow' e) → wsteps allow w w' → wsteps allow' w w'.
Proof.
  intros Ha. apply rtc_subrel. intros w1 w2. destruct 1; econstructor; eauto.
Qed.

(** An invariant of single steps is an invariant of runs. *)
Lemma wsteps_invariant (I : W → Prop) w w' :
  (∀ w w', wstep allow w w' → I w → I w') → wsteps allow w w' → I w → I w'.
Proof. intros Hs Hr. induction Hr; eauto. Qed.
Lemma wsteps_preorder (P : W → W → Prop) `{!PreOrder P} w w' :
  (∀ w w', wstep allow w w' → P w w') → wsteps allow w w' → P w w'.
Proof. intros Hs Hr. induction Hr; [done|]. etrans; eauto. Qed.
End Steps.

(** Footprint lemmas of the parts, for the parts that call them. *)
Create HintDb sync_steps discriminated.
#[export] Hint Constants Opaque : sync_steps.

(** Show that a computation is a sequence of steps, following its structure;
    [allow ()] closes the goals that an effect is in the footprint. *)
Ltac wsteps1 allow :=
  first [ solve [auto 2 with sync_steps nocore]
        | apply respects_ret; exact _ | apply respects_leave; exact _
        | apply steps_query | apply steps_rows | apply steps_rows_checked | apply steps_rows_err
        | apply steps_kv_get | apply steps_new_service | apply steps_sleep | apply steps_now
        | apply steps_sql_exec; allow () | apply steps_kv_set; allow () | apply steps_kv_del; allow ()
        | apply steps_kv_setnx; allow () | apply steps_google; allow () | apply steps_telegram; allow ()
        | apply respects_foreach; [exact _|intros] | apply respects_bind; [exact _| |intros]
        | case_match ].
Ltac wsteps_with allow := repeat first [ wsteps1 allow | progress intros | progress cbv zeta ].

(** The schema's integrity survives every step of every handler. *)
Lemma wstep_wf {kv} `{!Valkey kv} allow (w w' : World kv) :
  wstep allow w w' → wf_db (db w) → wf_db (db w').
Proof. destruct 1; simpl; eauto with cs. Qed.

Lemma wsteps_tick {kv} `{!Valkey kv} allow (w w' : World kv) :
  wsteps allow w w' → (tick w ≤ tick w')%nat.
Proof. induction 1 as [|w1 w2 w3 Hs]; [done|]. destruct Hs; simpl in *; lia. Qed.

(** The trace only grows. *)
Lemma wstep_trace {kv} `{!Valkey kv} allow (w w' : World kv) :
  wstep allow w w' → ∃ l, trace w' = trace w ++ l.
Proof. destruct 1; simpl; eauto using app_nil_r; exists []; by rewrite app_nil_r. Qed.

Lemma wsteps_trace {kv} `{!Valkey kv} allow (w w' : World kv) :
  wsteps allow w w' → ∃ l, trace w' = trace w ++ l.
Proof.
  induction 1 as [w|w1 w2 w3 Hs _ [l IH]]; [exists []; by rewrite app_nil_r|].
  apply wstep_trace in Hs as [l' Hl]. exists (l' ++ l). by rewrite IH, Hl, app_assoc.
Qed.

(** [said e w w']: [e] was logged between [w] and [w']. *)
Definition said {kv} (e : event) (w w' : World kv) : Prop :=
  ∃ l, trace w' = trace w ++ l ∧ e ∈ l.
Lemma said_l {kv} `{!Valkey kv} allow e (w w1 w2 : World kv) :
  wsteps allow w w1 → said e w1 w2 → said e w w2.
Proof.
  intros [l Hl]%wsteps_trace (l' & Hl' & He). exists (l ++ l').
  rewrite Hl', Hl, app_assoc. set_solver.
Qed.
Lemma said_r {kv} `{!Valkey kv} allow e (w w1 w2 : World kv) :
  said e w w1 → wsteps allow w1 w2 → said e w w2.
Proof.
  intros (l' & Hl' & He) [l Hl]%wsteps_trace. exists (l' ++ l).
  rewrite Hl, Hl', app_assoc. set_solver.
Qed.

(** Keys outside the footprint keep their value. *)
Lemma wstep_kv_frame {kv} `{!Valkey kv} (allow : effect → Prop) k (w w' : World kv) :
  ¬ allow (FKv k) → wstep allow w w' → ∀ t, vk_get t k (store w') = vk_get t k (store w).
Proof.
  intros Hn. destruct 1; intros t; simpl; try done.
  - apply vk_get_set_ne. by intros ->.
  - apply vk_get_del_ne. by intros ->.
Qed.
Lemma wsteps_kv_frame {kv} `{!Valkey kv} (allow : effect → Prop) k (w w' : World kv) t :
  ¬ allow (FKv k) → wsteps allow w w' → vk_get t k (store w') = vk_get t k (store w).
Proof.
  intros Hn Hr. induction Hr as [|w1 w2 w3 Hs _ IH]; [done|].
  rewrite IH. by eapply wstep_kv_frame.
Qed.

(** ** [encoding/json] of the cached values

    A value the program stores is read back as itself. *)
Class Codec (A : Type) := {
  marshal : A → option string;
  unmarshal : string → option A;
  unmarshal_marshal : ∀ a s, marshal a = Some s → unmarshal s = Some a }.

(** A codec for any countable type, to run the model. *)
Fixpoint pos_str (p : positive) : string :=
  match p with xH => "" | xO p => String "0"%char (pos_str p) | xI p => String "1"%char (pos_str p) end.
Fixpoint str_pos (s : string) : positive :=
  match s with
  | "" => xH
  | String c s => if decide (c = "0"%char) then xO (str_pos s) else xI (str_pos s)
  end.
Lemma str_pos_str p : str_pos (pos_str p) = p.
Proof. induction p; simpl; congruence. Qed.
Definition countable_codec `{Countable A} : Codec A.
Proof.
  refine {| marshal a := Some (pos_str (encode a)); unmarshal s := decode (str_pos s) |}.
  intros a s [= <-]. by rewrite str_pos_str, decode_encode.
Defined.
