(* ===== verification/Syncer.v ===== *)
(** * The synchronisation engine ([internal/sync/sync.go])

    [SyncUser] whole: the lock, the cached profile, the calendar, the removal
    of events of unselected platforms, the synced set, the contests, the
    insertion loop with its retries, and the deferred status update and
    unlock, in the order in which Go runs them.  Log lines are left out. *)

From stdpp Require Import base gmap strings list sets.
From Stdlib Require Import ZArith Lia Ascii.
From S2P Require Import Prelude GoStrings Models Database GoTime Auth EventID Effects.
Local Open Scope go_scope.

(** ** Helpers *)

Definition nl : string := String (Ascii.ascii_of_nat 10) "".

Definition EscapeTelegramHTML (text : string) : string :=
  let text := ReplaceAll text "&" "&amp;" in
  let text := ReplaceAll text "<" "&lt;" in
  let text := ReplaceAll text ">" "&gt;" in
  text.

(** [gErr, ok := err.( *googleapi.Error); ok && gErr.Code == code] *)
Definition is_code (code : Z) (e : error) : bool := bool_decide (gapi_code e = Some code).
Definition StatusNotFound : Z := 404.
Definition StatusConflict : Z := 409.

(** The test of [handleSyncError] on the error's text. *)
Definition revoked (e : error) : bool :=
  Contains (Error e) "invalid_grant" || Contains (Error e) "Token has been expired or revoked".

(** [errStr] of the failure notification: cut at the first "@" that is not
    the first character. *)
Definition redact (errStr : string) : string :=
  match Index errStr "@" with
  | Some (S i) => stake (S i) errStr +:+ "[REDACTED]"
  | _ => errStr
  end.

Definition already_syncing : error := errorf "user already syncing".
Definition syncLockTTL : Z := 5 * Minute.
Definition lastSyncTTL : Z := Hour.

(** [ReadDB != nil], [Valkey != nil], [OnTelegramEvent != nil], and the key. *)
Record Syncer := {
  s_ReadDB : bool; s_Valkey : bool; s_OnTelegramEvent : bool; s_EncryptionKey : string }.

(** The event built for a contest. *)
Definition contest_event (googleID timezone : string) (c : Contest) : gevent := {|
  ev_Id := GenerateDeterministicEventID googleID (ct_ID c);
  ev_Summary := "[" +:+ ct_Platform c +:+ "] " +:+ ct_Name c;
  ev_Description := "Platform: " +:+ ct_Platform c +:+ nl +:+ "URL: " +:+ ct_URL c
                    +:+ nl +:+ nl +:+ "Synced by ContestSync";
  ev_Location := ct_URL c;
  ev_Start := FormatRFC3339 (ct_StartTime c); ev_End := FormatRFC3339 (ct_EndTime c);
  ev_TimeZone := timezone;
  ev_UseDefault := false; ev_Overrides := [("popup", 30%Z); ("popup", 10%Z); ("email", 60%Z)];
  ev_Transparency := "opaque"; ev_Status := "" |}.
Definition confirmed (ev : gevent) : gevent := {|
  ev_Id := ev_Id ev; ev_Summary := ev_Summary ev; ev_Description := ev_Description ev;
  ev_Location := ev_Location ev; ev_Start := ev_Start ev; ev_End := ev_End ev;
  ev_TimeZone := ev_TimeZone ev; ev_UseDefault := ev_UseDefault ev; ev_Overrides := ev_Overrides ev;
  ev_Transparency := ev_Transparency ev; ev_Status := "confirmed" |}.

Section Sync.
Context {kv : Type} `{!Valkey kv} `{!AEAD}
  `{!Codec CachedUser} `{!Codec (list string)} `{!Codec (list Contest)}.
Context (E : Env) (s : Syncer).
Abbreviation W := (World kv).
Abbreviation Go := (@M kv).

(** [json.Marshal] then [Set]; both failures are only logged. *)
Definition cache_put {R A} `{!Codec A} (k : string) (a : A) (ttl : Z) : Go R unit :=
  match marshal a with
  | Some v => _ <- kv_set E k v ttl ;; ret tt
  | None => ret tt
  end.
(** [Get] then [json.Unmarshal]: a hit only when both succeed. *)
Definition cache_get {R A} `{!Codec A} (k : string) : Go R (option A) :=
  r <- kv_get E k ;;
  ret (match r with inr v => unmarshal v | inl _ => None end).

(** ** Revoked tokens *)

Definition handleSyncError {R} (userID : Z) (err : option error) : Go R (bool * option error) :=
  match err with
  | None => ret (false, None)
  | Some e =>
      if revoked e then
        _ <- sql_exec E (DeleteUser userID) ;;
        (if s_Valkey s then _ <- kv_del E (UserCacheKey userID) ;; ret tt else ret tt) ;;;
        ret (true, None)
      else ret (false, Some e)
  end.

(** ** The profile *)

(** A row as [Scan] fills a zero [CachedUser]; a NULL refresh token cannot be
    scanned into a string.  [has_calendar_access] is not selected. *)
Definition scan_cached_user (id : Z) (u : user_row) : error + CachedUser :=
  match refresh_token u with
  | None => inl (errorf "cannot scan NULL into *string")
  | Some tok => inr {|
      cu_ID := id; cu_GoogleID := google_id u; cu_Email := email u; cu_RefreshToken := tok;
      cu_CalendarID := default "" (calendar_id u); cu_UseDedicated := use_dedicated u;
      cu_Platforms := default [] (platforms u); cu_HasCalendarAccess := false |}
  end.

Definition load_user (userID : Z) : Go (option error) CachedUser :=
  cached <- (if s_Valkey s then cache_get (UserCacheKey userID) else ret None) ;;
  match cached with
  | Some u => ret u
  | None =>
      r <- sql_query E (s_ReadDB s) (λ _ d, select_user userID d) ;;
      match r with
      | inl e => leave (Some e)
      | inr None => leave (Some (errorf "no rows in result set"))
      | inr (Some row) =>
          match scan_cached_user userID row with
          | inl e => leave (Some e)
          | inr u =>
              (if s_Valkey s then cache_put (UserCacheKey userID) u UserCacheTTL else ret tt) ;;;
              ret u
          end
      end
  end.

(** ** The calendar

    The body returns the error and [user.CalendarID], which the deferred
    notification reads. *)
Definition Ret : Type := option error * string.

Definition resolve_calendar (u : CachedUser) (userID : Z) (timezone : string) : Go Ret string :=
  if cu_UseDedicated u then
    if bool_decide (cu_CalendarID u ≠ "" ∧ cu_CalendarID u ≠ "primary")
    then ret (cu_CalendarID u)
    else
      r <- google_do E (CalendarsInsert "ContestSync" timezone) ;;
      match r with
      | inl e =>
          d <- handleSyncError userID (Some e) ;;
          if d.1 then leave (d.2, "primary") else ret "primary"
      | inr created =>
          _ <- sql_exec E (UpdateCalendarID (ok_Id created) userID) ;;
          (if s_Valkey s then _ <- kv_del E (UserCacheKey userID) ;; ret tt else ret tt) ;;;
          ret (ok_Id created)
      end
  else ret "primary".

(** ** Events of unselected platforms *)

(** At most three attempts; [attempts] counts those left. *)
Fixpoint delete_event {R} (attempts : nat) (cal geid : string) : Go R (option error) :=
  match attempts with
  | 0 => ret None
  | S n =>
      r <- google_do E (EventsDelete cal geid) ;;
      match r with
      | inr _ => ret None
      | inl e =>
          if is_code StatusNotFound e then ret (Some e)
          else if (n =? 0)%nat then ret (Some e) else (sleep ;;; delete_event n cal geid)
      end
  end.

Definition cleanup_item {R} (userID : Z) (cal : string) (_ : unit) (item : string * string) : Go R unit :=
  _ <- delete_event 3 cal item.2 ;;
  _ <- sql_exec E (DeleteSynced userID item.1) ;;
  ret tt.

Definition cleanup_unselected {R} (userID : Z) (cal : string) (ps : list string) : Go R unit :=
  r <- sql_rows E (s_ReadDB s) (λ _ d, select_synced_platforms userID d) ;;
  match r with
  | inl _ => ret tt
  | inr rows =>
      let listToDelete := omap (λ row, let '(cid, geid, plat) := row in
        if bool_decide (plat ∈ ps) then None else Some (cid, geid)) rows in
      foreach (cleanup_item userID cal) listToDelete tt
  end.

(** ** The synced set *)

Definition load_synced {R} (userID : Z) : Go R (gset string) :=
  cached <- (if s_Valkey s then cache_get (A := list string) (SyncedEventsCacheKey userID)
             else ret None) ;;
  match cached with
  | Some ids => ret (list_to_set ids)
  | None =>
      r <- sql_rows E (s_ReadDB s) (λ _ d, select_synced_ids userID d) ;;
      match r with
      | inl _ => ret ∅
      | inr ids =>
          (if s_Valkey s then cache_put (SyncedEventsCacheKey userID) ids SyncedEventsCacheTTL
           else ret tt) ;;;
          ret (list_to_set ids)
      end
  end.

(** ** The contests *)

Definition contests_of (p : string) (cs : list Contest) : list Contest :=
  filter (λ c, ct_Platform c = p) cs.

(** One round of the cache loop: the contests so far and the missed platforms. *)
Definition cached_platform {R} (acc : list Contest * list string) (p : string)
  : Go R (list Contest * list string) :=
  r <- cache_get (A := list Contest) (ContestsCacheKey p) ;;
  match r with
  | Some cs => ret (acc.1 ++ cs, acc.2)
  | None => ret (acc.1, acc.2 ++ [p])
  end.

Definition store_platform {R} (rows : list Contest) (acc : list Contest) (p : string)
  : Go R (list Contest) :=
  cache_put (ContestsCacheKey p) (contests_of p rows) ContestsCacheTTL ;;;
  ret (acc ++ contests_of p rows).

Definition load_contests (cal : string) (ps : list string) : Go Ret (list Contest) :=
  if s_Valkey s then
    acc <- foreach cached_platform ps ([], []) ;;
    match acc.2 with
    | [] => ret acc.1
    | missed =>
        r <- sql_rows E (s_ReadDB s) (λ now d, select_upcoming now missed d) ;;
        match r with
        | inl e => leave (Some e, cal)
        | inr rows => foreach (store_platform rows) missed acc.1
        end
    end
  else
    r <- sql_rows E (s_ReadDB s) (λ now d, select_upcoming now ps d) ;;
    match r with
    | inl e => leave (Some e, cal)
    | inr rows => ret rows
    end.

(** ** The insertion loop *)

Fixpoint insert_event (attempts : nat) (userID : Z) (cal : string) (ev : gevent) : Go Ret gresp :=
  match attempts with
  | 0 => ret (inl (errorf ""))
  | S n =>
      r <- google_do E (EventsInsert cal ev) ;;
      match r with
      | inr _ => ret r
      | inl e =>
          if is_code StatusConflict e then ret r
          else
            d <- handleSyncError userID (Some e) ;;
            if d.1 then leave (None, cal)
            else if (n =? 0)%nat then ret r else (sleep ;;; insert_event n userID cal ev)
      end
  end.

Fixpoint update_event {R} (attempts : nat) (cal : string) (ev : gevent) : Go R gresp :=
  match attempts with
  | 0 => ret (inl (errorf ""))
  | S n =>
      r <- google_do E (EventsUpdate cal (ev_Id ev) ev) ;;
      match r with
      | inr _ => ret r
      | inl e => if (n =? 0)%nat then ret r else (sleep ;;; update_event n cal ev)
      end
  end.

(** [INSERT INTO synced_events]; the result says whether it succeeded. *)
Definition record_synced {R} (userID : Z) (cid geid : string) : Go R bool :=
  r <- sql_exec E (InsertSynced userID cid geid) ;;
  ret (match r with inr _ => true | inl _ => false end).

(** A failed insert that is not a revoked token: logged, next contest. *)
Definition abandon (userID : Z) (cal : string) (any : bool) (e : error) : Go Ret bool :=
  d <- handleSyncError userID (Some e) ;;
  if d.1 then leave (d.2, cal) else ret any.

Definition sync_contest (userID : Z) (googleID cal timezone : string) (syncedMap : gset string)
  (any : bool) (c : Contest) : Go Ret bool :=
  if decide (ct_ID c ∈ syncedMap) then ret any
  else
    let event := contest_event googleID timezone c in
    r <- insert_event 3 userID cal event ;;
    match r with
    | inr ok =>
        b <- record_synced userID (ct_ID c) (ok_Id ok) ;;
        ret (any || b)
    | inl e =>
        if is_code StatusConflict e then
          u <- update_event 3 cal (confirmed event) ;;
          match u with
          | inr _ =>
              b <- record_synced userID (ct_ID c) (ev_Id event) ;;
              ret (any || b)
          | inl _ => abandon userID cal any e
          end
        else abandon userID cal any e
    end.

(** ** The body, once the profile is loaded *)

Definition sync_contests (u : CachedUser) (userID : Z) (cal timezone : string)
  (syncedMap : gset string) : Go Ret Ret :=
  match cu_Platforms u with
  | [] => leave (None, cal)
  | ps =>
      cs <- load_contests cal ps ;;
      any <- foreach (sync_contest userID (cu_GoogleID u) cal timezone syncedMap) cs false ;;
      (if any && s_Valkey s
       then _ <- kv_del E (SyncedEventsCacheKey userID) ;; ret tt else ret tt) ;;;
      ret (None, cal)
  end.

Definition sync_body (u : CachedUser) (userID : Z) : W → Ret * W := run (
  let cal0 := cu_CalendarID u in
  match DecryptToken (cu_RefreshToken u) (s_EncryptionKey s) with
  | inl e => leave (Some e, cal0)
  | inr _ =>
      srv <- new_calendar_service E ;;
      match srv with
      | Some e => leave (Some e, cal0)
      | None =>
          r <- google_do E (CalendarsGet "primary") ;;
          match r with
          | inl e =>
              d <- handleSyncError userID (Some e) ;;
              if d.1 then leave (None, cal0)
              else leave (Some (errorf ("failed to fetch primary calendar: " +:+ Error e)), cal0)
          | inr got =>
              let timezone := if decide (ok_TimeZone got = "") then "UTC" else ok_TimeZone got in
              cal <- resolve_calendar u userID timezone ;;
              cleanup_unselected userID cal (cu_Platforms u) ;;;
              syncedMap <- load_synced userID ;;
              sync_contests u userID cal timezone syncedMap
          end
      end
  end).

(** ** The deferred functions *)

Definition success_message (userID : Z) (cal : string) : string :=
  "🔄 <b>[USER CALENDAR SYNCED]</b>" +:+ nl +:+ nl +:+ "User ID: <b>" +:+ Itoa userID +:+ "</b>"
  +:+ nl +:+ "Calendar ID: <code>" +:+ EscapeTelegramHTML cal +:+ "</code>" +:+ nl
  +:+ "Status: ✅ <b>Success</b>".
Definition failure_message (userID : Z) (e : error) : string :=
  "⚠️ <b>[USER CALENDAR SYNC FAILED]</b>" +:+ nl +:+ nl +:+ "User ID: <b>" +:+ Itoa userID
  +:+ "</b>" +:+ nl +:+ "Error: <code>" +:+ EscapeTelegramHTML (redact (Error e)) +:+ "</code>".

(** After the status update: the last-sync time and the notification. *)
Definition report (userID : Z) (r : Ret) : Go Ret unit :=
  (if s_Valkey s then
     now <- time_now E ;;
     _ <- kv_set E (lastSyncKey userID) (FormatRFC3339 now) lastSyncTTL ;; ret tt
   else ret tt) ;;;
  if s_OnTelegramEvent s then
    match r.1 with
    | None => telegram "USER_SYNC_SUCCESS" (success_message userID r.2)
    | Some e => telegram "USER_SYNC_FAILURE" (failure_message userID e)
    end
  else ret tt.

Definition finish (userID : Z) (r : Ret) : Go Ret unit :=
  let status := match r.1 with None => success | Some _ => failed end in
  _ <- sql_exec E (UpdateStatus status userID) ;;
  report userID r.

(** ** [SyncUser] *)

(** What runs between taking the lock and releasing it. *)
Definition sync_locked (userID : Z) : W → option error * W := run (
  u <- load_user userID ;;
  _ <- sql_exec E (UpdateSyncing userID) ;;
  r <- call (deferring (sync_body u userID) (finish userID)) ;;
  ret r.1).

(** [s.syncingUsers.LoadOrStore(userID, true)]: whether it was there. *)
Definition load_or_store {R} (userID : Z) : Go R bool := λ w,
  (inr (bool_decide (userID ∈ syncingUsers w)), set_local ({[userID]} ∪ syncingUsers w) w).
Definition local_delete {R} (userID : Z) : Go R unit := λ w,
  (inr tt, set_local (syncingUsers w ∖ {[userID]}) w).

Definition SyncUser (userID : Z) : W → option error * W := run (
  if s_Valkey s then
    ok <- kv_setnx E (syncLockKey userID) "1" syncLockTTL ;;
    match ok with
    | inl e => leave (Some e)
    | inr false => leave (Some already_syncing)
    | inr true =>
        call (deferring (sync_locked userID)
                (λ _, _ <- kv_del E (syncLockKey userID) ;; ret tt))
    end
  else
    loaded <- load_or_store userID ;;
    if loaded then leave (Some already_syncing)
    else call (deferring (sync_locked userID) (λ _, local_delete userID))).
End Sync.
