(* ===== verification/SyncerFacts.v ===== *)
(** * What [SyncUser] guarantees

    The footprint of [SyncUser] as a sequence of atomic steps, and from it the
    isolation of users, the integrity of the schema and the frame of Valkey
    keys; then the lock, the status and the soundness of [synced_events]. *)

From stdpp Require Import base gmap strings list sets.
From Stdlib Require Import ZArith Lia Ascii.
From S2P Require Import Prelude GoStrings Models Database GoTime Auth EventID Effects Syncer.
Local Open Scope go_scope.

(** ** Footprint *)

(** The effects the synchronisation of [userID] may have between taking and
    releasing the lock. *)
Definition sync_stmt (userID : Z) (q : stmt) : Prop :=
  match q with
  | UpdateSyncing id | UpdateStatus _ id | UpdateCalendarID _ id | DeleteUser id
  | InsertSynced id _ _ | DeleteSynced id _ => id = userID
  | _ => False
  end.
Definition sync_key (userID : Z) (k : vkey) : Prop :=
  match k with
  | KUser u | KSynced u | KLastSync u => u = userID
  | KContests _ => True
  | _ => False
  end.
Definition sync_allow (userID : Z) (e : effect) : Prop :=
  match e with
  | FSql q => sync_stmt userID q
  | FKv k => ∃ vk, k = render vk ∧ sync_key userID vk
  | FGoogle q => match q with CalendarsDelete _ => False | CalendarsGet c => c = "primary" | _ => True end
  | FTelegram n => n = "USER_SYNC_SUCCESS" ∨ n = "USER_SYNC_FAILURE"
  | FLocal _ | FPublish _ | FRevoke => False
  end.
(** Those of [SyncUser userID], the lock included. *)
Definition syncuser_allow (userID : Z) (e : effect) : Prop :=
  sync_allow userID e ∨ e = FKv (syncLockKey userID) ∨ e = FLocal userID.

(** The same, with [INSERT INTO synced_events] only when [ins]: the parts of
    the engine other than the contest loop never record an event. *)
Definition not_insert (e : effect) : bool :=
  match e with FSql (InsertSynced _ _ _) => false | _ => true end.
Definition foot (userID : Z) (ins : bool) (e : effect) : Prop :=
  sync_allow userID e ∧ (not_insert e = true ∨ ins = true).

Section Facts.
Context {kv : Type} `{!Valkey kv} `{!AEAD}
  `{!Codec CachedUser} `{!Codec (list string)} `{!Codec (list Contest)}.
Context (E : Env) (s : Syncer).
Abbreviation W := (World kv).
Abbreviation Go := (@M kv).

Ltac allow _ :=
  try (split; [|by auto]); simpl;
  lazymatch goal with
  | |- ∃ vk, UserCacheKey ?u = _ ∧ _ => by exists (KUser u)
  | |- ∃ vk, SyncedEventsCacheKey ?u = _ ∧ _ => by exists (KSynced u)
  | |- ∃ vk, ContestsCacheKey ?p = _ ∧ _ => by exists (KContests p)
  | |- ∃ vk, lastSyncKey ?u = _ ∧ _ => by exists (KLastSync u)
  | |- syncuser_allow _ _ => unfold syncuser_allow; by auto
  | _ => by auto
  end.
Ltac steps := wsteps_with allow.

Section Foot.
Context (userID : Z) (ins : bool).
Abbreviation steps_ok m := (respects (wsteps (foot userID ins)) m).

Lemma handleSyncError_steps {R} e : steps_ok (handleSyncError E s userID e : Go R _).
Proof. unfold handleSyncError. steps. Qed.
#[local] Hint Resolve handleSyncError_steps : sync_steps.
Lemma load_user_steps : steps_ok (load_user E s userID).
Proof. unfold load_user, cache_get, cache_put. steps. Qed.
#[local] Hint Resolve load_user_steps : sync_steps.
Lemma resolve_calendar_steps u tz : steps_ok (resolve_calendar E s u userID tz).
Proof. unfold resolve_calendar. steps. Qed.
#[local] Hint Resolve resolve_calendar_steps : sync_steps.
Lemma delete_event_steps {R} n cal g : steps_ok (delete_event E n cal g : Go R _).
Proof. induction n; simpl; steps. Qed.
#[local] Hint Resolve delete_event_steps : sync_steps.
Lemma cleanup_steps {R} cal ps : steps_ok (cleanup_unselected E s userID cal ps : Go R _).
Proof. unfold cleanup_unselected, cleanup_item. steps. Qed.
#[local] Hint Resolve cleanup_steps : sync_steps.
Lemma load_synced_steps {R} : steps_ok (load_synced E s userID : Go R _).
Proof. unfold load_synced, cache_get, cache_put. steps. Qed.
#[local] Hint Resolve load_synced_steps : sync_steps.
Lemma load_contests_steps cal ps : steps_ok (load_contests E s cal ps).
Proof. unfold load_contests, cached_platform, store_platform, cache_get, cache_put. steps. Qed.
#[local] Hint Resolve load_contests_steps : sync_steps.
Lemma insert_event_steps n cal ev : steps_ok (insert_event E s n userID cal ev).
Proof. induction n; simpl; steps. Qed.
#[local] Hint Resolve insert_event_steps : sync_steps.
Lemma update_event_steps {R} n cal ev : steps_ok (update_event E n cal ev : Go R _).
Proof. induction n; simpl; steps. Qed.
#[local] Hint Resolve update_event_steps : sync_steps.
Lemma finish_steps r : steps_ok (finish E s userID r).
Proof. unfold finish, report. steps. Qed.
#[local] Hint Resolve finish_steps : sync_steps.
End Foot.
#[local] Hint Resolve handleSyncError_steps load_user_steps resolve_calendar_steps delete_event_steps
  cleanup_steps load_synced_steps load_contests_steps insert_event_steps update_event_steps
  finish_steps : sync_steps.

Section Whole.
Context (userID : Z).
Lemma sync_contest_steps gid cal tz m any c :
  respects (wsteps (foot userID true)) (sync_contest E s userID gid cal tz m any c).
Proof.
  unfold sync_contest, abandon, record_synced.
  steps.
Qed.
#[local] Hint Resolve sync_contest_steps : sync_steps.
Lemma sync_contests_steps u cal tz m : respects (wsteps (foot userID true)) (sync_contests E s u userID cal tz m).
Proof.
  unfold sync_contests. steps.
Qed.
#[local] Hint Resolve sync_contests_steps : sync_steps.
Lemma sync_body_steps u w : wsteps (foot userID true) w (sync_body E s u userID w).2.
Proof.
  unfold sync_body. apply (respects_run (wsteps (foot userID true))). steps.
Qed.
Lemma sync_locked_steps w : wsteps (foot userID true) w (sync_locked E s userID w).2.
Proof.
  unfold sync_locked. apply (respects_run (wsteps (foot userID true))). steps.
  apply respects_call. intros w'. apply (respects_deferring (wsteps (foot userID true))).
  - apply sync_body_steps.
  - apply finish_steps.
Qed.
Lemma sync_allow_mono w w' :
  wsteps (foot userID true) w w' → wsteps (syncuser_allow userID) w w'.
Proof. apply wsteps_mono. intros e [? _]. by left. Qed.
Lemma load_or_store_steps {R} :
  respects (wsteps (syncuser_allow userID)) (load_or_store userID : Go R _).
Proof.
  intros w. unfold wp, load_or_store. apply rtc_once.
  apply (step_local _ (λ l, {[userID]} ∪ l) userID); [by right; right|set_solver].
Qed.
Lemma local_delete_steps {R} :
  respects (wsteps (syncuser_allow userID)) (local_delete userID : Go R _).
Proof.
  intros w. unfold wp, local_delete. apply rtc_once.
  apply (step_local _ (λ l, l ∖ {[userID]}) userID); [by right; right|set_solver].
Qed.
#[local] Hint Resolve load_or_store_steps local_delete_steps : sync_steps.
Lemma SyncUser_wsteps w : wsteps (syncuser_allow userID) w (SyncUser E s userID w).2.
Proof.
  unfold SyncUser. apply (respects_run (wsteps (syncuser_allow userID))).
  steps; apply respects_call; intros w';
    (apply (respects_deferring (wsteps (syncuser_allow userID)));
     [intros; apply sync_allow_mono, sync_locked_steps|steps]).
Qed.
End Whole.

(** ** Isolation *)

(** Everything of user [v], and the tables that are not about users. *)
Definition same_for (v : Z) (d d' : DB) : Prop :=
  users d' !! v = users d !! v ∧
  (∀ c, synced_events d' !! (v, c) = synced_events d !! (v, c)) ∧
  contests d' = contests d ∧ oauth_states d' = oauth_states d ∧
  users_id_seq d' = users_id_seq d.

Lemma delete_other_same v p d :
  wf_db d → (∀ u, p v u = false) → same_for v d (delete_users p d).
Proof.
  intros Hwf Hp. split_and!; [|intros c|done..].
  - apply option_eq. intros u. rewrite delete_users_lookup, Hp. naive_solver.
  - apply option_eq. intros r. rewrite delete_users_synced. split; [naive_solver|].
    intros Hr. split; [done|]. destruct (wf_fk_user d Hwf v c r Hr) as [u Hu].
    exists u. rewrite delete_users_lookup, Hp. done.
Qed.
Lemma alter_other_same v id f d : id ≠ v → same_for v d (set_users (alter f id) d).
Proof. intros. split_and!; simpl; try done. by rewrite lookup_alter_ne. Qed.

Lemma sync_stmt_same v uid now q d d' r :
  uid ≠ v → wf_db d → sync_stmt uid q → exec now q d = inr (d', r) → same_for v d d'.
Proof.
  intros Hne Hwf Hq He. destruct q; simpl in Hq; try done; subst; simpl in He; simplify_eq/=;
    try by apply alter_other_same.
  - apply delete_other_same; [done|]. intros u. by apply bool_decide_eq_false.
  - unfold insert_synced in He. repeat case_match; simplify_eq; [done|].
    split_and!; simpl; try done. intros c. rewrite lookup_insert_ne; [done|congruence].
  - split_and!; simpl; try done. intros c. rewrite lookup_delete_ne; [done|congruence].
Qed.

(** Steps of synchronisations of other users, in any interleaving. *)
Definition others_allow (v : Z) (e : effect) : Prop := ∃ u, u ≠ v ∧ syncuser_allow u e.

Lemma others_step v (w w' : W) :
  wstep (others_allow v) w w' → wf_db (db w) → same_for v (db w) (db w').
Proof.
  destruct 1 as [|now q d' r w (u & Hu & [Ha|[|]]) He| | | | | | | |]; intros Hwf; simpl; try done.
  by eapply sync_stmt_same.
Qed.
Lemma others_steps v (w w' : W) :
  wsteps (others_allow v) w w' → wf_db (db w) → wf_db (db w') ∧ same_for v (db w) (db w').
Proof.
  induction 1 as [w|w1 w2 w3 Hs _ IH]; intros Hwf; [done|].
  destruct (others_step v w1 w2 Hs Hwf) as (A1 & A2 & A3 & A4 & A5).
  destruct IH as (Hwf3 & B1 & B2 & B3 & B4 & B5); [by eapply wstep_wf|].
  split; [done|]. split_and!; congruence || (intros c; by rewrite B2, A2).
Qed.
Lemma SyncUser_others userID v w :
  userID ≠ v → wsteps (others_allow v) w (SyncUser E s userID w).2.
Proof. intros Hv. eapply wsteps_mono; [|apply SyncUser_wsteps]. by exists userID. Qed.
Lemma SyncUser_wf userID w : wf_db (db w) → wf_db (db (SyncUser E s userID w).2).
Proof.
  apply (wsteps_invariant (syncuser_allow userID) (λ w, wf_db (db w))).
  - apply wstep_wf.
  - apply SyncUser_wsteps.
Qed.

(** ** The Valkey frame *)

Lemma sync_key_frame userID vk :
  ¬ sync_key userID vk → vk ≠ KLock userID → ¬ syncuser_allow userID (FKv (render vk)).
Proof.
  intros H1 H2 [(vk' & Heq & Hk)|[[= Heq]|]]; [|change (syncLockKey userID) with (render (KLock userID)) in Heq|done].
  - apply (inj render) in Heq as ->. done.
  - apply (inj render) in Heq as ->. done.
Qed.

(** ** The lock *)

Lemma sync_allow_not_lock userID v : ¬ sync_allow userID (FKv (syncLockKey v)).
Proof.
  intros (vk & Heq & Hk). change (syncLockKey v) with (render (KLock v)) in Heq.
  apply (inj render) in Heq as <-. done.
Qed.
Lemma sync_locked_local userID w : syncingUsers (sync_locked E s userID w).2 = syncingUsers w.
Proof.
  pose proof (sync_locked_steps userID w) as Hs. induction Hs as [|w1 w2 w3 Hs _ IH]; [done|].
  rewrite IH. destruct Hs as [| | | | | | |f u w [Hf _] _| |]; done.
Qed.

(** The world right after a successful SETNX at [w], and what [SyncUser] is then. *)
Definition acquired userID (w : W) : W :=
  bump (set_store (vk_set (clock E (tick w)) (syncLockKey userID) "1" syncLockTTL (store w)) w).
Definition release userID (w : W) : W :=
  ((kv_del E (syncLockKey userID) : Go (option error) (option error)) w).2.
Lemma SyncUser_acquired userID w :
  s_Valkey s = true → fate_kv E (tick w) = Done →
  vk_get (clock E (tick w)) (syncLockKey userID) (store w) = None →
  SyncUser E s userID w =
  ((sync_locked E s userID (acquired userID w)).1,
   release userID (sync_locked E s userID (acquired userID w)).2).
Proof.
  intros Hv Hf Hg. unfold SyncUser, run. rewrite Hv.
  unfold bind at 1, kv_setnx, ext at 1, vk_setnx. rewrite Hg, Hf. simpl.
  unfold call, deferring, acquired. destruct (sync_locked E s userID _) as [r w1]. simpl.
  unfold release, bind, kv_del, kv_write, ext. by destruct (fate_kv E (tick w1)).
Qed.
Lemma release_absent userID w t :
  (∀ e, fate_kv E (tick w) ≠ Lost e) → vk_get t (syncLockKey userID) (store (release userID w)) = None.
Proof.
  intros Hl. unfold release, kv_del, kv_write, ext.
  destruct (fate_kv E (tick w)) eqn:Hd; simpl; [apply vk_get_del_eq| |apply vk_get_del_eq].
  by destruct (Hl e).
Qed.
Lemma release_tick userID w : tick (release userID w) = S (tick w).
Proof. unfold release, kv_del, kv_write, ext. by destruct (fate_kv E (tick w)). Qed.
End Facts.
