(* ===== verification/SyncSound.v ===== *)
(** * Soundness of the recorded events

    No row enters [synced_events] unless Google confirmed the event: the
    lemmas that follow the insertion loop of [SyncUser] with its retries. *)

From stdpp Require Import base gmap strings list sets.
From Stdlib Require Import ZArith Lia Ascii.
From S2P Require Import Prelude GoStrings Models Database GoTime Auth EventID Effects Syncer.
From S2P Require Import SyncerFacts.
Local Open Scope go_scope.

(** Google confirmed an event [g] for contest [c] of the Google account [gid]:
    an insert of the contest's event answered with [g], or a successful update
    of the event with the deterministic identifier. *)
Definition confirmed_by (gid : string) (l : list event) (c g : string) : Prop :=
  ∃ cal tz ct ok, ct_ID ct = c ∧
    ((EvGoogle (EventsInsert cal (contest_event gid tz ct)) (inr ok) ∈ l ∧ ok_Id ok = g) ∨
     (EvGoogle (EventsUpdate cal g (confirmed (contest_event gid tz ct))) (inr ok) ∈ l ∧
      g = GenerateDeterministicEventID gid c)).

(** Every row of [uid] at [w'] was there at [w] or was confirmed in between. *)
Definition justified {kv} (gid : string) (uid : Z) (w w' : World kv) : Prop :=
  ∃ l, trace w' = trace w ++ l ∧
    ∀ c r, synced_events (db w') !! (uid, c) = Some r →
      synced_events (db w) !! (uid, c) = Some r ∨ confirmed_by gid l c (google_event_id r).

Lemma confirmed_by_sub gid l l' c g :
  (∀ e, e ∈ l → e ∈ l') → confirmed_by gid l c g → confirmed_by gid l' c g.
Proof. unfold confirmed_by. naive_solver. Qed.

#[export] Instance justified_preorder {kv} gid uid : PreOrder (@justified kv gid uid).
Proof.
  split.
  - intros w. exists []. rewrite app_nil_r. auto.
  - intros w1 w2 w3 (l & Hl & H1) (l' & Hl' & H2). exists (l ++ l').
    split; [by rewrite Hl', Hl, app_assoc|]. intros c r Hr.
    destruct (H2 c r Hr) as [Hr'|Hc].
    + destruct (H1 c r Hr') as [?|Hc]; [by left|right].
      eapply confirmed_by_sub; [|exact Hc]. set_solver.
    + right. eapply confirmed_by_sub; [|exact Hc]. set_solver.
Qed.

(** Statements other than the insert only remove rows of [synced_events]. *)
Lemma sync_stmt_rows uid now q d d' r k x :
  sync_stmt uid q → not_insert (FSql q) = true → exec now q d = inr (d', r) →
  synced_events d' !! k = Some x → synced_events d !! k = Some x.
Proof.
  intros Hq Hn He Hx. destruct q; simpl in Hq, Hn; try done; simpl in He; simplify_eq/=; try done.
  - by rewrite map_lookup_filter_Some in Hx; destruct Hx.
  - by apply lookup_delete_Some in Hx as [_ ?].
Qed.

(** Steps that do not insert into [synced_events]. *)
Definition unrecorded (uid : Z) (e : effect) : Prop :=
  match e with FSql q => sync_stmt uid q ∧ not_insert e = true | _ => True end.
Lemma unrecorded_justified {kv} `{!Valkey kv} gid uid (w w' : World kv) :
  wsteps (unrecorded uid) w w' → justified gid uid w w'.
Proof.
  apply wsteps_preorder; [exact _|]. clear w w'. intros w w' Hs.
  pose proof (wstep_trace _ _ _ Hs) as [l Hl]. exists l. split; [done|].
  intros c r Hr. left. destruct Hs as [|now q d' x w [Ha Hn] He| | | | | | | |]; simpl in *; try done.
  by eapply sync_stmt_rows.
Qed.
Lemma foot_justified {kv} `{!Valkey kv} gid uid (w w' : World kv) :
  wsteps (foot uid false) w w' → justified gid uid w w'.
Proof.
  intros Hs. apply unrecorded_justified. eapply wsteps_mono; [|exact Hs].
  intros [] [? []]; done.
Qed.

Section Sound.
Context {kv : Type} `{!Valkey kv} `{!AEAD}
  `{!Codec CachedUser} `{!Codec (list string)} `{!Codec (list Contest)}.
Context (E : Env) (s : Syncer) (uid : Z).
Abbreviation W := (World kv).
Abbreviation Go := (@M kv).
Abbreviation quiet := (wsteps (foot uid false)).

Lemma google_said {R} q (w : W) (Q : gresp → W → Prop) (L : R → W → Prop) :
  (∀ r w', said (EvGoogle q r) w w' → Q r w') → wp (google_do E q) Q L w.
Proof.
  intros HQ. apply wp_ext. apply HQ. exists [EvGoogle q (google E (tick w) q)].
  split; [done|set_solver].
Qed.

(** A value returned by the retry loops was said by Google. *)
Lemma insert_event_said n cal ev (w : W) :
  wp (insert_event E s n uid cal ev)
    (λ r w', quiet w w' ∧ ∀ ok, r = inr ok → said (EvGoogle (EventsInsert cal ev) (inr ok)) w w')
    (λ _ w', quiet w w') w.
Proof.
  enough (∀ w, wp (insert_event E s n uid cal ev)
    (λ r w', ∀ ok, r = inr ok → said (EvGoogle (EventsInsert cal ev) (inr ok)) w w')
    (λ _ _, True) w) as Hsaid.
  { eapply wp_mono; [apply wp_and; [apply (insert_event_steps E s uid false)|apply Hsaid]|..];
      simpl; intros; [done|tauto]. }
  clear w. induction n as [|n IH]; intros w; simpl; [done|].
  apply wp_bind, google_said. intros [e|ok] w1 Hs; [|intros ? [= <-]; done].
  destruct (is_code _ e); [done|].
  destruct Hs as (l & Hl & _).
  apply (wp_bind_respects quiet); [apply (handleSyncError_steps E s uid false (Some e))| |done].
  intros [del er] w2 [l2 Hl2]%wsteps_trace. simpl. destruct del; [done|].
  destruct (n =? 0)%nat; [done|].
  apply (wp_bind_respects quiet); [apply steps_sleep| |done].
  intros _ w3 [l3 Hl3]%wsteps_trace. eapply wp_mono; [apply IH| |done].
  simpl. intros r w' Hr ok ->. destruct (Hr ok eq_refl) as (l4 & Hl4 & Hin).
  exists (l ++ l2 ++ l3 ++ l4). rewrite Hl4, Hl3, Hl2, Hl, !app_assoc. set_solver.
Qed.

Lemma update_event_said {R} n cal ev (w : W) :
  wp (update_event E n cal ev : Go R _)
    (λ r w', quiet w w' ∧ ∀ ok, r = inr ok → said (EvGoogle (EventsUpdate cal (ev_Id ev) ev) (inr ok)) w w')
    (λ _ w', quiet w w') w.
Proof.
  enough (∀ w, wp (update_event E n cal ev : Go R _)
    (λ r w', ∀ ok, r = inr ok → said (EvGoogle (EventsUpdate cal (ev_Id ev) ev) (inr ok)) w w')
    (λ _ _, True) w) as Hsaid.
  { eapply wp_mono; [apply wp_and; [apply (update_event_steps E uid false)|apply Hsaid]|..];
      simpl; intros; [done|tauto]. }
  clear w. induction n as [|n IH]; intros w; simpl; [done|].
  apply wp_bind, google_said. intros [e|ok] w1 Hs; [|intros ? [= <-]; done].
  destruct (n =? 0)%nat; [done|]. destruct Hs as (l & Hl & _).
  apply (wp_bind_respects quiet); [apply steps_sleep| |done].
  intros _ w3 [l3 Hl3]%wsteps_trace. eapply wp_mono; [apply IH| |done].
  simpl. intros r w' Hr ok ->. destruct (Hr ok eq_refl) as (l4 & Hl4 & Hin).
  exists (l ++ l3 ++ l4). rewrite Hl4, Hl3, Hl, !app_assoc. set_solver.
Qed.

(** Recording a confirmed event. *)
Lemma record_justified {R} gid c g (w0 w : W) l :
  trace w = trace w0 ++ l → confirmed_by gid l c g → justified gid uid w0 w →
  wp (record_synced E uid c g : Go R _) (λ _, justified gid uid w0) (λ _, justified gid uid w0) w.
Proof.
  intros Hl Hc (l0 & Hl0 & HJ). assert (l0 = l) as -> by (rewrite Hl in Hl0; by simplify_eq).
  assert (∀ e, confirmed_by gid (l ++ [e]) c g) as Hc'.
  { intros e. eapply confirmed_by_sub; [|exact Hc]. set_solver. }
  assert (∀ e c r, synced_events (db w) !! (uid, c) = Some r →
    synced_events (db w0) !! (uid, c) = Some r ∨ confirmed_by gid (l ++ [e]) c (google_event_id r)) as HJ'.
  { intros e c' r [?|Hx]%HJ; [by left|right]. eapply confirmed_by_sub; [|exact Hx]. set_solver. }
  apply wp_bind, wp_sql_exec.
  - intros d' r e He _. apply wp_ret. eexists (l ++ [_]). simpl. rewrite Hl, app_assoc. split; [done|].
    intros c' r' [Hr|[[= ->] ->]]%(insert_synced_lookup _ _ _ _ _ _ _ _ _ He); auto.
  - intros e. apply wp_ret. eexists (l ++ [_]). simpl. rewrite Hl, app_assoc. auto.
Qed.
Lemma quiet_justified gid {R A} (m : Go R A) :
  respects quiet m → respects (justified gid uid) m.
Proof. intros Hm w. eapply wp_mono; [apply Hm|..]; intros; by apply foot_justified. Qed.

(** After Google's answer [e], which confirms [g], recording [g] is justified. *)
Lemma said_record {R} gid c g e (w w1 : W) :
  quiet w w1 → said e w w1 → (∀ l, e ∈ l → confirmed_by gid l c g) →
  wp (record_synced E uid c g : Go R _) (λ _, justified gid uid w) (λ _, justified gid uid w) w1.
Proof.
  intros Hq (l & Hl & He) Hc. eapply record_justified; [exact Hl|by apply Hc|].
  by apply foot_justified.
Qed.

Lemma abandon_justified gid cal any e : respects (justified gid uid) (abandon E s uid cal any e).
Proof.
  unfold abandon. apply respects_bind; [exact _|apply quiet_justified, handleSyncError_steps|].
  intros [[] er]; simpl; [apply respects_leave|apply respects_ret]; exact _.
Qed.

Lemma sync_contest_justified gid cal tz m any c :
  respects (justified gid uid) (sync_contest E s uid gid cal tz m any c).
Proof.
  intros w. unfold sync_contest. case_decide; [apply wp_ret; done|].
  apply wp_bind. eapply wp_mono; [apply insert_event_said| |intros; by apply foot_justified].
  intros [e|ok] w1 [Hq Hs]; cbn beta iota.
  - assert (∀ w', quiet w w' → wp (abandon E s uid cal any e) (λ _, justified gid uid w)
      (λ _, justified gid uid w) w') as Hgive.
    { intros w' Hw'%(foot_justified gid). eapply wp_mono; [apply (abandon_justified gid)|..];
        intros; (etrans; [exact Hw'|eassumption]). }
    case_match; [|by apply Hgive].
    apply wp_bind. eapply wp_mono; [apply update_event_said|..].
    + intros [e'|ok] w2 [Hq2 Hs2]; cbn beta iota; [apply Hgive; etrans; eassumption|]. apply wp_bind.
      eapply wp_mono; [eapply (said_record gid); [exact (transitivity Hq Hq2)| |]| |done].
      * eapply said_l; [exact Hq|by apply Hs2].
      * intros l Hin. exists cal, tz, c, ok. split; [done|]. right. by split.
      * intros; by apply wp_ret.
    + intros r w2 Hq2. apply foot_justified. etrans; eassumption.
  - apply wp_bind. eapply wp_mono; [eapply (said_record gid); [exact Hq|by apply Hs|]| |done].
    + intros l Hin. exists cal, tz, c, ok. split; [done|]. left. by split.
    + intros; by apply wp_ret.
Qed.

Lemma sync_contests_justified u cal tz m :
  respects (justified (cu_GoogleID u) uid) (sync_contests E s u uid cal tz m).
Proof.
  unfold sync_contests. destruct (cu_Platforms u) as [|p ps]; [apply respects_leave, _|].
  apply respects_bind; [exact _|apply quiet_justified, load_contests_steps|intros cs].
  apply respects_bind; [exact _|apply respects_foreach; [exact _|intros; apply sync_contest_justified]|].
  intros any. apply quiet_justified. apply respects_bind; [exact _| |intros; apply respects_ret, _].
  case_match; [|apply respects_ret, _].
  apply respects_bind; [exact _| |intros; apply respects_ret, _].
  apply steps_kv_del. split; [by exists (KSynced uid)|by left].
Qed.

Lemma sync_body_justified u w : justified (cu_GoogleID u) uid w (sync_body E s u uid w).2.
Proof.
  unfold sync_body. apply (respects_run (justified (cu_GoogleID u) uid)).
  assert (∀ r, respects (justified (cu_GoogleID u) uid) (leave r : Go Ret Ret)) as Hleave.
  { intros r. apply respects_leave, _. }
  destruct (DecryptToken _ _); [done|].
  apply respects_bind; [exact _|apply quiet_justified, steps_new_service|intros []; [done|]].
  apply respects_bind; [exact _|apply quiet_justified, steps_google; by repeat split; left|].
  intros [e|got].
  - apply respects_bind; [exact _|apply quiet_justified, (handleSyncError_steps E s uid false (Some e))|].
    intros [[] er]; apply Hleave.
  - apply respects_bind; [exact _|apply quiet_justified, resolve_calendar_steps|intros cal].
    apply respects_bind; [exact _|apply quiet_justified, cleanup_steps|intros _].
    apply respects_bind; [exact _|apply quiet_justified, load_synced_steps|intros m].
    apply sync_contests_justified.
Qed.
Lemma sync_locked_justified w : ∃ gid, justified gid uid w (sync_locked E s uid w).2.
Proof.
  unfold sync_locked. apply (wp_run _ (λ _ w', ∃ gid, justified gid uid w w')).
  apply (wp_bind_respects quiet); [apply load_user_steps| |].
  2: { intros r w' Hq. exists "". by apply foot_justified. }
  intros u w1 Hq%(foot_justified (cu_GoogleID u)).
  enough (respects (justified (cu_GoogleID u) uid)
    (_ <- sql_exec E (UpdateSyncing uid) ;;
     r <- call (deferring (sync_body E s u uid) (finish E s uid)) ;; ret r.1 : Go (option error) _)) as Hr.
  { eapply wp_mono; [apply Hr|..]; intros ?? Hw; exists (cu_GoogleID u); (etrans; [exact Hq|exact Hw]). }
  apply respects_bind; [exact _|apply quiet_justified, steps_sql_exec; by repeat split; left|intros _].
  apply respects_bind; [exact _| |intros; apply respects_ret, _].
  apply respects_call. intros w2. apply (respects_deferring (justified (cu_GoogleID u) uid)).
  - apply sync_body_justified.
  - intros r. apply quiet_justified, finish_steps.
Qed.

Lemma deferred_justified w (d : option error → Go (option error) unit) :
  (∀ r, respects (wsteps (unrecorded uid)) (d r)) →
  ∃ gid, justified gid uid w (deferring (sync_locked E s uid) d w).2.
Proof.
  intros Hd. destruct (sync_locked_justified w) as [gid Hg]. exists gid.
  unfold deferring. destruct (sync_locked E s uid w) as [r w1]. simpl in *.
  specialize (Hd r w1). unfold wp in Hd.
  etrans; [exact Hg|]. apply unrecorded_justified. by destruct (d r w1) as [[]].
Qed.

Lemma SyncUser_justified w : ∃ gid, justified gid uid w (SyncUser E s uid w).2.
Proof.
  unfold SyncUser. apply (wp_run _ (λ _ w', ∃ gid, justified gid uid w w')).
  assert (∀ w1, wsteps (unrecorded uid) w w1 → ∃ gid, justified gid uid w w1) as Hstart.
  { intros w1 Hs. exists "". by apply unrecorded_justified. }
  assert (∀ w1 d, wsteps (unrecorded uid) w w1 → (∀ r, respects (wsteps (unrecorded uid)) (d r)) →
    wp (call (deferring (sync_locked E s uid) d)) (λ _ w', ∃ gid, justified gid uid w w')
      (λ (_ : option error) w', ∃ gid, justified gid uid w w') w1) as Hgo.
  { intros w1 d Hs Hd. apply wp_call. destruct (deferred_justified w1 d Hd) as [gid Hg].
    exists gid. etrans; [by apply unrecorded_justified|exact Hg]. }
  case_match.
  - apply (wp_bind_respects (wsteps (unrecorded uid))); [by apply steps_kv_setnx| |auto].
    intros [e|[]] w1 Hs; cbn beta iota; [by apply wp_leave, Hstart|apply Hgo; [done|]|by apply wp_leave, Hstart].
    intros r. apply respects_bind; [exact _|by apply steps_kv_del|intros; apply respects_ret, _].
  - apply wp_bind. unfold wp, load_or_store.
    assert (wsteps (unrecorded uid) w (set_local ({[uid]} ∪ syncingUsers w) w)) as Hs.
    { apply rtc_once, (step_local _ (λ m, {[uid]} ∪ m) uid); [done|set_solver]. }
    destruct (bool_decide (uid ∈ syncingUsers w)); [by apply Hstart|]. apply Hgo; [done|].
    intros r w2. apply rtc_once, (step_local _ (λ m, m ∖ {[uid]}) uid); [done|set_solver].
Qed.
End Sound.
