(* ===== verification/SyncOutcome.v ===== *)
(** * How a synchronisation ends

    The status written by the deferred function of [SyncUser], and the
    deletion of accounts whose Google token was revoked: when it happens and
    that nothing of the account comes back. *)

From stdpp Require Import base gmap strings list sets.
From Stdlib Require Import ZArith Lia Ascii.
From S2P Require Import Prelude GoStrings Models Database GoTime Auth EventID Effects Syncer.
From S2P Require Import SyncerFacts.
Local Open Scope go_scope.

Definition status_of (r : option error) : sync_status_type :=
  match r with None => success | Some _ => failed end.

Definition is_sql (e : event) : bool := match e with EvSql _ _ => true | _ => false end.
Definition no_sql (l : list event) : Prop := Forall (λ e, is_sql e = false) l.

(** Steps that leave the database alone. *)
Definition off_db (e : effect) : Prop := match e with FSql _ => False | _ => True end.
Definition off_sql {kv} (w w' : World kv) : Prop :=
  db w' = db w ∧ ∃ l, trace w' = trace w ++ l ∧ no_sql l.
#[export] Instance off_sql_preorder {kv} : PreOrder (@off_sql kv).
Proof.
  split.
  - intros w. split; [done|]. exists []. rewrite app_nil_r. split; [done|constructor].
  - intros w1 w2 w3 [H1 (l1 & T1 & N1)] [H2 (l2 & T2 & N2)]. split; [congruence|].
    exists (l1 ++ l2). rewrite T2, T1, app_assoc. split; [done|by apply Forall_app].
Qed.
Lemma off_db_sql {kv} `{!Valkey kv} (w w' : World kv) : wsteps off_db w w' → off_sql w w'.
Proof.
  apply wsteps_preorder; [exact _|]. clear w w'. intros w w'.
  destruct 1; try done; (split; [done|]); simpl;
    first [ eexists [_]; split; [done|by repeat constructor]
          | exists []; rewrite app_nil_r; split; [done|constructor] ].
Qed.

Section Outcome.
Context {kv : Type} `{!Valkey kv} `{!AEAD}
  `{!Codec CachedUser} `{!Codec (list string)} `{!Codec (list Contest)}.
Context (E : Env) (s : Syncer) (uid : Z).
Abbreviation W := (World kv).
Abbreviation Go := (@M kv).

(** ** Status *)

Lemma load_user_off_db : respects (wsteps off_db) (load_user E s uid : Go _ _).
Proof.
  unfold load_user, cache_get, cache_put.
  repeat first [ apply respects_ret; exact _ | apply respects_leave; exact _
    | by apply steps_query | by apply steps_kv_get | by apply steps_kv_set
    | apply respects_bind; [exact _| |intros] | case_match ].
Qed.

(** The world [w'] was reached from [w] with status [st] written last. *)
Definition closed_with (st : sync_status_type) (w w' : W) : Prop :=
  ∃ b l, trace w' = trace w ++ EvSql (UpdateStatus st uid) b :: l ∧ no_sql l ∧
    (b = true → ∀ u, users (db w') !! uid = Some u → sync_status u = st).

Lemma closed_off_sql st w w1 w2 : closed_with st w w1 → off_sql w1 w2 → closed_with st w w2.
Proof.
  intros (b & l & Ht & Hl & Hs) [Hdb (l' & Ht' & Hl')]. exists b, (l ++ l').
  rewrite Ht', Ht, <- app_assoc, Hdb. split; [done|]. split; [by apply Forall_app|done].
Qed.

Lemma status_written {R} st w (L : R → W → Prop) :
  wp (sql_exec E (UpdateStatus st uid)) (λ _, closed_with st w) L w.
Proof.
  apply wp_sql_exec.
  - intros d' x e [= <- <-] _. exists true, []. split; [done|]. split; [constructor|].
    intros _ u. simpl. rewrite lookup_alter_Some. intros [(_ & v & _ & ->)|[]]; done.
  - intros e. exists false, []. split; [done|]. split; [constructor|done].
Qed.

Lemma report_off_db r : respects (wsteps off_db) (report E s uid r : Go _ _).
Proof.
  unfold report. repeat first [ apply respects_ret; exact _ | by apply steps_telegram
    | by apply steps_kv_set | by apply steps_now
    | apply respects_bind; [exact _| |intros] | case_match ].
Qed.

Lemma finish_closes r w :
  wp (finish E s uid r) (λ _, closed_with (status_of r.1) w) (λ _, closed_with (status_of r.1) w) w.
Proof.
  unfold finish. fold (status_of r.1). apply wp_bind.
  eapply wp_mono; [apply (status_written (status_of r.1) w (λ _ _, False))| |done].
  intros ? w1 Hc. eapply wp_mono; [apply report_off_db|..];
    intros ? w2 Hs%off_db_sql; exact (closed_off_sql _ _ _ _ Hc Hs).
Qed.

(** What [sync_locked] leaves behind: no SQL at all when the profile could not
    be loaded, else the two status updates around the body. *)
Definition bracketed (r : option error) (w w' : W) : Prop :=
  (r ≠ None ∧ off_sql w w') ∨
  ∃ w1 w2 w3 b, off_sql w w1 ∧ trace w2 = trace w1 ++ [EvSql (UpdateSyncing uid) b] ∧
    wsteps (foot uid true) w2 w3 ∧ closed_with (status_of r) w3 w'.

Lemma load_user_fails w :
  wp (load_user E s uid : Go _ _) (λ _ _, True) (λ r _, r ≠ None) w.
Proof.
  unfold load_user, cache_get, cache_put.
  assert (∀ A B (m : Go (option error) A) (k : A → Go (option error) B) w,
    (∀ w, wp m (λ _ _, True) (λ r _, r ≠ None) w) →
    (∀ a w, wp (k a) (λ _ _, True) (λ r _, r ≠ None) w) →
    wp (bind m k) (λ _ _, True) (λ r _, r ≠ None) w) as Hb.
  { intros A B m k w0 Hm Hk. apply wp_bind. eapply wp_mono; [apply Hm| |done]. intros a w' _. apply Hk. }
  repeat first [ by apply wp_ret | by apply wp_leave | by apply wp_ext
               | apply Hb; intros | case_match ].
Qed.

Lemma sync_locked_bracketed w :
  bracketed (sync_locked E s uid w).1 w (sync_locked E s uid w).2.
Proof.
  unfold sync_locked. apply (wp_run _ (λ r, bracketed r w)). apply wp_bind.
  eapply wp_mono; [apply wp_and; [apply load_user_off_db|apply load_user_fails]| |].
  2: { intros r w' [Hs%off_db_sql Hr]. by left. }
  intros u w1 [Hs%off_db_sql _].
  assert (∀ w2 b, trace w2 = trace w1 ++ [EvSql (UpdateSyncing uid) b] →
    wp (r <- call (deferring (sync_body E s u uid) (finish E s uid)) ;; ret r.1 : Go (option error) _)
      (λ r, bracketed r w) (λ r, bracketed r w) w2) as Hgo.
  { intros w2 b Ht. apply wp_bind, wp_call. unfold deferring, wp; simpl.
    pose proof (sync_body_steps E s uid u w2) as Hb. destruct (sync_body E s u uid w2) as [r w3].
    pose proof (finish_closes r w3) as Hf. unfold wp in Hf. right. exists w1, w2, w3, b.
    split_and!; [done..|]. by destruct (finish E s uid r w3) as [[] w4]. }
  apply wp_bind, wp_sql_exec; intros; by eapply Hgo.
Qed.
Lemma bracketed_mono r w0 w w' w'' :
  off_sql w0 w → bracketed r w w' → off_sql w' w'' → bracketed r w0 w''.
Proof.
  intros H0 [[Hr H1]|(w1 & w2 & w3 & b & H1 & H2 & H3 & H4)] H5.
  - left. split; [done|]. etrans; [exact H0|]. etrans; eassumption.
  - right. exists w1, w2, w3, b. split_and!; [etrans; eassumption|done..|eapply closed_off_sql; eassumption].
Qed.

Lemma deferred_bracketed w0 w (d : option error → Go (option error) unit) :
  off_sql w0 w → (∀ r, respects (wsteps off_db) (d r)) →
  wp (call (deferring (sync_locked E s uid) d) : Go (option error) _)
    (λ r, bracketed r w0) (λ r, bracketed r w0) w.
Proof.
  intros H0 Hd. apply wp_call. unfold deferring.
  pose proof (sync_locked_bracketed w) as Hb. destruct (sync_locked E s uid w) as [r w1].
  specialize (Hd r w1). unfold wp in Hd. simpl in *.
  eapply bracketed_mono; [exact H0|exact Hb|]. apply off_db_sql. by destruct (d r w1) as [[]].
Qed.

Lemma SyncUser_bracketed w : bracketed (SyncUser E s uid w).1 w (SyncUser E s uid w).2.
Proof.
  unfold SyncUser. apply (wp_run _ (λ r, bracketed r w)). case_match.
  - apply wp_bind.
    eapply wp_mono; [eapply wp_ext_never, (steps_kv_setnx E off_db _ _ _ I)| |intros ?? Hf; exact Hf].
    intros [e|[]] w1 Hs%off_db_sql; cbn beta iota; [apply wp_leave; by left| |apply wp_leave; by left].
    apply deferred_bracketed; [done|]. intros r.
    apply respects_bind; [exact _|by apply steps_kv_del|intros; apply respects_ret, _].
  - assert (∀ (w : W) f, off_sql w (set_local f w)) as Hl.
    { intros. split; [done|]. exists []. rewrite app_nil_r. split; [done|constructor]. }
    apply wp_bind. unfold wp, load_or_store.
    destruct (bool_decide (uid ∈ syncingUsers w)); [by left|].
    apply deferred_bracketed; [done|]. intros r w2. apply rtc_once.
    apply (step_local _ (λ m, m ∖ {[uid]}) uid); [done|set_solver].
Qed.

(** ** Deletion *)

(** Nothing of the account is left. *)
Definition gone (d : DB) : Prop :=
  users d !! uid = None ∧ ∀ c, synced_events d !! (uid, c) = None.

Lemma sync_stmt_gone q now d d' r :
  sync_stmt uid q → exec now q d = inr (d', r) → gone d ∨ q = DeleteUser uid → gone d'.
Proof.
  intros Hq He Hg. destruct q; simpl in Hq; try done; subst; simpl in He; simplify_eq/=;
    try (destruct Hg as [[Hu Hs]|[=]]; split; [|done]; simpl; rewrite lookup_alter_None; done).
  - split; simpl.
    + apply map_lookup_filter_None. right. intros u _ Hf. simpl in Hf.
      by rewrite bool_decide_eq_true_2 in Hf.
    + intros c. apply map_lookup_filter_None. right. intros x _ [u Hu]. simpl in Hu.
      apply map_lookup_filter_Some in Hu as [_ Hu]. simpl in Hu.
      by rewrite bool_decide_eq_true_2 in Hu.
  - destruct Hg as [[Hu Hs]|[=]]. unfold insert_synced in He. case_match; simplify_eq/=; [done|].
    case_decide as Hfk; [|done]. destruct Hfk as [[? Hx] _]. congruence.
  - destruct Hg as [[Hu Hs]|[=]]. split; [done|]. intros c. simpl. rewrite lookup_delete_None. auto.
Qed.

Definition deletion_final (w w' : W) : Prop :=
  ∃ l, trace w' = trace w ++ l ∧ (gone (db w) → gone (db w')) ∧
    (EvSql (DeleteUser uid) true ∈ l → gone (db w')).
#[local] Instance deletion_final_preorder : PreOrder deletion_final.
Proof.
  split.
  - intros w. exists []. rewrite app_nil_r. split_and!; [done..|set_solver].
  - intros w1 w2 w3 (l1 & T1 & G1 & D1) (l2 & T2 & G2 & D2). exists (l1 ++ l2).
    rewrite T2, T1, app_assoc. split_and!; [done|auto|]. set_solver.
Qed.
Lemma SyncUser_deletion_final w : deletion_final w (SyncUser E s uid w).2.
Proof.
  eapply (wsteps_preorder (syncuser_allow uid)); [exact _| |apply SyncUser_wsteps].
  clear w. intros w w' Hs.
  assert (∀ w' : W, trace w' = trace w → db w' = db w → deletion_final w w') as Hquiet.
  { intros v Ht Hd. exists []. rewrite app_nil_r, Ht, Hd. split_and!; [done..|set_solver]. }
  destruct Hs as [|now q d' r w [Ha|[|]] He| | | | | | | |]; try done; try (by apply Hquiet);
    (eexists [_]; split; [done|]; simpl; split); try done; try (by rewrite list_elem_of_singleton).
  - intros Hg. eapply sync_stmt_gone; eauto.
  - rewrite list_elem_of_singleton. intros [= <-]. eapply sync_stmt_gone; [exact Ha|eauto..].
Qed.
(** *** An account is deleted only when Google said its token is revoked *)

Section Revoked.
Context (w0 : W).

(** Since [w0], Google answered some request with [e]. *)
Definition heard (e : error) (w : W) : Prop :=
  ∃ l q, trace w = trace w0 ++ l ∧ EvGoogle q (inl e) ∈ l.
(** Since [w0], every deletion of the user came with a revocation. *)
Definition deleted_revoked (w : W) : Prop :=
  ∃ l, trace w = trace w0 ++ l ∧
    ∀ b, EvSql (DeleteUser uid) b ∈ l → ∃ q e, EvGoogle q (inl e) ∈ l ∧ revoked e = true.

(** The footprint without the deletion. *)
Definition keeps_user (e : effect) : Prop := e ≠ FSql (DeleteUser uid).
Abbreviation safe := (wsteps keeps_user).

Lemma heard_steps allow e w w' : heard e w → wsteps allow w w' → heard e w'.
Proof.
  intros (l & q & Hl & Hin) [l' Hl']%wsteps_trace. exists (l ++ l'), q.
  rewrite Hl', Hl, app_assoc. set_solver.
Qed.
Lemma deleted_revoked_step w w' : wstep keeps_user w w' → deleted_revoked w → deleted_revoked w'.
Proof.
  intros Hs (l & Hl & Hd). assert (∃ l', trace w' = trace w ++ l' ∧ ∀ b, EvSql (DeleteUser uid) b ∉ l') as (l' & Hl' & Hn).
  { destruct Hs; try (exists []; rewrite app_nil_r; split; [done|set_solver]);
      (eexists [_]; split; [done|]; intros b; rewrite list_elem_of_singleton; congruence). }
  exists (l ++ l'). rewrite Hl', Hl, app_assoc. split; [done|].
  intros b [Hb|Hb]%elem_of_app; [|by apply Hn in Hb].
  destruct (Hd b Hb) as (q & e & Hin & Hr). exists q, e. set_solver.
Qed.
Lemma deleted_revoked_steps w w' : safe w w' → deleted_revoked w → deleted_revoked w'.
Proof. apply wsteps_invariant, deleted_revoked_step. Qed.

(** The triples of the engine's parts: [deleted_revoked] is kept. *)
Definition keeps {R A} (m : Go R A) : Prop :=
  ∀ w, deleted_revoked w → wp m (λ _, deleted_revoked) (λ _, deleted_revoked) w.
Lemma keeps_safe {R A} (m : Go R A) : respects safe m → keeps m.
Proof.
  intros Hm w Hw. eapply wp_mono; [apply Hm|cbn beta..]; intros ? w' Hs; eapply deleted_revoked_steps; eassumption.
Qed.
Lemma keeps_bind {R A B} (m : Go R A) (k : A → Go R B) :
  keeps m → (∀ a, keeps (k a)) → keeps (bind m k).
Proof.
  intros Hm Hk w Hw. apply wp_bind. eapply wp_mono; [by apply Hm| |done].
  intros a w'. apply Hk.
Qed.

Lemma deletion_heard e w :
  heard e w → revoked e = true → deleted_revoked w →
  wp (sql_exec E (DeleteUser uid) : Go Ret _) (λ _, deleted_revoked) (λ _, deleted_revoked) w.
Proof.
  intros (l & q & Hl & Hin) Hr _.
  apply wp_sql_exec; intros; (eexists (l ++ [_]); simpl;
    rewrite Hl, app_assoc; split; [done|]; intros; exists q, e; set_solver).
Qed.
Lemma handleSyncError_keeps e w :
  heard e w → deleted_revoked w →
  wp (handleSyncError E s uid (Some e) : Go Ret _) (λ _, deleted_revoked) (λ _, deleted_revoked) w.
Proof.
  intros Hh Hw. unfold handleSyncError. destruct (revoked e) eqn:Hr; [|by apply wp_ret].
  apply wp_bind. eapply wp_mono; [eapply deletion_heard; eassumption| |done].
  cbn beta. intros _ w1. revert w1.
  change (keeps ((if s_Valkey s then _ <- kv_del E (UserCacheKey uid) ;; ret tt else ret tt) ;;;
    ret (true, None : option error) : Go Ret _)).
  apply keeps_safe. repeat first [ apply respects_ret; exact _ | by apply steps_kv_del
    | apply respects_bind; [exact _| |intros] | case_match ].
Qed.

(** After a Google call, an error is heard. *)
Lemma google_heard q w :
  deleted_revoked w →
  wp (google_do E q : Go Ret _)
    (λ r w', deleted_revoked w' ∧ ∀ e, r = inl e → heard e w') (λ _ _, False) w.
Proof.
  intros Hw. apply wp_ext. cbn beta zeta. split.
  - eapply deleted_revoked_steps; [|exact Hw]. etrans; [apply rtc_once|apply rtc_once; constructor].
    by apply step_google.
  - intros e He. simpl in He. destruct Hw as (l & Hl & _). eexists (l ++ [_]), q.
    simpl. rewrite Hl, app_assoc, He. split; [done|]. set_solver.
Qed.

Lemma insert_event_keeps n cal ev w :
  deleted_revoked w → (0 < n)%nat →
  wp (insert_event E s n uid cal ev)
    (λ r w', deleted_revoked w' ∧ ∀ e, r = inl e → heard e w') (λ _, deleted_revoked) w.
Proof.
  revert w. induction n as [|n IH]; intros w Hw Hn; [lia|]. cbn [insert_event].
  apply wp_bind. eapply wp_mono; [by apply google_heard| |done]. cbn beta.
  intros [e|ok] w1 [Hw1 Hh]; [|by apply wp_ret; split; [|intros ? [=]]].
  specialize (Hh e eq_refl). case_match; [apply wp_ret; split; [done|by intros ? [= <-]]|].
  apply wp_bind. eapply wp_mono; [apply wp_and; [by apply (handleSyncError_keeps e)|
    apply (handleSyncError_steps E s uid false (Some e))]| |intros ?? []; done]. cbn beta.
  intros [[] er] w2 [Hw2 Hs]; cbn -[insert_event]; [done|].
  destruct n as [|n]; [apply wp_ret; split; [done|]; intros ? [= <-]; by eapply heard_steps|].
  cbn [Nat.eqb]. apply wp_bind, wp_ext. apply IH; [|lia].
  eapply deleted_revoked_steps; [apply rtc_once; constructor|done].
Qed.
Ltac safe_steps := repeat first
  [ apply respects_ret; exact _ | apply respects_leave; exact _
  | by apply steps_query | by apply steps_rows | by apply steps_kv_get | by apply steps_kv_set
  | by apply steps_kv_del | by apply steps_google | by apply steps_sleep | by apply steps_new_service
  | by apply steps_sql_exec | apply respects_foreach; [exact _|intros]
  | apply respects_bind; [exact _| |intros] | case_match | progress cbv zeta ].

Lemma update_event_safe {R} n cal ev : respects safe (update_event E n cal ev : Go R _).
Proof. induction n; simpl; safe_steps; done. Qed.
Lemma delete_event_safe {R} n cal g : respects safe (delete_event E n cal g : Go R _).
Proof. induction n; simpl; safe_steps; done. Qed.
Lemma cleanup_keeps cal ps : keeps (cleanup_unselected E s uid cal ps : Go Ret _).
Proof.
  apply keeps_safe. unfold cleanup_unselected, cleanup_item.
  assert (∀ n g, respects safe (delete_event E n cal g : Go Ret _)) by (intros; apply delete_event_safe).
  repeat first [ done | safe_steps ].
Qed.
Lemma load_synced_keeps : keeps (load_synced E s uid : Go Ret _).
Proof. apply keeps_safe. unfold load_synced, cache_get, cache_put. safe_steps. Qed.
Lemma load_contests_keeps cal ps : keeps (load_contests E s cal ps).
Proof.
  apply keeps_safe. unfold load_contests, cached_platform, store_platform, cache_get, cache_put.
  safe_steps.
Qed.
Lemma keeps_foreach {R A B} (f : B → A → Go R B) l b :
  (∀ b x, keeps (f b x)) → keeps (foreach f l b).
Proof.
  intros Hf. revert b. induction l; intros b; [apply keeps_safe, respects_ret, _|].
  by apply keeps_bind.
Qed.

Lemma abandon_keeps cal any e w :
  heard e w → deleted_revoked w →
  wp (abandon E s uid cal any e) (λ _, deleted_revoked) (λ _, deleted_revoked) w.
Proof.
  intros Hh Hw. apply wp_bind. eapply wp_mono; [by apply handleSyncError_keeps| |done]. cbn beta.
  by intros [[] er] w1 Hw1.
Qed.

Lemma sync_contest_keeps gid cal tz m any c : keeps (sync_contest E s uid gid cal tz m any c).
Proof.
  intros w Hw. unfold sync_contest. case_decide; [by apply wp_ret|].
  apply wp_bind. eapply wp_mono; [apply insert_event_keeps; [done|lia]| |done]. cbn beta.
  assert (∀ c g b, keeps (b' <- record_synced E uid c g ;; ret (b || b') : Go Ret bool)) as Hrec.
  { intros. apply keeps_safe. unfold record_synced. safe_steps. }
  intros [e|ok] w1 [Hw1 Hh]; cbn beta iota; [|by apply Hrec].
  specialize (Hh e eq_refl). case_match; [|by apply abandon_keeps].
  apply (wp_bind_respects safe); [apply update_event_safe| |].
  - intros [e'|ok] w2 Hs; cbn beta iota;
      [apply abandon_keeps; [by eapply heard_steps|]|apply Hrec]; by eapply deleted_revoked_steps.
  - intros r w2 Hs. by eapply deleted_revoked_steps.
Qed.

Lemma resolve_calendar_keeps u tz : keeps (resolve_calendar E s u uid tz).
Proof.
  intros w Hw. unfold resolve_calendar. case_match; [|by apply wp_ret].
  case_match; [by apply wp_ret|].
  apply wp_bind. eapply wp_mono; [by apply google_heard| |done]. cbn beta.
  intros [e|ok] w1 [Hw1 Hh]; cbn beta iota.
  - apply wp_bind. eapply wp_mono; [apply handleSyncError_keeps; [by apply Hh|done]| |done]. cbn beta.
    by intros [[] er] w2 Hw2.
  - revert w1 Hw1 Hh. enough (keeps (
      _ <- sql_exec E (UpdateCalendarID (ok_Id ok) uid) ;;
      (if s_Valkey s then _ <- kv_del E (UserCacheKey uid) ;; ret tt else ret tt) ;;;
      ret (ok_Id ok) : Go Ret string)) as Hk by (intros; by apply Hk).
    apply keeps_safe. safe_steps.
Qed.

Lemma sync_body_keeps u w : deleted_revoked w → deleted_revoked (sync_body E s u uid w).2.
Proof.
  intros Hw. unfold sync_body. apply (wp_run _ (λ _, deleted_revoked)). revert w Hw.
  match goal with |- ∀ w, _ → wp ?m _ _ w => change (keeps m) end.
  assert (∀ r, keeps (leave r : Go Ret Ret)) as Hleave by (intros ???; done).
  destruct (DecryptToken _ _); [apply Hleave|].
  apply keeps_bind; [apply keeps_safe; safe_steps|intros []; [apply Hleave|]].
  intros w Hw. apply wp_bind. eapply wp_mono; [by apply google_heard| |done]. cbn beta.
  intros [e|got] w1 [Hw1 Hh]; cbn beta iota.
  - apply wp_bind. eapply wp_mono; [apply handleSyncError_keeps; [by apply Hh|done]| |done]. cbn beta.
    by intros [[] er] w2 Hw2.
  - revert Hw1. generalize w1. clear w1 Hh.
    match goal with |- ∀ w, _ → wp ?m _ _ w => change (keeps m) end.
    apply keeps_bind; [apply resolve_calendar_keeps|intros cal].
    apply keeps_bind; [apply cleanup_keeps|intros _].
    apply keeps_bind; [apply load_synced_keeps|intros m].
    unfold sync_contests. destruct (cu_Platforms u); [apply Hleave|].
    apply keeps_bind; [apply load_contests_keeps|intros cs].
    apply keeps_bind; [apply keeps_foreach; intros; apply sync_contest_keeps|intros any].
    apply keeps_safe. safe_steps.
Qed.

Lemma off_db_keeps {R A} (m : Go R A) : respects (wsteps off_db) m → keeps m.
Proof.
  intros Hm. apply keeps_safe. intros w. eapply wp_mono; [apply Hm|cbn beta..];
    intros ? w'; apply wsteps_mono; by intros [].
Qed.
Lemma keeps_call {R A} (f : W → A * W) :
  (∀ w, deleted_revoked w → deleted_revoked (f w).2) → keeps (call f : Go R A).
Proof. intros Hf w Hw. by apply wp_call, Hf. Qed.
Lemma keeps_deferring {A} (body : W → A * W) (d : A → Go A unit) w :
  (∀ w, deleted_revoked w → deleted_revoked (body w).2) → (∀ a, keeps (d a)) →
  deleted_revoked w → deleted_revoked (deferring body d w).2.
Proof.
  intros Hb Hd Hw. unfold deferring. specialize (Hb w Hw). destruct (body w) as [a w1].
  specialize (Hd a w1 Hb). unfold wp in Hd. by destruct (d a w1) as [[]].
Qed.

Lemma sync_locked_keeps w : deleted_revoked w → deleted_revoked (sync_locked E s uid w).2.
Proof.
  intros Hw. unfold sync_locked. apply (wp_run _ (λ _, deleted_revoked)). revert w Hw.
  match goal with |- ∀ w, _ → wp ?m _ _ w => change (keeps m) end.
  apply keeps_bind; [apply off_db_keeps, load_user_off_db|intros u].
  apply keeps_bind; [apply keeps_safe; by apply steps_sql_exec|intros _].
  apply keeps_bind; [|intros; apply keeps_safe, respects_ret, _].
  apply keeps_call. intros w. apply keeps_deferring; [apply sync_body_keeps|].
  intros r. unfold finish.
  apply keeps_bind; [apply keeps_safe; by apply steps_sql_exec|intros _].
  apply off_db_keeps, report_off_db.
Qed.

Lemma SyncUser_keeps w : deleted_revoked w → deleted_revoked (SyncUser E s uid w).2.
Proof.
  intros Hw. unfold SyncUser. apply (wp_run _ (λ _, deleted_revoked)). revert w Hw.
  match goal with |- ∀ w, _ → wp ?m _ _ w => change (keeps m) end.
  assert (∀ r, keeps (leave r : Go (option error) (option error))) as Hleave by (intros ???; done).
  case_match.
  - apply keeps_bind; [apply off_db_keeps; by apply steps_kv_setnx|].
    intros [e|[]]; [apply Hleave| |apply Hleave].
    apply keeps_call. intros w. apply keeps_deferring; [apply sync_locked_keeps|].
    intros r. apply off_db_keeps, respects_bind; [exact _|by apply steps_kv_del|].
    intros; apply respects_ret, _.
  - apply keeps_bind; [by intros w Hw|]. intros []; [apply Hleave|].
    apply keeps_call. intros w. apply keeps_deferring; [apply sync_locked_keeps|].
    by intros r w' Hw.
Qed.
End Revoked.

Lemma SyncUser_deleted_revoked w : deleted_revoked w (SyncUser E s uid w).2.
Proof. apply SyncUser_keeps. exists []. rewrite app_nil_r. split; [done|set_solver]. Qed.
End Outcome.
