(* ===== verification/SyncComplete.v ===== *)
(** * Completeness of a synchronisation

    In an environment that answers every call, a synchronisation without the
    cache records every upcoming contest of the selected platforms, removes
    the events of the others and ends with status [success]. *)

From stdpp Require Import base gmap strings list sets.
From Stdlib Require Import ZArith Lia Ascii.
From S2P Require Import Prelude GoStrings Models Database GoTime Auth EventID Effects Syncer.
From S2P Require Import SyncerFacts SyncOutcome.
Local Open Scope go_scope.

(** Every call is answered; an event Google already has is reported as a
    conflict and can be updated.  Deletions of events may fail. *)
Record reliable (E : Env) : Prop := {
  rel_db : ∀ n, fate_db E n = Done;
  rel_replica : ∀ n d, replica E n d = d;
  rel_deliver : ∀ n A (l : list A), deliver E n l ≡ₚ l;
  rel_service : ∀ n, new_service E n = None;
  rel_get : ∀ n, ∃ ok, google E n (CalendarsGet "primary") = inr ok;
  rel_create : ∀ n summary tz, ∃ ok, google E n (CalendarsInsert summary tz) = inr ok;
  rel_insert : ∀ n cal ev,
    match google E n (EventsInsert cal ev) with
    | inr ok => ok_Id ok = ev_Id ev
    | inl e => is_code StatusConflict e = true ∧
               ∀ n', ∃ ok, google E n' (EventsUpdate cal (ev_Id ev) (confirmed ev)) = inr ok
    end }.

(** The contest's event is recorded for the user: its row exists, or another
    row holds its event identifier. *)
Definition recorded (uid : Z) (gid : string) (d : DB) (c : string) : Prop :=
  is_Some (synced_events d !! (uid, c)) ∨
  ∃ c' r, synced_events d !! (uid, c') = Some r ∧
    google_event_id r = GenerateDeterministicEventID gid c.

Lemma event_taken_true uid gid c d :
  event_taken uid c (GenerateDeterministicEventID gid c) d = true → recorded uid gid d c.
Proof.
  intros [H|H]%orb_true_iff; apply bool_decide_eq_true in H; [by left|right].
  apply Exists_exists in H as ([[u c'] r] & Hin%elem_of_map_to_list & [=] & Hg); simpl in *; subst.
  eauto.
Qed.

Lemma select_upcoming_elem now ps d c :
  c ∈ select_upcoming now ps d ↔ ∃ id row, contests d !! id = Some row ∧
    c_platform row ∈ ps ∧ (now < c_start row)%Z ∧ c = scan_contest id row.
Proof.
  unfold select_upcoming. rewrite elem_of_omap_Some. split.
  - intros ([id row] & Hin%elem_of_map_to_list & Hf). simpl in Hf. case_decide; simplify_eq/=. naive_solver.
  - intros (id & row & Hin & Hp & Ht & ->). exists (id, row). split; [by apply elem_of_map_to_list|].
    simpl. by rewrite decide_True.
Qed.
Lemma select_synced_ids_elem uid d c :
  c ∈ select_synced_ids uid d → is_Some (synced_events d !! (uid, c)).
Proof.
  unfold select_synced_ids. rewrite elem_of_omap_Some.
  intros ([[u c'] r] & Hin%elem_of_map_to_list & Hf). simpl in Hf. case_decide; simplify_eq/=. eauto.
Qed.
Lemma select_synced_platforms_elem uid d c r row :
  synced_events d !! (uid, c) = Some r → contests d !! c = Some row →
  (c, google_event_id r, c_platform row) ∈ select_synced_platforms uid d.
Proof.
  intros Hr Hc. unfold select_synced_platforms. apply elem_of_omap_Some. exists ((uid, c), r).
  split; [by apply elem_of_map_to_list|]. simpl. rewrite decide_True by done. by rewrite Hc.
Qed.

Section Complete.
Context {kv : Type} `{!Valkey kv} `{!AEAD}
  `{!Codec CachedUser} `{!Codec (list string)} `{!Codec (list Contest)}.
Context (E : Env) (s : Syncer) (uid : Z).
Context (HE : reliable E) (Hlocal : s_Valkey s = false).
Context (C : gmap string contest_row) (gid : string).
Abbreviation W := (World kv).
Abbreviation Go := (@M kv).

(** The user is there and the contests are the initial ones. *)
Definition present (w : W) : Prop := is_Some (users (db w) !! uid) ∧ contests (db w) = C.
(** Every event of the user is of a platform in [ps]. *)
Definition only_selected (ps : list string) (w : W) : Prop :=
  ∀ c r, synced_events (db w) !! (uid, c) = Some r → ∃ row, C !! c = Some row ∧ c_platform row ∈ ps.

Lemma record_complete c ps (w : W) :
  present w → only_selected ps w → (∃ row, C !! c = Some row ∧ c_platform row ∈ ps) →
  wp (record_synced E uid c (GenerateDeterministicEventID gid c) : Go Ret _)
    (λ _ w', present w' ∧ only_selected ps w' ∧ recorded uid gid (db w') c ∧
       ∀ c', recorded uid gid (db w) c' → recorded uid gid (db w') c') (λ _ _, False) w.
Proof.
  intros [[u Hu] HC] Hsel (row & Hrow & Hp). apply wp_bind.
  destruct (event_taken uid c (GenerateDeterministicEventID gid c) (db w)) eqn:Ht.
  - eapply wp_sql_done; [apply HE|simpl; unfold insert_synced; by rewrite Ht|].
    apply wp_ret. split; [split; [by exists u|done]|].
    split; [done|]. split; [by apply event_taken_true|done].
  - eapply wp_sql_done; [apply HE|simpl; unfold insert_synced; rewrite Ht, decide_True; [done|]|].
    { rewrite HC, Hu, Hrow. split; eauto. }
    apply wp_ret. split; [split; [by exists u|done]|]. split; [|split].
    + intros c' r. simpl. rewrite lookup_insert_Some. intros [[[= <-] _]|[_ Hr]]; [eauto|by eapply Hsel].
    + left. simpl. rewrite lookup_insert_eq. eauto.
    + intros c' [Hc'|(c2 & r & Hr & Hg)]; [left|]; simpl.
      * destruct (decide (c = c')) as [->|]; [rewrite lookup_insert_eq; eauto|].
        rewrite lookup_insert_ne by congruence. done.
      * destruct (decide (c = c2)) as [->|].
        { apply event_taken_false in Ht as [Hn _]. congruence. }
        right. exists c2, r. simpl. rewrite lookup_insert_ne by congruence. done.
Qed.
(** One contest of the loop: afterwards it is recorded and nothing recorded is lost. *)
Definition loop_post (ps : list string) (w : W) (c : string) (w' : W) : Prop :=
  present w' ∧ only_selected ps w' ∧ recorded uid gid (db w') c ∧
  ∀ c', recorded uid gid (db w) c' → recorded uid gid (db w') c'.

Lemma record_loop ps (w w1 : W) c any :
  db w1 = db w → present w → only_selected ps w → (∃ row, C !! c = Some row ∧ c_platform row ∈ ps) →
  wp (b <- record_synced E uid c (GenerateDeterministicEventID gid c) ;; ret (any || b) : Go Ret _)
    (λ _, loop_post ps w c) (λ _ _, False) w1.
Proof.
  intros Hdb Hp Hs Hc. apply wp_bind.
  eapply wp_mono; [apply (record_complete c ps)| |done]; unfold present, only_selected;
    rewrite ?Hdb; [done..|]. cbn beta. intros b w2 ([] & ? & ? & ?). apply wp_ret. by split.
Qed.

(** The first attempt of an insert is answered. *)
Lemma insert_event_reliable cal ev (w : W) :
  wp (insert_event E s 3 uid cal ev)
    (λ r w', db w' = db w ∧
       match r with
       | inr ok => ok_Id ok = ev_Id ev
       | inl e => is_code StatusConflict e = true ∧
           ∀ n', ∃ ok, google E n' (EventsUpdate cal (ev_Id ev) (confirmed ev)) = inr ok
       end) (λ _ _, False) w.
Proof.
  cbn [insert_event]. apply wp_bind, wp_ext. cbn beta zeta.
  pose proof (rel_insert E HE (tick w) cal ev) as Hi.
  destruct (google E (tick w) (EventsInsert cal ev)) as [e|ok]; cbn -[is_code insert_event].
  - destruct Hi as [He Hu]. by rewrite He.
  - done.
Qed.
Lemma update_event_reliable {R} cal ev (w : W) :
  (∀ n', ∃ ok, google E n' (EventsUpdate cal (ev_Id ev) ev) = inr ok) →
  wp (update_event E 3 cal ev : Go R _) (λ r w', db w' = db w ∧ ∃ ok, r = inr ok) (λ _ _, False) w.
Proof.
  intros Hu. cbn [update_event]. apply wp_bind, wp_ext. cbn beta zeta.
  destruct (Hu (tick w)) as [ok ->]. apply wp_ret. split; [done|]. by exists ok.
Qed.

Lemma sync_contest_complete ps cal tz m any c (w : W) :
  present w → only_selected ps w →
  (∃ row, C !! ct_ID c = Some row ∧ c_platform row ∈ ps) →
  (∀ c, c ∈ m → recorded uid gid (db w) c) →
  wp (sync_contest E s uid gid cal tz m any c) (λ _, loop_post ps w (ct_ID c)) (λ _ _, False) w.
Proof.
  intros Hp Hs Hc Hm. unfold sync_contest. case_decide as Hin.
  { apply wp_ret. split_and!; [done|done|by apply Hm|done]. }
  apply wp_bind. eapply wp_mono; [apply insert_event_reliable| |done]. cbn beta.
  intros [e|ok] w1 [Hdb Hr]; cbn beta iota.
  - destruct Hr as [-> Hu]. apply wp_bind.
    eapply wp_mono; [apply (update_event_reliable cal (confirmed _)); exact Hu| |done]. cbn beta.
    intros ? w2 [Hdb2 [ok ->]]; cbn beta iota. apply record_loop; [congruence|done..].
  - rewrite Hr. by apply record_loop.
Qed.

Lemma loop_complete ps cal tz m cs any (w : W) :
  present w → only_selected ps w →
  (∀ c, c ∈ cs → ∃ row, C !! ct_ID c = Some row ∧ c_platform row ∈ ps) →
  (∀ c, c ∈ m → recorded uid gid (db w) c) →
  wp (foreach (sync_contest E s uid gid cal tz m) cs any)
    (λ _ w', present w' ∧ only_selected ps w' ∧ ∀ c, c ∈ cs → recorded uid gid (db w') (ct_ID c))
    (λ _ _, False) w.
Proof.
  intros Hp Hs Hcs Hm.
  eapply wp_mono; [apply (wp_foreach (λ pre (_ : bool) w', present w' ∧ only_selected ps w' ∧
    (∀ c, c ∈ m → recorded uid gid (db w') c) ∧ ∀ c, c ∈ pre → recorded uid gid (db w') (ct_ID c)) _ (λ _ _, False))| |done].
  - intros pre x b w1 [l' ->] (Hp1 & Hs1 & Hm1 & Hr1).
    eapply wp_mono; [apply (sync_contest_complete ps); [done..| |done]| |done].
    { apply Hcs. set_solver. }
    cbn beta. intros b' w2 (Hp2 & Hs2 & Hr2 & Hmono). split_and!; [done|done| |].
    + auto.
    + intros c [Hc| ->%list_elem_of_singleton]%elem_of_app; auto.
  - split_and!; [done..|set_solver].
  - cbn beta. naive_solver.
Qed.
(** ** The phases before the loop *)

Lemma view_id rep n d : view E rep n d = d.
Proof. unfold view. destruct rep; [apply HE|done]. Qed.

Lemma delete_event_off_db {R} n cal g : respects (wsteps off_db) (delete_event E n cal g : Go R _).
Proof.
  induction n; simpl; repeat first [ done | apply respects_ret; exact _ | by apply steps_google
    | by apply steps_sleep | apply respects_bind; [exact _| |intros] | case_match ].
Qed.
Lemma delete_event_returns {R} n cal g (w : W) :
  wp (delete_event E n cal g : Go R _) (λ _ w', db w' = db w) (λ _ _, False) w.
Proof.
  enough (∀ w, wp (delete_event E n cal g : Go R _) (λ _ _, True) (λ _ _, False) w) as Hn.
  { eapply wp_mono; [apply wp_and; [apply delete_event_off_db|apply Hn]|cbn beta..].
    - by intros ? w' [[Hdb _]%off_db_sql _].
    - tauto. }
  clear w. induction n as [|n IH]; intros w; simpl; [done|].
  apply wp_bind, wp_ext. cbn beta zeta. destruct (google _ _ _); simpl; [|done].
  repeat case_match; try done. apply wp_bind, wp_ext. apply IH.
Qed.

Lemma cleanup_complete cal ps (w : W) :
  wf_db (db w) → present w →
  wp (cleanup_unselected E s uid cal ps : Go Ret _)
    (λ _ w', present w' ∧ only_selected ps w') (λ _ _, False) w.
Proof.
  intros Hwf Hp. apply wp_bind, wp_rows_done; [apply HE|]. cbn beta iota.
  rewrite view_id. set (rows := deliver E _ _).
  assert (∀ x, x ∈ select_synced_platforms uid (db w) → x ∈ rows) as Hrows.
  { intros x. unfold rows. by rewrite rel_deliver. }
  clearbody rows. set (dead := omap _ rows).
  assert (∀ c r row, synced_events (db w) !! (uid, c) = Some r → C !! c = Some row →
    c_platform row ∉ ps → (c, google_event_id r) ∈ dead) as Hdead.
  { intros c r row Hr Hc Hn. apply elem_of_omap_Some. exists (c, google_event_id r, c_platform row).
    split; [|simpl; by rewrite bool_decide_eq_false_2]. apply Hrows, select_synced_platforms_elem; [done|].
    by destruct Hp as [_ ->]. }
  clearbody dead.
  eapply wp_mono; [apply (wp_foreach (λ pre (_ : unit) w', present w' ∧
    ∀ c r, synced_events (db w') !! (uid, c) = Some r →
      synced_events (db w) !! (uid, c) = Some r ∧ c ∉ pre.*1) _ (λ _ _, False))| |done].
  - intros pre [c g] [] w1 _ [Hp1 Hs1]. apply wp_bind.
    eapply wp_mono; [apply delete_event_returns| |done]. cbn beta. intros _ w2 Hdb.
    apply wp_bind. eapply wp_sql_done; [apply HE|done|]. apply wp_ret.
    split; [by unfold present; simpl; rewrite Hdb|]. simpl. rewrite Hdb.
    intros c' r. rewrite lookup_delete_Some. intros [Hne Hr]. destruct (Hs1 c' r Hr) as [Hr' Hc'].
    split; [done|]. rewrite fmap_app. simpl. set_solver.
  - split; [done|]. set_solver.
  - cbn beta. intros _ w1 [Hp1 Hs1]. split; [done|]. intros c r Hr.
    destruct (Hs1 c r Hr) as [Hr' Hc]. destruct Hp as [Hu HC].
    destruct (wf_fk_contest _ Hwf uid c r Hr') as [row Hrow]. rewrite HC in Hrow. exists row.
    split; [done|]. destruct (decide (c_platform row ∈ ps)) as [|Hn]; [done|].
    destruct Hc. apply list_elem_of_fmap. exists (c, google_event_id r). split; [done|by eapply Hdead].
Qed.

Lemma load_synced_complete (w : W) :
  wp (load_synced E s uid : Go Ret _)
    (λ m w', db w' = db w ∧ ∀ c, c ∈ m → recorded uid gid (db w) c) (λ _ _, False) w.
Proof.
  unfold load_synced. rewrite Hlocal. apply wp_bind, wp_ret, wp_bind, wp_rows_done; [apply HE|].
  cbn beta iota. apply wp_bind, wp_ret, wp_ret. split; [done|]. intros c Hc. left.
  apply select_synced_ids_elem. rewrite elem_of_list_to_set, rel_deliver, view_id in Hc; done.
Qed.

Lemma load_contests_complete cal ps (w : W) :
  wp (load_contests E s cal ps)
    (λ cs w', w' = bump w ∧ cs ≡ₚ select_upcoming (clock E (tick w)) ps (db w)) (λ _ _, False) w.
Proof.
  unfold load_contests. rewrite Hlocal. apply wp_bind, wp_rows_done; [apply HE|].
  apply wp_ret. split; [done|]. rewrite view_id. apply HE.
Qed.

Lemma resolve_complete u tz (w : W) :
  present w →
  wp (resolve_calendar E s u uid tz)
    (λ _ w', present w' ∧ synced_events (db w') = synced_events (db w)) (λ _ _, False) w.
Proof.
  intros [Hu HC]. unfold resolve_calendar. case_match; [|by apply wp_ret].
  case_match; [by apply wp_ret|]. apply wp_bind, wp_ext. cbn beta zeta.
  destruct (rel_create E HE (tick w) "ContestSync" tz) as [ok ->]. cbn.
  apply wp_bind. eapply wp_sql_done; [apply HE|done|]. rewrite Hlocal. apply wp_bind, wp_ret, wp_ret.
  split; [split; [|done]|done]. simpl. rewrite lookup_alter_is_Some. done.
Qed.
(** ** The body *)

(** Every contest of [ps] that is upcoming throughout is recorded. *)
Definition all_recorded (ps : list string) (w : W) : Prop :=
  ∀ c row, C !! c = Some row → c_platform row ∈ ps →
    (∀ n, (n < tick w)%nat → (clock E n < c_start row)%Z) → recorded uid gid (db w) c.
Definition synced_up (ps : list string) (w : W) : Prop :=
  present w ∧ only_selected ps w ∧ all_recorded ps w.

Lemma sync_contests_complete u cal tz m (w : W) :
  cu_GoogleID u = gid → present w → only_selected (cu_Platforms u) w →
  (∀ c, c ∈ m → recorded uid gid (db w) c) →
  wp (sync_contests E s u uid cal tz m)
    (λ r w', r.1 = None ∧ synced_up (cu_Platforms u) w')
    (λ r w', r.1 = None ∧ synced_up (cu_Platforms u) w') w.
Proof.
  intros Hg Hp Hs Hm. unfold sync_contests.
  destruct (cu_Platforms u) as [|p ps] eqn:Hps.
  { apply wp_leave. split; [done|]. split_and!; [done..|]. intros c row _ Hin. set_solver. }
  rewrite Hlocal, Hg. apply wp_bind. eapply wp_mono; [apply load_contests_complete| |done]. cbn beta.
  intros cs w1 [-> Hcs]. apply wp_bind.
  assert (∀ c, c ∈ cs ↔ ∃ id row, C !! id = Some row ∧ c_platform row ∈ p :: ps ∧
    (clock E (tick w) < c_start row)%Z ∧ c = scan_contest id row) as Hin.
  { intros c. rewrite Hcs, select_upcoming_elem. by destruct Hp as [_ ->]. }
  eapply wp_mono; [apply wp_and; [apply (loop_complete (p :: ps)); [done..| |done]|]| |].
  - intros c (id & row & Hrow & Hpl & _ & ->)%Hin. by exists row.
  - apply (respects_foreach (wsteps (foot uid true))). intros. apply sync_contest_steps.
  - cbn beta. intros any w2 [(Hp2 & Hs2 & Hr2) Hst]. apply wsteps_tick in Hst.
    rewrite andb_false_r. apply wp_bind, wp_ret, wp_ret. split; [done|]. split_and!; [done..|].
    intros c row Hrow Hpl Ht. apply (Hr2 (scan_contest c row)), Hin. exists c, row.
    split_and!; [done..| |done]. apply Ht. simpl in Hst. lia.
  - cbn beta. tauto.
Qed.

Lemma sync_body_complete u tok (w : W) :
  cu_GoogleID u = gid → DecryptToken (cu_RefreshToken u) (s_EncryptionKey s) = inr tok →
  wf_db (db w) → present w →
  (sync_body E s u uid w).1.1 = None ∧ synced_up (cu_Platforms u) (sync_body E s u uid w).2.
Proof.
  intros Hg Hd Hwf Hp. unfold sync_body.
  apply (wp_run _ (λ r w', r.1 = None ∧ synced_up (cu_Platforms u) w')). rewrite Hd.
  apply wp_bind, wp_ext. rewrite (rel_service E HE). cbn beta iota. apply wp_bind, wp_ext. cbn beta zeta.
  destruct (rel_get E HE (tick (bump w))) as [ok Hok]. cbn. cbn in Hok. rewrite Hok.
  set (w1 := bump _). assert (db w1 = db w) as Hdb1 by done. clearbody w1.
  assert (present w1) as Hp1 by (unfold present; by rewrite Hdb1).
  apply wp_bind. eapply wp_mono; [apply wp_and; [by apply resolve_complete|
    apply (resolve_calendar_steps E s uid false)]| |cbn beta; tauto].
  cbn beta. intros cal w2 [[Hp2 Hsy] Hst].
  assert (wf_db (db w2)) as Hwf2.
  { eapply (wsteps_invariant _ (λ w, wf_db (db w))); [|exact Hst|by rewrite Hdb1].
    intros *. apply wstep_wf. }
  apply wp_bind. eapply wp_mono; [by apply (cleanup_complete cal (cu_Platforms u))| |done]. cbn beta.
  intros _ w3 [Hp3 Hs3]. apply wp_bind. eapply wp_mono; [apply load_synced_complete| |done]. cbn beta.
  intros m w4 [Hdb4 Hm]. apply sync_contests_complete; [done|..];
    unfold present, only_selected; by rewrite Hdb4.
Qed.
(** ** The whole of [SyncUser] *)

Definition settled (ps : list string) (w : W) : Prop :=
  synced_up ps w ∧ ∃ u, users (db w) !! uid = Some u ∧ sync_status u = success.

Lemma settled_bump ps w : settled ps w → settled ps (bump w).
Proof.
  intros [(Hp & Hs & Ha) Hu]. split; [|done]. split_and!; [done..|].
  intros c row Hc Hpl Ht. apply (Ha c row Hc Hpl). intros n Hn. apply Ht. simpl. lia.
Qed.

Lemma finish_complete ps r (w : W) :
  r.1 = None → synced_up ps w →
  wp (finish E s uid r) (λ _, settled ps) (λ _ _, False) w.
Proof.
  intros Hr (Hp & Hs & Ha). unfold finish, report. rewrite Hr, Hlocal. apply wp_bind.
  eapply wp_sql_done; [apply HE|done|]. apply wp_bind, wp_ret.
  set (w1 := bump _). assert (settled ps w1) as Hset.
  { destruct Hp as [[u Hu] HC]. subst w1. split; [split_and!|].
    - split; [|done]. simpl. rewrite lookup_alter_is_Some. by exists u.
    - done.
    - intros c row Hc Hpl Ht. apply (Ha c row Hc Hpl). intros n Hn. apply Ht. simpl. lia.
    - simpl. rewrite lookup_alter_eq, Hu. simpl. eauto. }
  clearbody w1. case_match; [|by apply wp_ret]. exact Hset.
Qed.

Lemma sync_locked_complete u tok ps (w : W) :
  wf_db (db w) → contests (db w) = C → users (db w) !! uid = Some u → google_id u = gid →
  refresh_token u = Some tok → (∃ p, DecryptToken tok (s_EncryptionKey s) = inr p) →
  default [] (platforms u) = ps →
  (sync_locked E s uid w).1 = None ∧ settled ps (sync_locked E s uid w).2.
Proof.
  intros Hwf HC Hu Hg Htok [p Hdec] Hps. unfold sync_locked.
  apply (wp_run _ (λ r w', r = None ∧ settled ps w')).
  unfold load_user. rewrite Hlocal. apply wp_bind, wp_bind, wp_ret, wp_bind, wp_ext.
  rewrite (rel_db E HE), view_id. unfold select_user. cbn. rewrite Hu. unfold scan_cached_user.
  rewrite Htok. apply wp_bind, wp_ret, wp_ret. apply wp_bind.
  eapply wp_sql_done; [apply HE|done|]. apply wp_bind, wp_call.
  match goal with |- context [sync_body _ _ ?cu _] => set (u' := cu) end.
  set (w1 := bump _). assert (db w1 = set_users (alter (λ u, with_status syncing (last_sync_at u) u) uid) (db w)) as Hdb1
    by done. clearbody w1.
  destruct (sync_body_complete u' p w1) as [Hr Hup]; [done|done|..].
  { rewrite Hdb1. eapply (exec_wf_db 0 (UpdateSyncing uid)); [exact Hwf|done]. }
  { split; rewrite Hdb1; [|done]. simpl. rewrite lookup_alter_is_Some. by exists u. }
  unfold deferring. destruct (sync_body E s u' uid w1) as [r w2]. simpl in *.
  pose proof (finish_complete _ r w2 Hr Hup) as Hf. unfold wp in Hf.
  destruct (finish E s uid r w2) as [[] w3]; [done|]. simpl. rewrite Hr. by subst ps.
Qed.
End Complete.
