(* ===== verification/GoFloat.v ===== *)
(** * Go's [float64]

    IEEE 754 binary64 on the Standard Library's [SpecFloat], with the
    conversions the extractors use.  Conversions of values outside [int64]
    follow amd64, which yields the smallest [int64]. *)

From stdpp Require Import base strings.
From Stdlib Require Import ZArith Lia SpecFloat.
From S2P Require Import Prelude GoStrings Models.
Local Open Scope Z_scope.

Definition float64 : Type := spec_float.
Definition prec : Z := 53.
Definition emax : Z := 1024.

Definition fadd : float64 → float64 → float64 := SFadd prec emax.
Definition fsub : float64 → float64 → float64 := SFsub prec emax.
Definition fmul : float64 → float64 → float64 := SFmul prec emax.
Definition fdiv : float64 → float64 → float64 := SFdiv prec emax.
Definition flt : float64 → float64 → bool := SFltb.
(** [float64(z)] *)
Definition float64_of_int (z : Z) : float64 := binary_normalize prec emax z 0 false.

(** [m * 2^e] towards zero. *)
Definition trunc (m : positive) (e : Z) : Z :=
  if e <? 0 then Z.pos m / 2 ^ (- e) else Z.pos m * 2 ^ e.
Definition min_int64 : Z := - 2 ^ 63.
(** [int64(f)] *)
Definition int64_of_float (f : float64) : Z :=
  match f with
  | S754_zero _ => 0
  | S754_finite sg m e =>
      let v := if sg then - trunc m e else trunc m e in
      if decide (- 2 ^ 63 ≤ v < 2 ^ 63) then v else min_int64
  | _ => min_int64
  end.

(** [m * 2^e] to the nearest integer, ties to even. *)
Definition nearest (m : positive) (e : Z) : Z :=
  if e <? 0 then
    let q := Z.pos m / 2 ^ (- e) in
    let r := Z.pos m mod 2 ^ (- e) in
    match (2 * r) ?= 2 ^ (- e) with
    | Lt => q
    | Eq => if Z.even q then q else q + 1
    | Gt => q + 1
    end
  else Z.pos m * 2 ^ e.
(** [fmt.Sprintf("%.0f", f)] *)
Definition Sprintf_0f (f : float64) : string :=
  match f with
  | S754_zero sg => if sg then "-0" else "0"
  | S754_finite sg m e => (if sg then "-" else "") +:+ Itoa (nearest m e)
  | S754_infinity sg => if sg then "-Inf" else "+Inf"
  | S754_nan => "NaN"
  end.

(** [time.Duration.Seconds] *)
Definition Seconds (d : Z) : float64 :=
  fadd (float64_of_int (Z.quot d Second))
       (fdiv (float64_of_int (Z.rem d Second)) (float64_of_int 1000000000)).

Lemma int64_of_float_range f : in_int 64 (int64_of_float f).
Proof.
  unfold in_int, int64_of_float, min_int64. change (64 - 1) with 63.
  repeat case_match; try lia; done.
Qed.

Example int64_exact : int64_of_float (float64_of_int 1735689600) = 1735689600.
Proof. reflexivity. Qed.
Example seconds_minutes : int64_of_float (Seconds (100 * Minute)) = 6000.
Proof. reflexivity. Qed.
Example sprintf_id : Sprintf_0f (float64_of_int 2051) = "2051".
Proof. reflexivity. Qed.
