(* ===== verification/Extractor.v ===== *)
(** * The extractors ([internal/extractor])

    The retry loop of [fetchJSON] and [fetchPage], the identifiers, the seven
    fetchers and the HTML scraping of AtCoder.  The network is a parameter, a
    function from the request and the number of the attempt to what came back;
    so are [encoding/json], as the decoder of the struct each fetcher declares,
    and [net/url]'s parser.  Times are seconds, as in [extractor.Contest]. *)

From stdpp Require Import base strings list.
From Stdlib Require Import ZArith Lia Ascii.
From S2P Require Import Prelude GoStrings Models GoFloat GoTime.
Local Open Scope Z_scope.

(** ** contest.go *)

Record Contest := mk_contest {
  ID : string; Name : string; URL : string;
  StartTime : Z; EndTime : Z; Duration : Z; Platform : string }.

Definition Platforms : list string :=
  ["codechef"; "codeforces"; "leetcode"; "atcoder"; "hackerrank"; "geeksforgeeks"; "code360"].

Definition GenerateContestID (platform : string) (startTime : Z) : string :=
  platform +:+ "_" +:+ Itoa startTime.

(** *** Requests *)

Record request := mk_request {
  r_method : string; r_url : string; r_headers : list (string * string); r_body : string }.

Inductive outcome :=
| NoResponse (e : error)
| ReadFailed (status : Z) (e : error)
| Response (status : Z) (body : string).

Definition maxResponseSize : Z := 10 * 1024 * 1024.
(** [io.LimitReader] *)
Fixpoint limit (n : Z) (s : string) : string :=
  match s with
  | "" => ""
  | String c s => if n <=? 0 then "" else String c (limit (n - 1) s)
  end.

Definition status_error (status : Z) : error :=
  errorf ("HTTP request failed with status " +:+ Itoa status).

(** The loop [for attempt := 1; attempt <= 3; attempt++]: [rest] attempts are
    left.  The result is what the function returns and the sleeps it made, in
    nanoseconds; [send attempt] is the outcome of the attempt. *)
Fixpoint fetch_loop (rest : nat) (attempt : Z) (lastErr : error) (send : Z → outcome)
  : (error + string) * list Z :=
  match rest with
  | O => (inl lastErr, [])
  | S rest =>
      let retry (e : error) (pause : Z) :=
        if attempt <? 3 then
          let '(r, l) := fetch_loop rest (attempt + 1) e send in (r, pause :: l)
        else (inl e, []) in
      match send attempt with
      | NoResponse e => retry e (attempt * (Second / 2))
      | ReadFailed _ e => retry e (attempt * (Second / 2))
      | Response status body =>
          if (status =? 429) || (500 <=? status) then retry (status_error status) (attempt * Second)
          else if (status <? 200) || (300 <=? status) then (inl (status_error status), [])
          else (inr (limit maxResponseSize body), [])
      end
  end.

Definition user_agent : string :=
  "Mozilla/5.0 (Windows NT 10.0; Win64; x64) AppleWebKit/537.36 (KHTML, like Gecko) Chrome/124.0.0.0 Safari/537.36".
Definition no_error : error := errorf "".

Section Fetch.
(** [http.NewRequest], which may refuse a URL, and the network. *)
Context (NewRequest : request → option error) (Do : request → Z → outcome).

Definition fetch (req : request) : (error + string) * list Z :=
  match NewRequest req with
  | Some e => (inl e, [])
  | None => fetch_loop 3 1 no_error (Do req)
  end.
Definition fetchJSON (method url body : string) : (error + string) * list Z :=
  fetch (mk_request method url
    [("Content-Type", "application/json"); ("User-Agent", user_agent);
     ("Accept", "application/json, text/plain, */*"); ("Accept-Language", "en-US,en;q=0.9")] body).
Definition fetchPage (url : string) : (error + string) * list Z :=
  fetch (mk_request "GET" url
    [("User-Agent", user_agent);
     ("Accept", "text/html,application/xhtml+xml,application/xml;q=0.9,*/*;q=0.8");
     ("Accept-Language", "en-US,en;q=0.9")] "").
End Fetch.

(** ** The JSON fetchers

    Each takes what [fetchJSON] returned, the decoder of its struct and the
    clock in seconds. *)

Record cf_contest := mk_cf {
  cf_ID : float64; cf_Name : string; cf_Phase : string;
  cf_StartTimeSec : float64; cf_DurationSeconds : float64 }.
Record cf_data := { cf_Status : string; cf_Result : list cf_contest }.

Definition codeforces_contest (now : Z) (c : cf_contest) : option Contest :=
  if bool_decide (cf_Phase c ≠ "BEFORE") || (int64_of_float (cf_StartTimeSec c) <? now) then None
  else
    let url := "https://codeforces.com/contestRegistration/" +:+ Sprintf_0f (cf_ID c) in
    Some {| ID := GenerateContestID "codeforces" (int64_of_float (cf_StartTimeSec c));
            Name := cf_Name c; URL := url; StartTime := int64_of_float (cf_StartTimeSec c);
            EndTime := wrap64 (int64_of_float (cf_StartTimeSec c) + int64_of_float (cf_DurationSeconds c));
            Duration := int64_of_float (cf_DurationSeconds c); Platform := "codeforces" |}.

Definition FetchCodeforcesContests (body : error + string)
  (Unmarshal : string → error + cf_data) (now : Z) : error + list Contest :=
  match body with
  | inl e => inl e
  | inr b =>
      match Unmarshal b with
      | inl e => inl e
      | inr data =>
          if decide (cf_Status data ≠ "OK") then inl (errorf "codeforces: API returned non-OK status")
          else inr (omap (codeforces_contest now) (cf_Result data))
      end
  end.

Record c360_event := mk_c360 {
  e_Name : string; e_Slug : string; e_RegEnd : float64; e_EventStart : float64; e_EventEnd : float64 }.

Definition code360_contest (now : Z) (e : c360_event) : option Contest :=
  if flt (e_RegEnd e) (float64_of_int now) || bool_decide (e_Name e = "") || bool_decide (e_Slug e = "")
  then None
  else
    let url := "https://www.naukri.com/code360/contests/" +:+ e_Slug e in
    Some {| ID := GenerateContestID "code360" (int64_of_float (e_EventStart e));
            Name := e_Name e; URL := url; StartTime := int64_of_float (e_EventStart e);
            EndTime := int64_of_float (e_EventEnd e);
            Duration := int64_of_float (fsub (e_EventEnd e) (e_EventStart e)); Platform := "code360" |}.

(** The decoded value is [data.Data.Events]. *)
Definition FetchCode360Contests (body : error + string)
  (Unmarshal : string → error + list c360_event) (now : Z) : error + list Contest :=
  match body with
  | inl e => inl e
  | inr b =>
      match Unmarshal b with
      | inl e => inl e
      | inr events => inr (omap (code360_contest now) events)
      end
  end.

Record lc_contest := mk_lc {
  lc_Title : string; lc_TitleSlug : string; lc_StartTime : float64; lc_Duration : float64 }.
(** [lc_Errors] holds the messages. *)
Record lc_data := { lc_Errors : list string; lc_Contests : list lc_contest }.

Definition leetcode_contest (now : Z) (c : lc_contest) : option Contest :=
  if flt (fadd (lc_StartTime c) (lc_Duration c)) (float64_of_int now) then None
  else
    let url := "https://leetcode.com/contest/" +:+ lc_TitleSlug c in
    Some {| ID := GenerateContestID "leetcode" (int64_of_float (lc_StartTime c));
            Name := lc_Title c; URL := url; StartTime := int64_of_float (lc_StartTime c);
            EndTime := int64_of_float (fadd (lc_StartTime c) (lc_Duration c));
            Duration := int64_of_float (lc_Duration c); Platform := "leetcode" |}.

Definition FetchLeetcodeContests (body : error + string)
  (Unmarshal : string → error + lc_data) (now : Z) : error + list Contest :=
  match body with
  | inl e => inl e
  | inr b =>
      match Unmarshal b with
      | inl e => inl e
      | inr data =>
          match lc_Errors data with
          | m :: _ => inl (errorf ("leetcode graphql error: " +:+ m))
          | [] => inr (omap (leetcode_contest now) (lc_Contests data))
          end
      end
  end.

(** The struct of CodeChef, GeeksforGeeks and HackerRank: a name, a code, slug
    or URL, and the two times as text. *)
Record dated := mk_dated { d_Name : string; d_Slug : string; d_Start : string; d_End : string }.
Definition incomplete (c : dated) : bool :=
  bool_decide (d_Name c = "") || bool_decide (d_Slug c = "")
  || bool_decide (d_Start c = "") || bool_decide (d_End c = "").
(** The contest with two parsed times. *)
Definition dated_contest (platform url : string) (c : dated) (startTime endTime : Z) : Contest :=
  {| ID := GenerateContestID platform (Unix startTime); Name := d_Name c; URL := url;
     StartTime := Unix startTime; EndTime := Unix endTime;
     Duration := wrap64 (Unix endTime - Unix startTime); Platform := platform |}.

Definition geeksforgeeks_contest (c : dated) : option Contest :=
  if incomplete c then None
  else match Parse layout_local (d_Start c) with
  | None => None
  | Some startTime =>
      match Parse layout_local (d_End c) with
      | None => None
      | Some endTime =>
          Some (dated_contest "geeksforgeeks"
            ("https://practice.geeksforgeeks.org/contest/" +:+ d_Slug c) c startTime endTime)
      end
  end.

Definition parse_codechef (s : string) : option Z :=
  match Parse layout_RFC3339 s with
  | Some t => Some t
  | None => Parse layout_local s
  end.
Definition codechef_contest (c : dated) : option Contest :=
  if incomplete c then None
  else match parse_codechef (d_Start c) with
  | None => None
  | Some startTime =>
      match parse_codechef (d_End c) with
      | None => None
      | Some endTime =>
          Some (dated_contest "codechef" ("https://www.codechef.com/" +:+ d_Slug c) c startTime endTime)
      end
  end.

(** [parsed.Scheme] and [parsed.Host]. *)
Record parsed_url := { Scheme : string; Host : string }.
Definition parseISO (s : string) : option Z := Parse layout_RFC3339 (Replace1 s "Z" "+00:00").
Definition hackerrank_contest (url_Parse : string → error + parsed_url) (a : dated) : option Contest :=
  if incomplete a then None
  else match url_Parse (d_Slug a) with
  | inl _ => None
  | inr parsed =>
      if bool_decide (Scheme parsed ≠ "https") || negb (HasSuffix (Host parsed) "hackerrank.com") then None
      else match parseISO (d_Start a) with
      | None => None
      | Some startTime =>
          match parseISO (d_End a) with
          | None => None
          | Some endTime => Some (dated_contest "hackerrank" (d_Slug a) a startTime endTime)
          end
      end
  end.

(** The shape the three share: fetch, decode, keep. *)
Definition fetch_dated (f : dated → option Contest) (body : error + string)
  (Unmarshal : string → error + list dated) : error + list Contest :=
  match body with
  | inl e => inl e
  | inr b =>
      match Unmarshal b with
      | inl e => inl e
      | inr events => inr (omap f events)
      end
  end.
Definition FetchGeeksforGeeksContests := fetch_dated geeksforgeeks_contest.
Definition FetchCodechefContests := fetch_dated codechef_contest.
Definition FetchHackerrankContests (url_Parse : string → error + parsed_url) :=
  fetch_dated (hackerrank_contest url_Parse).

(** ** atcoder.go *)

Definition quote : string := String (ascii_of_nat 34) "".

Fixpoint extractCells_fuel (fuel : nat) (row : string) : list string :=
  match fuel with
  | O => []
  | S fuel =>
      match Index row "<td" with
      | None => []
      | Some tdIdx =>
          match Index (sdrop tdIdx row) ">" with
          | None => []
          | Some closeIdx =>
              let contentStart := (tdIdx + closeIdx + 1)%nat in
              match Index (sdrop contentStart row) "</td>" with
              | None => []
              | Some endTd =>
                  stake endTd (sdrop contentStart row)
                  :: extractCells_fuel fuel (sdrop (contentStart + endTd + 5) row)
              end
          end
      end
  end.
(** Every round removes at least nine bytes. *)
Definition extractCells (row : string) : list string := extractCells_fuel (S (String.length row)) row.

Definition extractHref (s : string) : string :=
  match Index s ("href=" +:+ quote) with
  | None => ""
  | Some hrefIdx =>
      let start := (hrefIdx + 6)%nat in
      match Index (sdrop start s) quote with
      | None => ""
      | Some e => stake e (sdrop start s)
      end
  end.

Definition extractHrefText (s : string) : string :=
  match Index s "<a" with
  | None => ""
  | Some aIdx =>
      match Index (sdrop aIdx s) ">" with
      | None => ""
      | Some closeA =>
          let contentStart := (aIdx + closeA + 1)%nat in
          match Index (sdrop contentStart s) "</a>" with
          | None => ""
          | Some endA => stake endA (sdrop contentStart s)
          end
      end
  end.

(** The loop over the runes; a byte that is not UTF-8 is written as U+FFFD. *)
Fixpoint strip_runes (inTag : bool) (rs : list (option string)) : string :=
  match rs with
  | [] => ""
  | r :: rs =>
      let c := default rune_error r in
      if bool_decide (c = "<") then strip_runes true rs
      else if bool_decide (c = ">") then strip_runes false rs
      else if inTag then strip_runes inTag rs
      else c +:+ strip_runes inTag rs
  end.
Definition stripTags (s : string) : string := TrimSpace (strip_runes false (runes s)).

(** One row of the table, from its cells. *)
Definition atcoder_row (cells : list string) : option Contest :=
  match cells with
  | c0 :: c1 :: c2 :: _ =>
      let href := extractHref c0 in
      if decide (href = "") then None
      else match Index href "?iso=" with
      | None => None
      | Some isoIdx =>
          let startTimeStr := sdrop (isoIdx + 5) href in
          let startTimeStr := match Index startTimeStr "&" with
                              | Some ampIdx => stake ampIdx startTimeStr
                              | None => startTimeStr
                              end in
          match Parse layout_atcoder startTimeStr with
          | None => None
          | Some startTime =>
              let durationStr := stripTags c2 in
              match Index durationStr ":" with
              | None => None
              | Some colonIdx =>
                  let hours := (Atoi (stake colonIdx durationStr)).1 in
                  let minutes := (Atoi (sdrop (colonIdx + 1) durationStr)).1 in
                  let duration := wrap64 (wrap64 (hours * Hour) + wrap64 (minutes * Minute)) in
                  let name := stripTags (extractHrefText c1) in
                  if decide (name = "") then None
                  else Some {|
                    ID := GenerateContestID "atcoder" (Unix startTime); Name := name;
                    URL := "https://atcoder.jp" +:+ href; StartTime := Unix startTime;
                    EndTime := Unix (startTime + duration);
                    Duration := int64_of_float (Seconds duration); Platform := "atcoder" |}
              end
          end
      end
  | _ => None
  end.

Fixpoint atcoder_rows_fuel (fuel : nat) (table : string) : list Contest :=
  match fuel with
  | O => []
  | S fuel =>
      match Index table "<tr>" with
      | None => []
      | Some trIdx =>
          let table := sdrop (trIdx + 4) table in
          match Index table "</tr>" with
          | None => []
          | Some endTr =>
              let row := stake endTr table in
              let table := sdrop (endTr + 5) table in
              option_list (atcoder_row (extractCells row)) ++ atcoder_rows_fuel fuel table
          end
      end
  end.
Definition atcoder_rows (table : string) : list Contest :=
  atcoder_rows_fuel (S (String.length table)) table.

Definition FetchAtcoderContests (body : error + string) : error + list Contest :=
  match body with
  | inl e => inl e
  | inr html =>
      match Index html "<tbody>" with
      | None => inl (errorf "atcoder: no tbody")
      | Some tbodyIdx =>
          match Index (sdrop (tbodyIdx + 7) html) "<tbody>" with
          | None => inl (errorf "atcoder: no contests table")
          | Some secondTbody =>
              let start := (tbodyIdx + 7 + secondTbody + 7)%nat in
              match Index (sdrop start html) "</tbody>" with
              | None => inl (errorf "atcoder: malformed table")
              | Some endIdx => inr (atcoder_rows (stake endIdx (sdrop start html)))
              end
          end
      end
  end.

(** ** The table of fetchers *)

(** What the fetchers read of the outside in one call: the network, the
    decoders of [encoding/json], [net/url] and the clock. *)
Record Web := {
  web_NewRequest : request → option error;
  web_Do : request → Z → outcome;
  json_codeforces : string → error + cf_data;
  json_code360 : string → error + list c360_event;
  json_leetcode : string → error + lc_data;
  json_geeksforgeeks : string → error + list dated;
  json_codechef : string → error + list dated;
  json_hackerrank : string → error + list dated;
  web_url_Parse : string → error + parsed_url;
  web_now : Z }.

Definition Fetchers (w : Web) : list (string * (error + list Contest)) :=
  let get url := (fetchJSON (web_NewRequest w) (web_Do w) "GET" url "").1 in
  let post url body := (fetchJSON (web_NewRequest w) (web_Do w) "POST" url body).1 in
  let query := "{" +:+ quote +:+ "query" +:+ quote +:+ ":" +:+ quote
    +:+ "{allContests{title,titleSlug,startTime,duration}}" +:+ quote +:+ "}" in
  [("codechef", FetchCodechefContests
      (get "https://www.codechef.com/api/list/contests/all?sort_by=START&sorting_order=asc&offset=0&mode=all")
      (json_codechef w));
   ("codeforces", FetchCodeforcesContests (get "https://codeforces.com/api/contest.list")
      (json_codeforces w) (web_now w));
   ("leetcode", FetchLeetcodeContests (post "https://leetcode.com/graphql" query)
      (json_leetcode w) (web_now w));
   ("atcoder", FetchAtcoderContests
      (fetchPage (web_NewRequest w) (web_Do w) "https://atcoder.jp/contests/").1);
   ("hackerrank", FetchHackerrankContests (web_url_Parse w)
      (get "https://www.hackerrank.com/community/engage/events") (json_hackerrank w));
   ("geeksforgeeks", FetchGeeksforGeeksContests
      (get "https://practiceapi.geeksforgeeks.org/api/vr/events/?page_number=1&sub_type=all&type=contest")
      (json_geeksforgeeks w));
   ("code360", FetchCode360Contests
      (get "https://www.naukri.com/code360/api/v4/public_section/contest_list") (json_code360 w) (web_now w))].

(** [fetcher, ok := Fetchers[platform]] and the call. *)
Definition call_fetcher (w : Web) (platform : string) : option (error + list Contest) :=
  snd <$> head (filter (λ f, f.1 = platform) (Fetchers w)).
