(* ===== verification/ExtractorSpec.v ===== *)
(** * Properties of the extractors

    The retry loop, the identifiers, what every fetcher guarantees of its
    contests, and that the AtCoder scraper finds exactly the rows of a table. *)

From stdpp Require Import base strings list sets.
From Stdlib Require Import ZArith Lia Ascii.
From S2P Require Import Prelude GoStrings Models Database GoFloat GoTime Extractor.
Local Open Scope Z_scope.

(** ** The retry loop *)

(** An outcome after which the loop tries again, if it may. *)
Definition transient (o : outcome) : bool :=
  match o with
  | NoResponse _ | ReadFailed _ _ => true
  | Response st _ => (st =? 429) || (500 <=? st)
  end.
(** What an outcome means for the caller. *)
Definition verdict (o : outcome) : error + string :=
  match o with
  | NoResponse e | ReadFailed _ e => inl e
  | Response st body =>
      if (200 <=? st) && (st <? 300) then inr (limit maxResponseSize body) else inl (status_error st)
  end.

Lemma fetch_loop_spec n a e send :
  a + Z.of_nat n = 4 → (0 < n)%nat →
  ∃ k, a ≤ k ≤ 3 ∧ (∀ i, a ≤ i < k → transient (send i) = true) ∧
    (k < 3 → transient (send k) = false) ∧
    (fetch_loop n a e send).1 = verdict (send k) ∧
    Z.of_nat (length (fetch_loop n a e send).2) = k - a.
Proof.
  revert a e. induction n as [|n IH]; intros a e Ha Hn; [lia|]. simpl.
  assert (∀ e' p, transient (send a) = true → verdict (send a) = inl e' → ∃ k, a ≤ k ≤ 3 ∧
    (∀ i, a ≤ i < k → transient (send i) = true) ∧ (k < 3 → transient (send k) = false) ∧
    let r := if a <? 3 then let '(r, l) := fetch_loop n (a + 1) e' send in (r, p :: l) else (inl e', []) in
    r.1 = verdict (send k) ∧ Z.of_nat (length r.2) = k - a) as Hretry.
  { intros e' p Ht Hv. destruct (Z.ltb_spec a 3).
    - destruct (IH (a + 1) e') as (k & Hk & Hbefore & Hlast & Hr & Hl); [lia|lia|].
      exists k. destruct (fetch_loop n (a + 1) e' send) as [r l]. simpl in *.
      split_and!; [lia|lia| |done|done|lia].
      intros i Hi. destruct (decide (i = a)) as [->|]; [done|]. apply Hbefore. lia.
    - exists a. simpl. split_and!; [lia|lia|lia|lia|done|lia]. }
  destruct (send a) as [e'|st e'|st body] eqn:Hs; [by apply Hretry..|].
  destruct ((st =? 429) || (500 <=? st)) eqn:Ht.
  { apply Hretry; [done|]. simpl. destruct (Z.leb_spec 200 st), (Z.ltb_spec st 300); simpl; try done. lia. }
  exists a. rewrite Hs. simpl.
  destruct (Z.ltb_spec st 200), (Z.leb_spec 300 st), (Z.leb_spec 200 st), (Z.ltb_spec st 300); simpl; try lia;
    (split_and!; [lia|lia|lia|done|done|simpl; lia]).
Qed.

(** C11 (functional).  A fetch makes at most three requests, stops at the first
    one that is answered by anything but 429 or 5xx, and returns what that
    answer means: the body, cut at 10 MB, for a 2xx status and an error
    otherwise; when all three fail it returns the error of the third.  One
    pause lies between two requests. *)
Theorem fetch_retries NewRequest Do req :
  NewRequest req = None →
  ∃ k, 1 ≤ k ≤ 3 ∧ (∀ i, 1 ≤ i < k → transient (Do req i) = true) ∧
    (k < 3 → transient (Do req k) = false) ∧
    (fetch NewRequest Do req).1 = verdict (Do req k) ∧
    Z.of_nat (length (fetch NewRequest Do req).2) = k - 1.
Proof. intros Hn. unfold fetch. rewrite Hn. apply (fetch_loop_spec 3 1); lia. Qed.

(** A server that answers on the third attempt. *)
Lemma fetch_retries_witness :
  let Do := λ (_ : request) i, if i =? 3 then Response 200 "ok" else Response 503 "" in
  let req := mk_request "GET" "https://atcoder.jp/contests/" [] "" in
  (fetch (λ _, None) Do req).1 = inr "ok" ∧ length (fetch (λ _, None) Do req).2 = 2%nat.
Proof.
  intros Do req. destruct (fetch_retries (λ _, None) Do req eq_refl) as (k & Hk & Hb & Hl & Hr & Hn).
  assert (k = 3) as ->.
  { destruct (decide (k = 3)) as [|Hne]; [done|]. assert (k < 3) as Hk3 by lia. specialize (Hl Hk3).
    unfold Do in Hl. destruct (Z.eqb_spec k 3); [lia|done]. }
  split; [exact Hr|apply Nat2Z.inj; exact Hn].
Defined.

(** ** Identifiers *)

Lemma underscore_split p q a b :
  "_"%char ∉ chars p → "_"%char ∉ chars q → p +:+ "_" +:+ a = q +:+ "_" +:+ b → p = q ∧ a = b.
Proof.
  revert q. induction p as [|c p IH]; intros [|d q]; simpl; intros Hp Hq Heq; simplify_eq/=.
  - done.
  - set_solver.
  - set_solver.
  - destruct (IH q) as [-> ->]; [set_solver|set_solver|done|done].
Qed.
Lemma Platforms_no_underscore p : p ∈ Platforms → "_"%char ∉ chars p.
Proof.
  intros Hp. assert (Forall (λ p, "_"%char ∉ chars p) Platforms) as Hall.
  { apply (bool_decide_unpack _). vm_compute. exact I. }
  rewrite Forall_forall in Hall. by apply Hall.
Qed.
Lemma GenerateContestID_inj_lemma p q s t :
  p ∈ Platforms → q ∈ Platforms → GenerateContestID p s = GenerateContestID q t → p = q ∧ s = t.
Proof.
  intros Hp Hq [-> Hst%(inj Itoa)]%underscore_split; eauto using Platforms_no_underscore.
Qed.

(** Property (functional).  Contest identifiers determine the platform and the start
    time, and nothing more: two contests of known platforms share an identifier
    exactly when platform and start agree.  In particular contests of different
    platforms never overwrite each other, and two contests of one platform that
    start together always do. *)
Theorem contest_id_determines c d :
  Platform c ∈ Platforms → Platform d ∈ Platforms →
  GenerateContestID (Platform c) (StartTime c) = GenerateContestID (Platform d) (StartTime d) ↔
  Platform c = Platform d ∧ StartTime c = StartTime d.
Proof.
  intros Hc Hd. split; [by apply GenerateContestID_inj_lemma|]. by intros [-> ->].
Qed.
Lemma contest_id_determines_witness :
  let c := mk_contest "" "A" "" 10 20 10 "atcoder" in
  let d := mk_contest "" "B" "" 10 30 20 "atcoder" in
  GenerateContestID (Platform c) (StartTime c) = GenerateContestID (Platform d) (StartTime d).
Proof.
  intros c d. apply (contest_id_determines c d); [| |done]; apply (bool_decide_unpack _); vm_compute; exact I.
Defined.

(** ** What the fetchers return *)

Definition from_platform (p : string) (r : error + list Contest) : Prop :=
  ∀ l c, r = inr l → c ∈ l →
    Platform c = p ∧ ID c = GenerateContestID p (StartTime c) ∧ p ∈ Platforms ∧ p ∈ check_platforms.

Lemma from_platform_omap {A} p (f : A → option Contest) l :
  p ∈ Platforms → p ∈ check_platforms →
  (∀ x c, f x = Some c → Platform c = p ∧ ID c = GenerateContestID p (StartTime c)) →
  from_platform p (inr (omap f l)).
Proof.
  intros Hp Hp' Hf l' c [= <-] (x & _ & Hx)%elem_of_omap_Some. apply Hf in Hx. naive_solver.
Qed.
Lemma from_platform_inl p e : from_platform p (inl e).
Proof. by intros l c. Qed.

(** Unfold a fetcher's branches down to the contest it builds. *)
Ltac platform_in := apply (bool_decide_unpack _); vm_compute; exact I.
Ltac by_branches :=
  repeat case_match; try apply from_platform_inl;
  (apply from_platform_omap; [platform_in|platform_in|intros ? ? ?]).
Ltac built := repeat case_match; simplify_eq/=; done.

Lemma atcoder_row_wf cells c :
  atcoder_row cells = Some c → Platform c = "atcoder" ∧ ID c = GenerateContestID "atcoder" (StartTime c).
Proof. unfold atcoder_row. intros H. built. Qed.
Lemma atcoder_rows_elem fuel table c :
  c ∈ atcoder_rows_fuel fuel table → ∃ cells, atcoder_row cells = Some c.
Proof.
  revert table. induction fuel as [|fuel IH]; intros table; simpl; [by intros ?%elem_of_nil|].
  repeat case_match; try (by intros ?%elem_of_nil).
  rewrite elem_of_app. intros [Hc|Hc]; [|by eapply IH].
  destruct (atcoder_row _) eqn:Hr; simpl in Hc; [|by apply elem_of_nil in Hc].
  apply list_elem_of_singleton in Hc as ->. eauto.
Qed.

Lemma fetchers_platform body json_cf json_360 json_lc json_d url_Parse now :
  from_platform "codeforces" (FetchCodeforcesContests body json_cf now) ∧
  from_platform "code360" (FetchCode360Contests body json_360 now) ∧
  from_platform "leetcode" (FetchLeetcodeContests body json_lc now) ∧
  from_platform "geeksforgeeks" (FetchGeeksforGeeksContests body json_d) ∧
  from_platform "codechef" (FetchCodechefContests body json_d) ∧
  from_platform "hackerrank" (FetchHackerrankContests url_Parse body json_d) ∧
  from_platform "atcoder" (FetchAtcoderContests body).
Proof.
  split_and!.
  - unfold FetchCodeforcesContests, codeforces_contest. by_branches. built.
  - unfold FetchCode360Contests, code360_contest. by_branches. built.
  - unfold FetchLeetcodeContests, leetcode_contest. by_branches. built.
  - unfold FetchGeeksforGeeksContests, fetch_dated, geeksforgeeks_contest. by_branches. built.
  - unfold FetchCodechefContests, fetch_dated, codechef_contest. by_branches. built.
  - unfold FetchHackerrankContests, fetch_dated, hackerrank_contest. by_branches. built.
  - unfold FetchAtcoderContests. repeat case_match; try apply from_platform_inl.
    intros l' c' [= <-] [cells Hrow]%atcoder_rows_elem. destruct (atcoder_row_wf _ _ Hrow).
    split_and!; [done|done|platform_in..].
Qed.

(** C38 (type).  Whatever the network, the decoders and the pages contain,
    every contest a fetcher returns carries its fetcher's platform, one that
    the schema's constraint admits, and the identifier made of that platform
    and the contest's own start time. *)
Theorem fetchers_well_formed body json_cf json_360 json_lc json_d url_Parse now :
  from_platform "codeforces" (FetchCodeforcesContests body json_cf now) ∧
  from_platform "code360" (FetchCode360Contests body json_360 now) ∧
  from_platform "leetcode" (FetchLeetcodeContests body json_lc now) ∧
  from_platform "geeksforgeeks" (FetchGeeksforGeeksContests body json_d) ∧
  from_platform "codechef" (FetchCodechefContests body json_d) ∧
  from_platform "hackerrank" (FetchHackerrankContests url_Parse body json_d) ∧
  from_platform "atcoder" (FetchAtcoderContests body).
Proof. apply fetchers_platform. Qed.

(** The table agrees with the list of platforms and the fetchers' promise. *)
Lemma call_fetcher_known w p : is_Some (call_fetcher w p) ↔ p ∈ Platforms.
Proof.
  unfold call_fetcher. rewrite fmap_is_Some. unfold Fetchers. cbv zeta.
  split.
  - intros [[q r] Hh]. apply head_Some_elem_of, list_elem_of_filter in Hh as [<- Hin]. simpl.
    repeat (apply elem_of_cons in Hin as [[= -> _]|Hin]; [platform_in|]). by apply elem_of_nil in Hin.
  - intros Hp. unfold Platforms in Hp.
    repeat (apply elem_of_cons in Hp as [->|Hp]; [simpl; eauto|]). by apply elem_of_nil in Hp.
Qed.
Lemma call_fetcher_from w p r : call_fetcher w p = Some r → from_platform p r.
Proof.
  unfold call_fetcher, Fetchers. cbv zeta. intros ([q r'] & Hh & ->)%fmap_Some. simpl.
  apply head_Some_elem_of, list_elem_of_filter in Hh as [<- Hin]. simpl.
  pose proof (λ b d, fetchers_platform b (json_codeforces w) (json_code360 w) (json_leetcode w) d
    (web_url_Parse w) (web_now w)) as Hall.
  repeat (apply elem_of_cons in Hin as [[= -> ->]|Hin];
    [first [ apply (Hall _ (json_codechef w)) | apply (Hall _ (json_geeksforgeeks w))
           | apply (Hall _ (json_hackerrank w)) ]|]).
  by apply elem_of_nil in Hin.
Qed.

(** ** AtCoder *)

Lemma strip_runes_clean b rs x :
  Forall (λ r, match r with None => True | Some c => String.length c ≤ 1 ∨ Forall high (chars c) end)%nat rs →
  x ∈ chars (strip_runes b rs) → x ≠ "<"%char ∧ x ≠ ">"%char.
Proof.
  assert (∀ x, high x → x ≠ "<"%char ∧ x ≠ ">"%char) as Hhigh.
  { unfold high. intros y Hy. split; intros ->; vm_compute in Hy; congruence. }
  intros Hrs. revert b. induction Hrs as [|r rs Hr _ IH]; intros b; simpl; [by intros ?%elem_of_nil|].
  case_bool_decide as H1; [apply IH|]. case_bool_decide as H2; [apply IH|].
  destruct b; [apply IH|]. rewrite chars_app, elem_of_app. intros [Hx|Hx]; [|by eapply IH].
  assert (high x ∨ String.length (default rune_error r) ≤ 1)%nat as [?|Hs]; [|by apply Hhigh|].
  { destruct r as [c|]; simpl in *.
    - destruct Hr as [|Hr]; [by right|]. left. rewrite Forall_forall in Hr. by apply Hr.
    - left. apply (bool_decide_unpack _) in Hx || (unfold rune_error, bytes_str in Hx; simpl in Hx;
        unfold high; repeat (apply elem_of_cons in Hx as [->|Hx]; [vm_compute; congruence|]);
        by apply elem_of_nil in Hx). }
  destruct (default rune_error r) as [|y [|z c]]; simpl in *; [by apply elem_of_nil in Hx| |lia].
  apply list_elem_of_singleton in Hx as ->. split; congruence.
Qed.

(** Property (safety).  The text [stripTags] leaves has no angle bracket, on any
    input, well-formed HTML and UTF-8 or not: no tag of the page reaches the
    contest's name. *)
Theorem stripTags_no_tags s x : x ∈ chars (stripTags s) → x ≠ "<"%char ∧ x ≠ ">"%char.
Proof.
  intros Hx%chars_TrimSpace. eapply strip_runes_clean; [|exact Hx].
  apply Forall_forall. intros r. apply runes_bytes.
Qed.
Lemma stripTags_no_tags_witness :
  stripTags "<b>AtCoder</b> Beginner <i" = "AtCoder Beginner" ∧ "A"%char ≠ "<"%char ∧ "A"%char ≠ ">"%char.
Proof.
  split; [vm_compute; done|]. apply (stripTags_no_tags "<b>A</b>"). vm_compute. constructor.
Defined.

(** *** Pages *)

(** A cell: the text before it, what stands between [<td] and [>], its content. *)
Record cell := mk_cell { gap : string; attrs : string; content : string }.
Definition print_cell (c : cell) (rest : string) : string :=
  gap c +:+ "<td" +:+ attrs c +:+ ">" +:+ content c +:+ "</td>" +:+ rest.
Definition absent (p s : string) : bool := bool_decide (Index s p = None).
Definition cell_ok (c : cell) : bool :=
  absent "<td" (gap c) && absent ">" ("<td" +:+ attrs c) && absent "</td>" (content c).

(** A row: the text before [<tr>], the cells, the text after the last cell. *)
Record trow := mk_trow { before : string; cells : list cell; after : string }.
Definition row_text (r : trow) : string := foldr print_cell (after r) (cells r).
Definition print_row (r : trow) (rest : string) : string :=
  before r +:+ "<tr>" +:+ row_text r +:+ "</tr>" +:+ rest.
Definition row_ok (r : trow) : bool :=
  absent "<tr>" (before r) && absent "</tr>" (row_text r) && absent "<td" (after r)
  && forallb cell_ok (cells r).

(** A page: two tables, the second one with the rows. *)
Record page := mk_page { head_text : string; first_table : string; rows : list trow; tail_text : string; rest_text : string }.
Definition table_text (p : page) : string := foldr print_row (tail_text p) (rows p).
Definition print_page (p : page) : string :=
  head_text p +:+ "<tbody>" +:+ first_table p +:+ "<tbody>" +:+ table_text p +:+ "</tbody>" +:+ rest_text p.
Definition page_ok (p : page) : bool :=
  absent "<tbody>" (head_text p) && absent "<tbody>" (first_table p)
  && absent "</tbody>" (table_text p) && absent "<tr>" (tail_text p) && forallb row_ok (rows p).

Lemma absent_Index p s : absent p s = true → Index s p = None.
Proof. apply bool_decide_eq_true. Qed.
Ltac split_ok H :=
  repeat match type of H with _ && _ = true => let H' := fresh H in apply andb_true_iff in H as [H H'] end.

Lemma extractCells_step fuel c rest :
  cell_ok c = true →
  extractCells_fuel (S fuel) (print_cell c rest) = content c :: extractCells_fuel fuel rest.
Proof.
  unfold cell_ok. rewrite !andb_true_iff. intros [[H1%absent_Index H2%absent_Index] H3%absent_Index].
  unfold print_cell. set (row := gap c +:+ _).
  assert (row = gap c +:+ ("<td" +:+ attrs c) +:+ ">" +:+ content c +:+ "</td>" +:+ rest) as Hrow
    by (unfold row; by rewrite app_assoc_s).
  cbn [extractCells_fuel]. rewrite (Index_app (gap c) "<" "td" _ ltac:(set_solver) H1 : Index row "<td" = _).
  assert (sdrop (String.length (gap c)) row = ("<td" +:+ attrs c) +:+ ">" +:+ content c +:+ "</td>" +:+ rest) as ->
    by (rewrite Hrow; apply sdrop_app).
  rewrite (Index_app ("<td" +:+ attrs c) ">" "" (content c +:+ "</td>" +:+ rest) ltac:(set_solver) H2
    : Index (("<td" +:+ attrs c) +:+ ">" +:+ content c +:+ "</td>" +:+ rest) ">" = _).
  set (n := (String.length (gap c) + String.length ("<td" +:+ attrs c) + 1)%nat).
  assert (∀ m, sdrop (n + m) row = sdrop m (content c +:+ "</td>" +:+ rest)) as Hdrop.
  { intros m. unfold n. rewrite Hrow, <- !Nat.add_assoc, sdrop_add_app, sdrop_add_app. done. }
  pose proof (Hdrop 0%nat) as H0. rewrite Nat.add_0_r, sdrop_0 in H0. rewrite H0.
  rewrite (Index_app (content c) "<" "/td>" rest ltac:(set_solver) H3
    : Index (content c +:+ "</td>" +:+ rest) "</td>" = _).
  rewrite stake_app, <- Nat.add_assoc, Hdrop, sdrop_add_app. done.
Qed.

Lemma extractCells_none fuel s : Index s "<td" = None → extractCells_fuel fuel s = [].
Proof. intros Hn. destruct fuel; simpl; [done|by rewrite Hn]. Qed.
Lemma extractCells_text fuel cs tl :
  forallb cell_ok cs = true → Index tl "<td" = None → (length cs ≤ fuel)%nat →
  extractCells_fuel fuel (foldr print_cell tl cs) = content <$> cs.
Proof.
  revert fuel. induction cs as [|c cs IH]; intros fuel Hok Htl Hf; [by apply extractCells_none|].
  destruct fuel as [|fuel]; simpl in Hf; [lia|]. apply andb_true_iff in Hok as [Hc Hcs].
  cbn [foldr]. rewrite extractCells_step by done. simpl. rewrite IH by (done || lia). done.
Qed.
Lemma cells_length cs tl : (length cs ≤ String.length (foldr print_cell tl cs))%nat.
Proof.
  induction cs as [|c cs IH]; simpl; [lia|]. unfold print_cell at 1.
  rewrite !length_app_s. simpl. lia.
Qed.
Lemma extractCells_row r : row_ok r = true → extractCells (row_text r) = content <$> cells r.
Proof.
  unfold row_ok. rewrite !andb_true_iff. intros [[[_ _] Ha%absent_Index] Hc].
  apply extractCells_text; [done|done|]. pose proof (cells_length (cells r) (after r)).
  unfold row_text. lia.
Qed.

Lemma atcoder_rows_step fuel r rest :
  row_ok r = true →
  atcoder_rows_fuel (S fuel) (print_row r rest) =
  option_list (atcoder_row (content <$> cells r)) ++ atcoder_rows_fuel fuel rest.
Proof.
  intros Hok. rewrite <- (extractCells_row r Hok). revert Hok.
  unfold row_ok. rewrite !andb_true_iff. intros [[[H1%absent_Index H2%absent_Index] _] _].
  unfold print_row. cbn [atcoder_rows_fuel].
  rewrite (Index_app (before r) "<" "tr>" (row_text r +:+ "</tr>" +:+ rest) ltac:(set_solver) H1
    : Index (before r +:+ "<tr>" +:+ row_text r +:+ "</tr>" +:+ rest) "<tr>" = _).
  cbv zeta. rewrite sdrop_add_app. change (sdrop 4 ("<tr>" +:+ ?x)) with x.
  rewrite (Index_app (row_text r) "<" "/tr>" rest ltac:(set_solver) H2
    : Index (row_text r +:+ "</tr>" +:+ rest) "</tr>" = _).
  by rewrite stake_app, sdrop_add_app.
Qed.
Lemma atcoder_rows_none fuel s : Index s "<tr>" = None → atcoder_rows_fuel fuel s = [].
Proof. intros Hn. destruct fuel; simpl; [done|by rewrite Hn]. Qed.
Lemma atcoder_rows_text fuel rs tl :
  forallb row_ok rs = true → Index tl "<tr>" = None → (length rs ≤ fuel)%nat →
  atcoder_rows_fuel fuel (foldr print_row tl rs) = omap (λ r, atcoder_row (content <$> cells r)) rs.
Proof.
  revert fuel. induction rs as [|r rs IH]; intros fuel Hok Htl Hf; [by apply atcoder_rows_none|].
  destruct fuel as [|fuel]; simpl in Hf; [lia|]. apply andb_true_iff in Hok as [Hr Hrs].
  cbn [foldr]. rewrite atcoder_rows_step by done. rewrite IH by (done || lia). simpl.
  by destruct (atcoder_row _).
Qed.
Lemma rows_length rs tl : (length rs ≤ String.length (foldr print_row tl rs))%nat.
Proof.
  induction rs as [|r rs IH]; simpl; [lia|]. unfold print_row at 1. rewrite !length_app_s. simpl. lia.
Qed.

(** C33 (round trip).  Scraping reads back what a page shows: on any page with
    two tables whose texts do not contain the tags that delimit them, the
    scraper returns exactly the contests of the second table's rows, in order,
    each computed from the contents of the row's cells, whatever attributes and
    white space surround them; its loops reach the end of the page. *)
Theorem atcoder_scrape p :
  page_ok p = true →
  FetchAtcoderContests (inr (print_page p)) =
  inr (omap (λ r, atcoder_row (content <$> cells r)) (rows p)).
Proof.
  unfold page_ok. rewrite !andb_true_iff.
  intros [[[[H1%absent_Index H2%absent_Index] H3%absent_Index] H4%absent_Index] H5].
  unfold FetchAtcoderContests, print_page. set (html := head_text p +:+ _).
  rewrite (Index_app (head_text p) "<" "tbody>" _ ltac:(set_solver) H1 : Index html "<tbody>" = _).
  unfold html at 1. rewrite sdrop_add_app.
  change (sdrop 7 ("<tbody>" +:+ ?x)) with (sdrop 0 x). rewrite sdrop_0.
  rewrite (Index_app (first_table p) "<" "tbody>" (table_text p +:+ "</tbody>" +:+ rest_text p)
    ltac:(set_solver) H2 : Index (_ +:+ "<tbody>" +:+ _) "<tbody>" = _).
  cbv zeta. set (start := (_ + _)%nat).
  assert (sdrop start html = table_text p +:+ "</tbody>" +:+ rest_text p) as Hs.
  { unfold start, html. rewrite <- !Nat.add_assoc, sdrop_add_app.
    change (sdrop (7 + ?n) ("<tbody>" +:+ ?x)) with (sdrop n x). rewrite sdrop_add_app.
    change (sdrop 7 ("<tbody>" +:+ ?x)) with (sdrop 0 x). apply sdrop_0. }
  rewrite Hs.
  rewrite (Index_app (table_text p) "<" "/tbody>" (rest_text p) ltac:(set_solver) H3
    : Index (_ +:+ "</tbody>" +:+ _) "</tbody>" = _).
  rewrite stake_app. f_equal. apply atcoder_rows_text; [done|done|].
  pose proof (rows_length (rows p) (tail_text p)). unfold table_text. lia.
Qed.

(** A page in the style of the site. *)
Definition demo_page : page :=
  let q := quote in
  mk_page "<html>" "<tr><td>1</td></tr></tbody>"
    [ mk_trow " " [ mk_cell "" (" class=" +:+ q +:+ "text-center" +:+ q)
                      ("<a href=" +:+ q +:+ "/contests/abc400?iso=20330518T2100&p=1" +:+ q +:+ "><time>..</time></a>");
                    mk_cell " " "" ("<a href=" +:+ q +:+ "/contests/abc400" +:+ q +:+ ">ABC <b>400</b></a>");
                    mk_cell " " "" "01:40" ] " " ] " " "</html>".
Lemma atcoder_scrape_witness :
  FetchAtcoderContests (inr (print_page demo_page)) =
  inr [ mk_contest "atcoder_2000062800" "ABC 400"
          "https://atcoder.jp/contests/abc400?iso=20330518T2100&p=1" 2000062800 2000068800 6000 "atcoder" ].
Proof.
  rewrite (atcoder_scrape demo_page); [vm_compute; reflexivity|vm_compute; reflexivity].
Defined.

(** The host check of the HackerRank fetcher admits look-alike domains. *)
Example hackerrank_lookalike :
  let host := λ s, inr {| Scheme := "https"; Host := "evilhackerrank.com" |} in
  let a := mk_dated "Win" "https://evilhackerrank.com/x" "2033-01-01T00:00:00Z" "2033-01-01T01:00:00Z" in
  URL <$> hackerrank_contest host a = Some "https://evilhackerrank.com/x".
Proof. vm_compute. done. Qed.
