(* ===== verification/Extraction.v ===== *)
(** * Extraction tasks ([handleExtraction] of [internal/queue/amqp.go])

    The handler of an extraction task: fetch, prune, upsert in one batch,
    invalidate the cache, report.  The fetchers come through the interface
    [Fetching], whose instance is the table of package [extractor].
    OpenTelemetry counters and log lines are left out. *)

From stdpp Require Import base gmap strings list sets.
From Stdlib Require Import ZArith Lia Ascii.
From S2P Require Import Prelude GoStrings Models Database Effects Extractor ExtractorSpec Syncer.
Local Open Scope go_scope.

(** ** The interface to the fetchers *)

(** The [n]-th call of the process: [None] when the platform is unknown. *)
Class Fetching := {
  fetcher : nat → string → option (error + list Extractor.Contest);
  fetcher_known : ∀ n p, is_Some (fetcher n p) ↔ p ∈ Platforms;
  fetcher_from : ∀ n p r, fetcher n p = Some r → from_platform p r }.

(** Package [extractor] keeps the promise on any web. *)
Definition web_fetching (web : nat → Web) : Fetching := {|
  fetcher n := call_fetcher (web n);
  fetcher_known n := call_fetcher_known (web n);
  fetcher_from n := call_fetcher_from (web n) |}.

(** ** The handler *)

Definition upsert (c : Extractor.Contest) : stmt :=
  UpsertContest (ID c) (Name c) (URL c) (StartTime c * Second) (EndTime c * Second)
    (Duration c) (Platform c).

Section Handler.
Context {kv : Type} `{!Valkey kv} `{!Fetching}.
Context (E : Env).
(** [q.Syncer != nil && q.Syncer.Valkey != nil] and [q.OnTelegramEvent != nil] *)
Context (hasValkey hasTelegram : bool).
Abbreviation W := (World kv).
Abbreviation Go := (@M kv).

Definition fetch_contests {R} (platform : string) : Go R (option (error + list Extractor.Contest)) :=
  ext (λ n w, (fetcher n platform, w)).

Definition InvalidateContestsCache {R} (platform : string) : Go R (option error) :=
  if hasValkey then kv_del E (ContestsCacheKey platform) else ret None.

Definition metrics_line (row : string * Z) : string :=
  "• <b>" +:+ row.1 +:+ "</b>: " +:+ Itoa row.2 +:+ " contest(s)" +:+ nl.
Definition logDatabaseContestsTelemetry {R} : Go R unit :=
  r <- sql_rows_checked E false (λ now d, select_counts now d) ;;
  match r with
  | inl _ => ret tt
  | inr rows =>
      let summaryText := foldr (λ row s, metrics_line row +:+ s) "" rows in
      let totalContests := foldr (λ row n, row.2 + n)%Z 0%Z rows in
      if hasTelegram && (0 <? totalContests)%Z then
        telegram "CONTEST_EXTRACTION_SUCCESS"
          ("📊 <b>[CONTEST EXTRACTION METRICS]</b>" +:+ nl +:+ nl +:+ "Total Upcoming Contests: <b>"
           +:+ Itoa totalContests +:+ "</b>" +:+ nl +:+ nl +:+ summaryText)
      else ret tt
  end.

Definition handleExtraction (platform : string) : W → option error * W := run (
  f <- fetch_contests platform ;;
  match f with
  | None => leave (Some (errorf ("unknown platform: " +:+ platform)))
  | Some (inl e) => leave (Some e)
  | Some (inr []) => leave None
  | Some (inr contests) =>
      let newIDs := ID <$> contests in
      _ <- sql_exec E (PruneObsolete platform newIDs) ;;
      err <- sql_batch E (upsert <$> contests) ;;
      match err with
      | Some e => leave (Some e)
      | None =>
          _ <- InvalidateContestsCache platform ;;
          logDatabaseContestsTelemetry ;;;
          ret None
      end
  end).
End Handler.

(** ** Footprint *)

(** The statements of an extraction of [p]. *)
Definition extraction_stmt (p : string) (q : stmt) : Prop :=
  match q with
  | PruneObsolete p' _ => p' = p
  | UpsertContest id _ _ st _ _ p' => p' = p ∧ ∃ t, id = GenerateContestID p t
  | _ => False
  end.
Definition extraction_allow (p : string) (e : effect) : Prop :=
  match e with
  | FSql q => extraction_stmt p q ∧ p ∈ Platforms
  | FKv k => k = ContestsCacheKey p
  | FTelegram n => n = "CONTEST_EXTRACTION_SUCCESS"
  | _ => False
  end.

Section Facts.
Context {kv : Type} `{!Valkey kv} `{!Fetching}.
Context (E : Env) (hasValkey hasTelegram : bool).
Abbreviation W := (World kv).

Lemma handleExtraction_wsteps p (w : W) :
  wsteps (extraction_allow p) w (handleExtraction E hasValkey hasTelegram p w).2.
Proof.
  unfold handleExtraction. apply (wp_run _ (λ _, wsteps (extraction_allow p) w)).
  apply wp_bind, wp_ext. destruct (fetcher (tick w) p) as [[e|cs]|] eqn:Hf;
    try (by apply wp_leave, rtc_once, step_tick).
  assert (p ∈ Platforms) as Hp by (apply (fetcher_known (tick w)); eauto).
  apply fetcher_from in Hf. cbn. destruct cs as [|c cs]; [by apply rtc_once, step_tick|].
  set (w1 := bump w). assert (wsteps (extraction_allow p) w w1) as H1 by (by apply rtc_once, step_tick).
  clearbody w1. eapply wp_mono; [|cbn beta; intros ? w2 H2; etrans; [exact H1|exact H2]..].
  revert w1 H1. enough (respects (wsteps (extraction_allow p)) (
    _ <- sql_exec E (PruneObsolete p (ID <$> c :: cs)) ;;
    err <- sql_batch E (upsert <$> c :: cs) ;;
    match err with
    | Some e => leave (Some e)
    | None =>
        _ <- InvalidateContestsCache E hasValkey p ;;
        logDatabaseContestsTelemetry E hasTelegram ;;;
        ret None
    end : @M kv (option error) (option error))) as Hr by (intros w1 _; exact (Hr w1)).
  unfold InvalidateContestsCache, logDatabaseContestsTelemetry.
  wsteps_with ltac:(fun _ => by split + done). apply steps_batch.
  apply Forall_fmap, Forall_forall. intros x Hx. destruct (Hf _ x eq_refl Hx) as (Hx1 & Hx2 & _).
  simpl. rewrite Hx1, Hx2. eauto.
Qed.
End Facts.
