(* ===== verification/Queue.v ===== *)
(** * The task queue ([internal/queue/amqp.go])

    The connection to the AMQP broker with its in-memory fallback, publishing,
    the self-healing reconnection with its backoff, and the settlement of
    deliveries with the bounded retries.  The broker and the network are
    outside: a dial, a publication or an acknowledgement has the outcome the
    environment gives it, and connections may die at any time.

    A connection or channel is a handle; [live] is the set of handles whose
    [IsClosed()] is false. *)

From stdpp Require Import base gmap strings list sets.
From Stdlib Require Import ZArith Lia Ascii.
From S2P Require Import Prelude GoStrings Models GoFloat Effects.
Local Open Scope Z_scope.

Definition QueueExtraction : string := "extraction-tasks".
Definition QueueSync : string := "sync-tasks".

(** A message: the task and [RetryCount]. *)
Record task (T : Type) := mk_task { payload : T; RetryCount : Z }.
Arguments mk_task {_}.
Arguments payload {_}.
Arguments RetryCount {_}.
(** [ExtractionTask] carries the platform, [SyncTask] the user. *)
Definition ExtractionTask : Type := task string.
Definition SyncTask : Type := task Z.

Record Queue := mk_queue {
  AMQPConn : option nat; AMQPChannel : option nat;
  useInMemory : bool; amqpConfigured : bool; isClosed : bool;
  extractionCh : list string; syncCh : list Z;
  (** the broker's two queues *)
  broker_extraction : list ExtractionTask; broker_sync : list SyncTask;
  live : gset nat; next_handle : nat }.

Definition capExtraction : nat := 100.
Definition capSync : nat := 1000.

(** [h != nil && !h.IsClosed()] *)
Definition is_open (q : Queue) (h : option nat) : bool :=
  match h with Some n => bool_decide (n ∈ live q) | None => false end.
Definition connected (q : Queue) : bool := is_open q (AMQPConn q) && is_open q (AMQPChannel q).

(** ** Connecting *)

Inductive dial :=
| DialFails (e : error) | ChannelFails (e : error)
| DeclareExtractionFails (e : error) | DeclareSyncFails (e : error) | Dialled.

(** The new connection and channel take the place of the old ones, which are closed. *)
Definition install (q : Queue) : Queue :=
  let c := next_handle q in
  mk_queue (Some c) (Some (S c)) false (amqpConfigured q) (isClosed q) (extractionCh q) (syncCh q)
    (broker_extraction q) (broker_sync q)
    (({[c; S c]} ∪ live q) ∖ list_to_set (option_list (AMQPChannel q) ++ option_list (AMQPConn q)))
    (S (S c)).

(** [meanwhile] is what other goroutines did to the queue while it dialled. *)
Definition connectAMQP (d : dial) (meanwhile : Queue → Queue) (q : Queue) : option error * Queue :=
  if isClosed q then (Some (errorf "queue is closed"), q)
  else if connected q then (None, q)
  else
    let q := meanwhile q in
    match d with
    | DialFails e => (Some (errorf ("failed to dial AMQP broker: " +:+ Error e)), q)
    | ChannelFails e => (Some (errorf ("failed to open AMQP channel: " +:+ Error e)), q)
    | DeclareExtractionFails e => (Some (errorf ("failed to declare extraction queue: " +:+ Error e)), q)
    | DeclareSyncFails e => (Some (errorf ("failed to declare sync queue: " +:+ Error e)), q)
    | Dialled =>
        if isClosed q then (Some (errorf "queue was closed during connection setup"), q)
        else (None, install q)
    end.

Definition set_useInMemory (b : bool) (q : Queue) : Queue :=
  mk_queue (AMQPConn q) (AMQPChannel q) b (amqpConfigured q) (isClosed q) (extractionCh q) (syncCh q)
    (broker_extraction q) (broker_sync q) (live q) (next_handle q).

(** [New]: the broker's queues keep what they hold. *)
Definition New (AMQPURL : string) (d : dial) (be : list ExtractionTask) (bs : list SyncTask) : Queue :=
  let q := mk_queue None None false false false [] [] be bs ∅ 0 in
  if decide (AMQPURL = "") then set_useInMemory true q
  else
    let q := mk_queue None None false true false [] [] be bs ∅ 0 in
    match connectAMQP d id q with
    | (Some _, q) => set_useInMemory true q
    | (None, q) => q
    end.

Definition Health (q : Queue) : option error :=
  if negb (amqpConfigured q) then None
  else if useInMemory q || negb (is_open q (AMQPConn q)) || negb (is_open q (AMQPChannel q))
  then Some (errorf "AMQP broker is disconnected or degraded")
  else None.

Definition Close (q : Queue) : Queue :=
  mk_queue None None (useInMemory q) (amqpConfigured q) true (extractionCh q) (syncCh q)
    (broker_extraction q) (broker_sync q)
    (live q ∖ list_to_set (option_list (AMQPChannel q) ++ option_list (AMQPConn q))) (next_handle q).

(** ** Publishing *)

Definition inMemory (q : Queue) : bool :=
  useInMemory q || bool_decide (AMQPChannel q = None) || bool_decide (AMQPConn q = None)
  || negb (is_open q (AMQPConn q)).

(** The [select]: with room in the channel and a cancelled context Go picks
    either ready case, [pick]. *)
Definition select_send {A} (cap : nat) (full : string) (ctx : option error) (pick : bool) (x : A) (ch : list A)
  : option error * list A :=
  let room := (length ch <? cap)%nat in
  match ctx with
  | Some e => if room && pick then (None, ch ++ [x]) else (Some e, ch)
  | None => if room then (None, ch ++ [x]) else (Some (errorf full), ch)
  end.

(** What becomes of a publication on an open channel.  No channel is put into
    confirm mode, so [nil] only says that the message was written to the
    connection: it may be [Dropped] on its way. *)
Inductive publication := Stored | Dropped | NotSent (e : error) | MaybeSent (e : error).
(** [ch.PublishWithContext] of [m] on a broker queue [l]. *)
Definition publish {T} (open : bool) (f : publication) (m : task T) (l : list (task T))
  : option error * list (task T) :=
  if open then
    match f with
    | Stored => (None, l ++ [m])
    | Dropped => (None, l)
    | NotSent e => (Some e, l)
    | MaybeSent e => (Some e, l ++ [m])
    end
  else (Some (errorf "channel/connection is not open"), l).

Definition set_extraction (ch : list string) (l : list ExtractionTask) (q : Queue) : Queue :=
  mk_queue (AMQPConn q) (AMQPChannel q) (useInMemory q) (amqpConfigured q) (isClosed q) ch (syncCh q)
    l (broker_sync q) (live q) (next_handle q).
Definition set_sync (ch : list Z) (l : list SyncTask) (q : Queue) : Queue :=
  mk_queue (AMQPConn q) (AMQPChannel q) (useInMemory q) (amqpConfigured q) (isClosed q) (extractionCh q) ch
    (broker_extraction q) l (live q) (next_handle q).

Definition PublishExtractionTask (ctx : option error) (pick : bool) (f : publication) (platform : string) (q : Queue)
  : option error * Queue :=
  if inMemory q then
    let '(r, ch) := select_send capExtraction "in-memory extraction queue is full" ctx pick platform (extractionCh q) in
    (r, set_extraction ch (broker_extraction q) q)
  else
    let '(r, l) := publish (is_open q (AMQPChannel q)) f (mk_task platform 0) (broker_extraction q) in
    (r, set_extraction (extractionCh q) l q).

Definition PublishSyncTask (ctx : option error) (pick : bool) (f : publication) (userID : Z) (q : Queue)
  : option error * Queue :=
  if inMemory q then
    let '(r, ch) := select_send capSync "in-memory sync queue is full" ctx pick userID (syncCh q) in
    (r, set_sync ch (broker_sync q) q)
  else
    let '(r, l) := publish (is_open q (AMQPChannel q)) f (mk_task userID 0) (broker_sync q) in
    (r, set_sync (syncCh q) l q).

(** ** Consumers *)

Inductive consumer := MemoryExtraction | MemorySync | AMQPExtraction | AMQPSync.
#[export] Instance consumer_eq_dec : EqDecision consumer.
Proof. solve_decision. Defined.
Definition StartConsumers (q : Queue) : list consumer :=
  if negb (amqpConfigured q) then [MemoryExtraction; MemorySync] else [AMQPExtraction; AMQPSync].

(** One receive of an in-memory consumer. *)
Definition receive_extraction (q : Queue) : option (string * Queue) :=
  match extractionCh q with
  | [] => None
  | p :: ch => Some (p, set_extraction ch (broker_extraction q) q)
  end.
Definition receive_sync (q : Queue) : option (Z * Queue) :=
  match syncCh q with
  | [] => None
  | u :: ch => Some (u, set_sync ch (broker_sync q) q)
  end.

Inductive disposition := Ack | Nack (requeue : bool).

(** The goroutine of a delivery: [err] is what the handler returned, [mErr]
    the error of [json.Marshal], [open] whether the publishing channel is
    usable.  The result is the settlement and the broker queue after the
    republication.  The body of the two consumers is the same. *)
Definition handle_delivery {T} (err mErr : option error) (open : bool) (f : publication) (t : task T)
  (l : list (task T)) : disposition * list (task T) :=
  match err with
  | None => (Ack, l)
  | Some _ =>
      if RetryCount t <? 2 then
        let t' := mk_task (payload t) (RetryCount t + 1) in
        match mErr with
        | Some _ => (Nack true, l)
        | None =>
            if open then
              match publish open f t' l with
              | (Some _, l) => (Nack true, l)
              | (None, l) => (Ack, l)
              end
            else (Nack true, l)
        end
      else (Ack, l)
  end.
(** A delivery whose body does not decode. *)
Definition reject_delivery : disposition := Nack false.

(** The broker's part: the delivery leaves the queue unless it is requeued, or
    the settlement is lost and the broker redelivers it. *)
Definition settle {T} (lost : bool) (t : task T) (r : disposition * list (task T)) : list (task T) :=
  match r with
  | (Ack, l) | (Nack false, l) => if lost then t :: l else l
  | (Nack true, l) => t :: l
  end.

(** ** Reconnecting *)

(** The constants 0.8, 0.4 and 1000.0. *)
Definition f_08 : float64 := Eval vm_compute in fdiv (float64_of_int 8) (float64_of_int 10).
Definition f_04 : float64 := Eval vm_compute in fdiv (float64_of_int 4) (float64_of_int 10).
Definition f_1000 : float64 := Eval vm_compute in float64_of_int 1000.
(** [0.8 + 0.4*float64(nano%1000)/1000.0] *)
Definition jitter_factor (nano : Z) : float64 :=
  fadd f_08 (fdiv (fmul f_04 (float64_of_int (Z.rem nano 1000))) f_1000).
(** [time.Duration(float64(backoff) * factor)] *)
Definition jitter (backoff nano : Z) : Z :=
  int64_of_float (fmul (float64_of_int backoff) (jitter_factor nano)).
Definition next_backoff (backoff : Z) : Z :=
  let backoff := backoff * 2 in
  if 30 * Second <? backoff then 30 * Second else backoff.

(** What one round meets: a cancelled context before it, the dial, the other
    goroutines while it dials and while it waits, the clock's nanoseconds and
    a cancelled context in the wait. *)
Record attempt := mk_attempt {
  a_ctx : option error; a_dial : dial; a_meanwhile : Queue → Queue; a_nano : Z;
  a_ctx_wait : option error; a_waiting : Queue → Queue }.

(** The rounds of [reconnectWithBackoff], as many as the environment has; the
    result is [None] when it is still trying, and the waits it began. *)
Fixpoint reconnect_loop (backoff : Z) (rounds : list attempt) (q : Queue)
  : option (option error) * list Z * Queue :=
  match rounds with
  | [] => (None, [], q)
  | a :: rounds =>
      match a_ctx a with
      | Some e => (Some (Some e), [], q)
      | None =>
          if isClosed q then (Some (Some (errorf "queue is closed")), [], q)
          else if connected q then (Some None, [], q)
          else match connectAMQP (a_dial a) (a_meanwhile a) q with
          | (None, q) => (Some None, [], q)
          | (Some _, q) =>
              let wait := jitter backoff (a_nano a) in
              match a_ctx_wait a with
              | Some e => (Some (Some e), [wait], q)
              | None =>
                  let '(r, ws, q) := reconnect_loop (next_backoff backoff) rounds (a_waiting a q) in
                  (r, wait :: ws, q)
              end
          end
      end
  end.
Definition reconnectWithBackoff : list attempt → Queue → option (option error) * list Z * Queue :=
  reconnect_loop Second.

(** ** The outer loop of the self-healing consumers

    One pass up to the point where deliveries are read: where it ends. *)
Inductive phase :=
| Stopped                (** the goroutine returned *)
| Reconnecting           (** still inside [reconnectWithBackoff] *)
| Restart                (** [continue], after a pause *)
| Consuming (conn : nat) (** reading deliveries of a channel of [conn] *).

(** [ctx]: whether the context is done; [first] and [again] are the rounds of
    the two possible reconnections; the three options are the errors of
    [conn.Channel], [ch.Qos] and [ch.Consume]. *)
Definition consumer_pass (ctx : bool) (first again : list attempt) (chan qos consume : option error) (q : Queue)
  : phase * Queue :=
  if ctx then (Stopped, q)
  else if isClosed q then (Stopped, q)
  else
    let '(r, q) := if is_open q (AMQPConn q) then (Some None, q)
                   else ((reconnectWithBackoff first q).1.1, (reconnectWithBackoff first q).2) in
    match r with
    | None => (Reconnecting, q)
    | Some (Some _) => (Stopped, q)
    | Some None =>
        match AMQPConn q with
        | None => (Restart, q)
        | Some conn =>
            if negb (is_open q (AMQPConn q)) then (Restart, q)
            else match chan, qos, consume with
            | None, None, None => (Consuming conn, q)
            | _, _, _ =>
                match (reconnectWithBackoff again q).1.1 with
                | None => (Reconnecting, (reconnectWithBackoff again q).2)
                | Some _ => (Restart, (reconnectWithBackoff again q).2)
                end
            end
        end
    end.
