(* ===== verification/QueueSpec.v ===== *)
(** * Properties of the task queue

    The queue as a state machine and its invariants by rule induction; the
    fate of tasks on the broker; the backoff of the reconnection. *)

From stdpp Require Import base gmap strings list sets relations.
From Stdlib Require Import ZArith Lia Ascii.
From S2P Require Import Prelude GoStrings Models GoFloat Effects Queue.
Local Open Scope Z_scope.

(** ** The state machine *)

(** What the goroutines of the process and the network do to the queue.  A
    reconnection is not atomic: [connectAMQP] dials without holding the mutex,
    and [q1] is where the steps of others, further reconnections and [Close]
    included, have taken the queue when it takes the mutex again. *)
Inductive qstep : Queue → Queue → Prop :=
| q_publish_extraction ctx pick f p q : qstep q (PublishExtractionTask ctx pick f p q).2
| q_publish_sync ctx pick f u q : qstep q (PublishSyncTask ctx pick f u q).2
| q_connect d q q1 : AMQPExtraction ∈ StartConsumers q → qsteps q q1 → qstep q (connectAMQP d (λ _, q1) q).2
| q_receive_extraction p q q' :
    MemoryExtraction ∈ StartConsumers q → receive_extraction q = Some (p, q') → qstep q q'
| q_receive_sync u q q' :
    MemorySync ∈ StartConsumers q → receive_sync q = Some (u, q') → qstep q q'
| q_settle_extraction pre t post err mErr f lost q :
    broker_extraction q = pre ++ t :: post →
    qstep q (set_extraction (extractionCh q)
      (settle lost t (handle_delivery err mErr (is_open q (AMQPChannel q)) f t (pre ++ post))) q)
| q_settle_sync pre t post err mErr f lost q :
    broker_sync q = pre ++ t :: post →
    qstep q (set_sync (syncCh q)
      (settle lost t (handle_delivery err mErr (is_open q (AMQPChannel q)) f t (pre ++ post))) q)
| q_die dead q :
    qstep q (mk_queue (AMQPConn q) (AMQPChannel q) (useInMemory q) (amqpConfigured q) (isClosed q)
      (extractionCh q) (syncCh q) (broker_extraction q) (broker_sync q) (live q ∖ dead) (next_handle q))
| q_close q : qstep q (Close q)
with qsteps : Queue → Queue → Prop :=
| qs_refl q : qsteps q q
| qs_l q1 q2 q3 : qstep q1 q2 → qsteps q2 q3 → qsteps q1 q3.
Scheme qstep_ind' := Minimality for qstep Sort Prop
  with qsteps_ind' := Minimality for qsteps Sort Prop.
Combined Scheme qstep_qsteps_ind from qstep_ind', qsteps_ind'.

(** A state the process can reach. *)
Definition reachable (q : Queue) : Prop :=
  ∃ url d be bs, qsteps (New url d be bs) q.

Record queue_inv (q : Queue) : Prop := {
  qi_cap : (length (extractionCh q) ≤ capExtraction ∧ length (syncCh q) ≤ capSync)%nat;
  qi_memory : amqpConfigured q = false → useInMemory q = true ∧ AMQPConn q = None;
  qi_closed : isClosed q = true → AMQPConn q = None;
  qi_pair : AMQPConn q = None ↔ AMQPChannel q = None;
  qi_mode : useInMemory q = false → isClosed q = false → AMQPConn q ≠ None }.

Lemma select_send_bound {A} cap full ctx pick (x : A) ch :
  (length ch ≤ cap)%nat → (length (select_send cap full ctx pick x ch).2 ≤ cap)%nat.
Proof.
  intros H. unfold select_send. destruct (Nat.ltb_spec (length ch) cap), ctx, pick; simpl; try done;
    rewrite length_app; simpl; lia.
Qed.

Lemma New_inv url d be bs : queue_inv (New url d be bs).
Proof.
  unfold New. destruct (decide (url = "")).
  - by constructor; simpl; try lia.
  - unfold connectAMQP. destruct d; simpl; constructor; simpl; unfold capExtraction, capSync;
      try done; lia.
Qed.

Lemma consumers_memory c q :
  c ∈ StartConsumers q → c = MemoryExtraction ∨ c = MemorySync → amqpConfigured q = false.
Proof. unfold StartConsumers. destruct (amqpConfigured q); simpl; [set_solver|done]. Qed.
Lemma consumers_amqp q : AMQPExtraction ∈ StartConsumers q → amqpConfigured q = true.
Proof. unfold StartConsumers. destruct (amqpConfigured q); simpl; [done|set_solver]. Qed.

(** Others may have closed the queue in between. *)
Lemma connect_inv d q q1 :
  amqpConfigured q1 = true → queue_inv q → queue_inv q1 → queue_inv (connectAMQP d (λ _, q1) q).2.
Proof.
  intros Hcfg Hi Hi1. unfold connectAMQP. destruct (isClosed q); [done|].
  destruct (connected q); [done|]. destruct d; try done.
  destruct (isClosed q1) eqn:Hcl; [done|]. destruct Hi1 as [C M D P U]. constructor; simpl; try done; congruence.
Qed.
Lemma publish_extraction_inv ctx pick f p q :
  queue_inv q → queue_inv (PublishExtractionTask ctx pick f p q).2.
Proof.
  intros [C M D P U]. unfold PublishExtractionTask. destruct (inMemory q); simpl.
  - pose proof (select_send_bound capExtraction "in-memory extraction queue is full" ctx pick p
      (extractionCh q) (proj1 C)) as Hb. destruct (select_send _ _ _ _ _ _) as [r ch]. simpl in *.
    constructor; simpl; try done. by destruct C.
  - destruct (publish _ _ _ _). by constructor.
Qed.
Lemma publish_sync_inv ctx pick f u q : queue_inv q → queue_inv (PublishSyncTask ctx pick f u q).2.
Proof.
  intros [C M D P U]. unfold PublishSyncTask. destruct (inMemory q); simpl.
  - pose proof (select_send_bound capSync "in-memory sync queue is full" ctx pick u
      (syncCh q) (proj2 C)) as Hb. destruct (select_send _ _ _ _ _ _) as [r ch]. simpl in *.
    constructor; simpl; try done. by destruct C.
  - destruct (publish _ _ _ _). by constructor.
Qed.

Lemma close_inv q : queue_inv q → queue_inv (Close q).
Proof. intros [C M D P U]. constructor; simpl; try done; naive_solver. Qed.

(** What a step may not do: break the invariant, change the configuration,
    reopen a closed queue, or take from the channels of a configured broker. *)
Record keeps (q q' : Queue) : Prop := {
  k_inv : queue_inv q → queue_inv q';
  k_conf : amqpConfigured q' = amqpConfigured q;
  k_close : isClosed q = true → isClosed q' = true;
  k_memory : amqpConfigured q = true →
    extractionCh q `prefix_of` extractionCh q' ∧ syncCh q `prefix_of` syncCh q' }.
#[local] Instance keeps_preorder : PreOrder keeps.
Proof.
  split.
  - by constructor.
  - intros q1 q2 q3 [I1 C1 L1 M1] [I2 C2 L2 M2]. constructor; [tauto|congruence|tauto|].
    intros Hc. destruct (M1 Hc), M2; [congruence|]. split; by etrans.
Qed.

Lemma connect_keeps d q q1 :
  AMQPExtraction ∈ StartConsumers q → keeps q q1 → keeps q (connectAMQP d (λ _, q1) q).2.
Proof.
  intros Hin Hk. apply consumers_amqp in Hin. constructor; try intros Hi.
  - destruct Hk as [I C _ _]. apply connect_inv; [congruence|done|auto].
  - destruct Hk as [_ C _ _]. unfold connectAMQP. by repeat case_match.
  - unfold connectAMQP. by rewrite Hi.
  - destruct Hk as [_ _ _ M]. unfold connectAMQP. repeat case_match; simpl; auto.
Qed.
Lemma publish_keeps_memory ctx pick f p u q :
  keeps q (PublishExtractionTask ctx pick f p q).2 ∧ keeps q (PublishSyncTask ctx pick f u q).2.
Proof.
  split; constructor; auto using publish_extraction_inv, publish_sync_inv;
    unfold PublishExtractionTask, PublishSyncTask, select_send;
    destruct (inMemory q); try (by destruct (publish _ _ _ _)); repeat case_match; simplify_eq/=; auto using prefix_app_r.
Qed.
Lemma qstep_keeps : (∀ q q', qstep q q' → keeps q q') ∧ (∀ q q', qsteps q q' → keeps q q').
Proof.
  apply qstep_qsteps_ind.
  - intros. by apply (publish_keeps_memory _ _ _ _ 0).
  - intros. by apply (publish_keeps_memory _ _ _ "").
  - intros d q q1 Hin _ Hk. by apply connect_keeps.
  - intros p q q' Hin Hr. apply consumers_memory in Hin; [|by left].
    unfold receive_extraction in Hr. destruct (extractionCh q) as [|p' ch] eqn:Hch; simplify_eq/=.
    constructor; simpl; try done; [|congruence].
    intros [C M D P U]. constructor; simpl; try done. rewrite Hch in C. simpl in C. lia.
  - intros u q q' Hin Hr. apply consumers_memory in Hin; [|by right].
    unfold receive_sync in Hr. destruct (syncCh q) as [|u' ch] eqn:Hch; simplify_eq/=.
    constructor; simpl; try done; [|congruence].
    intros [C M D P U]. constructor; simpl; try done. rewrite Hch in C. simpl in C. lia.
  - intros. constructor; try done. intros [C M D P U]. by constructor.
  - intros. constructor; try done. intros [C M D P U]. by constructor.
  - intros. constructor; try done. intros [C M D P U]. by constructor.
  - intros. constructor; try done. apply close_inv.
  - done.
  - intros q1 q2 q3 _ H1 _ H2. by etrans.
Qed.

Lemma reachable_inv q : reachable q → queue_inv q.
Proof.
  intros (url & d & be & bs & Hr). apply (proj2 qstep_keeps) in Hr. apply Hr, New_inv.
Qed.

(** C19 (invariant).  In every state the queue can reach, whatever the network
    does and however reconnections overlap with each other and with [Close]:
    the in-memory channels stay within their capacities 100 and 1000,
    connection and channel are present together, a closed queue holds no
    connection, a queue without broker configured always works in memory, and
    otherwise memory mode is only left with a connection installed.  And a
    queue once closed stays closed, so a dial that was under way when [Close]
    ran does not revive it. *)
Theorem queue_invariant q :
  reachable q →
  queue_inv q ∧ ∀ q', isClosed q = true → qsteps q q' → isClosed q' = true ∧ AMQPConn q' = None.
Proof.
  intros Hr%reachable_inv. split; [done|]. intros q' Hc [I _ L _]%(proj2 qstep_keeps).
  split; [auto|]. apply qi_closed; auto.
Qed.

(** ** Health *)

(** Property (functional).  [Health] of a reachable queue with a broker configured
    is nil exactly when connection and channel are open and tasks are
    published to the broker. *)
Theorem health_means_broker q :
  reachable q → amqpConfigured q = true →
  Health q = None ↔ connected q = true ∧ inMemory q = false.
Proof.
  intros Hr%reachable_inv Hc. unfold Health, inMemory, connected. rewrite Hc. simpl.
  destruct (useInMemory q); simpl; [naive_solver|].
  destruct (is_open q (AMQPConn q)) eqn:H1, (is_open q (AMQPChannel q)) eqn:H2; simpl; try naive_solver.
  rewrite !bool_decide_eq_false_2; [naive_solver|..]; intros He; rewrite He in *; done.
Qed.

(** ** The in-memory fallback of a configured broker *)

(** Property (safety).  What is published in memory while a configured broker is
    unreachable is never consumed: in every continuation of a reachable state
    with a broker configured, the two in-memory channels only grow, because
    only the broker's consumers run. *)
Theorem fallback_never_consumed q q' :
  amqpConfigured q = true → qsteps q q' →
  extractionCh q `prefix_of` extractionCh q' ∧ syncCh q `prefix_of` syncCh q'.
Proof. intros Hc [_ _ _ M]%(proj2 qstep_keeps). auto. Qed.

(** ** Tasks on the broker *)

Section Tasks.
Context {T : Type}.
Abbreviation msgs := (list (task T)).

(** One execution of the task at some place of the broker's queue. *)
Record execution := mk_execution {
  x_err : option error; x_mErr : option error; x_open : bool; x_fate : publication; x_lost : bool }.
Definition executed (x : execution) (t : task T) (l : msgs) : msgs :=
  settle (x_lost x) t (handle_delivery (x_err x) (x_mErr x) (x_open x) (x_fate x) t l).

Inductive consume : msgs → msgs → Prop :=
| consume_task x pre t post : consume (pre ++ t :: post) (executed x t (pre ++ post)).

(** The retry was published with the answer [nil], but did not get to the
    broker, and the acknowledgement of the delivery did. *)
Definition vanished (x : execution) : Prop :=
  x_mErr x = None ∧ x_open x = true ∧ x_fate x = Dropped ∧ x_lost x = false.

(** C16 (safety).  A failed task is kept: whatever the handler, the encoder, the
    channel, the publication or the acknowledgement does, an execution that
    did not succeed leaves the task on the broker, with its retry count or the
    next one, unless the count had reached 2 or the broker silently lost the
    retry, which nothing confirms; in that one case, and only then, the task
    is gone.  The other messages stay. *)
Theorem failed_task_kept x t (l : msgs) :
  x_err x ≠ None → RetryCount t < 2 →
  l ⊆ executed x t l ∧
  (¬ vanished x → t ∈ executed x t l ∨ mk_task (payload t) (RetryCount t + 1) ∈ executed x t l) ∧
  (vanished x → executed x t l = l).
Proof.
  intros He Hr. unfold executed, handle_delivery, vanished. destruct (x_err x) as [e|]; [|done].
  apply Z.ltb_lt in Hr. rewrite Hr. unfold publish.
  destruct (x_mErr x), (x_open x), (x_fate x), (x_lost x); simpl; (split; [set_solver|]); split; intros Hv;
    first [done | by destruct Hv as (? & ? & ? & ?) | by destruct Hv | set_solver].
Qed.

(** *** Bounded retries *)

(** What remains of a task's budget: at most three executions. *)
Definition budget (t : task T) : nat := S (Z.to_nat (2 - RetryCount t)).
Definition total_budget (l : msgs) : nat := sum_list (budget <$> l).
(** The delivery comes again: it was requeued, or its acknowledgement lost. *)
Definition redelivered (x : execution) (t : task T) : bool :=
  x_lost x || match (handle_delivery (x_err x) (x_mErr x) (x_open x) (x_fate x) t []).1 with
              | Nack true => true | _ => false end.
(** [n] executions, [r] of them with a redelivery. *)
Inductive executions : nat → nat → msgs → msgs → Prop :=
| no_execution l : executions 0 0 l l
| one_execution x pre t post n r l :
    executions n r (executed x t (pre ++ post)) l →
    executions (S n) ((if redelivered x t then 1 else 0) + r) (pre ++ t :: post) l.

Lemma total_budget_app l k : total_budget (l ++ k) = (total_budget l + total_budget k)%nat.
Proof. unfold total_budget. rewrite fmap_app. apply sum_list_with_app || apply sum_list_app. Qed.
Lemma total_budget_cons t l : total_budget (t :: l) = (budget t + total_budget l)%nat.
Proof. done. Qed.
Lemma total_budget_one t : total_budget [t] = budget t.
Proof. apply Nat.add_0_r. Qed.
Definition counted (l : msgs) : Prop := Forall (λ t, 0 ≤ RetryCount t) l.

(** An execution uses the budget up, or adds at most a fresh retry. *)
Lemma executed_budget x pre t post :
  counted (pre ++ t :: post) →
  (S (total_budget (executed x t (pre ++ post))) ≤
     total_budget (pre ++ t :: post) + 3 * (if redelivered x t then 1 else 0))%nat ∧
  counted (executed x t (pre ++ post)).
Proof.
  unfold counted. rewrite Forall_app, Forall_cons. intros (Hpre & Ht & Hpost).
  rewrite (total_budget_app pre (t :: post)), total_budget_cons.
  unfold executed, redelivered, handle_delivery, publish.
  destruct (x_err x); simpl; [destruct (Z.ltb_spec (RetryCount t) 2); simpl;
    [destruct (x_mErr x), (x_open x), (x_fate x)|]|]; destruct (x_lost x); simpl;
    rewrite ?total_budget_cons, ?total_budget_app, ?total_budget_one; unfold budget in *; simpl;
    (split; [lia|]); repeat (rewrite ?Forall_app, ?Forall_cons; simpl); split_and?; try done; try lia.
Qed.

(** C15 (termination).  The retries end: [n] executions of freshly published
    tasks, in any order and with any results, are at most three for each task
    and three more for each redelivery, that is for each delivery that was
    requeued because its retry could not be published, or whose
    acknowledgement was lost. *)
Theorem retries_bounded n r (l l' : msgs) :
  executions n r l l' → Forall (λ t, RetryCount t = 0%Z) l → (n ≤ 3 * (length l + r))%nat.
Proof.
  intros Hn Hf. assert (counted l → n ≤ total_budget l + 3 * r)%nat as Hb.
  { clear Hf. induction Hn as [|x pre t post n r l _ IH]; [lia|]. intros Hc.
    destruct (executed_budget x pre t post Hc) as [H1 H2]. specialize (IH H2).
    destruct (redelivered x t); lia. }
  assert (total_budget l = 3 * length l)%nat as Ht.
  { clear Hb Hn. induction Hf as [|t l Ht _ IH]; [done|]. rewrite total_budget_cons, IH.
    assert (budget t = 3)%nat as -> by (unfold budget; rewrite Ht; done). simpl. lia. }
  rewrite Ht in Hb. rewrite Nat.mul_add_distr_l. apply Hb. eapply Forall_impl; [exact Hf|]. simpl. lia.
Qed.
End Tasks.

(** Redeliveries are not bounded by the program: with a closed publishing
    channel the delivery is requeued with the same count, so a failing task may
    run any number of times. *)
Lemma requeue_unbounded (t : task Z) n :
  RetryCount t < 2 → nsteps consume n [t] [t].
Proof.
  intros Hr. induction n as [|n IH]; [constructor|]. eapply nsteps_l; [|exact IH].
  assert (executed (mk_execution (Some (errorf "")) None false Stored false) t [] = [t]) as Hx.
  { unfold executed, handle_delivery. apply Z.ltb_lt in Hr. simpl. by rewrite Hr. }
  rewrite <- Hx at 2. exact (consume_task (mk_execution (Some (errorf "")) None false Stored false) [] t []).
Qed.

(** ** Reconnecting *)

(** One second, doubled each time, at most thirty. *)
Definition base (k : nat) : Z := Z.min (2 ^ Z.of_nat k) 30 * Second.
Lemma base_values k : base k ∈ [1; 2; 4; 8; 16; 30] ≫= (λ s, [s * Second]).
Proof.
  destruct (decide (k < 5)%nat).
  - destruct k as [|[|[|[|[|]]]]]; [..|lia]; apply (bool_decide_unpack _); vm_compute; exact I.
  - assert (base k = 30 * Second) as ->.
    { unfold base. rewrite Z.min_r; [done|]. etrans; [|apply (Z.pow_le_mono_r 2 5); lia]. done. }
    apply (bool_decide_unpack _). vm_compute. exact I.
Qed.
Lemma next_backoff_base k : next_backoff (base k) = base (S k).
Proof.
  unfold next_backoff, base. rewrite Nat2Z.inj_succ, Z.pow_succ_r by lia.
  pose proof (Z.pow_pos_nonneg 2 (Z.of_nat k)). unfold Second. case_match eqn:Hb; lia.
Qed.

(** All waits, by computation over the thousand jitters and the six bases. *)
Definition bases : list (Z * float64) :=
  Eval vm_compute in (λ s, (s * Second, float64_of_int (s * Second))) <$> [1; 2; 4; 8; 16; 30].
Definition wait_ok (f : float64) (b : Z * float64) : bool :=
  let w := int64_of_float (fmul b.2 f) in (4 * b.1 <=? 5 * w) && (5 * w <=? 6 * b.1).
Lemma jitter_table :
  forallb (λ n, let f := jitter_factor (Z.of_nat n) in forallb (wait_ok f) bases) (seq 0 1000) = true.
Proof. vm_compute. reflexivity. Qed.
Lemma base_in_bases k : (base k, float64_of_int (base k)) ∈ bases.
Proof.
  pose proof (base_values k) as Hb. apply list_elem_of_bind in Hb as (b & ->%list_elem_of_singleton & Hb).
  change bases with ((λ s, (s * Second, float64_of_int (s * Second))) <$> [1; 2; 4; 8; 16; 30]).
  apply list_elem_of_fmap. eauto.
Qed.
Lemma jitter_factor_mod nano :
  0 ≤ nano → jitter_factor nano = jitter_factor (Z.of_nat (Z.to_nat (Z.rem nano 1000))).
Proof.
  intros Hn. unfold jitter_factor. do 4 f_equal. rewrite Z2Nat.id by (by apply Z.rem_nonneg).
  symmetry. rewrite Z.rem_small; [done|]. apply Z.rem_bound_pos; lia.
Qed.
Lemma jitter_bounds k nano :
  0 ≤ nano → 4 * base k ≤ 5 * jitter (base k) nano ≤ 6 * base k.
Proof.
  intros Hn. unfold jitter. rewrite jitter_factor_mod by done.
  pose proof jitter_table as Htab. rewrite forallb_forall in Htab.
  specialize (Htab (Z.to_nat (Z.rem nano 1000))). rewrite in_seq in Htab.
  specialize (Htab ltac:(pose proof (Z.rem_bound_pos nano 1000); lia)). cbv zeta in Htab.
  rewrite forallb_forall in Htab. specialize (Htab (base k, float64_of_int (base k))).
  rewrite <- list_elem_of_In in Htab. specialize (Htab (base_in_bases k)).
  unfold wait_ok in Htab. cbv zeta in Htab. cbn [fst snd] in Htab.
  apply andb_true_iff in Htab as [H1 H2]. lia.
Qed.

Lemma reconnect_waits k rounds q :
  Forall (λ a, 0 ≤ a_nano a) rounds →
  ∀ i w, (reconnect_loop (base k) rounds q).1.2 !! i = Some w →
    4 * base (k + i) ≤ 5 * w ≤ 6 * base (k + i).
Proof.
  intros Hf. revert k q. induction Hf as [|a rounds Ha _ IH]; intros k q i w; simpl; [done|].
  destruct (a_ctx a); [done|]. destruct (isClosed q); [done|]. destruct (connected q); [done|].
  destruct (connectAMQP _ _ _) as [[e|] q1]; [|done].
  assert (∀ ws, (∀ i w, ws !! i = Some w → 4 * base (S k + i) ≤ 5 * w ≤ 6 * base (S k + i)) →
    (jitter (base k) (a_nano a) :: ws) !! i = Some w → 4 * base (k + i) ≤ 5 * w ≤ 6 * base (k + i)) as Hcons.
  { intros ws Hws. destruct i as [|i]; simpl.
    - intros [= <-]. rewrite Nat.add_0_r. by apply jitter_bounds.
    - intros Hi. rewrite Nat.add_succ_r. by apply (Hws i w). }
  destruct (a_ctx_wait a); [apply Hcons; by intros ?? ?|].
  specialize (IH (S k) (a_waiting a q1)).
  rewrite next_backoff_base.
  destruct (reconnect_loop _ _ _) as [[r ws] q2]. simpl in *. by apply Hcons.
Qed.

(** C37 (bounds).  The waits between reconnection attempts back off
    exponentially with a cap: the [i]-th wait lies within 20 per cent of
    min(2^i, 30) seconds, for every clock value of the jitter computed in
    [float64], so no wait is below 0.8 s or above 36 s. *)
Theorem reconnect_backoff rounds q i w :
  Forall (λ a, 0 ≤ a_nano a) rounds → (reconnectWithBackoff rounds q).1.2 !! i = Some w →
  let b := Z.min (2 ^ Z.of_nat i) 30 * Second in
  4 * b ≤ 5 * w ≤ 6 * b ∧ 4 * Second ≤ 5 * w ≤ 180 * Second.
Proof.
  intros Hf Hw b. fold (base i) in b. pose proof (reconnect_waits 0 rounds q Hf i w Hw) as Hb. split; [exact Hb|].
  simpl in Hb. pose proof (base_values i) as Hv.
  apply list_elem_of_bind in Hv as (c & Hbk & Hbe). apply list_elem_of_singleton in Hbk as Hbk.
  rewrite Hbk in Hb. unfold Second in *.
  repeat (apply elem_of_cons in Hbe as [->|Hbe]; [lia|]). by apply elem_of_nil in Hbe.
Qed.

(** ** Concrete runs *)

Definition offline : Queue := New "amqp://broker" (DialFails (errorf "refused")) [] [].
Lemma offline_reachable : reachable offline.
Proof. unfold reachable, offline. eauto using qs_refl. Qed.
Definition online : Queue := (connectAMQP Dialled id offline).2.
Lemma connects_offline : qsteps offline online.
Proof.
  eapply qs_l; [|apply qs_refl]. refine (q_connect Dialled offline offline _ (qs_refl _)).
  apply (bool_decide_unpack _). vm_compute. exact I.
Qed.
Lemma online_reachable : reachable online.
Proof. exists "amqp://broker", (DialFails (errorf "refused")), [], []. exact connects_offline. Qed.

(** The queue is closed while a reconnection dials. *)
Definition closed_meanwhile : Queue := (connectAMQP Dialled (λ _, Close offline) offline).2.
Lemma queue_invariant_witness :
  queue_inv offline ∧ isClosed closed_meanwhile = true ∧ AMQPConn closed_meanwhile = None.
Proof.
  split; [exact (proj1 (queue_invariant offline offline_reachable))|].
  assert (qsteps offline (Close offline)) as Hclose by (eapply qs_l; [apply q_close|apply qs_refl]).
  assert (reachable (Close offline)) as Hr by (exists "amqp://broker", (DialFails (errorf "refused")), [], []; exact Hclose).
  apply (proj2 (queue_invariant (Close offline) Hr)); [reflexivity|].
  assert (closed_meanwhile = Close offline) as -> by (vm_compute; reflexivity). apply qs_refl.
Defined.
Lemma health_means_broker_witness : connected online = true ∧ inMemory online = false.
Proof. apply (health_means_broker online online_reachable); vm_compute; reflexivity. Defined.
Lemma fallback_never_consumed_witness :
  let q := (PublishSyncTask None false Stored 7 offline).2 in
  let q' := (connectAMQP Dialled (λ _, q) q).2 in
  syncCh q = [7] ∧ syncCh q `prefix_of` syncCh q'.
Proof.
  intros q q'. split; [vm_compute; reflexivity|]. apply (fallback_never_consumed q q').
  - vm_compute. reflexivity.
  - eapply qs_l; [|apply qs_refl]. refine (q_connect Dialled q q _ (qs_refl _)).
    apply (bool_decide_unpack _). vm_compute. exact I.
Defined.
Lemma failed_task_kept_witness :
  let t := mk_task 7 0 in
  let x f := mk_execution (Some (errorf "timeout")) None true f false in
  mk_task 7 1 ∈ executed (x Stored) t [] ∧ executed (x Dropped) t [] = [].
Proof.
  intros t x. split.
  - destruct (failed_task_kept (x Stored) t []) as [_ [[H|H] _]]; [done|vm_compute; done| | |exact H].
    + intros (_ & _ & ? & _). done.
    + exfalso. vm_compute in H. apply list_elem_of_singleton in H. discriminate H.
  - apply (failed_task_kept (x Dropped) t []); [done|vm_compute; done|]. done.
Defined.
Lemma retries_bounded_witness :
  (3 ≤ 3 * (length [mk_task 7 0] + 0))%nat.
Proof.
  set (x := mk_execution (Some (errorf "timeout")) None true Stored false).
  refine (retries_bounded 3 0 [mk_task 7 0] [] _ _); [|repeat constructor].
  refine (one_execution x [] (mk_task 7 0) [] 2 0 [] _).
  refine (one_execution x [] (mk_task 7 1) [] 1 0 [] _).
  refine (one_execution x [] (mk_task 7 2) [] 0 0 [] _). apply no_execution.
Defined.
Lemma reconnect_backoff_witness :
  let a := mk_attempt None (DialFails (errorf "refused")) id 500 None id in
  ∃ w, (reconnectWithBackoff [a; a] offline).1.2 !! 1%nat = Some w ∧ 8 * Second ≤ 5 * w ≤ 12 * Second.
Proof.
  intros a. exists (jitter (base 1) 500).
  assert ((reconnectWithBackoff [a; a] offline).1.2 !! 1%nat = Some (jitter (base 1) 500)) as Hw
    by (vm_compute; reflexivity).
  split; [exact Hw|].
  apply (reconnect_backoff [a; a] offline 1 _ ltac:(repeat constructor; vm_compute; discriminate) Hw).
Defined.
