(* ===== verification/Consumers.v ===== *)
(** * The consumers as concurrent programs ([internal/queue/amqp.go])

    The loop of a broker consumer, the goroutines it starts, the broker behind
    its channel and the shutdown, as labelled steps that interleave in any
    order; then the same of an in-memory consumer.  [Queue.handle_delivery] is
    what one goroutine does.  A label says which part moves and what the
    outside decides; a step that is not possible is [None]. *)

From stdpp Require Import base gmap strings list sets.
From Stdlib Require Import ZArith Lia Ascii Permutation.
From S2P Require Import Prelude GoStrings Models Effects Queue.

(** ** A broker consumer *)

(** Where the loop is: at the [select], about to take a slot of the semaphore
    for a delivery of a channel, with the slot but before [wg.Add] and [go],
    between two channels, or it returned. *)
Inductive loop (T : Type) :=
| Selecting | Waiting (t : task T) (chan : nat) | Starting (t : task T) (chan : nat) | Between | Returned.
Arguments Selecting {_}.
Arguments Waiting {_}.
Arguments Starting {_}.
Arguments Between {_}.
Arguments Returned {_}.

(** A goroutine: at work, past its settlement with [<-sem] deferred, or with
    only [wg.Done] left. *)
Inductive stage := Working | Settled | Released.
#[export] Instance stage_eq_dec : EqDecision stage.
Proof. solve_decision. Defined.
Record goroutine (T : Type) := mk_goroutine { go_task : task T; go_chan : nat; go_stage : stage }.
Arguments mk_goroutine {_}.
Arguments go_task {_}.
Arguments go_chan {_}.
Arguments go_stage {_}.

(** [k_ready] is the broker's queue and [k_buffer] what it has sent down the
    channel; channels are numbered, [k_chan] is the last one.  [k_sem] is the
    number of elements in each channel's [sem], [k_wg] the counter of [q.wg].
    [k_done] are the tasks that ended: handled, given up after the last retry,
    or rejected; [k_vanished] those whose retry the broker never got. *)
Record consuming (T : Type) := mk_consuming {
  k_ready : list (task T); k_buffer : list (task T); k_loop : loop T;
  k_running : list (goroutine T); k_sem : gmap nat nat; k_wg : nat;
  k_chan : nat; k_open : bool; k_ctx : bool; k_done : list T; k_vanished : list T }.
Arguments mk_consuming {_}.
Arguments k_ready {_}.
Arguments k_buffer {_}.
Arguments k_loop {_}.
Arguments k_running {_}.
Arguments k_sem {_}.
Arguments k_wg {_}.
Arguments k_chan {_}.
Arguments k_open {_}.
Arguments k_ctx {_}.
Arguments k_done {_}.
Arguments k_vanished {_}.

Inductive label :=
| LDeliver                     (** the broker sends a message *)
| LReceive (decodes : bool)    (** the loop takes a delivery *)
| LAcquire                     (** [sem <- struct{}{}] *)
| LGo                          (** [q.wg.Add(1)] and [go func] *)
| LFinish (i : nat) (err mErr : option error) (pubOpen : bool) (f : publication) (lost : bool)
                               (** the [i]-th goroutine handles its task and settles *)
| LRelease (i : nat)           (** its deferred [<-sem] *)
| LDone (i : nat)              (** its deferred [q.wg.Done()]; it ends *)
| LDie                         (** the channel or its connection dies *)
| LClosed                      (** the loop sees [!ok], closes and leaves *)
| LResume                      (** the outer loop consumes from a new channel *)
| LCancel                      (** the context is cancelled *)
| LStop.                       (** a loop sees [ctx.Done()] *)

Section Broker.
Context {T : Type} (cap : nat).
Abbreviation C := (consuming T).

Definition sem (k : C) (g : nat) : nat := default 0%nat (k_sem k !! g).
(** The task is still to be settled by a goroutine of channel [g]. *)
Definition works_for (g : nat) (x : goroutine T) : Prop := go_chan x = g ∧ go_stage x = Working.
#[export] Instance works_for_dec g x : Decision (works_for g x).
Proof. unfold works_for. apply _. Defined.
(** The deliveries of channel [g] that are with the loop and the goroutines. *)
Definition held_by (g : nat) (k : C) : list (task T) :=
  match k_loop k with
  | Waiting t g' | Starting t g' => if decide (g' = g) then [t] else []
  | _ => []
  end ++ (go_task <$> filter (works_for g) (k_running k)).
(** What the broker waits to be settled, while the channel is open. *)
Definition unacked (k : C) : list (task T) := k_buffer k ++ held_by (k_chan k) k.

(** The broker's side of a channel that closes, by the AMQP specification: what
    was not settled goes back to the queue.  The client's buffer is left as it
    is: the loop may still be handed deliveries of it. *)
Definition requeue_unacked (k : C) : C :=
  if k_open k then
    mk_consuming (k_ready k ++ unacked k) (k_buffer k) (k_loop k) (k_running k) (k_sem k) (k_wg k)
      (k_chan k) false (k_ctx k) (k_done k) (k_vanished k)
  else k.
(** The loop goes on from [l] and what is left in the buffer is forgotten. *)
Definition leave_channel (l : loop T) (k : C) : C :=
  mk_consuming (k_ready k) [] l (k_running k) (k_sem k) (k_wg k) (k_chan k) (k_open k) (k_ctx k) (k_done k) (k_vanished k).
Definition set_loop (l : loop T) (k : C) : C :=
  mk_consuming (k_ready k) (k_buffer k) l (k_running k) (k_sem k) (k_wg k) (k_chan k) (k_open k) (k_ctx k) (k_done k)
    (k_vanished k).
Definition set_running (run : list (goroutine T)) (sm : gmap nat nat) (wg : nat) (k : C) : C :=
  mk_consuming (k_ready k) (k_buffer k) (k_loop k) run sm wg (k_chan k) (k_open k) (k_ctx k) (k_done k) (k_vanished k).

(** The task is over: it succeeded or its retries are used up. *)
Definition over (err : option error) (t : task T) : bool :=
  match err with None => true | Some _ => negb (RetryCount t <? 2)%Z end.
(** A retry was published without error, and did not arrive. *)
Definition vanishes (err mErr : option error) (pubOpen : bool) (f : publication) (t : task T) : bool :=
  match mErr, f with None, Dropped => negb (over err t) && pubOpen | _, _ => false end.

Definition kstep (a : label) (k : C) : option C :=
  match a with
  | LDeliver =>
      match k_ready k with
      | t :: l =>
          if k_open k && (length (unacked k) <? cap)%nat
          then Some (mk_consuming l (k_buffer k ++ [t]) (k_loop k) (k_running k) (k_sem k) (k_wg k) (k_chan k) (k_open k)
                       (k_ctx k) (k_done k) (k_vanished k))
          else None
      | [] => None
      end
  | LReceive decodes =>
      match k_loop k, k_buffer k with
      | Selecting, t :: b =>
          let l := if decodes : bool then Waiting t (k_chan k) else Selecting in
          let ended := if decodes : bool then [] else if k_open k then [payload t] else [] in
          Some (mk_consuming (k_ready k) b l (k_running k) (k_sem k) (k_wg k) (k_chan k) (k_open k) (k_ctx k)
                  (k_done k ++ ended) (k_vanished k))
      | _, _ => None
      end
  | LAcquire =>
      match k_loop k with
      | Waiting t g =>
          if (sem k g <? cap)%nat
          then Some (set_loop (Starting t g) (set_running (k_running k) (<[g := S (sem k g)]> (k_sem k)) (k_wg k) k))
          else None
      | _ => None
      end
  | LGo =>
      match k_loop k with
      | Starting t g =>
          Some (set_loop Selecting
                  (set_running (k_running k ++ [mk_goroutine t g Working]) (k_sem k) (S (k_wg k)) k))
      | _ => None
      end
  | LFinish i err mErr pubOpen f lost =>
      match k_running k !! i with
      | Some (mk_goroutine t g Working) =>
          let r := handle_delivery err mErr pubOpen f t (k_ready k) in
          let ready := if k_open k && (g =? k_chan k)%nat then settle lost t r else r.2 in
          Some (mk_consuming ready (k_buffer k) (k_loop k) (<[i := mk_goroutine t g Settled]> (k_running k))
                  (k_sem k) (k_wg k) (k_chan k) (k_open k) (k_ctx k)
                  (if over err t then k_done k ++ [payload t] else k_done k)
                  (if vanishes err mErr pubOpen f t then k_vanished k ++ [payload t] else k_vanished k))
      | _ => None
      end
  | LRelease i =>
      match k_running k !! i with
      | Some (mk_goroutine t g Settled) =>
          (* a receive from an empty channel blocks *)
          match sem k g with
          | S n => Some (set_running (<[i := mk_goroutine t g Released]> (k_running k)) (<[g := n]> (k_sem k)) (k_wg k) k)
          | O => None
          end
      | _ => None
      end
  | LDone i =>
      match k_running k !! i with
      | Some (mk_goroutine t g Released) =>
          (* a negative counter panics *)
          match k_wg k with
          | S n => Some (set_running (delete i (k_running k)) (k_sem k) n k)
          | O => None
          end
      | _ => None
      end
  | LDie => if k_open k then Some (requeue_unacked k) else None
  | LClosed =>
      match k_loop k with
      | Selecting => if k_open k then None else Some (leave_channel Between k)
      | _ => None
      end
  | LResume =>
      match k_loop k with
      | Between =>
          if k_ctx k then None
          else
            let g := S (k_chan k) in
            Some (mk_consuming (k_ready k) [] Selecting (k_running k) (<[g := 0%nat]> (k_sem k)) (k_wg k) g true (k_ctx k)
                    (k_done k) (k_vanished k))
      | _ => None
      end
  | LCancel =>
      Some (mk_consuming (k_ready k) (k_buffer k) (k_loop k) (k_running k) (k_sem k) (k_wg k) (k_chan k) (k_open k) true
              (k_done k) (k_vanished k))
  | LStop =>
      if k_ctx k then
        match k_loop k with
        | Selecting => Some (leave_channel Returned (requeue_unacked k))
        | Between => Some (set_loop Returned k)
        | _ => None
        end
      else None
  end.
(** A run: the labels in the order they happen. *)
Fixpoint kruns (l : list label) (k : C) : option C :=
  match l with [] => Some k | a :: l => kstep a k ≫= kruns l end.
(** Before the first pass of the outer loop. *)
Definition kstart (ready : list (task T)) : C := mk_consuming ready [] Between [] ∅ 0 0 false false [] [].
(** [Drain] returns: the counter is zero. *)
Definition drained (k : C) : bool := (k_wg k =? 0)%nat.
End Broker.

(** The two consumers: the prefetch count and the semaphore are the same number. *)
Definition capExtractionConsumer : nat := 3.
Definition capSyncConsumer : nat := 10.

(** ** An in-memory consumer *)

(** [m_waiting] is a task received but not started, [m_sem] the number of
    elements of [sem]. *)
Record memory (T : Type) := mk_memory {
  m_ch : list T; m_waiting : option T; m_running : list T; m_sem : nat; m_ctx : bool; m_returned : bool; m_done : list T }.
Arguments mk_memory {_}.
Arguments m_ch {_}.
Arguments m_waiting {_}.
Arguments m_running {_}.
Arguments m_sem {_}.
Arguments m_ctx {_}.
Arguments m_returned {_}.
Arguments m_done {_}.
Inductive mlabel := MReceive | MStart | MFinish (i : nat) | MCancel | MStop.
Definition mstep {T} (cap : nat) (a : mlabel) (m : memory T) : option (memory T) :=
  match a with
  | MReceive =>
      match m_returned m, m_waiting m, m_ch m with
      | false, None, x :: ch => Some (mk_memory ch (Some x) (m_running m) (m_sem m) (m_ctx m) false (m_done m))
      | _, _, _ => None
      end
  | MStart =>
      match m_waiting m with
      | Some x =>
          if (m_sem m <? cap)%nat
          then Some (mk_memory (m_ch m) None (m_running m ++ [x]) (S (m_sem m)) (m_ctx m) (m_returned m) (m_done m))
          else None
      | None => None
      end
  | MFinish i =>
      match m_running m !! i, m_sem m with
      | Some x, S n =>
          Some (mk_memory (m_ch m) (m_waiting m) (delete i (m_running m)) n (m_ctx m) (m_returned m) (m_done m ++ [x]))
      | _, _ => None
      end
  | MCancel => Some (mk_memory (m_ch m) (m_waiting m) (m_running m) (m_sem m) true (m_returned m) (m_done m))
  | MStop =>
      match m_ctx m, m_waiting m with
      | true, None => Some (mk_memory (m_ch m) None (m_running m) (m_sem m) true true (m_done m))
      | _, _ => None
      end
  end.
Fixpoint mruns {T} (cap : nat) (l : list mlabel) (m : memory T) : option (memory T) :=
  match l with [] => Some m | a :: l => mstep cap a m ≫= mruns cap l end.
Definition mstart {T} (ch : list T) : memory T := mk_memory ch None [] 0 false false [].

(** ** The four consumers *)

Definition extraction_step : label → consuming string → option (consuming string) := kstep capExtractionConsumer.
Definition sync_step : label → consuming Z → option (consuming Z) := kstep capSyncConsumer.
Definition extraction_memory_step : mlabel → memory string → option (memory string) := mstep capExtractionConsumer.
Definition sync_memory_step : mlabel → memory Z → option (memory Z) := mstep capSyncConsumer.
