(* ===== verification/ConsumersSpec.v ===== *)
(** * Properties of the concurrent consumers *)

From stdpp Require Import base gmap gmultiset strings list sets.
From Stdlib Require Import ZArith Lia Ascii Permutation.
From S2P Require Import Prelude GoStrings Models Effects Queue Consumers.

Lemma replace_at {A} (l : list A) i x :
  l !! i = Some x → ∃ rest, l ≡ₚ x :: rest ∧ delete i l ≡ₚ rest ∧ ∀ y, <[i := y]> l ≡ₚ y :: rest.
Proof.
  revert i. induction l as [|z l IH]; intros [|i]; simpl; try done.
  - intros [= ->]. by exists l.
  - intros (rest & H1 & H2 & H3)%IH. exists (z :: rest). split_and!.
    + rewrite H1. apply Permutation_swap.
    + by rewrite H2.
    + intros y. change (<[S i := y]> (z :: l)) with (z :: <[i := y]> l). rewrite H3. apply Permutation_swap.
Qed.

Section Broker.
Context {T : Type} `{Countable T} (cap : nat).
Abbreviation C := (consuming T).
Implicit Types k : C.

(** ** The semaphores and the wait group *)

(** The goroutine has a slot of the semaphore of channel [g]. *)
Definition holds (g : nat) (x : goroutine T) : Prop := go_chan x = g ∧ go_stage x ≠ Released.
#[local] Instance holds_dec g x : Decision (holds g x).
Proof. unfold holds. apply _. Defined.
Definition holders (g : nat) (run : list (goroutine T)) : nat := length (filter (holds g) run).
Definition starting (g : nat) (l : loop T) : nat :=
  match l with Starting _ g' => if decide (g' = g) then 1 else 0 | _ => 0 end.

Record kinv (k : C) : Prop := {
  (** the elements of a semaphore are those of the goroutines that did not
      give theirs back, and of the loop if it just put one in *)
  kinv_sem : ∀ g, sem k g = (holders g (k_running k) + starting g (k_loop k))%nat;
  kinv_cap : ∀ g, (sem k g ≤ cap)%nat;
  kinv_wg : k_wg k = length (k_running k);
  kinv_between : k_loop k = Between → k_open k = false;
  kinv_running : ∀ x, x ∈ k_running k → (go_chan x ≤ k_chan k)%nat;
  kinv_loop : ∀ t g, k_loop k = Waiting t g ∨ k_loop k = Starting t g → (g ≤ k_chan k)%nat }.

#[export] Instance holders_perm g : Proper ((≡ₚ) ==> (=)) (holders g).
Proof. intros l1 l2 Hl. unfold holders. by rewrite Hl. Qed.
Lemma holders_cons g x l : holders g (x :: l) = ((if decide (holds g x) then 1 else 0) + holders g l)%nat.
Proof. unfold holders. rewrite filter_cons. by case_decide. Qed.
Lemma holders_nil g : holders g [] = 0%nat.
Proof. done. Qed.
Lemma holders_fresh k g : kinv k → (k_chan k < g)%nat → (holders g (k_running k) + starting g (k_loop k) = 0)%nat.
Proof.
  intros Hk Hg. assert (filter (holds g) (k_running k) = []) as Hn.
  { apply elem_of_nil_inv. intros x [[Hx _] Hin]%list_elem_of_filter. apply (kinv_running k Hk) in Hin. lia. }
  unfold holders. rewrite Hn. simpl. unfold starting. destruct (k_loop k) as [| |t g'| |] eqn:Hl; try done.
  case_decide; [|done]. subst. pose proof (kinv_loop k Hk t g (or_intror Hl)). lia.
Qed.
Lemma sem_insert k g n l run wg g' :
  sem (set_loop l (set_running run (<[g := n]> (k_sem k)) wg k)) g' = if decide (g = g') then n else sem k g'.
Proof.
  unfold sem. simpl. case_decide; [subst; by rewrite lookup_insert_eq|by rewrite lookup_insert_ne].
Qed.

Lemma kinv_acquire k t g :
  kinv k → k_loop k = Waiting t g → (sem k g < cap)%nat →
  kinv (set_loop (Starting t g) (set_running (k_running k) (<[g := S (sem k g)]> (k_sem k)) (k_wg k) k)).
Proof.
  intros [K1 K2 K3 K4 K5 K6] Hl Hs. constructor; try done.
  - intros g'. rewrite sem_insert. simpl. rewrite K1, K1, Hl. simpl. case_decide; subst; lia.
  - intros g'. rewrite sem_insert. case_decide; [subst; lia|apply K2].
  - simpl. intros t' g' [Hx|[= -> ->]]; [done|]. eapply K6. by left.
Qed.
Lemma kinv_go k t g :
  kinv k → k_loop k = Starting t g →
  kinv (set_loop Selecting (set_running (k_running k ++ [mk_goroutine t g Working]) (k_sem k) (S (k_wg k)) k)).
Proof.
  intros [K1 K2 K3 K4 K5 K6] Hl. constructor; simpl; try done.
  - intros g'. change (sem _ g') with (sem k g'). rewrite K1, Hl, <- Permutation_cons_append, holders_cons. simpl.
    unfold holds. simpl. repeat case_decide; naive_solver lia.
  - rewrite length_app, K3. simpl. lia.
  - intros x [Hin|Hx]%elem_of_app; [by apply K5|]. apply list_elem_of_singleton in Hx as ->. simpl. eapply K6. by right.
  - naive_solver.
Qed.
(** A goroutine changes its stage and keeps its slot. *)
Lemma kinv_settle k i t g ready dn vn :
  kinv k → k_running k !! i = Some (mk_goroutine t g Working) →
  kinv (mk_consuming ready (k_buffer k) (k_loop k) (<[i := mk_goroutine t g Settled]> (k_running k)) (k_sem k) (k_wg k)
          (k_chan k) (k_open k) (k_ctx k) dn vn).
Proof.
  intros [K1 K2 K3 K4 K5 K6] Hi. destruct (replace_at _ i _ Hi) as (rest & Hr & _ & Hn).
  constructor; simpl; try done.
  - intros g'. change (sem _ g') with (sem k g'). rewrite K1, Hn, Hr, !holders_cons. unfold holds. simpl.
    repeat case_decide; naive_solver lia.
  - by rewrite length_insert.
  - intros x. rewrite Hn. intros [->|Hx]%elem_of_cons; [|apply K5; rewrite Hr; by right]. simpl.
    apply (K5 (mk_goroutine t g Working)). by eapply list_elem_of_lookup_2.
Qed.
Lemma kinv_release k i t g n :
  kinv k → k_running k !! i = Some (mk_goroutine t g Settled) → sem k g = S n →
  kinv (set_running (<[i := mk_goroutine t g Released]> (k_running k)) (<[g := n]> (k_sem k)) (k_wg k) k).
Proof.
  intros [K1 K2 K3 K4 K5 K6] Hi Hs. destruct (replace_at _ i _ Hi) as (rest & Hr & _ & Hn).
  assert (∀ g', sem (set_running (<[i := mk_goroutine t g Released]> (k_running k)) (<[g := n]> (k_sem k)) (k_wg k) k) g'
    = if decide (g = g') then n else sem k g') as Hsem.
  { intros g'. unfold sem. simpl. case_decide; [subst; by rewrite lookup_insert_eq|by rewrite lookup_insert_ne]. }
  constructor; simpl; try done.
  - intros g'. rewrite Hsem. specialize (K1 g'). rewrite Hr, holders_cons in K1. rewrite Hn, holders_cons.
    unfold holds in *. simpl in *. repeat case_decide; naive_solver lia.
  - intros g'. rewrite Hsem. specialize (K2 g'). case_decide; [subst; lia|done].
  - by rewrite length_insert.
  - intros x. rewrite Hn. intros [->|Hx]%elem_of_cons; [|apply K5; rewrite Hr; by right]. simpl.
    apply (K5 (mk_goroutine t g Settled)). by eapply list_elem_of_lookup_2.
Qed.
Lemma kinv_done k i t g n :
  kinv k → k_running k !! i = Some (mk_goroutine t g Released) → k_wg k = S n →
  kinv (set_running (delete i (k_running k)) (k_sem k) n k).
Proof.
  intros [K1 K2 K3 K4 K5 K6] Hi Hw. destruct (replace_at _ i _ Hi) as (rest & Hr & Hd & _).
  constructor; simpl; try done.
  - intros g'. change (sem _ g') with (sem k g'). rewrite K1, Hd, Hr, holders_cons. unfold holds. simpl.
    case_decide; naive_solver lia.
  - rewrite Hd. rewrite Hr in K3. simpl in K3. lia.
  - intros x. rewrite Hd. intros Hx. apply K5. rewrite Hr. by right.
Qed.

Lemma kstep_inv a k k' : kstep cap a k = Some k' → kinv k → kinv k'.
Proof.
  intros Hs Hk. pose proof Hk as [K1 K2 K3 K4 K5 K6]. destruct a; simpl in Hs.
  - destruct (k_ready k); [done|]. case_match; simplify_eq. by constructor.
  - destruct (k_loop k) eqn:Hl, (k_buffer k); simplify_eq. destruct decodes; constructor; simpl; try done; naive_solver.
  - destruct (k_loop k) eqn:Hl; try done. destruct (Nat.ltb_spec (sem k chan) cap); simplify_eq. by apply kinv_acquire.
  - destruct (k_loop k) eqn:Hl; simplify_eq. by apply kinv_go.
  - destruct (k_running k !! i) as [[t g []]|] eqn:Hi; simplify_eq. by apply kinv_settle.
  - destruct (k_running k !! i) as [[t g []]|] eqn:Hi; try done. destruct (sem k g) eqn:Hsem; simplify_eq. by apply kinv_release.
  - destruct (k_running k !! i) as [[t g []]|] eqn:Hi; try done. destruct (k_wg k) eqn:Hw; simplify_eq. by eapply kinv_done.
  - destruct (k_open k) eqn:Ho; simplify_eq. unfold requeue_unacked. rewrite Ho. by constructor.
  - destruct (k_loop k) eqn:Hl, (k_open k) eqn:Ho; simplify_eq. constructor; simpl; try done; naive_solver.
  - destruct (k_loop k) eqn:Hl, (k_ctx k); simplify_eq.
    assert (∀ g, sem (mk_consuming (k_ready k) [] Selecting (k_running k) (<[S (k_chan k) := 0%nat]> (k_sem k)) (k_wg k)
      (S (k_chan k)) true false (k_done k) (k_vanished k)) g = sem k g) as Hsem.
    { intros g. unfold sem. simpl. destruct (decide (S (k_chan k) = g)) as [<-|]; [|by rewrite lookup_insert_ne].
      rewrite lookup_insert_eq. simpl. pose proof (holders_fresh k (S (k_chan k)) Hk ltac:(lia)) as Hf.
      rewrite Hl in Hf. specialize (K1 (S (k_chan k))). unfold sem in K1. lia. }
    constructor; simpl; try done; try (intros g; rewrite Hsem); [apply K1|apply K2| |naive_solver].
    intros x Hx. apply K5 in Hx. lia.
  - simplify_eq. by constructor.
  - destruct (k_ctx k); [|done]. unfold requeue_unacked in Hs.
    destruct (k_loop k) eqn:Hl, (k_open k) eqn:Ho; simplify_eq; constructor; simpl; try done; naive_solver.
Qed.
Lemma kruns_inv l k k' : kruns cap l k = Some k' → kinv k → kinv k'.
Proof.
  revert k. induction l as [|a l IH]; intros k; simpl; [by intros [= ->]|].
  intros (k1 & H1 & H2)%bind_Some Hk. eapply IH; [exact H2|]. by eapply kstep_inv.
Qed.
Lemma kstart_inv ready : kinv (kstart ready).
Proof.
  assert (∀ g, sem (kstart ready) g = 0%nat) as Hs by (intros; unfold sem; simpl; by rewrite lookup_empty).
  constructor; simpl; try done; [intros; rewrite Hs; lia|intros x Hx; by apply elem_of_nil in Hx|naive_solver].
Qed.

(** C17 (invariant).  The semaphore and the wait group count what they should:
    in every interleaving, each channel's semaphore holds exactly one element
    for each goroutine of that channel that has not given its slot back, and
    one for a task about to start, so at most its capacity of tasks of a
    channel is worked on at a time; the counter that [Drain] waits for is the
    number of goroutines; and the deferred calls of a goroutine never block or
    panic. *)
Theorem consumer_invariant ready l k :
  kruns cap l (kstart ready) = Some k →
  (∀ g, sem k g = (holders g (k_running k) + starting g (k_loop k))%nat ∧ (sem k g ≤ cap)%nat ∧
        (length (filter (works_for g) (k_running k)) ≤ cap)%nat) ∧
  k_wg k = length (k_running k) ∧
  ∀ i x, k_running k !! i = Some x →
    (go_stage x = Settled → is_Some (kstep cap (LRelease i) k)) ∧
    (go_stage x = Released → is_Some (kstep cap (LDone i) k)).
Proof.
  intros Hr. assert (kinv k) as Hk by (by eapply kruns_inv, kstart_inv). split_and!; [|apply Hk|].
  - intros g. split; [apply Hk|]. split; [apply Hk|]. etrans; [|apply (kinv_cap k Hk g)]. rewrite (kinv_sem k Hk).
    enough (length (filter (works_for g) (k_running k)) ≤ holders g (k_running k))%nat by lia.
    unfold holders. induction (k_running k) as [|x run IH]; [done|]. rewrite !filter_cons.
    destruct (decide (works_for g x)) as [[Hx1 Hx2]|]; [|case_decide; simpl; lia].
    rewrite decide_True by (split; [done|by rewrite Hx2]). simpl. lia.
  - intros i [t g st] Hi. simpl. rewrite Hi. split; intros ->.
    + destruct (sem k g) eqn:Hs; [|by eexists]. rewrite (kinv_sem k Hk) in Hs.
      destruct (replace_at _ i _ Hi) as (rest & Hp & _). rewrite Hp, holders_cons in Hs.
      rewrite decide_True in Hs by done. lia.
    + destruct (k_wg k) eqn:Hw; [|by eexists]. rewrite (kinv_wg k Hk) in Hw. by destruct (k_running k).
Qed.

(** ** Nothing is lost *)

Definition bag (l : list (task T)) : gmultiset T := list_to_set_disj (payload <$> l).
(** The tasks in the broker's queue, those it waits to be settled, those that
    ended, and those whose retry never arrived. *)
Definition content (k : C) : gmultiset T :=
  bag (k_ready k) ⊎ (if k_open k then bag (unacked k) else ∅) ⊎ list_to_set_disj (k_done k)
  ⊎ list_to_set_disj (k_vanished k).

Lemma bag_app l1 l2 : bag (l1 ++ l2) = bag l1 ⊎ bag l2.
Proof. unfold bag. by rewrite fmap_app, list_to_set_disj_app. Qed.
Lemma bag_cons t l : bag (t :: l) = {[+ payload t +]} ⊎ bag l.
Proof. done. Qed.
Lemma bag_nil : bag [] = ∅.
Proof. done. Qed.
Lemma bag_perm l1 l2 : l1 ≡ₚ l2 → bag l1 = bag l2.
Proof. intros Hp. unfold bag. by rewrite Hp. Qed.

Create Rewrite HintDb bags.
#[local] Hint Rewrite bag_app bag_cons bag_nil (list_to_set_disj_app (A := T)) : bags.

(** What a goroutine does to the queue: the task stays in it, is over, or its
    retry vanished. *)
Lemma handled_content lost err mErr pub f t (l : list (task T)) :
  let r := handle_delivery err mErr pub f t l in
  bag l ⊎ {[+ payload t +]} ⊆ bag (settle lost t r) ⊎ (if over err t then {[+ payload t +]} else ∅)
    ⊎ (if vanishes err mErr pub f t then {[+ payload t +]} else ∅) ∧
  bag l ⊆ bag r.2.
Proof.
  unfold handle_delivery, vanishes, over, settle, publish.
  destruct err as [e|]; [destruct (RetryCount t <? 2)%Z; [destruct mErr, pub, f|]|]; destruct lost; simpl;
    repeat case_match; simplify_eq; simpl;
    autorewrite with bags; simpl; generalize (bag l); intros; split; multiset_solver.
Qed.

(** The loop's part of what is not settled. *)
Definition loop_bag (g : nat) (l : loop T) : gmultiset T :=
  match l with
  | Waiting t g' | Starting t g' => if decide (g' = g) then {[+ payload t +]} else ∅
  | _ => ∅
  end.
Definition work_bag (g : nat) (run : list (goroutine T)) : gmultiset T :=
  bag (go_task <$> filter (works_for g) run).
Lemma bag_unacked k : bag (unacked k) = bag (k_buffer k) ⊎ (loop_bag (k_chan k) (k_loop k) ⊎ work_bag (k_chan k) (k_running k)).
Proof.
  unfold unacked, held_by, loop_bag, work_bag. rewrite !bag_app. do 2 f_equal.
  destruct (k_loop k); try done; (case_decide; [|done]); rewrite bag_cons, bag_nil; multiset_solver.
Qed.
Lemma work_bag_cons g x run :
  work_bag g (x :: run) = (if decide (works_for g x) then {[+ payload (go_task x) +]} else ∅) ⊎ work_bag g run.
Proof. unfold work_bag. rewrite filter_cons. case_decide; [done|]. multiset_solver. Qed.
Lemma work_bag_perm g l1 l2 : l1 ≡ₚ l2 → work_bag g l1 = work_bag g l2.
Proof. intros Hp. unfold work_bag. apply bag_perm. by rewrite Hp. Qed.

Lemma finish_content k i err mErr pub f lost k' :
  kstep cap (LFinish i err mErr pub f lost) k = Some k' → content k ⊆ content k'.
Proof.
  simpl. destruct (k_running k !! i) as [[t g []]|] eqn:Hi; try done. intros [= <-].
  pose proof (handled_content lost err mErr pub f t (k_ready k)) as [H1 H2]. cbv zeta in H1, H2.
  set (r := handle_delivery err mErr pub f t (k_ready k)) in *. clearbody r.
  destruct (replace_at _ i _ Hi) as (rest & Hp & _ & Hn). unfold content. rewrite !bag_unacked. simpl.
  rewrite (work_bag_perm _ _ _ Hp), (work_bag_perm _ _ _ (Hn _)), !work_bag_cons.
  generalize dependent (bag (k_ready k)). generalize (bag (k_buffer k)), (loop_bag (k_chan k) (k_loop k)), (work_bag (k_chan k) rest).
  intros b1 b2 b3 b4 H1 H2. unfold works_for. simpl.
  rewrite (decide_False (P := g = k_chan k ∧ Settled = Working)) by naive_solver.
  destruct (k_open k); simpl; [destruct (Nat.eqb_spec g (k_chan k)); [rewrite decide_True by done|rewrite decide_False by naive_solver]|];
    destruct (over err t), (vanishes err mErr pub f t); autorewrite with bags; multiset_solver.
Qed.
Lemma requeue_content k : content k ⊆ content (requeue_unacked k).
Proof.
  unfold requeue_unacked, content. destruct (k_open k) eqn:Ho; simpl; [|by rewrite Ho].
  autorewrite with bags. generalize (bag (k_ready k)), (bag (unacked k)). multiset_solver.
Qed.
(** A loop that leaves a closed channel forgets nothing the broker counts on. *)
Lemma leave_content l k : k_open k = false → content (leave_channel l k) = content k.
Proof. intros Ho. unfold content, leave_channel. simpl. by rewrite Ho. Qed.
Lemma requeue_closed k : k_open (requeue_unacked k) = false.
Proof. unfold requeue_unacked. by destruct (k_open k) eqn:?. Qed.

Lemma kstep_content a k k' : kstep cap a k = Some k' → kinv k → content k ⊆ content k'.
Proof.
  intros Hs Hk. destruct a.
  5: by eapply finish_content.
  all: simpl in Hs.
  - destruct (k_ready k) as [|t rd] eqn:Hr; [done|]. case_match eqn:Hc; simplify_eq. apply andb_true_iff in Hc as [Ho _].
    unfold content. rewrite !bag_unacked. simpl. rewrite Hr, Ho. autorewrite with bags. multiset_solver.
  - destruct (k_loop k) as [|t0 g0|t0 g0| |] eqn:Hl; try done. destruct (k_buffer k) as [|t b] eqn:Hb; simplify_eq.
    unfold content. rewrite !bag_unacked. simpl. rewrite Hl, Hb.
    destruct decodes, (k_open k); simpl; rewrite ?decide_True by done; rewrite ?app_nil_r; autorewrite with bags;
      simpl; multiset_solver.
  - destruct (k_loop k) as [|t g|t g| |] eqn:Hl; try done. case_match; simplify_eq.
    unfold content. rewrite !bag_unacked. simpl. by rewrite Hl.
  - destruct (k_loop k) as [|t g|t g| |] eqn:Hl; simplify_eq. unfold content. rewrite !bag_unacked. simpl. rewrite Hl.
    rewrite (work_bag_perm _ (k_running k ++ _) _ (Permutation_app_comm _ _)). simpl. rewrite work_bag_cons.
    unfold works_for. simpl. destruct (k_open k); [|done].
    destruct (decide (g = k_chan k)); [rewrite decide_True by done|rewrite decide_False by naive_solver]; multiset_solver.
  - destruct (k_running k !! i) as [[t g []]|] eqn:Hi; try done. destruct (sem k g); simplify_eq.
    destruct (replace_at _ i _ Hi) as (rest & Hp & _ & Hn). unfold content. rewrite !bag_unacked. simpl.
    rewrite (work_bag_perm _ _ _ Hp), (work_bag_perm _ _ _ (Hn _)), !work_bag_cons. unfold works_for. simpl.
    rewrite !decide_False by naive_solver. done.
  - destruct (k_running k !! i) as [[t g []]|] eqn:Hi; try done. destruct (k_wg k); simplify_eq.
    destruct (replace_at _ i _ Hi) as (rest & Hp & Hd & _). unfold content. rewrite !bag_unacked. simpl.
    rewrite (work_bag_perm _ _ _ Hp), (work_bag_perm _ _ _ Hd), !work_bag_cons. unfold works_for. simpl.
    rewrite !decide_False by naive_solver. destruct (k_open k); multiset_solver.
  - case_match; simplify_eq. apply requeue_content.
  - destruct (k_loop k), (k_open k) eqn:Ho; simplify_eq. by rewrite leave_content.
  - destruct (k_loop k) eqn:Hl, (k_ctx k); simplify_eq. unfold content. simpl. rewrite (kinv_between k Hk Hl).
    multiset_solver.
  - simplify_eq. unfold content. rewrite !bag_unacked. done.
  - destruct (k_ctx k); [|done]. destruct (k_loop k) eqn:Hl; simplify_eq.
    + rewrite leave_content by apply requeue_closed. apply requeue_content.
    + unfold content. simpl. by rewrite (kinv_between k Hk Hl).
Qed.
Lemma kruns_content l k k' : kruns cap l k = Some k' → kinv k → content k ⊆ content k'.
Proof.
  revert k. induction l as [|a l IH]; intros k; simpl; [by intros [= ->]|].
  intros (k1 & H1 & H2)%bind_Some Hk. etrans; [by eapply kstep_content|]. eapply IH; [done|]. by eapply kstep_inv.
Qed.
(** A broker that stores what it is sent loses no retry. *)
Definition stores (a : label) : Prop := match a with LFinish _ _ _ _ f _ => f ≠ Dropped | _ => True end.
Lemma kruns_vanished l k k' : kruns cap l k = Some k' → Forall stores l → k_vanished k' = k_vanished k.
Proof.
  revert k. induction l as [|a l IH]; intros k; simpl; [by intros [= ->]|].
  intros (k1 & H1 & H2)%bind_Some [Ha Hl]%Forall_cons. rewrite (IH k1 H2 Hl). clear IH H2 Hl.
  destruct a; simpl in *; unfold requeue_unacked in H1; repeat case_match; simplify_eq/=; try done;
    unfold vanishes in *; repeat case_match; simplify_eq.
Qed.

(** C14 (invariant).  At least once, as far as the program can: in every
    interleaving of deliveries, task goroutines, dying channels, lost
    acknowledgements and shutdown, every task that was in the broker's queue
    is still in it or waits to be settled, or it has ended (its handler
    succeeded, its retries were used up, or its body did not decode), or its
    retry is one that the broker silently lost after [PublishWithContext] had
    returned [nil]; and if the broker loses no publication, there is none of
    the last. *)
Theorem at_least_once ready l k :
  kruns cap l (kstart ready) = Some k →
  list_to_set_disj (payload <$> ready) ⊆ content k ∧ (Forall stores l → k_vanished k = []).
Proof.
  intros Hr. split; [|by apply (kruns_vanished l _ k Hr)].
  etrans; [|eapply kruns_content; [exact Hr|apply kstart_inv]].
  unfold content. simpl. fold (bag ready). multiset_solver.
Qed.

(** ** Shutdown *)

(** Once the loop returned it stays so, no goroutine starts and nothing leaves
    the broker's queue. *)
Lemma kstep_returned a k k' :
  kstep cap a k = Some k' → k_loop k = Returned → k_open k = false →
  k_loop k' = Returned ∧ k_open k' = false ∧ bag (k_ready k) ⊆ bag (k_ready k') ∧
  (length (k_running k') ≤ length (k_running k))%nat.
Proof.
  intros Hs Hl Ho. destruct a; simpl in Hs; rewrite ?Hl, ?Ho in Hs; try done.
  - by destruct (k_ready k).
  - destruct (k_running k !! i) as [[t g []]|] eqn:Hi; try done.
    pose proof (handled_content lost err mErr pubOpen f t (k_ready k)) as [_ H2].
    simplify_eq. simpl. rewrite length_insert. done.
  - destruct (k_running k !! i) as [[t g []]|] eqn:Hi; try done. destruct (sem k g); simplify_eq. simpl.
    by rewrite length_insert.
  - destruct (k_running k !! i) as [[t g []]|] eqn:Hi; try done. destruct (k_wg k); simplify_eq. simpl.
    pose proof (length_delete (k_running k) i (ex_intro _ _ Hi)). split_and!; try done. lia.
  - simplify_eq. done.
  - by destruct (k_ctx k).
Qed.
Lemma kruns_returned l k k' :
  kruns cap l k = Some k' → k_loop k = Returned → k_open k = false →
  bag (k_ready k) ⊆ bag (k_ready k') ∧ (length (k_running k') ≤ length (k_running k))%nat.
Proof.
  revert k. induction l as [|a l IH]; intros k; simpl; [by intros [= ->]|].
  intros (k1 & H1 & H2)%bind_Some Hl Ho. apply kstep_returned in H1 as (Hl1 & Ho1 & Hb1 & Hn1); [|done..].
  destruct (IH k1) as [Hb2 Hn2]; [done..|]. split; [by etrans|lia].
Qed.
Lemma works_unacked k i t :
  k_running k !! i = Some (mk_goroutine t (k_chan k) Working) → payload t ∈ bag (unacked k).
Proof.
  intros Hi. rewrite bag_unacked. destruct (replace_at _ i _ Hi) as (rest & Hp & _).
  rewrite (work_bag_perm _ _ _ Hp), work_bag_cons. rewrite decide_True by done. simpl. multiset_solver.
Qed.

(** C18 (safety).  A graceful shutdown does not wait before it closes the
    channel: whenever the loop sees the cancelled context it can return at
    once, with all its goroutines still at work, and every delivery that is
    not settled goes back to the broker and stays there, whatever becomes of
    the goroutines.  In particular each task that is at work can still complete, and
    is then done and delivered again to the next process. *)
Theorem shutdown_redelivers k :
  k_ctx k = true → k_loop k = Selecting → k_open k = true →
  ∃ k1, kstep cap LStop k = Some k1 ∧ k_running k1 = k_running k ∧
    (∀ l k2, kruns cap l k1 = Some k2 →
       bag (unacked k) ⊆ bag (k_ready k2) ∧ (length (k_running k2) ≤ length (k_running k))%nat) ∧
    ∀ i t, k_running k !! i = Some (mk_goroutine t (k_chan k) Working) →
      ∃ k2, kstep cap (LFinish i None None true Stored false) k1 = Some k2 ∧
        payload t ∈ k_done k2 ∧ payload t ∈ bag (k_ready k2).
Proof.
  intros Hc Hl Ho. eexists. simpl. rewrite Hc, Hl. split; [done|]. unfold requeue_unacked. rewrite Ho. simpl.
  split; [done|].
  assert (bag (unacked k) ⊆ bag (k_ready k ++ unacked k)) as Hsub by (autorewrite with bags; multiset_solver).
  split.
  - intros l k2 Hr. apply kruns_returned in Hr as [Hb Hn]; [|done..]. split; [by etrans|done].
  - intros i t Hi. rewrite Hi. eexists. split; [done|]. simpl. split; [set_solver|].
    apply works_unacked in Hi. multiset_solver.
Qed.

(** The goroutines left can always end, and then [Drain] returns. *)
Definition steps_left (x : goroutine T) : nat :=
  match go_stage x with Working => 3 | Settled => 2 | Released => 1 end.
Lemma drain_terminates k : kinv k → ∃ l k', kruns cap l k = Some k' ∧ drained k' = true.
Proof.
  remember (sum_list (steps_left <$> k_running k)) as n eqn:Hn. revert k Hn.
  induction (lt_wf n) as [n _ IH]; intros k Hn Hk.
  destruct (k_running k) as [|[t g st] run] eqn:Hr.
  { exists [], k. split; [done|]. unfold drained. rewrite (kinv_wg k Hk), Hr. done. }
  assert (∀ a k1, kstep cap a k = Some k1 → (sum_list (steps_left <$> k_running k1) < n)%nat →
    ∃ l k', kruns cap l k = Some k' ∧ drained k' = true) as Hgo.
  { intros a k1 Hs Hlt. destruct (IH _ Hlt k1 eq_refl) as (l & k2 & H1 & H2); [by eapply kstep_inv|].
    exists (a :: l), k2. split; [|done]. change (kstep cap a k ≫= kruns cap l = Some k2). by rewrite Hs. }
  destruct st.
  - eapply (Hgo (LFinish 0 None None true Stored false)); [simpl; by rewrite Hr|]. simpl. rewrite Hn.
    unfold steps_left. simpl. lia.
  - destruct (sem k g) as [|m] eqn:Hs.
    { rewrite (kinv_sem k Hk), Hr, holders_cons, decide_True in Hs by done. lia. }
    eapply (Hgo (LRelease 0)); [simpl; rewrite Hr; simpl; by rewrite Hs|]. simpl. rewrite Hn. apply Nat.lt_succ_diag_r.
  - destruct (k_wg k) as [|m] eqn:Hw; [rewrite (kinv_wg k Hk), Hr in Hw; done|].
    eapply (Hgo (LDone 0)); [simpl; rewrite Hr; simpl; by rewrite Hw|]. simpl. rewrite Hn. apply Nat.lt_succ_diag_r.
Qed.
End Broker.

(** A task starts after [Drain] has returned: the loop was blocked, or took
    one more delivery, when the context was cancelled. *)
Example task_after_drain :
  ∃ k k', kruns 10 [LResume; LDeliver; LReceive true; LCancel] (kstart [mk_task 7%Z 0%Z]) = Some k ∧
    drained k = true ∧ k_ctx k = true ∧ kruns 10 [LAcquire; LGo] k = Some k' ∧ drained k' = false.
Proof. do 2 eexists. vm_compute. split_and!; reflexivity. Qed.
(** The semaphore belongs to a channel: after a restart the limit is not one
    on the whole process. *)
Example restart_doubles_concurrency :
  let work := [LDeliver; LReceive true; LAcquire; LGo] in
  let fill := work ++ work ++ work in
  (λ k, length (k_running k)) <$>
    kruns 3 ([LResume] ++ fill ++ [LDie; LClosed; LResume] ++ fill)
      (kstart [mk_task 1%Z 0%Z; mk_task 2%Z 0%Z; mk_task 3%Z 0%Z]) = Some 6%nat.
Proof. vm_compute. reflexivity. Qed.
(** A retry that the broker loses although [PublishWithContext] returned
    [nil]: the task is nowhere, after one failure of three. *)
Example retry_vanishes :
  let run := [LResume; LDeliver; LReceive true; LAcquire; LGo;
              LFinish 0 (Some (errorf "timeout")) None true Dropped false] in
  (λ k, (k_done k, k_vanished k, k_ready k, unacked k)) <$> kruns 10 run (kstart [mk_task 7%Z 0%Z])
    = Some ([], [7%Z], [], []).
Proof. vm_compute. reflexivity. Qed.

(** ** The in-memory consumer *)

Section Memory.
Context {T : Type} `{Countable T} (cap : nat).
Abbreviation Mem := (memory T).

(** Every task, wherever it is. *)
Definition mcontent (m : Mem) : gmultiset T :=
  list_to_set_disj (m_ch m) ⊎ list_to_set_disj (option_list (m_waiting m))
  ⊎ list_to_set_disj (m_running m) ⊎ list_to_set_disj (m_done m).
Definition minv (m : Mem) : Prop :=
  (m_sem m = length (m_running m) ∧ m_sem m ≤ cap)%nat ∧ (m_returned m = true → m_waiting m = None).

Lemma mstep_keeps a (m m' : Mem) :
  mstep cap a m = Some m' → minv m →
  minv m' ∧ mcontent m' = mcontent m ∧ (m_returned m = true → m_ch m' = m_ch m ∧ m_returned m' = true).
Proof.
  destruct m as [ch wt run sm ctx ret dn]. intros Hs [[Hn Hc] Hw]. unfold mcontent, minv. destruct a; simpl in *.
  - destruct ret, wt, ch; simplify_eq/=. split_and!; try done. multiset_solver.
  - destruct wt; [|done]. destruct (Nat.ltb_spec sm cap); simplify_eq/=.
    rewrite length_app, list_to_set_disj_app. simpl. split_and!; try done; try lia; multiset_solver.
  - destruct (run !! i) as [x|] eqn:Hi; [|done]. destruct sm as [|sm]; simplify_eq/=. pose proof (delete_Permutation run i x Hi) as Hp.
    rewrite list_to_set_disj_app. simpl.
    assert (list_to_set_disj run = ({[+ x +]} ⊎ list_to_set_disj (delete i run) :> gmultiset T)) as Hx.
    { by rewrite (list_to_set_disj_perm run _ Hp). }
    apply Permutation_length in Hp. simpl in Hp. split_and!; try done; try lia. rewrite Hx. multiset_solver.
  - simplify_eq/=. done.
  - destruct ctx, wt; simplify_eq/=. done.
Qed.

(** Property (invariant).  The in-memory consumer runs at most its capacity of tasks
    at a time and neither loses nor duplicates one while it runs; but what is
    in the channel when it returns stays there for ever. *)
Theorem memory_consumer ch l (m : Mem) :
  mruns cap l (mstart ch) = Some m →
  (length (m_running m) ≤ cap)%nat ∧ mcontent m = list_to_set_disj ch ∧
  ∀ l' m', m_returned m = true → mruns cap l' m = Some m' → m_ch m' = m_ch m.
Proof.
  assert (∀ l (m m' : Mem), mruns cap l m = Some m' → minv m →
    minv m' ∧ mcontent m' = mcontent m ∧ (m_returned m = true → m_ch m' = m_ch m)) as Hruns.
  { clear. induction l as [|a l IH]; intros m m'; simpl; [by intros [= ->]|].
    intros (m1 & H1 & H2)%bind_Some Hm. destruct (mstep_keeps a m m1 H1 Hm) as (Hm1 & Hc1 & Hr1).
    destruct (IH m1 m' H2 Hm1) as (Hm2 & Hc2 & Hr2). split_and!; [done|congruence|].
    intros Hr. destruct (Hr1 Hr) as [<- Hr']. auto. }
  intros Hr. destruct (Hruns l _ m Hr) as (((Hn & Hc) & Hw) & Hct & _); [split; simpl; [lia|done]|].
  split_and!; [lia| |].
  - rewrite Hct. unfold mcontent. simpl. multiset_solver.
  - intros l' m' Hret Hr'. by apply (Hruns l').
Qed.
End Memory.

(** ** Concrete runs *)

Definition demo_run : list label :=
  [LResume; LDeliver; LDeliver; LReceive true; LAcquire; LGo; LReceive true; LAcquire; LGo; LDie; LClosed; LResume; LDeliver;
   LFinish 0 (Some (errorf "boom")) None true Stored false; LRelease 0; LReceive true; LCancel].
Definition demo_tasks : list (task Z) := [mk_task 1 0; mk_task 2 0; mk_task 3 0]%Z.
Definition demo_state : option (consuming Z) := kruns capSyncConsumer demo_run (kstart demo_tasks).
Lemma consumer_invariant_witness :
  match demo_state with Some k => k_wg k = 2%nat ∧ sem k 1 = 1%nat ∧ (sem k 1 ≤ capSyncConsumer)%nat | None => False end.
Proof.
  destruct demo_state as [k|] eqn:Hk; [|vm_compute in Hk; discriminate Hk].
  destruct (consumer_invariant capSyncConsumer demo_tasks demo_run k Hk) as (Hsem & Hwg & _).
  specialize (Hsem 1%nat). vm_compute in Hk. injection Hk as <-. split_and!; [reflexivity..|apply Hsem].
Defined.
Lemma at_least_once_witness :
  match demo_state with
  | Some k => (list_to_set_disj [1; 2; 3]%Z : gmultiset Z) ⊆ content k ∧ k_vanished k = []
  | None => False
  end.
Proof.
  destruct demo_state as [k|] eqn:Hk; [|vm_compute in Hk; discriminate Hk].
  destruct (at_least_once capSyncConsumer demo_tasks demo_run k Hk) as [H1 H2]. split; [exact H1|].
  apply H2. repeat constructor; simpl; discriminate.
Defined.
(** A synchronisation that succeeded during the shutdown is delivered again. *)
Lemma shutdown_redelivers_witness :
  match kruns 10 [LResume; LDeliver; LReceive true; LAcquire; LGo; LCancel] (kstart [mk_task 7%Z 0%Z]) with
  | Some k => ∃ k1 k2, kstep 10 LStop k = Some k1 ∧
      kstep 10 (LFinish 0 None None true Stored false) k1 = Some k2 ∧ 7%Z ∈ k_done k2 ∧ 7%Z ∈ bag (k_ready k2)
  | None => False
  end.
Proof.
  destruct (kruns 10 [LResume; LDeliver; LReceive true; LAcquire; LGo; LCancel] (kstart [mk_task 7%Z 0%Z])) as [k|] eqn:Hk;
    [|vm_compute in Hk; discriminate Hk].
  vm_compute in Hk. injection Hk as <-.
  match goal with |- ∃ k1 k2, kstep 10 LStop ?k = _ ∧ _ =>
    destruct (shutdown_redelivers 10 k eq_refl eq_refl eq_refl) as (k1 & H1 & _ & _ & H2) end.
  destruct (H2 0%nat (mk_task 7%Z 0%Z) eq_refl) as (k2 & H3 & H4). exists k1, k2. split_and!; [exact H1|exact H3|apply H4..].
Defined.
Lemma memory_consumer_witness :
  match mruns capExtractionConsumer [MReceive; MStart; MReceive; MStart; MFinish 0; MCancel; MStop] (mstart ["a"; "b"; "c"]) with
  | Some m => (length (m_running m) ≤ capExtractionConsumer)%nat ∧ m_ch m = ["c"]
  | None => False
  end.
Proof.
  destruct (mruns _ _ (mstart ["a"; "b"; "c"])) as [m|] eqn:Hm; [|vm_compute in Hm; discriminate Hm].
  split; [exact (proj1 (memory_consumer capExtractionConsumer _ _ m Hm))|].
  vm_compute in Hm. injection Hm as <-. reflexivity.
Defined.
