(* ===== verification/Middleware.v ===== *)
(** * The HTTP middleware ([internal/api/middleware.go])

    The fixed-window limiter, the client address, the rate limit with and
    without Valkey, sessions in Valkey, authentication, CSRF and the security
    headers.  A middleware either lets the request through, with what it adds
    to it, or answers. *)

From stdpp Require Import base gmap strings list sets.
From Stdlib Require Import ZArith Lia Ascii.
From S2P Require Import Prelude GoStrings Models Effects.
Local Open Scope Z_scope.

(** ** [localLimiter] *)

Record ipLimit := mk_limit { hits : Z; resetTime : Z }.
Abbreviation counters := (gmap string ipLimit).

(** [allow] at time [now]: the answer and the counters. *)
Definition allow (now : Z) (ip : string) (max duration : Z) (l : counters) : bool * counters :=
  let l : counters :=
    if 10000 <? Z.of_nat (size l) then filter (λ kv, ¬ resetTime kv.2 < now) l else l in
  let fresh := (true, <[ip := mk_limit 1 (now + duration)]> l : counters) in
  match l !! ip with
  | None => fresh
  | Some lim =>
      if resetTime lim <? now then fresh
      else if max <=? hits lim then (false, l)
      else (true, <[ip := mk_limit (hits lim + 1) (resetTime lim)]> l)
  end.

(** ** [getClientIP] *)

(** [net.SplitHostPort], the host; [None] for an error. *)
Definition SplitHostPort (hostport : string) : option string :=
  match LastIndexByte hostport ":" with
  | None => None
  | Some i =>
      if HasPrefix hostport "[" then
        match Index hostport "]" with
        | None => None
        | Some e =>
            if negb (e + 1 =? i)%nat then None
            else
              let host := stake (e - 1) (sdrop 1 hostport) in
              if Contains (sdrop 1 hostport) "[" || Contains (sdrop (e + 1) hostport) "]" then None
              else Some host
        end
      else
        let host := stake i hostport in
        if Contains host ":" then None
        else if Contains hostport "[" || Contains hostport "]" then None
        else Some host
  end.

(** A request: its headers by canonical name, its cookies and its peer. *)
Record http_request := mk_http {
  q_header : string → string; q_cookie : string → option string; q_RemoteAddr : string }.

Definition getClientIP (trustProxy : bool) (r : http_request) : string :=
  let direct :=
    match SplitHostPort (q_RemoteAddr r) with
    | None => q_RemoteAddr r
    | Some host => host
    end in
  if trustProxy then
    if decide (q_header r "CF-Connecting-IP" ≠ "") then q_header r "CF-Connecting-IP"
    else if decide (q_header r "X-Forwarded-For" ≠ "") then
      let ip := q_header r "X-Forwarded-For" in
      match Index ip "," with
      | Some comma => TrimSpace (stake comma ip)
      | None => ip
      end
    else if decide (q_header r "X-Real-IP" ≠ "") then q_header r "X-Real-IP"
    else direct
  else direct.

(** ** [RateLimitMiddleware] *)

Inductive response := Answer (status : Z) (headers : list (string * string)).
Definition StatusTooManyRequests : Z := 429.
Definition StatusUnauthorized : Z := 401.
Definition StatusForbidden : Z := 403.

Section RateLimit.
Context {kv : Type} `{!Valkey kv}.

(** The process-wide limiters and the store. *)
Record limits := mk_limits { earlyLimiter : counters; globalLimiter : counters; rl_store : kv }.

(** INCR and EXPIRE in one transaction: the new value.  [None] when the value
    is not a number, which INCR refuses. *)
Definition incr_expire (now : Z) (key : string) (ttl : Z) (s : kv) : option (Z * kv) :=
  match vk_get now key s with
  | None => Some (1, vk_set now key (Itoa 1) ttl s)
  | Some v =>
      let '(n, ok) := Atoi v in
      if ok && (n <? 2 ^ 63 - 1) then Some (n + 1, vk_set now key (Itoa (n + 1)) ttl s) else None
  end.

Definition too_many (retryAfter : string) : response :=
  Answer StatusTooManyRequests [("Retry-After", retryAfter)].

(** [valkey]: [None] without a client, else the fate of the pipeline.  [pattern]
    is the route pattern, empty when there is none.  [None] is [next]. *)
Definition RateLimit (valkey : option fate) (pattern : string) (max duration : Z) (now : Z) (ip : string)
  (st : limits) : option response * limits :=
  let retryAfter := Itoa (Z.quot duration Second) in
  let '(ok, early) := allow now ip 150 (10 * Second) (earlyLimiter st) in
  let st := mk_limits early (globalLimiter st) (rl_store st) in
  if negb ok then (Some (too_many "60"), st)
  else
    let scope := if decide (pattern = "") then "unmatched" else pattern in
    let key := rateLimitKey scope ip in
    let local st :=
      let '(ok, g) := allow now ip max duration (globalLimiter st) in
      let st := mk_limits (earlyLimiter st) g (rl_store st) in
      if ok then (None, st) else (Some (too_many retryAfter), st) in
    match valkey with
    | None => local st
    | Some f =>
        let applied := incr_expire now key duration (rl_store st) in
        match f, applied with
        | Done, Some (n, s') =>
            let st := mk_limits (earlyLimiter st) (globalLimiter st) s' in
            if max <? n then (Some (too_many retryAfter), st) else (None, st)
        | Unacked _, Some (_, s') => local (mk_limits (earlyLimiter st) (globalLimiter st) s')
        | _, _ => local st
        end
    end.
End RateLimit.
Arguments limits : clear implicits.

(** ** Sessions in Valkey *)

(** The values the handlers put into a session. *)
Inductive value := VInt (z : Z) | VString (s : string) | VNumber (s : string).
(** The same at the level of JSON. *)
Inductive json_value := JNumber (s : string) | JString (s : string).
#[export] Instance value_eq_dec : EqDecision value.
Proof. solve_decision. Defined.
#[export] Instance json_value_eq_dec : EqDecision json_value.
Proof. solve_decision. Defined.

Definition to_json (v : value) : json_value :=
  match v with VInt z => JNumber (Itoa z) | VString s => JString s | VNumber s => JNumber s end.
(** [jn.Int64()] *)
Definition of_json (v : json_value) : value :=
  match v with
  | JNumber s => let '(i, ok) := Atoi s in if ok then VInt i else VNumber s
  | JString s => VString s
  end.

Record session := mk_session {
  s_ID : string; s_Values : gmap string value; s_IsNew : bool; s_MaxAge : Z }.
Definition defaultMaxAge : Z := 86400 * 7.

(** What [securecookie] promises: a value encoded with the keys decodes to itself. *)
Class Cookies := {
  EncodeMulti : string → string → error + string;
  DecodeMulti : string → string → error + string;
  DecodeMulti_EncodeMulti : ∀ name id c, EncodeMulti name id = inr c → DecodeMulti name c = inr id }.

(** A cookie of the response: deleted, or set to a value. *)
Inductive set_cookie := Expired | Set_ (v : string).

Section Store.
Context {kv : Type} `{!Valkey kv} `{!Cookies} `{!Codec (gmap string json_value)}.

Definition empty_session : session := mk_session "" ∅ true defaultMaxAge.

(** [New] with the cookie of the request, if any; [get] is what Valkey answers. *)
Definition New_session (name : string) (cookie : option string) (f : fate) (now : Z) (s : kv) : session :=
  match cookie with
  | None => empty_session
  | Some c =>
      match DecodeMulti name c with
      | inl _ => empty_session
      | inr sessionID =>
          let failed := mk_session sessionID ∅ true defaultMaxAge in
          match f with
          | Done =>
              match vk_get now (sessionKey sessionID) s with
              | None => failed
              | Some val =>
                  match unmarshal val with
                  | None => failed
                  | Some temp => mk_session sessionID (of_json <$> temp) false defaultMaxAge
                  end
              end
          | _ => failed
          end
      end
  end.

(** [Save]: the error, the cookie it sets, the session and the store.  [key] is
    [hex(GenerateRandomKey(32))]. *)
Definition Save (name key : string) (f : fate) (now : Z) (se : session) (s : kv)
  : option error * option set_cookie * session * kv :=
  if s_MaxAge se <? 0 then
    if decide (s_ID se = "") then (None, Some Expired, se, s)
    else
      let s' := match f with Lost _ => s | _ => vk_del now (sessionKey (s_ID se)) s end in
      (None, Some Expired, mk_session "" (s_Values se) (s_IsNew se) (s_MaxAge se), s')
  else
    let se := if decide (s_ID se = "") then mk_session key (s_Values se) (s_IsNew se) (s_MaxAge se) else se in
    match marshal (to_json <$> s_Values se) with
    | None => (Some (errorf "json: unsupported value"), None, se, s)
    | Some val =>
        let age := if decide (s_MaxAge se = 0) then defaultMaxAge else s_MaxAge se in
        let stored := vk_set now (sessionKey (s_ID se)) val (age * Second) s in
        match f with
        | Lost e => (Some e, None, se, s)
        | Unacked e => (Some e, None, se, stored)
        | Done =>
            match EncodeMulti name (s_ID se) with
            | inl e => (Some e, None, se, stored)
            | inr encoded => (None, Some (Set_ encoded), se, stored)
            end
        end
    end.
End Store.

(** ** [RequireAuth] and [CSRFMiddleware] *)

(** [session.Values["user_id"].(int)], with the test against zero. *)
Definition session_user (se : session) : option Z :=
  match s_Values se !! "user_id" with
  | Some (VInt u) => if decide (u = 0) then None else Some u
  | _ => None
  end.

(** The user the handlers see, or 401; [err] is the error of [store.Get].  The
    session is then saved, [ended] or [renewed], which may fail silently. *)
Definition RequireAuth (err : option error) (se : session) : response + Z :=
  match err with
  | Some _ => inl (Answer StatusUnauthorized [])
  | None =>
      match session_user se with
      | None => inl (Answer StatusUnauthorized [])
      | Some u => inr u
      end
  end.
Definition ended (se : session) : session := mk_session (s_ID se) (s_Values se) (s_IsNew se) (-1).
Definition renewed (se : session) : session :=
  mk_session (s_ID se) (s_Values se) (s_IsNew se) (86400 * 7).

(** [subtle.ConstantTimeCompare]: 1 exactly on equal slices. *)
Fixpoint xor_bytes (a b : string) : N :=
  match a, b with
  | String x a, String y b => N.lor (N.lxor (N_of_ascii x) (N_of_ascii y)) (xor_bytes a b)
  | _, _ => 0%N
  end.
Definition ConstantTimeCompare (a b : string) : Z :=
  if (String.length a =? String.length b)%nat then (if (xor_bytes a b =? 0)%N then 1 else 0) else 0.

(** The request seems to carry a session cookie. *)
Definition has_session_cookie (r : http_request) : bool :=
  match q_cookie r "session" with
  | Some _ => true
  | None => Contains (q_header r "Cookie") "session=" || Contains (q_header r "Set-Cookie") "session="
  end.

Definition CSRFMiddleware (r : http_request) (se : session) : option response :=
  if negb (has_session_cookie r) then None
  else match s_Values se !! "csrf_token" with
  | Some (VString expectedToken) =>
      if decide (expectedToken = "") then Some (Answer StatusForbidden [])
      else
        let actualToken := q_header r "X-CSRF-Token" in
        if negb (String.length expectedToken =? String.length actualToken)%nat
           || negb (ConstantTimeCompare expectedToken actualToken =? 1)
        then Some (Answer StatusForbidden [])
        else None
  | _ => Some (Answer StatusForbidden [])
  end.

(** ** [SecurityHeadersMiddleware] and the session cookie's options *)

Definition csp : string :=
  "default-src 'self'; " +:+
  "script-src 'self' 'unsafe-inline' https://hcaptcha.com https://*.hcaptcha.com https://static.cloudflareinsights.com; " +:+
  "style-src 'self' 'unsafe-inline' https://hcaptcha.com https://*.hcaptcha.com; " +:+
  "font-src 'self' data: https://hcaptcha.com https://*.hcaptcha.com; " +:+
  "img-src 'self' data: https: https://hcaptcha.com https://*.hcaptcha.com; " +:+
  "connect-src 'self' https://api.github.com https://hcaptcha.com https://*.hcaptcha.com https://cloudflareinsights.com; " +:+
  "frame-src 'self' https://hcaptcha.com https://*.hcaptcha.com; " +:+
  "frame-ancestors 'none'; " +:+ "base-uri 'self'; " +:+ "form-action 'self';".
Definition SecurityHeaders (env : string) : list (string * string) :=
  [("Content-Security-Policy", csp); ("X-Content-Type-Options", "nosniff"); ("X-Frame-Options", "DENY");
   ("X-XSS-Protection", "0"); ("Referrer-Policy", "strict-origin-when-cross-origin");
   ("Permissions-Policy", "camera=(), microphone=(), geolocation=()")]
  ++ (if decide (env = "production")
      then [("Strict-Transport-Security", "max-age=63072000; includeSubDomains")] else []).

Record cookie_options := mk_options {
  o_Path : string; o_MaxAge : Z; o_HttpOnly : bool; o_Secure : bool; o_SameSiteLax : bool }.
Definition dev_env (env : string) : bool := bool_decide (env ∈ ["development"; "dev"; "local"]).
(** Of [NewValkeyStore]; [main] gives the cookie store the same. *)
Definition store_options (env : string) : cookie_options :=
  mk_options "/" defaultMaxAge true (negb (dev_env env)) true.
