(* ===== verification/MiddlewareSpec.v ===== *)
(** * Properties of the middleware *)

From stdpp Require Import base gmap strings list sets sorting.
From Stdlib Require Import ZArith Lia Ascii.
From S2P Require Import Prelude GoStrings Models Effects Middleware.
Local Open Scope Z_scope.

(** ** The limiter, seen from one address *)

Record hit := mk_hit { h_now : Z; h_ip : string; h_max : Z; h_duration : Z }.

(** The answers of the limiter to a sequence of requests. *)
Fixpoint answers (hs : list hit) (l : counters) : list (string * bool) :=
  match hs with
  | [] => []
  | h :: hs =>
      let '(b, l') := allow (h_now h) (h_ip h) (h_max h) (h_duration h) l in
      (h_ip h, b) :: answers hs l'
  end.

(** A single fixed window: the specification of the limiter for one address. *)
Definition current (now : Z) (o : option ipLimit) : option ipLimit :=
  match o with Some lim => if resetTime lim <? now then None else Some lim | None => None end.
Definition window_step (h : hit) (o : option ipLimit) : bool * option ipLimit :=
  match current (h_now h) o with
  | None => (true, Some (mk_limit 1 (h_now h + h_duration h)))
  | Some lim =>
      if h_max h <=? hits lim then (false, Some lim)
      else (true, Some (mk_limit (hits lim + 1) (resetTime lim)))
  end.
Fixpoint window_answers (hs : list hit) (o : option ipLimit) : list bool :=
  match hs with
  | [] => []
  | h :: hs => let '(b, o') := window_step h o in b :: window_answers hs o'
  end.

(** States that agree from [now] on. *)
Definition agree (now : Z) (o o' : option ipLimit) : Prop := ∀ t, now ≤ t → current t o = current t o'.
#[export] Instance agree_equiv now : Equivalence (agree now).
Proof. split; [done|intros ?? H ??; by rewrite H|intros ??? H1 H2 ??; by rewrite H1, H2]. Qed.
Lemma agree_later now now' o o' : now ≤ now' → agree now o o' → agree now' o o'.
Proof. intros Hn Ha t Ht. apply Ha. lia. Qed.
Lemma current_later now t o : now ≤ t → current t (current now o) = current t o.
Proof.
  intros Ht. destruct o as [lim|]; simpl; [|done].
  destruct (Z.ltb_spec (resetTime lim) now); simpl; [|done]. destruct (Z.ltb_spec (resetTime lim) t); [done|lia].
Qed.

(** Dropping the expired entries does not show. *)
Definition swept (now : Z) (l : counters) : counters :=
  if 10000 <? Z.of_nat (size l) then filter (λ kv, ¬ resetTime kv.2 < now) l else l.
Lemma swept_agree now l ip : agree now (swept now l !! ip) (l !! ip).
Proof.
  intros t Ht. unfold swept. case_match; [|done].
  destruct (filter _ l !! ip) as [lim|] eqn:Hf.
  - apply map_lookup_filter_Some in Hf as [-> _]. done.
  - apply map_lookup_filter_None in Hf as [->|Hf]; [done|]. simpl.
    destruct (l !! ip) as [lim|]; [|done]. specialize (Hf lim eq_refl). simpl in *.
    destruct (Z.ltb_spec (resetTime lim) t); [done|]. exfalso. apply Hf. lia.
Qed.

Lemma allow_window h l :
  let '(b, l') := allow (h_now h) (h_ip h) (h_max h) (h_duration h) l in
  let '(b', o') := window_step h (l !! h_ip h) in
  b = b' ∧ agree (h_now h) (l' !! h_ip h) o' ∧
  ∀ ip, ip ≠ h_ip h → agree (h_now h) (l' !! ip) (l !! ip).
Proof.
  unfold allow, window_step. fold (swept (h_now h) l).
  pose proof (λ ip, swept_agree (h_now h) l ip) as Hs. set (m := swept (h_now h) l) in *. clearbody m.
  assert (∀ x ip, ip ≠ h_ip h → agree (h_now h) ((<[h_ip h := x]> m) !! ip) (l !! ip)) as Hother.
  { intros x ip Hne. rewrite lookup_insert_ne by done. apply Hs. }
  pose proof (Hs (h_ip h) (h_now h) (Z.le_refl _)) as Hc. rewrite <- Hc. unfold current at 1.
  destruct (m !! h_ip h) as [lim|] eqn:Hm.
  - destruct (Z.ltb_spec (resetTime lim) (h_now h)).
    + split_and!; [done|by rewrite lookup_insert_eq|apply Hother].
    + destruct (h_max h <=? hits lim).
      * split_and!; [done|by rewrite Hm|intros; apply Hs].
      * split_and!; [done|by rewrite lookup_insert_eq|apply Hother].
  - split_and!; [done|by rewrite lookup_insert_eq|apply Hother].
Qed.

Lemma window_step_agree h o o' :
  agree (h_now h) o o' →
  (window_step h o).1 = (window_step h o').1 ∧ agree (h_now h) (window_step h o).2 (window_step h o').2.
Proof. intros Ha. unfold window_step. by rewrite (Ha (h_now h) (Z.le_refl _)). Qed.

(** Requests in the order of the clock. *)
Definition ordered (t0 : Z) (hs : list hit) : Prop := Sorted Z.le (t0 :: (h_now <$> hs)).

Lemma answers_window ip t0 hs l o :
  ordered t0 hs → agree t0 (l !! ip) o →
  snd <$> filter (λ a, a.1 = ip) (answers hs l) = window_answers (filter (λ h, h_ip h = ip) hs) o.
Proof.
  revert t0 l o. induction hs as [|h hs IH]; intros t0 l o Hord Ha; [done|].
  assert (t0 ≤ h_now h ∧ ordered (h_now h) hs) as [Ht Hord'].
  { unfold ordered in *. simpl in Hord. apply Sorted_inv in Hord as [Hord Hh].
    by apply HdRel_inv in Hh. }
  apply (agree_later _ (h_now h)) in Ha; [|done]. cbn [answers].
  pose proof (allow_window h l) as Hw. destruct (allow _ _ _ _ l) as [b l'].
  rewrite !filter_cons. simpl. destruct (decide (h_ip h = ip)) as [<-|Hne].
  - destruct (window_step_agree h _ _ Ha) as [Hb Ho]. cbn.
    destruct (window_step h (l !! h_ip h)) as [b1 o1], (window_step h o) as [b2 o2]. simpl in *.
    destruct Hw as (-> & Hl & _). subst b2. f_equal. apply (IH (h_now h)); [done|].
    etrans; [exact Hl|exact Ho].
  - destruct (window_step h _) as [b1 o1]. destruct Hw as (_ & _ & Hl).
    apply (IH (h_now h)); [done|]. etrans; [apply Hl; auto|exact Ha].
Qed.

(** C27 (refinement).  The limiter keeps addresses apart: for any sequence of
    requests in the order of the clock, with any limits, the answers given to
    one address are those of a single fixed window fed with that address's
    requests alone.  Other clients, and the sweep that runs when the table is
    large, do not show. *)
Theorem limiter_refines_window ip t0 hs (l : counters) :
  ordered t0 hs →
  snd <$> filter (λ a, a.1 = ip) (answers hs l) = window_answers (filter (λ h, h_ip h = ip) hs) (l !! ip).
Proof. intros Hord. by apply (answers_window ip t0). Qed.

(** *** How many requests a window lets through *)

Definition passed (l : list bool) : Z := Z.of_nat (length (filter (λ b, b = true) l)).
Lemma passed_cons b l : passed (b :: l) = (if b then 1 else 0) + passed l.
Proof. unfold passed. rewrite filter_cons. destruct b; simpl; lia. Qed.

Lemma window_same max r k hs :
  Forall (λ h, h_max h = max ∧ h_now h ≤ r) hs →
  passed (window_answers hs (Some (mk_limit k r))) ≤ Z.max 0 (max - k).
Proof.
  intros Hf. revert k. induction Hf as [|h hs [Hm Ht] _ IH]; intros k; [simpl; unfold passed; simpl; lia|].
  cbn [window_answers]. unfold window_step, current. simpl resetTime.
  destruct (Z.ltb_spec r (h_now h)); cbn iota beta; [lia|]. rewrite Hm. simpl hits.
  destruct (Z.leb_spec max k); cbn iota beta; rewrite passed_cons.
  - specialize (IH k). lia.
  - specialize (IH (k + 1)). simpl resetTime. lia.
Qed.
(** What the current window may still let through. *)
Definition remaining (max : Z) (o : option ipLimit) : Z :=
  match o with None => 0 | Some lim => Z.max 0 (max - hits lim) end.
Lemma window_bound max dur a hs o :
  Forall (λ h, h_max h = max ∧ h_duration h = dur ∧ a ≤ h_now h ≤ a + dur) hs →
  passed (window_answers hs o) ≤ remaining max o + Z.max 1 max.
Proof.
  intros Hf. revert o. induction Hf as [|h hs (Hm & Hd & Ht) Hf IH]; intros o.
  { simpl. unfold passed, remaining. destruct o; simpl; lia. }
  assert (passed (window_answers hs (Some (mk_limit 1 (h_now h + h_duration h)))) ≤ Z.max 0 (max - 1)) as Hfresh.
  { apply window_same. eapply Forall_impl; [exact Hf|]. simpl. naive_solver lia. }
  cbn [window_answers]. unfold window_step, current. destruct o as [[k r]|]; simpl resetTime.
  - destruct (Z.ltb_spec r (h_now h)); cbn iota beta; [rewrite passed_cons; simpl; lia|].
    rewrite Hm. simpl hits. destruct (Z.leb_spec max k); cbn iota beta; rewrite passed_cons.
    + specialize (IH (Some (mk_limit k r))). simpl in *. lia.
    + specialize (IH (Some (mk_limit (k + 1) r))). simpl in *. lia.
  - cbn iota beta. rewrite passed_cons. simpl. lia.
Qed.

(** Property (bounds).  In any stretch of time no longer than the window, an address
    gets through at most twice the limit, however the requests of others
    interleave: once with what is left of the window it is in, once with the
    next one.  For a limit below one a window still lets its first request
    pass. *)
Theorem limiter_bound ip t0 hs (l : counters) max dur a :
  ordered t0 hs → (∀ lim, l !! ip = Some lim → 0 ≤ hits lim) →
  Forall (λ h, h_ip h = ip → h_max h = max ∧ h_duration h = dur ∧ a ≤ h_now h ≤ a + dur) hs →
  passed (snd <$> filter (λ x, x.1 = ip) (answers hs l)) ≤ 2 * Z.max 1 max.
Proof.
  intros Hord Hl Hf. rewrite (answers_window ip t0 hs l (l !! ip)) by done.
  etrans; [apply (window_bound max dur a)|].
  - rewrite Forall_forall in Hf. apply Forall_forall. intros h [Hip Hin]%list_elem_of_filter. by apply Hf.
  - unfold remaining. destruct (l !! ip) as [lim|]; [specialize (Hl lim eq_refl)|]; lia.
Qed.

(** ** The client's address *)

(** Property (safety).  Without a trusted proxy a client cannot choose its bucket:
    the address depends on the peer of the connection alone, whatever headers
    the request carries. *)
Theorem client_ip_unforgeable r r' :
  q_RemoteAddr r = q_RemoteAddr r' → getClientIP false r = getClientIP false r'.
Proof. intros H. unfold getClientIP. by rewrite H. Qed.

(** ** CSRF *)

Lemma lxor_zero a b : N.lxor (N_of_ascii a) (N_of_ascii b) = 0%N → a = b.
Proof. intros H%N.lxor_eq. rewrite <- (ascii_N_embedding a), H. apply ascii_N_embedding. Qed.
Lemma ConstantTimeCompare_eq a b : ConstantTimeCompare a b = 1 ↔ a = b.
Proof.
  unfold ConstantTimeCompare. destruct (Nat.eqb_spec (String.length a) (String.length b)) as [Hl|Hl].
  - assert (xor_bytes a b = 0%N ↔ a = b) as Hx.
    { revert b Hl. induction a as [|x a IH]; intros [|y b]; simpl; try done. intros [= Hl].
      rewrite N.lor_eq_0_iff, (IH b Hl). split.
      - intros [->%lxor_zero ->]. done.
      - intros [= -> ->]. by rewrite N.lxor_nilpotent. }
    destruct (N.eqb_spec (xor_bytes a b) 0) as [H0|H0]; [naive_solver|]. split; [done|].
    intros ->. naive_solver.
  - split; [done|]. intros ->. done.
Qed.

(** A request with a session cookie passes the CSRF check exactly
    when its session holds a token that is not empty and the header repeats
    it. *)
Lemma csrf_token_required r se :
  q_cookie r "session" ≠ None →
  CSRFMiddleware r se = None ↔
  ∃ t, s_Values se !! "csrf_token" = Some (VString t) ∧ t ≠ "" ∧ q_header r "X-CSRF-Token" = t.
Proof.
  intros Hc. unfold CSRFMiddleware, has_session_cookie. destruct (q_cookie r "session"); [|done]. cbn iota beta. simpl negb.
  destruct (s_Values se !! "csrf_token") as [[z|t|n]|]; try naive_solver.
  case_decide as Ht; [naive_solver|].
  destruct (Nat.eqb_spec (String.length t) (String.length (q_header r "X-CSRF-Token"))) as [Hl|Hl]; simpl.
  - destruct (Z.eqb_spec (ConstantTimeCompare t (q_header r "X-CSRF-Token")) 1) as [He|He]; simpl.
    + apply ConstantTimeCompare_eq in He. naive_solver.
    + split; [done|]. intros (t' & [= <-] & _ & Hh). destruct He. by apply ConstantTimeCompare_eq.
  - split; [done|]. intros (t' & [= <-] & _ & Hh). by rewrite Hh in Hl.
Qed.

(** ** Sessions *)

(** Values a handler may store: integers are Go's [int]. *)
Definition storable (v : value) : Prop :=
  match v with VInt z => in_int 64 z | VString _ => True | VNumber _ => False end.
Lemma of_json_to_json v : storable v → of_json (to_json v) = v.
Proof. destruct v; simpl; try done. intros Hz. by rewrite Atoi_Itoa. Qed.
Lemma stored_values (m : gmap string value) :
  map_Forall (λ _, storable) m → of_json <$> (to_json <$> m) = m.
Proof.
  intros Hm. apply map_eq. intros k. rewrite !lookup_fmap.
  destruct (m !! k) as [v|] eqn:Hk; simpl; [|done]. by rewrite of_json_to_json by (by eapply Hm).
Qed.

Section Sessions.
Context {kv : Type} `{!Valkey kv} `{!Cookies} `{!Codec (gmap string json_value)}.

(** Property (round trip).  A saved session is found again: when [Save] succeeds, a
    later request that carries the cookie it set, within the session's age,
    gets a session with the same identifier and the same values, integers and
    strings alike, and the same user. *)
Theorem session_round_trip name key se (s : kv) now t c se' s' :
  0 ≤ s_MaxAge se → map_Forall (λ _, storable) (s_Values se) →
  Save name key Done now se s = (None, Some (Set_ c), se', s') →
  now ≤ t < now + (if decide (s_MaxAge se = 0) then defaultMaxAge else s_MaxAge se) * Second →
  let found := New_session name (Some c) Done t s' in
  s_ID found = s_ID se' ∧ s_Values found = s_Values se ∧ s_IsNew found = false ∧
  session_user found = session_user se.
Proof.
  intros Hage Hv Hsave Ht. unfold Save in Hsave. destruct (Z.ltb_spec (s_MaxAge se) 0); [lia|].
  set (se1 := if decide (s_ID se = "") then _ else se) in Hsave.
  assert (s_Values se1 = s_Values se ∧ s_MaxAge se1 = s_MaxAge se) as [Hv1 Ha1]
    by (unfold se1; destruct (decide (s_ID se = "")); done).
  rewrite Hv1, Ha1 in Hsave. destruct (marshal _) as [val|] eqn:Hm; [|done].
  destruct (EncodeMulti name (s_ID se1)) as [e|enc] eqn:He; simplify_eq/=.
  unfold New_session. rewrite (DecodeMulti_EncodeMulti _ _ _ He).
  rewrite vk_get_set_eq by done. rewrite (unmarshal_marshal _ _ Hm).
  unfold session_user. simpl. rewrite stored_values by done. done.
Qed.

(** Property (safety).  Ending a session ends it for every copy of its cookie: after
    [Save] with a negative age whose DEL was not lost, the cookie of that
    session yields a session without values, hence no user. *)
Theorem session_logout name key id c f se (s : kv) now t :
  s_MaxAge se < 0 → s_ID se = id → id ≠ "" → (∀ e, f ≠ Lost e) →
  EncodeMulti name id = inr c →
  let '(_, _, _, s') := Save name key f now se s in
  s_Values (New_session name (Some c) Done t s') = ∅ ∧
  RequireAuth None (New_session name (Some c) Done t s') = inl (Answer StatusUnauthorized []).
Proof.
  intros Ha Hid Hne Hf He. unfold Save. destruct (Z.ltb_spec (s_MaxAge se) 0); [|lia].
  rewrite decide_False by congruence. subst id.
  assert (∀ s', vk_get t (sessionKey (s_ID se)) s' = None →
    s_Values (New_session name (Some c) Done t s') = ∅) as Hnone.
  { intros s' Hs'. unfold New_session. by rewrite (DecodeMulti_EncodeMulti _ _ _ He), Hs'. }
  assert (s_Values (New_session name (Some c) Done t
    (match f with Lost _ => s | _ => vk_del now (sessionKey (s_ID se)) s end)) = ∅) as Hz.
  { apply Hnone. destruct f as [|e|e]; [apply vk_get_del_eq|by destruct (Hf e)|apply vk_get_del_eq]. }
  split; [exact Hz|]. unfold RequireAuth, session_user. by rewrite Hz.
Qed.
End Sessions.

(** ** The limit in Valkey *)

Section Counting.
Context {kv : Type} `{!Valkey kv}.

(** The counts the transaction reports for hits at the given times. *)
Fixpoint counts (key : string) (ttl : Z) (times : list Z) (s : kv) : list (option Z) :=
  match times with
  | [] => []
  | t :: times =>
      match incr_expire t key ttl s with
      | Some (n, s') => Some n :: counts key ttl times s'
      | None => None :: counts key ttl times s
      end
  end.

Lemma counts_from key ttl times (s : kv) n t0 :
  0 ≤ n → n + Z.of_nat (length times) < 2 ^ 63 - 1 → 0 < ttl →
  (∀ i t t', (t0 :: times) !! i = Some t → times !! i = Some t' → t ≤ t' < t + ttl) →
  (∀ t, t0 ≤ t < t0 + ttl → vk_get t key s = if decide (n = 0) then None else Some (Itoa n)) →
  counts key ttl times s = (λ i, Some (n + 1 + Z.of_nat i)) <$> seq 0 (length times).
Proof.
  revert s n t0. induction times as [|t times IH]; intros s n t0 Hn Hmax Httl Hgap Hget; [done|].
  pose proof (Hgap 0%nat t0 t eq_refl eq_refl) as Ht. simpl length in Hmax. cbn [counts].
  assert (incr_expire t key ttl s = Some (n + 1, vk_set t key (Itoa (n + 1)) ttl s)) as ->.
  { unfold incr_expire. rewrite Hget by lia. case_decide; [by subst|].
    rewrite Atoi_Itoa by (unfold in_int; lia). simpl. destruct (Z.ltb_spec n (2 ^ 63 - 1)); [done|lia]. }
  simpl. f_equal; [f_equal; lia|].
  rewrite (IH _ (n + 1) t); [| lia | lia | done | |].
  - rewrite <- fmap_S_seq, <- list_fmap_compose. apply list_fmap_ext. intros i x _. simpl. f_equal. lia.
  - intros i x y Hx Hy. by apply (Hgap (S i)).
  - intros x Hx. rewrite vk_get_set_eq by lia. by rewrite decide_False by lia.
Qed.

(** Property (functional).  With Valkey the limit counts exactly as long as requests
    keep coming: for hits each less than the window after the one before, on a
    key that was free, the [i]-th hit is counted as [i], so it is refused
    exactly when [i] exceeds the limit.  Since every hit renews the expiry, a
    client that keeps sending is refused for ever, not until the window
    ends. *)
Theorem valkey_limit_counts key ttl times (s : kv) t0 :
  0 < ttl → Z.of_nat (length times) < 2 ^ 62 →
  (∀ i t t', (t0 :: times) !! i = Some t → times !! i = Some t' → t ≤ t' < t + ttl) →
  (∀ t, t0 ≤ t < t0 + ttl → vk_get t key s = None) →
  counts key ttl times s = (λ i, Some (1 + Z.of_nat i)) <$> seq 0 (length times).
Proof. intros Httl Hlen Hgap Hfree. apply (counts_from key ttl times s 0 t0); auto; lia. Qed.
End Counting.

(** ** Concrete runs *)

Definition demo_hits : list hit := [mk_hit 0 "a" 2 100; mk_hit 1 "b" 2 100; mk_hit 2 "a" 2 100; mk_hit 3 "a" 2 100].
Lemma demo_ordered : ordered 0 demo_hits.
Proof. unfold ordered, demo_hits. simpl. repeat constructor; vm_compute; discriminate. Qed.
Lemma limiter_refines_window_witness :
  snd <$> filter (λ a, a.1 = "a") (answers demo_hits ∅) = [true; true; false].
Proof. rewrite (limiter_refines_window "a" 0 demo_hits ∅ demo_ordered). vm_compute. reflexivity. Defined.
Lemma limiter_bound_witness :
  passed (snd <$> filter (λ x, x.1 = "a") (answers demo_hits ∅)) ≤ 4.
Proof.
  apply (limiter_bound "a" 0 demo_hits ∅ 2 100 0 demo_ordered).
  - intros lim Hl. rewrite lookup_empty in Hl. discriminate Hl.
  - unfold demo_hits. repeat constructor; vm_compute; discriminate.
Defined.

Definition demo_request (remote csrf : string) : http_request :=
  mk_http (λ h, if decide (h = "X-CSRF-Token") then csrf else "") (λ _, Some "cookie") remote.
Lemma client_ip_unforgeable_witness :
  getClientIP false (demo_request "10.0.0.1:9" "x") = getClientIP false (demo_request "10.0.0.1:9" "y").
Proof. apply client_ip_unforgeable. reflexivity. Defined.

Definition demo_session : session :=
  mk_session "" {[ "user_id" := VInt 7; "csrf_token" := VString "t0k3n" ]} true (86400 * 7).
Lemma csrf_token_required_witness : CSRFMiddleware (demo_request "10.0.0.1:9" "t0k3n") demo_session = None.
Proof.
  apply csrf_token_required; [discriminate|]. exists "t0k3n". split; [reflexivity|]. split; [discriminate|reflexivity].
Defined.

#[local] Instance demo_cookies : Cookies.
Proof. refine {| EncodeMulti _ id := inr id; DecodeMulti _ c := inr c |}. intros name id c [= ->]. done. Defined.
#[local] Instance json_value_countable : Countable json_value.
Proof.
  refine (inj_countable' (λ v, match v with JNumber s => inl s | JString s => inr s end)
    (λ x, match x with inl s => JNumber s | inr s => JString s end) _). by intros [].
Defined.
#[local] Instance demo_codec : Codec (gmap string json_value) := countable_codec.

Lemma session_round_trip_witness :
  let '(_, _, _, s') := Save (kv := kv_map) "session" "k1" Done 0 demo_session ∅ in
  session_user (New_session "session" (Some "k1") Done 5 s') = Some 7.
Proof.
  destruct (session_round_trip "session" "k1" demo_session (∅ : kv_map) 0 5 "k1"
    (mk_session "k1" (s_Values demo_session) true (86400 * 7))
    (Save (kv := kv_map) "session" "k1" Done 0 demo_session ∅).2) as (_ & _ & _ & Hu).
  - vm_compute. discriminate.
  - intros k v. simpl. rewrite lookup_insert_Some, lookup_singleton_Some.
    intros [[_ <-]|[_ [_ <-]]]; [|exact I]. vm_compute. split; [discriminate|reflexivity].
  - reflexivity.
  - vm_compute. split; [discriminate|reflexivity].
  - exact Hu.
Defined.
Lemma session_logout_witness :
  let '(_, _, _, s') := Save (kv := kv_map) "session" "k1" Done 0
    (mk_session "k1" (s_Values demo_session) false (-1)) ∅ in
  s_Values (New_session "session" (Some "k1") Done 5 s') = ∅.
Proof.
  apply (session_logout "session" "k1" "k1" "k1" Done
    (mk_session "k1" (s_Values demo_session) false (-1)) (∅ : kv_map) 0 5); try done.
Defined.
Lemma valkey_limit_counts_witness :
  counts (kv := kv_map) "ratelimit:/auth:10.0.0.1" 60 [1; 50; 100] ∅ = [Some 1; Some 2; Some 3].
Proof.
  rewrite (valkey_limit_counts "ratelimit:/auth:10.0.0.1" 60 [1; 50; 100] ∅ 0); [reflexivity|lia|simpl; lia| |done].
  intros [|[|[|i]]] t t'; simpl; intros; simplify_eq; lia.
Defined.

(** Without Valkey the route's own limit is not enforced: the limit of 300 a
    minute of the whole server and the limit of 10 per 15 minutes of the admin
    routes count in the same window, whose length the first of them sets.  A
    request every 46 seconds passes 19 times within 15 minutes. *)
Definition admin_request (now : Z) (st : limits kv_map) : bool * limits kv_map :=
  let '(r, st) := RateLimit None "" 300 Minute now "10.0.0.1" st in
  match r with
  | Some _ => (false, st)
  | None =>
      let '(r, st) := RateLimit None "/admin/sync" 10 (15 * Minute) now "10.0.0.1" st in
      (bool_decide (r = None), st)
  end.
Fixpoint admin_requests (n : nat) (now : Z) (st : limits kv_map) : nat :=
  match n with
  | O => 0
  | S n => let '(b, st) := admin_request now st in ((if b then 1 else 0) + admin_requests n (now + 46 * Second) st)%nat
  end.
Example admin_limit_not_enforced :
  admin_requests 19 0 (mk_limits ∅ ∅ ∅) = 19%nat ∧ 18 * (46 * Second) < 15 * Minute.
Proof. vm_compute. done. Qed.
