(* ===== verification/Handlers.v ===== *)
(** * The user handlers ([internal/api/handlers.go])

    Login and its callback, profile, preferences, manual synchronisation,
    calendar validation, logout and account deletion, each as a computation
    over the world of [Effects] that ends with the reply.  Google's OAuth
    endpoints, hCaptcha, the random source and the task queue are the record
    [Net]; sessions come through the interface [SessionStore], which the
    Valkey store of [Middleware] implements. *)

From stdpp Require Import base gmap strings list sets.
From Stdlib Require Import ZArith Lia Ascii.
From S2P Require Import Prelude GoStrings Models Database GoTime Auth EventID Sha256 Effects Syncer.
From S2P Require Import Middleware Extractor.
Local Open Scope go_scope.

(** ** The services behind the handlers *)

(** The fields of [oauth2.Token] that are used; [tk_scope] is
    [token.Extra("scope")], empty when it is not a string. *)
Record oauth_token := mk_token { tk_RefreshToken : string; tk_scope : string }.
(** Google's [tokeninfo]: the request cannot be built, is not answered, or is
    answered with a status and a body, whose scope is [None] if undecodable. *)
Inductive tokeninfo := TiBuild | TiTransport (e : error) | TiAnswer (code : Z) (scope : option string).

(** The [nat] is the tick of the call, as in [Env]. *)
Record Net := {
  rand_read : nat → nat → error + string;
  (** [io.ReadFull] fills the buffer or fails *)
  rand_read_length : ∀ n k b, rand_read n k = inr b → String.length b = k;
  AuthCodeURL : string → string;
  Exchange : nat → string → error + oauth_token;
  (** the body of [userinfo], decoded to id and e-mail *)
  userinfo : nat → oauth_token → error + option (string * string);
  (** a refresh token exchanged for an access token *)
  TokenSource : nat → string → error + string;
  get_tokeninfo : nat → string → tokeninfo;
  (** secret and response; the body of [siteverify] decoded *)
  siteverify : nat → string → string → error + option bool;
  PublishTask : nat → Z → option error }.

(** ** Replies *)

(** The payload of the calendar validation. *)
Record validation := mk_validation { v_valid : bool; v_code : string; v_error_type : string }.
Record profile := mk_profile {
  pr_Email : string; pr_UseDedicated : bool; pr_Platforms : list string;
  pr_HasCalendarAccess : bool; pr_CSRFToken : string; pr_RefreshTokenMissing : bool;
  pr_ICalFeedURL : string }.
(** [map[string][]string] with the single key [platforms]. *)
Record platforms_payload := mk_platforms { pl_platforms : list string }.
Inductive body :=
| BError (msg : string) | BStatus (status : string) | BRaw (data : string)
| BProfile (p : profile) | BSaved (changed : bool) | BRedirect (url : string).
Record reply := mk_reply { p_status : Z; p_body : body; p_cookies : list (string * set_cookie) }.

Definition StatusOK : Z := 200.
Definition StatusSeeOther : Z := 303.
Definition StatusTemporaryRedirect : Z := 307.
Definition StatusBadRequest : Z := 400.
Definition StatusGone : Z := 410.
Definition StatusInternalServerError : Z := 500.
Definition StatusServiceUnavailable : Z := 503.
(** [http.Error(w, msg, code)] *)
Definition http_Error (code : Z) (msg : string) : reply := mk_reply code (BError msg) [].
Definition internal_error : reply := http_Error StatusInternalServerError "internal server error".
Definition calendar_scope : string := "https://www.googleapis.com/auth/calendar".

(** [DB] and [Queue] are set by [main]; [HCAPTCHA_SECRET] and [ENV] are read
    from the environment by the handlers. *)
Record Handlers := {
  h_ReadDB : bool; h_Valkey : bool; h_EncryptionKey : string; h_Env : string;
  h_HCAPTCHA_SECRET : string; h_ENV : string }.

(** ** Sessions, as the handlers see them

    [Get], [New] and [Save] of a [sessions.Store] for the session cookie of
    the request.  All a handler may assume of a store is that it writes
    nothing but session keys and that saving leaves the values of the session
    alone. *)
Class SessionStore (kv : Type) `{!Valkey kv} := {
  store_Get : option string → World kv → (option error * session) * World kv;
  store_New : option string → World kv → session * World kv;
  store_Save : session → World kv → (option error * option set_cookie * session) * World kv;
  store_Get_steps : ∀ c allow w, wsteps allow w (store_Get c w).2;
  store_New_steps : ∀ c allow w, wsteps allow w (store_New c w).2;
  store_Save_steps : ∀ se (allow : effect → Prop) w, (∀ id, allow (FKv (sessionKey id))) →
    wsteps allow w (store_Save se w).2;
  store_Save_values : ∀ se w, s_Values (store_Save se w).1.2 = s_Values se }.

Section SessionCalls.
Context {kv : Type} `{!Valkey kv} `{!SessionStore kv} {R : Type}.
Definition ss_Get (cookie : option string) : @M kv R (option error * session) := call (store_Get cookie).
Definition ss_New (cookie : option string) : @M kv R session := call (store_New cookie).
Definition ss_Save (se : session) : @M kv R (option error * option set_cookie * session) :=
  call (store_Save se).
Lemma ss_Get_steps c allow : respects (wsteps allow) (ss_Get c).
Proof. apply respects_call. intros w. apply store_Get_steps. Qed.
Lemma ss_New_steps c allow : respects (wsteps allow) (ss_New c).
Proof. apply respects_call. intros w. apply store_New_steps. Qed.
Lemma ss_Save_steps se (allow : effect → Prop) :
  (∀ id, allow (FKv (sessionKey id))) → respects (wsteps allow) (ss_Save se).
Proof. intros Ha. apply respects_call. intros w. by apply store_Save_steps. Qed.
End SessionCalls.

Definition set_cookies (c : option set_cookie) : list (string * set_cookie) :=
  match c with Some c => [("session", c)] | None => [] end.

Section ValkeyStore.
Context {kv : Type} `{!Valkey kv} `{!Cookies} `{!Codec (gmap string json_value)}.
Context (E : Env) (N : Net).

Definition valkey_New (cookie : option string) (w : World kv) : session * World kv :=
  let n := tick w in
  (New_session "session" cookie (fate_kv E n) (clock E n) (store w), bump w).
(** The registry calls [New] once per request and never fails for this store. *)
Definition valkey_Get (cookie : option string) (w : World kv) : (option error * session) * World kv :=
  let '(se, w') := valkey_New cookie w in ((None, se), w').
(** [hex.EncodeToString(securecookie.GenerateRandomKey(32))]: a failing random
    source gives a nil key. *)
Definition random_key (n : nat) : string :=
  match rand_read N n 32 with inr b => hex_EncodeToString b | inl _ => "" end.
Definition valkey_Save (se : session) (w : World kv)
  : (option error * option set_cookie * session) * World kv :=
  let n := tick w in
  let '(err, c, se', s') := Save "session" (random_key n) (fate_kv E n) (clock E n) se (store w) in
  ((err, c, se'), bump (set_store s' w)).

#[export] Instance valkey_store : SessionStore kv.
Proof.
  refine {| store_Get := valkey_Get; store_New := valkey_New; store_Save := valkey_Save |}.
  - intros c allow w. by apply step_bump.
  - intros c allow w. by apply step_bump.
  - intros se allow w Ha. unfold valkey_Save, Save.
    assert (∀ s' : kv, (s' = store w ∨ (∃ now id, s' = vk_del now (sessionKey id) (store w)) ∨
                 ∃ now id v ttl, s' = vk_set now (sessionKey id) v ttl (store w)) →
      wsteps allow w (bump (set_store s' w))) as Hs.
    { intros s' [->|[(now & id & ->)|(now & id & v & ttl & ->)]]; apply step_bump.
      - by rewrite set_store_same.
      - by apply rtc_once, step_kv_del.
      - by apply rtc_once, step_kv_set. }
    repeat (case_match; simplify_eq/=); apply Hs; eauto 10.
  - intros se w. unfold valkey_Save, Save. repeat (case_match; simplify_eq/=); done.
Defined.
End ValkeyStore.

Section Api.
Context {kv : Type} `{!Valkey kv} `{!SessionStore kv} `{!AEAD} `{!Codec CachedUser} `{!Codec validation}
  `{!Codec platforms_payload}.
Context (E : Env) (N : Net) (h : Handlers).
Abbreviation Go := (@M kv).

(** A call to one of the services of [Net]. *)
Definition net {R A} (f : nat → A) : Go R A := ext (λ n w, (f n, w)).
(** [h.Queue.PublishSyncTask] *)
Definition publish_sync {R} (userID : Z) : Go R (option error) := ext (λ n w,
  let r := PublishTask N n userID in (r, log (EvPublishSync userID r) w)).

(** [generateRandomString] *)
Definition generateRandomString {R} (n : nat) : Go R (error + string) :=
  r <- net (λ t, rand_read N t n) ;;
  ret (match r with inl e => inl e | inr b => inr (hex_EncodeToString b) end).

(** [SELECT refresh_token FROM users WHERE id = $1], scanned into a string and
    tested for the empty one: [None] on every failure. *)
Definition stored_token {R} (userID : Z) : Go R (option string) :=
  r <- sql_query E (h_ReadDB h) (λ _ d, refresh_token <$> select_user userID d) ;;
  ret (match r with
       | inr (Some (Some tok)) => if decide (tok = "") then None else Some tok
       | _ => None
       end).

(** ** [ManualSync] *)

(** The time of the last synchronisation, from the cache or the database. *)
Definition last_sync (userID : Z) : Go reply (option Z) :=
  cached <- (if h_Valkey h then
               r <- kv_get E (lastSyncKey userID) ;;
               ret (match r with
                    | inr v => if decide (v = "") then None else Parse layout_RFC3339 v
                    | inl _ => None
                    end)
             else ret None) ;;
  match cached with
  | Some t => ret (Some t)
  | None =>
      r <- sql_query E (h_ReadDB h) (λ _ d, last_sync_at <$> select_user userID d) ;;
      match r with
      | inl _ | inr None => leave internal_error
      | inr (Some last) =>
          (match last with
           | Some t =>
               if h_Valkey h
               then _ <- kv_set E (lastSyncKey userID) (FormatRFC3339 t) Hour ;; ret tt
               else ret tt
           | None => ret tt
           end) ;;;
          ret last
      end
  end.

(** A cached validation that says the access is gone. *)
Definition known_invalid {R} (userID : Z) : Go R bool :=
  if h_Valkey h then
    r <- kv_get E (CalendarValidationCacheKey userID) ;;
    ret (match r with
         | inr v => if decide (v = "") then false
                    else match unmarshal v with Some va => negb (v_valid va) | None => false end
         | inl _ => false
         end)
  else ret false.

(** The answer to the question whether the token has calendar access, as
    [ManualSync] asks it: the reply that refuses, or [None]. *)
Definition manual_refusal (ti : tokeninfo) : option reply :=
  match ti with
  | TiBuild => Some (http_Error StatusInternalServerError "failed to create validation request")
  | TiTransport _ => Some (http_Error StatusServiceUnavailable "unable to verify calendar permissions, please try again")
  | TiAnswer code scope =>
      if negb (code =? StatusOK)%Z then
        if (code =? StatusTooManyRequests)%Z || (500 <=? code)%Z
        then Some (http_Error StatusServiceUnavailable "calendar validation service temporarily unavailable, please try again")
        else Some (http_Error StatusForbidden "google calendar permission validation failed")
      else match scope with
      | None => Some (http_Error StatusServiceUnavailable "unable to parse validation response, please try again")
      | Some scope =>
          if Contains scope calendar_scope then None
          else Some (http_Error StatusForbidden "google calendar permission scope missing")
      end
  end.

Definition ManualSync (userID : Z) : World kv → reply * World kv := run (
  lastSyncAt <- last_sync userID ;;
  limited <- (match lastSyncAt with
              | Some t => now <- time_now E ;; ret (now - t <? Minute)%Z
              | None => ret false
              end) ;;
  if limited : bool then leave (mk_reply StatusOK (BStatus "rate_limited") []) else
  stored <- stored_token userID ;;
  match stored with
  | None => leave (http_Error StatusForbidden "calendar access permission missing")
  | Some encrypted =>
      match DecryptToken encrypted (h_EncryptionKey h) with
      | inl _ | inr "" => leave (http_Error StatusForbidden "invalid refresh token")
      | inr refreshToken =>
          invalid <- known_invalid userID ;;
          if invalid : bool then leave (http_Error StatusForbidden "calendar access permission missing") else
          tok <- net (λ n, TokenSource N n refreshToken) ;;
          match tok with
          | inl _ => leave (http_Error StatusForbidden "google calendar permission revoked")
          | inr access =>
              ti <- net (λ n, get_tokeninfo N n access) ;;
              match manual_refusal ti with
              | Some r => leave r
              | None =>
                  err <- publish_sync userID ;;
                  match err with
                  | Some _ => leave (http_Error StatusInternalServerError "sync failed to queue")
                  | None => ret (mk_reply StatusOK (BStatus "sync queued") [])
                  end
              end
          end
      end
  end).

(** ** [ValidateCalendarAccess] *)

Definition writeJSONAndCache (cacheKey : string) (payload : validation) (ttl : Z) : Go reply reply :=
  match marshal payload with
  | None => leave internal_error
  | Some data =>
      (if h_Valkey h && negb (bool_decide (cacheKey = ""))
       then _ <- kv_set E cacheKey data ttl ;; ret tt else ret tt) ;;;
      ret (mk_reply StatusOK (BRaw data) [])
  end.

(** The payload and its lifetime for what [tokeninfo] answered. *)
Definition judge (ti : tokeninfo) : validation * Z :=
  match ti with
  | TiBuild => (mk_validation false "operational_failure" "request_creation_failed", Minute)
  | TiTransport _ => (mk_validation false "operational_failure" "tokeninfo_network_error", Minute)
  | TiAnswer code scope =>
      if negb (code =? StatusOK)%Z then (mk_validation false "credential_failure" "token_invalid", 15 * Minute)%Z
      else
        let found := match scope with Some scope => Contains scope calendar_scope | None => false end in
        if found then (mk_validation true "success" "", 15 * Minute)%Z
        else (mk_validation false "credential_failure" "missing_calendar_scope", 15 * Minute)%Z
  end.

Definition ValidateCalendarAccess (user : option Z) : World kv → reply * World kv := run (
  match user with
  | None => leave (http_Error StatusUnauthorized "unauthorized")
  | Some userID =>
      let cacheKey := CalendarValidationCacheKey userID in
      cached <- (if h_Valkey h then
                   r <- kv_get E cacheKey ;;
                   ret (match r with inr v => if decide (v = "") then None else Some v | inl _ => None end)
                 else ret None) ;;
      match cached with
      | Some v => leave (mk_reply StatusOK (BRaw v) [])
      | None =>
          stored <- stored_token userID ;;
          match stored with
          | None => writeJSONAndCache cacheKey
              (mk_validation false "credential_failure" "missing_refresh_token") (5 * Minute)
          | Some encrypted =>
              match DecryptToken encrypted (h_EncryptionKey h) with
              | inl _ | inr "" => writeJSONAndCache cacheKey
                  (mk_validation false "credential_failure" "invalid_refresh_token") (5 * Minute)
              | inr refreshToken =>
                  tok <- net (λ n, TokenSource N n refreshToken) ;;
                  match tok with
                  | inl _ => writeJSONAndCache cacheKey
                      (mk_validation false "credential_failure" "invalid_grant") (15 * Minute)
                  | inr access =>
                      ti <- net (λ n, get_tokeninfo N n access) ;;
                      writeJSONAndCache cacheKey (judge ti).1 (judge ti).2
                  end
              end
          end
      end
  end).
(** ** [Logout] *)

Definition Logout (cookie : option string) : World kv → reply * World kv := run (
  g <- ss_Get cookie ;;
  c <- (match g.1 with
        | None => r <- ss_Save (ended g.2) ;; ret (set_cookies r.1.2)
        | Some _ => ret []
        end) ;;
  ret (mk_reply StatusOK (BStatus "logged out") c)).

(** ** [GoogleLogin] and [GoogleCallback] *)

Definition GoogleLogin : World kv → reply * World kv := run (
  state <- generateRandomString 32 ;;
  match state with
  | inl _ => leave internal_error
  | inr state =>
      r <- sql_exec E (InsertState state) ;;
      match r with
      | inl _ => leave internal_error
      | inr _ => ret (mk_reply StatusTemporaryRedirect (BRedirect (AuthCodeURL N state))
                        [("oauth_state", Set_ state)])
      end
  end).

(** The state is taken out of the table: it is good once, for ten minutes. *)
Definition consume_state (state : string) : Go reply unit :=
  now <- time_now E ;;
  r <- sql_exec E (ConsumeState state (now - 10 * Minute)) ;;
  match r with
  | inr (RState (Some _)) => ret tt
  | _ => leave (http_Error StatusBadRequest "invalid state or expired")
  end.

(** The account of the Google user, and the token that came with the code. *)
Definition fetch_account (code : string) : Go reply (oauth_token * string * string) :=
  token <- net (λ n, Exchange N n code) ;;
  match token with
  | inl _ => leave (http_Error StatusInternalServerError "authentication failed")
  | inr token =>
      info <- net (λ n, userinfo N n token) ;;
      match info with
      | inl _ => leave (http_Error StatusInternalServerError "failed to fetch user info")
      | inr None => leave internal_error
      | inr (Some (id, mail)) => ret (token, id, mail)
      end
  end.

(** The refresh token as it is stored; a failed encryption is only logged. *)
Definition encrypt_refresh {R} (token : oauth_token) : Go R string :=
  if decide (tk_RefreshToken token = "") then ret ""
  else
    nonce <- net (λ n, rand_read N n 12) ;;
    ret (match EncryptToken nonce (tk_RefreshToken token) (h_EncryptionKey h) with
         | inr c => c
         | inl _ => ""
         end).

(** The old session is ended and a new one, with a new identifier, is saved. *)
Definition start_session (cookie : option string) (userID : Z) : Go reply (list (string * set_cookie)) :=
  g <- ss_Get cookie ;;
  old <- (match g.1 with None => ret g.2 | Some _ => ss_New cookie end) ;;
  r1 <- ss_Save (ended old) ;;
  let c1 := set_cookies r1.1.2 in
  fresh <- ss_New cookie ;;
  csrf <- generateRandomString 32 ;;
  let csrfToken := match csrf with inr t => t | inl _ => "" end in
  let se := mk_session ""
    (<["csrf_token" := VString csrfToken]> (<["user_id" := VInt userID]> (s_Values fresh)))
    (s_IsNew fresh) (s_MaxAge fresh) in
  r2 <- ss_Save se ;;
  match r2.1.1 with
  | Some _ => leave (mk_reply StatusInternalServerError (BError "internal server error") c1)
  | None => ret (c1 ++ set_cookies r2.1.2)
  end.

(** [state] and [code] are query parameters, [oauth_cookie] and [cookie] the
    cookies of the login and of the session. *)
Definition GoogleCallback (state code : string) (oauth_cookie cookie : option string)
  : World kv → reply * World kv := run (
  match oauth_cookie with
  | None => leave (http_Error StatusBadRequest "missing state cookie")
  | Some v =>
      if decide (v ≠ state) then leave (http_Error StatusBadRequest "invalid state") else
      consume_state state ;;;
      acc <- fetch_account code ;;
      let '(token, gid, mail) := acc in
      encrypted <- encrypt_refresh token ;;
      r <- sql_exec E (UpsertUser gid mail encrypted (Contains (tk_scope token) calendar_scope)) ;;
      match r with
      | inr (RUser userID ps) =>
          (if h_Valkey h
           then _ <- kv_write E (λ now s, vk_del now (CalendarValidationCacheKey userID)
                                            (vk_del now (UserCacheKey userID) s)) ;; ret tt
           else ret tt) ;;;
          cookies <- start_session cookie userID ;;
          (match ps with
           | Some (_ :: _) => _ <- publish_sync userID ;; ret tt
           | _ => ret tt
           end) ;;;
          ret (mk_reply StatusSeeOther (BRedirect "/preferences") cookies)
      | _ => leave internal_error
      end
  end).

(** ** [Me] *)

(** The feed's secret: [hex(sha256("%dical_feed_secret"))]. *)
Definition feed_token (id : Z) : string :=
  hex_EncodeToString (Sha256.Sum256 (Itoa id +:+ "ical_feed_secret")).

(** A row as [Me] scans it: every column it needs, a NULL token as empty. *)
Definition scan_profile (id : Z) (u : user_row) : CachedUser := {|
  cu_ID := id; cu_GoogleID := google_id u; cu_Email := email u;
  cu_RefreshToken := default "" (refresh_token u);
  cu_CalendarID := default "" (calendar_id u); cu_UseDedicated := use_dedicated u;
  cu_Platforms := default [] (platforms u); cu_HasCalendarAccess := has_calendar_access u |}.

Definition load_profile (userID : Z) : Go reply CachedUser :=
  cached <- (if h_Valkey h then cache_get E (UserCacheKey userID) else ret None) ;;
  match cached with
  | Some u => ret u
  | None =>
      r <- sql_query E (h_ReadDB h) (λ _ d, select_user userID d) ;;
      match r with
      | inl _ | inr None => leave (http_Error StatusNotFound "user not found")
      | inr (Some row) =>
          let u := scan_profile userID row in
          (if h_Valkey h then cache_put E (UserCacheKey userID) u UserCacheTTL else ret tt) ;;;
          ret u
      end
  end.

Definition profile_of (u : CachedUser) (csrf : string) : profile := {|
  pr_Email := cu_Email u; pr_UseDedicated := cu_UseDedicated u; pr_Platforms := cu_Platforms u;
  pr_HasCalendarAccess := cu_HasCalendarAccess u; pr_CSRFToken := csrf;
  pr_RefreshTokenMissing := bool_decide (cu_RefreshToken u = "") || negb (cu_HasCalendarAccess u);
  pr_ICalFeedURL := "/feed/ical?token=" +:+ feed_token (cu_ID u) |}.

Definition Me (user : option Z) (cookie : option string) : World kv → reply * World kv := run (
  match user with
  | None => leave (http_Error StatusUnauthorized "unauthorized")
  | Some userID =>
      u <- load_profile userID ;;
      g <- ss_Get cookie ;;
      let csrf := match g.1, s_Values g.2 !! "csrf_token" with
                  | None, Some (VString t) => t
                  | _, _ => ""
                  end in
      ret (mk_reply StatusOK (BProfile (profile_of u csrf)) [])
  end).

(** ** [GetPlatforms] *)

Definition GetPlatforms : World kv → reply * World kv := run (
  cached <- (if h_Valkey h then
               r <- kv_get E PlatformsCacheKey ;;
               ret (match r with inr v => Some v | inl _ => None end)
             else ret None) ;;
  match cached with
  | Some v => leave (mk_reply StatusOK (BRaw v) [])
  | None =>
      match marshal (mk_platforms Platforms) with
      | None => leave internal_error
      | Some data =>
          (if h_Valkey h then _ <- kv_set E PlatformsCacheKey data PlatformsCacheTTL ;; ret tt
           else ret tt) ;;;
          ret (mk_reply StatusOK (BRaw data) [])
      end
  end).

(** ** [SavePreferences] *)

(** The request; the platforms are [None] when the JSON has none, a nil slice. *)
Record preferences := mk_prefs {
  rq_Platforms : option (list string); rq_UseDedicated : bool; rq_CaptchaResponse : string }.

Definition is_dev (env : string) : bool := bool_decide (env ∈ ["development"; "dev"; "local"; ""]).

Definition verifyHCaptcha {R} (response : string) : Go R (error + bool) :=
  if decide (h_HCAPTCHA_SECRET h = "") then
    ret (if is_dev (h_ENV h) then inr true else inl (errorf "hcaptcha secret is missing"))
  else
    r <- net (λ n, siteverify N n (h_HCAPTCHA_SECRET h) response) ;;
    ret (match r with
         | inl e => inl e
         | inr None => inl (errorf "invalid character")
         | inr (Some b) => inr b
         end).

(** The two tests that a captcha is configured and solved. *)
Definition check_captcha (response : string) : Go reply unit :=
  let secret := h_HCAPTCHA_SECRET h in
  let isDev := is_dev (h_Env h) in
  if bool_decide (secret = "") && negb isDev
  then leave (http_Error StatusInternalServerError "captcha configuration error")
  else if negb (bool_decide (secret = "")) || negb isDev then
    if decide (response = "")
    then leave (http_Error StatusBadRequest "captcha verification required")
    else
      v <- verifyHCaptcha response ;;
      match v with
      | inr true => ret tt
      | _ => leave (http_Error StatusForbidden "captcha verification failed")
      end
  else ret tt.

(** [counts[p] += d] for every element. *)
Definition tally (d : Z) (ps : list string) (counts : gmap string Z) : gmap string Z :=
  foldl (λ m p, <[p := (default 0 (m !! p) + d)%Z]> m) counts ps.
Definition changed (current : list string) (currentDedicated : bool) (requested : list string)
  (dedicated : bool) : bool :=
  if negb (length requested =? length current)%nat || negb (Bool.eqb dedicated currentDedicated) then true
  else
    let counts := tally (-1) requested (tally 1 current ∅) in
    negb (forallb (λ kv, (kv.2 =? 0)%Z) (map_to_list counts)).

(** The current preferences, from the cache or the database. *)
Definition current_prefs (userID : Z) : Go reply (list string * bool) :=
  cached <- (if h_Valkey h then cache_get E (UserCacheKey userID) else ret None) ;;
  match cached with
  | Some u => ret (cu_Platforms u, cu_UseDedicated u)
  | None =>
      r <- sql_query E (h_ReadDB h) (λ _ d, select_user userID d) ;;
      match r with
      | inl _ | inr None => leave internal_error
      | inr (Some row) =>
          match scan_cached_user userID row with
          | inl _ => leave internal_error
          | inr u =>
              (if h_Valkey h then cache_put E (UserCacheKey userID) u UserCacheTTL else ret tt) ;;;
              ret (cu_Platforms u, cu_UseDedicated u)
          end
      end
  end.

(** [req] is the decoded body, [None] when it does not decode. *)
Definition SavePreferences (userID : Z) (req : option preferences) : World kv → reply * World kv := run (
  match req with
  | None => leave (http_Error StatusBadRequest "invalid request")
  | Some req =>
      check_captcha (rq_CaptchaResponse req) ;;;
      let ps := default [] (rq_Platforms req) in
      if negb (forallb (λ p, bool_decide (p ∈ Platforms)) ps)
      then leave (http_Error StatusBadRequest "invalid platform")
      else
        cur <- current_prefs userID ;;
        let ch := changed cur.1 cur.2 ps (rq_UseDedicated req) in
        (if ch then
           r <- sql_exec E (UpdatePreferences (rq_Platforms req) (rq_UseDedicated req) userID) ;;
           match r with
           | inl _ => leave internal_error
           | inr _ =>
               if h_Valkey h then _ <- kv_del E (UserCacheKey userID) ;; ret tt else ret tt
           end
         else ret tt) ;;;
        ret (mk_reply StatusOK (BSaved ch) [])
  end).

(** ** [DeleteAccount] *)

(** What the background goroutine is started with. *)
Record cleanup := mk_cleanup {
  j_calendarID : string; j_eventIDs : list string; j_refreshToken : string;
  j_deleteGoogleData : bool }.

Definition StatusBadToken (e : error) : bool := is_code StatusBadRequest e || is_code StatusUnauthorized e.

(** At most three attempts; [attempts] counts those left. *)
Fixpoint delete_calendar {R} (attempts : nat) (cal : string) : Go R unit :=
  match attempts with
  | O => ret tt
  | S n =>
      r <- google_do E (CalendarsDelete cal) ;;
      match r with
      | inr _ => ret tt
      | inl e =>
          if is_code StatusNotFound e || StatusBadToken e then ret tt
          else if (n =? 0)%nat then ret tt else (sleep ;;; delete_calendar n cal)
      end
  end.
(** The result says whether the token was refused. *)
Fixpoint delete_primary {R} (attempts : nat) (id : string) : Go R bool :=
  match attempts with
  | O => ret false
  | S n =>
      r <- google_do E (EventsDelete "primary" id) ;;
      match r with
      | inr _ => ret false
      | inl e =>
          if is_code StatusNotFound e || is_code StatusGone e then ret false
          else if StatusBadToken e then ret true
          else if (n =? 0)%nat then ret false else (sleep ;;; delete_primary n id)
      end
  end.
(** The events are deleted by goroutines that the loop starts one after the
    other.  Their bodies run here in the order of their start; what the
    scheduling decides is [seen i], whether the loop sees a refused token when
    it is about to start the [i]-th, and [late i], whether the deadline
    ([past_deadline] below) passes before that one gets its turn. *)
Fixpoint delete_events {R} (seen late : nat → bool) (i : nat) (badToken : bool) (ids : list string)
  : Go R unit :=
  match ids with
  | [] => ret tt
  | id :: ids =>
      if badToken && seen i then ret tt
      else
        b <- (if late i then ret false else delete_primary 3 id) ;;
        sleep ;;; delete_events seen late (S i) (badToken || b) ids
  end.

(** The deadline of the context: a tenth of a second per event, at least ten
    and at most twenty seconds after the start. *)
Definition cleanup_timeout (eventIDs : list string) : Z :=
  let timeout := (Z.of_nat (length eventIDs) * (Second / 10))%Z in
  let timeout := if (timeout <? 10 * Second)%Z then (10 * Second)%Z else timeout in
  if (20 * Second <? timeout)%Z then (20 * Second)%Z else timeout.
(** [late] for a clean-up that starts at [start] and whose [i]-th goroutine
    gets its turn at [turn i]. *)
Definition past_deadline (j : cleanup) (start : Z) (turn : nat → Z) (i : nat) : bool :=
  (start + cleanup_timeout (j_eventIDs j) <=? turn i)%Z.

Definition background_cleanup (seen late : nat → bool) (j : cleanup) : Go unit unit :=
  (if j_deleteGoogleData j then
     srv <- new_calendar_service E ;;
     match srv with
     | Some _ => ret tt
     | None =>
         if bool_decide (j_calendarID j ≠ "" ∧ j_calendarID j ≠ "primary")
         then delete_calendar 3 (j_calendarID j)
         else delete_events seen late 0 false (take 200 (j_eventIDs j))
     end
   else ret tt) ;;;
  ext (λ n w, (tt, log (EvRevoke (j_refreshToken j)) w)).

(** The row as it is scanned: [COALESCE(calendar_id, '')] and a refresh token
    that must not be NULL.  The outer option is [pgx.ErrNoRows]. *)
Definition scan_deletion (u : user_row) : error + (string * string) :=
  match refresh_token u with
  | None => inl (errorf "cannot scan NULL into *string")
  | Some tok => inr (default "" (calendar_id u), tok)
  end.
(** [SELECT google_event_id FROM synced_events WHERE user_id = $1] *)
Definition select_event_ids (uid : Z) (d : DB) : list string :=
  omap (λ kv, if decide (kv.1.1 = uid) then Some (google_event_id kv.2) else None)
    (map_to_list (synced_events d)).

(** The goroutine to start, if any. *)
Definition plan_cleanup (row : error + (string * string)) (eventIDs : list string) (deleteGoogleData : bool)
  : option cleanup :=
  match row with
  | inr (cal, tok) =>
      if decide (tok = "") then None
      else match DecryptToken tok (h_EncryptionKey h) with
      | inl _ | inr "" => None
      | inr refreshToken => Some (mk_cleanup cal eventIDs refreshToken deleteGoogleData)
      end
  | inl _ => None
  end.

(** The reply and the goroutine that was started before the row is deleted. *)
Definition DeleteAccount (userID : Z) (deleteGoogleData : bool) (cookie : option string)
  : World kv → (reply * option cleanup) * World kv := run (
  r <- sql_query E false (λ _ d, scan_deletion <$> select_user userID d) ;;
  let row := match r with inl e => inl e | inr (Some x) => x | inr None => inl (errorf "no rows in result set") end in
  ids <- (match row with
          | inr _ =>
              if deleteGoogleData then
                q <- sql_rows E false (λ _ d, select_event_ids userID d) ;;
                ret (match q with inr l => l | inl _ => [] end)
              else ret []
          | inl _ => ret []
          end) ;;
  match r with
  | inr None => leave (mk_reply StatusOK (BStatus "deleted") [], None)
  | _ =>
      let job := plan_cleanup row ids deleteGoogleData in
      d <- sql_exec E (DeleteUser userID) ;;
      match d with
      | inl _ => leave (internal_error, job)
      | inr _ =>
          (if h_Valkey h then _ <- kv_del E (UserCacheKey userID) ;; ret tt else ret tt) ;;;
          g <- ss_Get cookie ;;
          s <- ss_Save (ended g.2) ;;
          ret (mk_reply StatusOK (BStatus "deleted") (set_cookies s.1.2), job)
      end
  end).
End Api.
