(* ===== verification/Feed.v ===== *)
(** * The calendar feed ([ServeICalFeed] of [internal/api/handlers.go])

    The public iCalendar feed: who it is for, which contests it lists and the
    text it is made of. *)

From stdpp Require Import base gmap strings list sets sorting.
From Stdlib Require Import ZArith Lia Ascii.
From S2P Require Import Extractor.
From S2P Require Import Prelude GoStrings Models Database GoTime Sha256 Effects Syncer.
From S2P Require Import Middleware Handlers.
Local Open Scope go_scope.

Definition cr : ascii := ascii_of_nat 13.
Definition lf : ascii := ascii_of_nat 10.
Definition backslash : ascii := ascii_of_nat 92.
Definition crlf : string := String cr (String lf "").

(** [escapeICalText] *)
Definition escapeICalText (text : string) : string :=
  let text := ReplaceAll text backslash (String backslash (String backslash "")) in
  let text := ReplaceAll text ";" (String backslash ";") in
  let text := ReplaceAll text "," (String backslash ",") in
  let text := ReplaceAll text lf (String backslash "n") in
  let text := ReplaceAll text cr "" in
  text.

(** ** [fmt.Sscanf(s, "%d", &n)] *)

(** The decimal digits at the start. *)
Fixpoint leading_digits (s : string) : string :=
  match s with
  | String c s => if decide (digit c = None) then "" else String c (leading_digits s)
  | "" => ""
  end.
(** Leading white space is skipped, a newline in it is an error, what follows
    the number is ignored. *)
Definition Sscanf_d (s : string) : option Z :=
  let s := trim_left (filter (λ p, p ≠ String lf "") space_encodings) s in
  let '(neg, s) := match s with
                   | String "-" s => (true, s)
                   | String "+" s => (false, s)
                   | s => (false, s)
                   end in
  let '(v, ok) := Atoi (if neg : bool then String "-" (leading_digits s) else leading_digits s) in
  if ok then Some v else None.

Example sscanf_1 : Sscanf_d " +17abc" = Some 17%Z.
Proof. vm_compute. reflexivity. Qed.
Example sscanf_2 : Sscanf_d "-" = None ∧ Sscanf_d (String lf "4") = None ∧ Sscanf_d "-4" = Some (-4)%Z.
Proof. vm_compute. done. Qed.

(** ** The query *)

Definition by_start (a b : Contest) : Prop := (ct_StartTime a ≤ ct_StartTime b)%Z.
#[export] Instance by_start_dec : RelDecision by_start.
Proof. unfold by_start. intros a b. apply _. Defined.
#[export] Instance by_start_total : Total by_start.
Proof. intros a b. unfold by_start. lia. Qed.
#[export] Instance by_start_trans : Transitive by_start.
Proof. intros a b c. unfold by_start. lia. Qed.

Definition Day : Z := 24 * Hour.
(** The contests in the window from seven days ago to sixty days from now. *)
Definition in_window (now : Z) (ps : list string) (c : contest_row) : Prop :=
  c_platform c ∈ ps ∧ (now - 7 * Day < c_start c)%Z ∧ (c_start c < now + 60 * Day)%Z.
#[export] Instance in_window_dec now ps c : Decision (in_window now ps c).
Proof. unfold in_window. apply _. Defined.
(** [... ORDER BY start_time ASC LIMIT 500] *)
Definition select_feed (now : Z) (ps : list string) (d : DB) : list Contest :=
  take 500 (merge_sort by_start
    (omap (λ kv, if decide (in_window now ps kv.2) then Some (scan_contest kv.1 kv.2) else None)
       (map_to_list (contests d)))).
(** [SELECT id, platforms FROM users] *)
Definition select_feed_users (d : DB) : list (Z * list string) :=
  (λ kv, (kv.1, default [] (platforms kv.2))) <$> map_to_list (users d).

(** ** The text *)

Definition line (l : string) : string := l +:+ crlf.
Definition feed_header : string :=
  line "BEGIN:VCALENDAR" +:+ line "VERSION:2.0"
  +:+ line "PRODID:-//ContestSync//Competitive Programming Calendar Feed//EN"
  +:+ line "CALSCALE:GREGORIAN" +:+ line "METHOD:PUBLISH" +:+ line "X-WR-CALNAME:ContestSync Contests".
Definition feed_event (host nowStamp : string) (c : Contest) : string :=
  let hostDomain := if decide (host = "") then "contestsync.0xarchit.is-a.dev" else host in
  line "BEGIN:VEVENT"
  +:+ line ("UID:" +:+ ct_ID c +:+ "@" +:+ hostDomain)
  +:+ line ("DTSTAMP:" +:+ nowStamp)
  +:+ line ("SUMMARY:" +:+ escapeICalText ("[" +:+ ToUpper (ct_Platform c) +:+ "] " +:+ ct_Name c))
  +:+ line ("DESCRIPTION:" +:+ escapeICalText ("Platform: " +:+ ct_Platform c +:+ nl +:+ "URL: " +:+ ct_URL c
              +:+ nl +:+ nl +:+ "Synced by ContestSync"))
  +:+ line ("URL:" +:+ ct_URL c)
  +:+ line ("LOCATION:" +:+ escapeICalText (ct_URL c))
  +:+ line ("DTSTART:" +:+ FormatICal (ct_StartTime c))
  +:+ line ("DTEND:" +:+ FormatICal (ct_EndTime c))
  +:+ line "BEGIN:VALARM" +:+ line "TRIGGER:-PT30M" +:+ line "ACTION:DISPLAY"
  +:+ line "DESCRIPTION:Reminder" +:+ line "END:VALARM" +:+ line "END:VEVENT".
Definition feed_text (host nowStamp : string) (cs : list Contest) : string :=
  feed_header +:+ foldr (λ c s, feed_event host nowStamp c +:+ s) (line "END:VCALENDAR") cs.

(** ** The handler *)

Section Feed.
Context {kv : Type} `{!Valkey kv}.
Context (E : Env) (h : Handlers).
Abbreviation Go := (@M kv).

(** Whether the token is the one of the user. *)
Definition token_matches (token : string) (u : Z * list string) : bool :=
  bool_decide (feed_token u.1 = token) || bool_decide (Itoa u.1 = token).

(** The platforms of the feed's owner. *)
Definition feed_platforms (token userIDStr : string) : Go reply (list string) :=
  if decide (token ≠ "") then
    r <- sql_rows E (h_ReadDB h) (λ _ d, select_feed_users d) ;;
    match r with
    | inl _ => leave (http_Error StatusInternalServerError "database error")
    | inr us =>
        match filter (λ u, token_matches token u = true) us with
        | u :: _ => ret u.2
        | [] => leave (http_Error StatusNotFound "feed not found")
        end
    end
  else if decide (userIDStr ≠ "") then
    match Sscanf_d userIDStr with
    | Some userID =>
        if (userID <=? 0)%Z then leave (http_Error StatusBadRequest "invalid request parameter") else
        r <- sql_query E (h_ReadDB h) (λ _ d,
               if (userID <? 2 ^ 31)%Z then inr (platforms <$> select_user userID d)
               else inl (errorf "unable to encode argument into int4")) ;;
        match r with
        | inl _ | inr (inl _) => leave (http_Error StatusInternalServerError "database error")
        | inr (inr None) => leave (http_Error StatusNotFound "feed not found")
        | inr (inr (Some ps)) => ret (default [] ps)
        end
    | None => leave (http_Error StatusBadRequest "invalid request parameter")
    end
  else leave (http_Error StatusBadRequest "missing feed token").

Definition ServeICalFeed (token userIDStr host : string) : World kv → reply * World kv := run (
  ps <- feed_platforms token userIDStr ;;
  let ps := match ps with [] => Platforms | _ => ps end in
  r <- sql_rows_err E (h_ReadDB h) (λ now d, select_feed now ps d) ;;
  match r with
  | inl _ => leave (http_Error StatusInternalServerError "failed to query contests")
  | inr (cs, err) =>
      now <- time_now E ;;
      match err with
      | Some _ => leave (http_Error StatusInternalServerError "error generating feed")
      | None => ret (mk_reply StatusOK (BRaw (feed_text host (FormatICal now) cs)) [])
      end
  end).
End Feed.
