(* ===== verification/Scheduler.v ===== *)
(** * The scheduler ([internal/scheduler/scheduler.go])

    The bodies of the cron jobs: pruning, the clean-up of OAuth states, the
    publication of a synchronisation for every user, page by page, and of an
    extraction for every platform.  The cron library only calls them.
    [OnEvent] is the Telegram callback. *)

From stdpp Require Import base gmap strings list sets sorting.
From Stdlib Require Import ZArith Lia Ascii.
From S2P Require Import Prelude GoStrings Models Database Effects Extractor ExtractorSpec Extraction Queue.
Local Open Scope go_scope.

Section Jobs.
Context {kv : Type} `{!Valkey kv}.
Context (E : Env).
(** [s.Queue != nil], the queue's syncer has Valkey, [s.OnEvent != nil] *)
Context (hasQueue hasValkey hasEvent : bool).
Abbreviation W := (World kv).
Abbreviation Go := (@M kv).

Definition PruneOldData : Go unit unit :=
  _ <- sql_exec E PruneEnded ;;
  del <- sql_exec E PruneUngranted ;;
  (match del with
   | inr (RCount n) =>
       if (0 <? n)%Z && hasEvent then
         telegram "CRON_PRUNE_UNGRANTED_USERS"
           ("Pruned " +:+ Itoa n +:+ " ungranted user(s) older than 24 hours.")
       else ret tt
   | _ => ret tt
   end) ;;;
  if hasQueue then
    foreach (λ _ p, _ <- InvalidateContestsCache E hasValkey p ;; ret tt) Platforms tt
  else ret tt.

Definition CleanupOAuthStates : Go unit unit :=
  _ <- sql_exec E CleanupStates ;; ret tt.

Definition pageLimit : nat := 500.

(** [s.Queue.PublishSyncTask] for the users of a page, in turn; [pub] is what
    the broker does with each.  An error is only logged: the log is what is
    returned beside the queue. *)
Fixpoint publish_page (pub : Z → publication) (page : list Z) (q : Queue) : list (Z * option error) * Queue :=
  match page with
  | [] => ([], q)
  | userID :: page =>
      let '(err, q) := PublishSyncTask None false (pub userID) userID q in
      let '(log, q) := publish_page pub page q in ((userID, err) :: log, q)
  end.
(** The loop over the pages, at most [fuel] of them, with whether it ended. *)
Fixpoint sync_pages {R} (pub : Z → publication) (fuel offset : nat) (q : Queue)
  : Go R (list (Z * option error) * Queue * bool) :=
  match fuel with
  | O => ret ([], q, false)
  | S fuel =>
      r <- sql_rows E true (λ _ d, select_syncable pageLimit offset d) ;;
      match r with
      | inl _ => ret ([], q, true)
      | inr page =>
          let '(log, q) := publish_page pub page q in
          if (length page <? pageLimit)%nat then ret (log, q, true)
          else
            tl <- sync_pages pub fuel (offset + pageLimit) q ;;
            ret (log ++ tl.1.1, tl.1.2, tl.2)
      end
  end.
Definition SyncAllUsers {R} (pub : Z → publication) (fuel : nat) (q : Queue)
  : Go R (list (Z * option error) * Queue * bool) :=
  (if hasEvent then
     telegram "CRON_SYNC_ALL_USERS" "Triggered global user synchronization sync task queuing."
   else ret tt) ;;;
  sync_pages pub fuel 0 q.
End Jobs.

(** [RunExtraction]: one task per fetcher, in the order [names] in which Go
    ranges over the map, and the event that reports them. *)
Definition extraction_details (names : list string) : string :=
  "Triggered contest extraction tasks queuing for: " +:+ String.concat ", " names.
Definition RunExtraction (hasEvent : bool) (names : list (string * publication)) (q : Queue)
  : Queue * list (string * string) :=
  (foldl (λ q p, (PublishExtractionTask None false p.2 p.1 q).2) q names,
   if hasEvent then [("CRON_CONTEST_EXTRACTION", extraction_details names.*1)] else []).

(** ** Every user once *)

Lemma syncable_ids_elem d i : i ∈ syncable_ids d ↔ ∃ u, users d !! i = Some u ∧ syncable u = true.
Proof.
  unfold syncable_ids. rewrite merge_sort_Permutation, elem_of_omap_Some. split.
  - intros ([j u] & Hin%elem_of_map_to_list & Hs). simpl in Hs. case_match; simplify_eq. eauto.
  - intros (u & Hu & Hs). exists (i, u). split; [by apply elem_of_map_to_list|]. simpl. by rewrite Hs.
Qed.
Lemma syncable_ids_NoDup d : NoDup (syncable_ids d).
Proof.
  unfold syncable_ids. rewrite merge_sort_Permutation.
  pose proof (NoDup_fst_map_to_list (users d)) as Hn. revert Hn.
  induction (map_to_list (users d)) as [|[i u] l IH]; simpl; [constructor|].
  intros [Hi Hl]%NoDup_cons. destruct (syncable u); simpl; [|auto].
  apply NoDup_cons. split; [|auto]. rewrite elem_of_omap_Some. intros ([j v] & Hin & Hs).
  simpl in Hs. case_match; simplify_eq. apply Hi, list_elem_of_fmap. by exists (i, v).
Qed.

Section Pages.
Context {kv : Type} `{!Valkey kv}.
Context (E : Env) (hasEvent : bool).
Abbreviation W := (World kv).
Context (Hdb : ∀ n, fate_db E n = Done) (Hrep : ∀ n d, replica E n d = d)
  (Hdel : ∀ n A (l : list A), deliver E n l ≡ₚ l).

Lemma publish_page_app pub l1 l2 q :
  publish_page pub (l1 ++ l2) q =
  ((publish_page pub l1 q).1 ++ (publish_page pub l2 (publish_page pub l1 q).2).1,
   (publish_page pub l2 (publish_page pub l1 q).2).2).
Proof.
  revert q. induction l1 as [|u l1 IH]; intros q; simpl; [by destruct (publish_page _ _ _)|].
  destruct (PublishSyncTask _ _ _ _ _) as [err q1]. rewrite IH. destruct (publish_page pub l1 q1). done.
Qed.
(** The pages together: one pass over all users, whatever the publications do. *)
Lemma sync_pages_rest {R} pub fuel offset q (w : W) :
  (length (syncable_ids (db w)) < offset + fuel * pageLimit)%nat → (0 < fuel)%nat →
  wp (sync_pages E pub fuel offset q : @M kv R _)
    (λ r w', db w' = db w ∧ r.2 = true ∧
       ∃ us, us ≡ₚ drop offset (syncable_ids (db w)) ∧ r.1 = publish_page pub us q) (λ _ _, False) w.
Proof.
  revert offset q w. induction fuel as [|fuel IH]; intros offset q w Hlen Hf; [lia|]. cbn [sync_pages].
  apply wp_bind, wp_rows_done; [apply Hdb|]. cbn beta iota. unfold view. rewrite Hrep.
  set (ids := syncable_ids (db w)) in *. unfold select_syncable. fold ids.
  pose proof (Hdel (tick w) Z (take pageLimit (drop offset ids))) as Hp.
  rewrite (Permutation_length Hp). rewrite length_take.
  set (page := deliver E (tick w) (take pageLimit (drop offset ids))) in *. clearbody page.
  destruct (publish_page pub page q) as [log q1] eqn:Hpub.
  destruct (Nat.ltb_spec (pageLimit `min` length (drop offset ids)) pageLimit) as [Hlast|Hmore].
  - apply wp_ret. split_and!; [done..|]. exists page. split; [|by simpl]. rewrite Hp, take_ge; [done|lia].
  - apply wp_bind. rewrite length_drop in Hmore. assert (0 < pageLimit)%nat by (unfold pageLimit; lia).
    eapply wp_mono; [apply (IH (offset + pageLimit)%nat q1 (bump w))| |done].
    + simpl. fold ids. lia.
    + destruct fuel; [|lia]. rewrite Nat.mul_1_l in Hlen. lia.
    + cbn beta. intros [[l q2] b] w' (Hw & Hb & us & Hus & Hl). simpl in *. apply wp_ret. split_and!; [done..|].
      exists (page ++ us). split.
      * rewrite Hp, Hus. fold ids. rewrite <- drop_drop, take_drop. done.
      * rewrite publish_page_app, Hpub. simpl. rewrite <- Hl. done.
Qed.
End Pages.

(** Platform caches after a prune. *)
Section Prune.
Context {kv : Type} `{!Valkey kv}.
Context (E : Env) (hasQueue hasValkey hasEvent : bool).
Abbreviation W := (World kv).

Lemma invalidate_absent {R} ps (w : W) :
  (∀ n e, fate_kv E n ≠ Lost e) → hasValkey = true →
  wp (foreach (λ _ p, _ <- InvalidateContestsCache E hasValkey p ;; ret tt) ps tt : @M kv R _)
    (λ _ w', db w' = db w ∧ ∀ p t, p ∈ ps → vk_get t (ContestsCacheKey p) (store w') = None)
    (λ _ _, False) w.
Proof.
  intros Hkv ->.
  eapply wp_mono; [apply (wp_foreach (λ pre (_ : unit) w', db w' = db w ∧
    ∀ p t, p ∈ pre → vk_get t (ContestsCacheKey p) (store w') = None) _ (λ _ _, False))| |by intros ?? []].
  - intros pre p [] w1 _ [Hd1 H1]. apply wp_bind, wp_ext.
    assert (∀ w2, db w2 = db w1 → store w2 = vk_del (clock E (tick w1)) (ContestsCacheKey p) (store w1) →
      db w2 = db w ∧ ∀ p' t, p' ∈ pre ++ [p] → vk_get t (ContestsCacheKey p') (store w2) = None) as Hgo.
    { intros w2 Hd2 Hs2. split; [congruence|]. intros p' t Hin. rewrite Hs2.
      destruct (decide (p = p')) as [->|Hne]; [apply vk_get_del_eq|].
      rewrite vk_get_del_ne by (by intros ?%(inj (String.append _))). apply H1. set_solver. }
    destruct (fate_kv E (tick w1)) as [|e|e] eqn:Hf; [by apply wp_ret, Hgo| |by apply wp_ret, Hgo].
    by destruct (Hkv (tick w1) e).
  - split; [done|]. set_solver.
  - cbn beta. tauto.
Qed.
End Prune.
