(* ===== verification/Admin.v ===== *)
(** * The admin handlers ([internal/api/admin_handlers.go])

    The password check, the two triggers of the scheduler and the health
    check with its probes of Postgres, Valkey and the broker. *)

From stdpp Require Import base gmap strings list sets.
From Stdlib Require Import ZArith Lia Ascii.
From S2P Require Import Prelude GoStrings Models Database GoFloat Effects Queue Middleware Handlers Scheduler.
Local Open Scope go_scope.

Definition requireAdmin (AdminPassword pass : string) : bool :=
  if (256 <? String.length pass)%nat then false
  else if bool_decide (AdminPassword = "") || negb (ConstantTimeCompare pass AdminPassword =? 1)%Z
  then false else true.
Definition unauthorized : reply := http_Error StatusUnauthorized "unauthorized".

(** [UpdateContests]: the reply, the queue and the events. *)
Definition UpdateContests (AdminPassword pass : string) (hasEvent : bool) (names : list (string * publication))
  (q : Queue) : reply * Queue * list (string * string) :=
  if requireAdmin AdminPassword pass then
    let '(q', evs) := RunExtraction hasEvent names q in
    (mk_reply StatusOK (BStatus "update triggered") [], q', evs)
  else (unauthorized, q, []).

(** ** The health check *)

Record componentStatus := mk_component { cs_Status : string; cs_LatencyMs : float64; cs_Error : string }.
Record healthResponse := mk_health { hr_Status : string; hr_Services : gmap string componentStatus }.
(** The code and the body of the reply: the plain answer or the report. *)
Inductive health_reply := Refused (r : reply) | Plain | Report (code : Z) (resp : healthResponse).

Section Admin.
Context {kv : Type} `{!Valkey kv}.
Context (E : Env).
Abbreviation Go := (@M kv).

(** [SyncAll]: the reply, the queue, and whether the loop of [SyncAllUsers] ended. *)
Definition SyncAll (AdminPassword pass : string) (hasEvent : bool) (pub : Z → publication) (fuel : nat) (q : Queue)
  : Go unit (reply * Queue * bool) :=
  if requireAdmin AdminPassword pass then
    r <- SyncAllUsers E hasEvent pub fuel q ;;
    ret (mk_reply StatusOK (BStatus "global sync triggered") [], r.1.2, r.2)
  else ret (unauthorized, q, true).

(** A database call that changes nothing: [Begin], [SELECT pg_sleep(0)], [Rollback]. *)
Definition sql_probe {R} : Go R (option error) := ext (λ n w,
  (match fate_db E n with Done => None | Lost e | Unacked e => Some e end, w)).
Definition wrap (msg : string) (e : error) : option error := Some (errorf (msg +:+ ": " +:+ Error e)).

(** [checkPostgres]; [SELECT 1 + 1] is 2. *)
Definition checkPostgres (hasRead : bool) : Go (option error) (option error) :=
  r <- sql_query E hasRead (λ _ _, 2%Z) ;;
  match r with
  | inl e => leave (wrap (if hasRead then "read pool check failed" else "read query failed") e)
  | inr result =>
      if negb (result =? 2)%Z
      then leave (Some (errorf (if hasRead then "read pool check failed: %!w(<nil>)" else "read query failed: %!w(<nil>)")))
      else
        b <- sql_probe ;;
        match b with
        | Some e => leave (wrap "begin write transaction failed" e)
        | None =>
            x <- sql_probe ;;
            _ <- sql_probe ;;
            ret (match x with Some e => wrap "write-path exec failed" e | None => None end)
        end
  end.

(** [%q], for values without characters that need an escape. *)
Definition quoted (v : string) : string :=
  String (ascii_of_nat 34) (v +:+ String (ascii_of_nat 34) "").
Definition probeKey (nano : Z) : string := "__health:" +:+ Itoa nano +:+ "__".
Definition checkValkey : Go (option error) (option error) :=
  now <- time_now E ;;
  let key := probeKey now in
  s <- kv_set E key "1" (10 * Second) ;;
  match s with
  | Some e => leave (wrap "write failed" e)
  | None =>
      g <- kv_get E key ;;
      match g with
      | inl e => leave (wrap "read failed" e)
      | inr val =>
          if decide (val ≠ "1")
          then leave (Some (errorf ("read returned unexpected value: " +:+ quoted val)))
          else
            _ <- kv_del E key ;;
            ret None
      end
  end.

(** [measure]: the latency in milliseconds and the error. *)
Definition measure {R} (fn : World kv → option error * World kv) : Go R (float64 * option error) :=
  start <- time_now E ;;
  err <- call fn ;;
  stop <- time_now E ;;
  ret (fdiv (float64_of_int (Z.quot (stop - start) 1000)) (float64_of_int 1000), err).

Definition component (r : float64 * option error) : componentStatus :=
  match r.2 with
  | Some e => mk_component "unhealthy" r.1 (Error e)
  | None => mk_component "healthy" r.1 ""
  end.
Definition not_configured : componentStatus := mk_component "not_configured" (float64_of_int 0) "".
Definition healthy (r : float64 * option error) : bool := match r.2 with None => true | Some _ => false end.

(** [hasRead], [hasValkey]: the pools and the client that are set; [queue] the
    queue, if there is one; [post]: the method is POST. *)
Definition HealthCheck (AdminPassword pass : string) (post hasRead hasValkey : bool) (queue : option Queue)
  : Go health_reply health_reply :=
  if post then
    if negb (requireAdmin AdminPassword pass) then leave (Refused unauthorized) else
    pg <- measure (run (checkPostgres hasRead)) ;;
    vk <- (if hasValkey then r <- measure (run checkValkey) ;; ret (component r, healthy r)
           else ret (not_configured, true)) ;;
    qu <- (match queue with
           | Some q => r <- measure (λ w, (Health q, w)) ;; ret (component r, healthy r)
           | None => ret (not_configured, true)
           end) ;;
    let services := <["queue" := qu.1]> (<["valkey" := vk.1]> {["postgres" := component pg]}) in
    if healthy pg && vk.2 && qu.2
    then ret (Report StatusOK (mk_health "ok" services))
    else ret (Report StatusServiceUnavailable (mk_health "degraded" services))
  else ret Plain.
End Admin.
