(* ===== verification/Router.v ===== *)
(** * The server's routes ([cmd/server/main.go], [internal/api/static.go])

    The middlewares of [Middleware] and the handlers of [Handlers], [Feed] and
    [Admin] put together the way [main] registers them, into one function from
    a request and the state of the server to the response.  chi, which finds
    the route, is the interface [Mux]; [net/http]'s file server and the random
    identifiers are in the record [Wiring]. *)

From stdpp Require Import base gmap strings list sets.
From Stdlib Require Import ZArith Lia Ascii.
From S2P Require Import Prelude GoStrings Models Database Auth Effects Queue Middleware Handlers Feed Scheduler Admin.
Local Open Scope Z_scope.

(** ** Registration *)

Inductive endpoint :=
| EHealthCheck | EServeICalFeed | EGoogleLogin | EGoogleCallback
| EUpdateContests | ESyncAll
| EMe | EGetPlatforms | EValidateCalendarAccess
| ESavePreferences | EManualSync | EDeleteAccount | ELogout
| EStatic.
Inductive middleware :=
| RequestIDMiddleware | SecurityHeadersMiddleware | RateLimitMiddleware (max duration : Z)
| Compress | RequestLoggerMiddleware | Recoverer | RequireAuthMiddleware | CSRF.
#[export] Instance endpoint_eq_dec : EqDecision endpoint.
Proof. solve_decision. Defined.
#[export] Instance middleware_eq_dec : EqDecision middleware.
Proof. solve_decision. Defined.

(** A method of [None] is every method; the middlewares of a group run after
    those of the groups around it. *)
Inductive registration :=
| Handle (method : option string) (pattern : string) (e : endpoint)
| Group (use : list middleware) (routes : list registration).
Record route := mk_route {
  rt_method : option string; rt_pattern : string; rt_use : list middleware; rt_endpoint : endpoint }.
#[export] Instance route_eq_dec : EqDecision route.
Proof. solve_decision. Defined.
Fixpoint register (use : list middleware) (g : registration) : list route :=
  match g with
  | Handle m p e => [mk_route m p use e]
  | Group more gs => flat_map (register (use ++ more)) gs
  end.

Definition root_use : list middleware :=
  [RequestIDMiddleware; SecurityHeadersMiddleware; RateLimitMiddleware 300 Minute; Compress;
   RequestLoggerMiddleware; Recoverer].
Definition Get (p : string) (e : endpoint) : registration := Handle (Some "GET") p e.
Definition Post (p : string) (e : endpoint) : registration := Handle (Some "POST") p e.
Definition registrations : list registration :=
  [Handle None "/health" EHealthCheck;
   Get "/feed/ical" EServeICalFeed;
   Get "/auth/google" EGoogleLogin;
   Get "/auth/google/callback" EGoogleCallback;
   Group [RateLimitMiddleware 10 (15 * Minute); CSRF]
     [Post "/admin/update" EUpdateContests; Post "/admin/sync" ESyncAll];
   Group [RequireAuthMiddleware]
     [Get "/me" EMe; Get "/platforms" EGetPlatforms;
      Group [RateLimitMiddleware 60 Minute] [Get "/auth/calendar/validate" EValidateCalendarAccess];
      Group [CSRF]
        [Post "/preferences" ESavePreferences; Post "/sync" EManualSync;
         Handle (Some "DELETE") "/account" EDeleteAccount; Post "/auth/logout" ELogout]];
   Handle None "/*" EStatic].
Definition routes : list route := flat_map (register []) registrations.

(** The methods chi knows. *)
Definition methods : list string :=
  ["CONNECT"; "DELETE"; "GET"; "HEAD"; "OPTIONS"; "PATCH"; "POST"; "PUT"; "TRACE"].
Definition takes (r : route) (m : string) : Prop := from_option (eq m) (m ∈ methods) (rt_method r).
Definition exactly (r : route) (m p : string) : Prop := takes r m ∧ rt_pattern r = p.
#[export] Instance takes_dec r m : Decision (takes r m).
Proof. unfold takes. destruct (rt_method r); simpl; apply _. Defined.
#[export] Instance exactly_dec r m p : Decision (exactly r m p).
Proof. apply _. Defined.

(** What the code relies on of chi: a route found takes the method and has
    the path as its pattern or the pattern of everything, and a route whose
    pattern is the path is found. *)
Class Mux := {
  mux_find : list route → string → string → option route;
  mux_find_sound : ∀ t m p r, mux_find t m p = Some r →
    r ∈ t ∧ takes r m ∧ (rt_pattern r = p ∨ rt_pattern r = "/*");
  mux_find_exact : ∀ t m p r, r ∈ t → exactly r m p → (∀ r', r' ∈ t → exactly r' m p → r' = r) →
    mux_find t m p = Some r }.

(** ** [StaticServer.ServeHTTP] *)

(** The path handed to the file server; [opens]: the file system opens the
    name. *)
Definition static_path (opens : string → bool) (url_path : string) : string :=
  let path := TrimPrefix url_path "/" in
  if decide (path = "") then url_path
  else if opens path then url_path
  else if negb (Contains path ".") then
    let htmlPath := path +:+ ".html" in
    if opens htmlPath then "/" +:+ htmlPath else url_path
  else url_path.

(** ** Requests, responses and the state of the server *)

(** The context values come last; [c_session] is the registry of sessions,
    which remembers what the first [Get] of a request found. *)
Record request := mk_request {
  r_Method : string; r_Path : string; r_http : http_request; r_query : string → string;
  r_Host : string; r_body : option preferences;
  c_requestID : string; c_user : option Z; c_pattern : string;
  c_session : option (option error * session) }.
Definition with_requestID (id : string) (r : request) : request :=
  mk_request (r_Method r) (r_Path r) (r_http r) (r_query r) (r_Host r) (r_body r) id (c_user r)
    (c_pattern r) (c_session r).
Definition with_user (u : Z) (r : request) : request :=
  mk_request (r_Method r) (r_Path r) (r_http r) (r_query r) (r_Host r) (r_body r) (c_requestID r) (Some u)
    (c_pattern r) (c_session r).
Definition with_pattern (p : string) (r : request) : request :=
  mk_request (r_Method r) (r_Path r) (r_http r) (r_query r) (r_Host r) (r_body r) (c_requestID r) (c_user r)
    p (c_session r).
Definition with_session (g : option error * session) (r : request) : request :=
  mk_request (r_Method r) (r_Path r) (r_http r) (r_query r) (r_Host r) (r_body r) (c_requestID r) (c_user r)
    (c_pattern r) (Some g).
Definition r_cookie (r : request) (name : string) : option string := q_cookie (r_http r) name.

(** What the handler wrote: a reply, the health report, a file of the given
    path, nothing as chi answered itself, a panic, or it is still at work. *)
Inductive outcome :=
| Replied (r : reply) | HealthReplied (r : health_reply) | Served (path : string)
| Unrouted | Panicked | Unfinished.

(** The response writer: the headers, and the cookies in the order they were set. *)
Record writer := mk_writer { w_Header : gmap string string; w_Cookies : list (string * set_cookie) }.
Definition set_header (k v : string) (wr : writer) : writer :=
  mk_writer (<[k := v]> (w_Header wr)) (w_Cookies wr).
Definition set_headers (l : list (string * string)) (wr : writer) : writer :=
  foldl (λ wr kv, set_header kv.1 kv.2 wr) wr l.
Definition add_cookies (l : list (string * set_cookie)) (wr : writer) : writer :=
  mk_writer (w_Header wr) (w_Cookies wr ++ l).

(** What [main] sets up and what is random or scheduled: the identifiers, the
    order in which Go ranges over the fetchers with the fate of each
    publication, the fate of the publications of a global synchronisation and
    the number of its pages, and the files. *)
Record Wiring := {
  s_uuid : nat → string; s_TRUST_PROXY : bool; s_AdminPassword : string; s_hasEvent : bool;
  s_extraction : nat → list (string * publication); s_sync_pub : nat → Z → publication; s_fuel : nat;
  s_opens : string → bool; s_file_headers : string → list (string * string);
  (** [http.FileServer] leaves the headers of the security middleware alone *)
  s_file_headers_ok : ∀ env p k, k ∈ (s_file_headers p).*1 →
    (k ∉ (SecurityHeaders env).*1) ∧ k ≠ "X-Request-Id" }.

Section Server.
Context {kv : Type} `{!Valkey kv} `{!SessionStore kv} `{!AEAD} `{!Codec CachedUser} `{!Codec validation}
  `{!Codec platforms_payload} `{!Mux}.
Context (E : Env) (N : Net) (h : Handlers) (S : Wiring).
Abbreviation W := (World kv).

(** The world, the limiters of the process, the queue and the clean-ups that
    were started in the background. *)
Record Server := mk_server {
  sv_world : W; sv_early : counters; sv_global : counters; sv_queue : Queue; sv_jobs : list cleanup }.
Definition with_world (w : W) (s : Server) : Server :=
  mk_server w (sv_early s) (sv_global s) (sv_queue s) (sv_jobs s).
Definition handler : Type := request → writer → Server → (writer * outcome) * Server.

(** The registry of sessions: the store's [Get] runs once per request. *)
Definition registered (g : option (option error * session)) : SessionStore kv.
Proof.
  refine {| store_Get c w := match g with Some g => (g, w) | None => store_Get c w end;
            store_New := store_New; store_Save := store_Save |}.
  - intros c allow w. destruct g; [done|]. apply store_Get_steps.
  - apply store_New_steps.
  - apply store_Save_steps.
  - apply store_Save_values.
Defined.

(** *** The endpoints *)

Definition json : list (string * string) := [("Content-Type", "application/json")].
(** The headers that [http.Error], [http.Redirect] and the handlers set. *)
Definition own_headers (e : endpoint) (o : outcome) : list (string * string) :=
  match o with
  | Replied r | HealthReplied (Refused r) =>
      match p_body r with
      | BError _ => [("Content-Type", "text/plain; charset=utf-8"); ("X-Content-Type-Options", "nosniff")]
      | BRedirect url => [("Location", url)]
      | BRaw _ =>
          if decide (e = EServeICalFeed) then
            [("Content-Type", "text/calendar; charset=utf-8");
             ("Content-Disposition", "inline; filename=" +:+ quoted "contestsync.ics");
             ("Cache-Control", "private, no-cache, no-store, must-revalidate")]
          else json
      | _ => json
      end
  | HealthReplied _ => json
  | Served path => s_file_headers S path
  | Unrouted | Panicked | Unfinished => []
  end.
Definition own_cookies (o : outcome) : list (string * set_cookie) :=
  match o with Replied r => p_cookies r | _ => [] end.

(** The Telegram events of the scheduler, on the trace. *)
Definition log_events (evs : list (string * string)) (w : W) : W :=
  foldl (λ w ev, log (EvTelegram ev.1 ev.2) w) w evs.

(** The handler functions of [main].  [.(int)] panics without a user. *)
Definition run_endpoint (e : endpoint) (r : request) (s : Server) : outcome * Server :=
  let w := sv_world s in
  let n := tick w in
  let cookie := r_cookie r "session" in
  let pass := q_header (r_http r) "X-Admin-Password" in
  let SS := registered (c_session r) in
  let lift (f : W → reply * W) := let '(p, w') := f w in (Replied p, with_world w' s) in
  let as_user (f : Z → outcome * Server) := match c_user r with Some u => f u | None => (Panicked, s) end in
  match e with
  | EHealthCheck =>
      let post := bool_decide (r_Method r = "POST") in
      let '(p, w') := run (HealthCheck E (s_AdminPassword S) pass post (h_ReadDB h) (h_Valkey h)
                             (Some (sv_queue s))) w in
      (HealthReplied p, with_world w' s)
  | EServeICalFeed => lift (ServeICalFeed E h (r_query r "token") (r_query r "user_id") (r_Host r))
  | EGoogleLogin => lift (GoogleLogin E N)
  | EGoogleCallback =>
      lift (GoogleCallback E N h (SessionStore0 := SS) (r_query r "state") (r_query r "code")
              (r_cookie r "oauth_state") cookie)
  | EUpdateContests =>
      let '(p, q', evs) :=
        UpdateContests (s_AdminPassword S) pass (s_hasEvent S) (s_extraction S n) (sv_queue s) in
      (Replied p, mk_server (bump (log_events evs w)) (sv_early s) (sv_global s) q' (sv_jobs s))
  | ESyncAll =>
      match SyncAll E (s_AdminPassword S) pass (s_hasEvent S) (s_sync_pub S n) (s_fuel S) (sv_queue s) w with
      | (inr (p, q', ended), w') =>
          (if ended then Replied p else Unfinished, mk_server w' (sv_early s) (sv_global s) q' (sv_jobs s))
      | (inl _, w') => (Unfinished, with_world w' s)
      end
  | EMe => lift (Me E h (SessionStore0 := SS) (c_user r) cookie)
  | EGetPlatforms => lift (GetPlatforms E h)
  | EValidateCalendarAccess => lift (ValidateCalendarAccess E N h (c_user r))
  | ESavePreferences => as_user (λ u, lift (SavePreferences E N h u (r_body r)))
  | EManualSync => as_user (λ u, lift (ManualSync E N h u))
  | EDeleteAccount =>
      as_user (λ u,
        let del := bool_decide (r_query r "delete_google_data" = "true") in
        let '((p, job), w') := DeleteAccount E h (SessionStore0 := SS) u del cookie w in
        (Replied p, mk_server w' (sv_early s) (sv_global s) (sv_queue s) (sv_jobs s ++ option_list job)))
  | ELogout => lift (Logout (SessionStore0 := SS) cookie)
  | EStatic => (Served (static_path (s_opens S) (r_Path r)), s)
  end.
Definition serve_endpoint (e : endpoint) : handler := λ r wr s,
  let '(o, s') := run_endpoint e r s in
  ((add_cookies (own_cookies o) (set_headers (own_headers e o) wr), o), s').

(** *** The middlewares *)

Definition refuse (a : response) (msg : string) (wr : writer) : writer * outcome :=
  let 'Answer code hs := a in
  let o := Replied (http_Error code msg) in (set_headers (own_headers EStatic o) (set_headers hs wr), o).

(** The rate limit on the counters of the process and the store. *)
Definition limit (max duration : Z) (r : request) (s : Server) : option response * Server :=
  let w := sv_world s in
  let n := tick w in
  let ip := getClientIP (s_TRUST_PROXY S) (r_http r) in
  let valkey := if h_Valkey h then Some (fate_kv E n) else None in
  let '(a, st) := RateLimit valkey (c_pattern r) max duration (clock E n) ip
                    (mk_limits (sv_early s) (sv_global s) (store w)) in
  (a, mk_server (bump (set_store (rl_store st) w)) (earlyLimiter st) (globalLimiter st) (sv_queue s) (sv_jobs s)).

(** [store.Get(r, "session")]: what was found is in the registry from then on. *)
Definition get_session (r : request) (w : W) : (option error * session) * request * W :=
  let SS := registered (c_session r) in
  let '(g, w') := store_Get (SessionStore := SS) (r_cookie r "session") w in
  (g, with_session g r, w').

Definition require_auth (next : handler) : handler := λ r wr s,
  let '(g, r, w) := get_session r (sv_world s) in
  match RequireAuth g.1 g.2 with
  | inl a =>
      match g.1 with
      | Some _ =>
          let '((_, c, _), w) := store_Save (ended g.2) w in
          (refuse a "unauthorized" (add_cookies (set_cookies c) wr), with_world w s)
      | None => (refuse a "unauthorized" wr, with_world w s)
      end
  | inr u =>
      let '((_, c, se), w) := store_Save (renewed g.2) w in
      next (with_user u (with_session (None, se) r)) (add_cookies (set_cookies c) wr) (with_world w s)
  end.

Definition csrf (next : handler) : handler := λ r wr s,
  if negb (has_session_cookie (r_http r)) then next r wr s
  else
    let '(g, r, w) := get_session r (sv_world s) in
    match CSRFMiddleware (r_http r) g.2 with
    | Some a => (refuse a "forbidden" wr, with_world w s)
    | None => next r wr (with_world w s)
    end.

(** [Compress] only changes the coding of the body and the logger writes a
    line; [Recoverer] answers a panic with 500. *)
Definition apply (m : middleware) (next : handler) : handler := λ r wr s,
  match m with
  | RequestIDMiddleware =>
      let requestID := s_uuid S (tick (sv_world s)) in
      next (with_requestID requestID r) (set_header "X-Request-Id" requestID wr)
        (with_world (bump (sv_world s)) s)
  | SecurityHeadersMiddleware => next r (set_headers (SecurityHeaders (h_Env h)) wr) s
  | RateLimitMiddleware max duration =>
      match limit max duration r s with
      | (Some a, s) => (refuse a "too many requests" wr, s)
      | (None, s) => next r wr s
      end
  | Compress | RequestLoggerMiddleware => next r wr s
  | Recoverer =>
      let '((wr, o), s) := next r wr s in
      ((wr, match o with
            | Panicked => Replied (mk_reply StatusInternalServerError (BRaw "") [])
            | _ => o
            end), s)
  | RequireAuthMiddleware => require_auth next r wr s
  | CSRF => csrf next r wr s
  end.
Definition chain (ms : list middleware) (last : handler) : handler := foldr apply last ms.

(** Route the request, then run the middlewares of its groups and the handler. *)
Definition dispatch : handler := λ r wr s,
  match mux_find routes (r_Method r) (r_Path r) with
  | Some rt => chain (rt_use rt) (serve_endpoint (rt_endpoint rt)) (with_pattern (rt_pattern rt) r) wr s
  | None => ((wr, Unrouted), s)
  end.
Definition serve : handler := chain root_use dispatch.
End Server.
Arguments Server : clear implicits.
