(* ===== verification/Telegram.v ===== *)
(** * Telegram notifications ([internal/observability/telegram.go])

    Escaping, splitting, the client with its retries and its cool-down, and
    the bounded queue of messages.  The proxy is outside: every attempt has
    the outcome the environment gives it. *)

From stdpp Require Import base strings list sets.
From Stdlib Require Import ZArith Lia Ascii.
From S2P Require Import Prelude GoStrings Models Syncer.
Local Open Scope Z_scope.

(** ** Text *)

Definition EscapeHTML (text : string) : string :=
  let text := ToValidUTF8 text "" in
  let text := ReplaceAll text (ascii_of_nat 0) "" in
  let text := ReplaceAll text "&" "&amp;" in
  let text := ReplaceAll text "<" "&lt;" in
  let text := ReplaceAll text ">" "&gt;" in
  text.

(** The loop of [SplitMessage]; [limit] is positive, so every round removes a
    byte and [String.length text] rounds are enough. *)
Definition newline : ascii := ascii_of_nat 10.
Fixpoint split_loop (fuel : nat) (text : string) (limit : nat) : list string :=
  match fuel with
  | O => [text]
  | S fuel =>
      if (limit <? String.length text)%nat then
        let idx := match LastIndexByte (stake limit text) newline with
                   | Some O => 1%nat
                   | Some i => i
                   | None => limit
                   end in
        stake idx text :: split_loop fuel (sdrop idx text) limit
      else [text]
  end.
Definition SplitMessage (text : string) (limit : nat) : list string :=
  split_loop (String.length text) text limit.

(** ** The client *)

Record TelegramClient := mk_client { failures : Z; coolDownUntil : Z }.
Definition fresh_client : TelegramClient := mk_client 0 zero_time.

Definition IsCoolingDown (now : Z) (c : TelegramClient) : bool := now <? coolDownUntil c.
Definition recordFailure (now : Z) (c : TelegramClient) : TelegramClient :=
  let val := wrap_s 32 (failures c + 1) in
  mk_client val (if 3 <=? val then now + 5 * Minute else coolDownUntil c).
Definition recordSuccess (c : TelegramClient) : TelegramClient := mk_client 0 (coolDownUntil c).

(** What an attempt meets: no response, or a status and the retry delay in
    seconds that its body asks for (0 when the body does not decode). *)
Inductive reply := NoReply (e : error) | Reply (status retryAfter : Z).
(** [a_cancel]: the context's error when it ends during the wait. *)
Record try_env := mk_try { t_reply : reply; t_cancel : option error; t_now : Z }.

(** [rest] attempts are left; the waits are recorded. *)
Fixpoint chunk_loop (rest : nat) (delay : Z) (lastErr : option error) (now : Z) (tries : list try_env)
  (c : TelegramClient) : option error * list Z * TelegramClient :=
  match rest, tries with
  | S rest, a :: tries =>
      let after (e : option error) (wait delay : Z) :=
        match t_cancel a with
        | Some ce => (Some ce, [wait], c)
        | None =>
            let '(r, ws, c) := chunk_loop rest delay e (t_now a) tries c in (r, wait :: ws, c)
        end in
      match t_reply a with
      | NoReply e => after (Some e) delay (delay * 2)
      | Reply status retryAfter =>
          if (200 <=? status) && (status <? 300) then (None, [], recordSuccess c)
          else if 0 <? retryAfter then after lastErr (retryAfter * Second) delay
          else after (Some (errorf ("telegram proxy error: status " +:+ Itoa status))) delay (delay * 2)
      end
  | _, _ => (lastErr, [], recordFailure now c)
  end.
(** [tries] lists the three attempts. *)
Definition sendChunk (reqErr : option error) (tries : list try_env) (now : Z) (c : TelegramClient)
  : option error * list Z * TelegramClient :=
  match reqErr with
  | Some e => (Some e, [], c)
  | None => chunk_loop 3 (Second / 2) None now tries c
  end.

Definition instance_header (from message : string) : string :=
  if decide (from = "") then message
  else "<b>[Instance: " +:+ EscapeHTML from +:+ "]</b>" +:+ nl +:+ message.

(** The chunks are sent in order until one fails; [sent] is how the chunk of
    each number fares: the result and the client after it. *)
Fixpoint send_chunks (sent : nat → string → TelegramClient → option error * TelegramClient)
  (chunks : list string) (c : TelegramClient) : option error * TelegramClient * list string :=
  match chunks with
  | [] => (None, c, [])
  | x :: chunks =>
      match sent 0%nat x c with
      | (Some e, c) => (Some e, c, [x])
      | (None, c) => let '(r, c, l) := send_chunks (λ i, sent (S i)) chunks c in (r, c, x :: l)
      end
  end.
Definition cooldown_error : error :=
  errorf "telegram client is in cooldown mode due to consecutive failures".
(** The result, the client and the chunks handed to the proxy. *)
Definition Send (from : string) (now : Z) (sent : nat → string → TelegramClient → option error * TelegramClient)
  (message : string) (c : TelegramClient) : option error * TelegramClient * list string :=
  if IsCoolingDown now c then (Some cooldown_error, c, [])
  else send_chunks sent (SplitMessage (instance_header from message) 4000) c.

(** ** The queue of messages *)

Definition queueCap : nat := 1000.
Definition event_message (event details : string) : string :=
  "<b>[SYSTEM EVENT - " +:+ EscapeHTML event +:+ "]</b>" +:+ nl +:+ nl +:+ EscapeHTML details.
(** [waited]: the queue had room within two seconds. *)
Definition TriggerSystemEvent (waited : bool) (event details : string) (q : list string) : list string :=
  if waited && (length q <? queueCap)%nat then q ++ [event_message event details] else q.

(** A log record: its level, its text and its attributes as [%v] prints them. *)
Record log_record := mk_record { r_Level : Z; r_LevelName : string; r_Message : string; r_Attrs : list (string * string) }.
Definition LevelWarn : Z := 4.
Definition record_message (r : log_record) : string :=
  "<b>[" +:+ r_LevelName r +:+ "]</b> " +:+ EscapeHTML (r_Message r) +:+ nl +:+ nl
  +:+ foldr (λ a s, "<code>" +:+ EscapeHTML a.1 +:+ ": " +:+ EscapeHTML a.2 +:+ "</code>" +:+ nl +:+ s) "" (r_Attrs r).
(** [Handle], given what the next handler returned. *)
Definition Handle (next : option error) (r : log_record) (q : list string) : option error * list string :=
  match next with
  | Some e => (Some e, q)
  | None =>
      if LevelWarn <=? r_Level r then
        let msgLower := ToLower (r_Message r) in
        if Contains msgLower "telegram" || Contains msgLower "dropped system event" then (None, q)
        else if (length q <? queueCap)%nat then (None, q ++ [record_message r]) else (None, q)
      else (None, q)
  end.
