(* ===== verification/TelegramSpec.v ===== *)
(** * Properties of the notifications *)

From stdpp Require Import base strings list sets.
From Stdlib Require Import ZArith Lia Ascii.
From S2P Require Import Prelude GoStrings Models Syncer Telegram.
Local Open Scope Z_scope.

(** ** Splitting *)

Lemma LastIndexByte_bound s c i : LastIndexByte s c = Some i → (i < String.length s)%nat.
Proof. intros H. by apply LastIndexByte_Some in H as [? _]. Qed.

Lemma split_loop_nonempty fuel text limit : split_loop fuel text limit ≠ [].
Proof. destruct fuel; simpl; [done|]. by case_match. Qed.
Lemma split_loop_spec fuel text limit :
  (0 < limit)%nat → (String.length text ≤ fuel)%nat →
  String.concat "" (split_loop fuel text limit) = text ∧
  Forall (λ c, String.length c ≤ limit)%nat (split_loop fuel text limit) ∧
  (text ≠ "" → Forall (λ c, c ≠ "") (split_loop fuel text limit)).
Proof.
  intros Hl. revert text. induction fuel as [|fuel IH]; intros text Hf.
  { assert (text = "") as -> by (destruct text; simpl in *; [done|lia]).
    simpl. split_and!; [done|repeat constructor; simpl; lia|done]. }
  cbn [split_loop]. destruct (Nat.ltb_spec limit (String.length text)) as [Hlong|Hshort].
  2: { simpl. split_and!; [done|by repeat constructor|by repeat constructor]. }
  set (idx := match LastIndexByte (stake limit text) newline with Some O => 1%nat | Some i => i | None => limit end).
  assert (0 < idx ≤ limit)%nat as Hidx.
  { unfold idx. destruct (LastIndexByte _ _) as [[|i]|] eqn:Hi; [lia| |lia].
    apply LastIndexByte_bound in Hi. rewrite length_stake in Hi. lia. }
  clearbody idx. assert (String.length (stake idx text) = idx) as Hst by (rewrite length_stake; lia).
  destruct (IH (sdrop idx text)) as (Hc & Hb & Hn); [rewrite length_sdrop; lia|].
  assert (sdrop idx text ≠ "") as Hne.
  { intros He. apply (f_equal String.length) in He. rewrite length_sdrop in He. simpl in He. lia. }
  split_and!.
  - destruct (split_loop fuel (sdrop idx text) limit) as [|x l] eqn:Hs;
      [by apply split_loop_nonempty in Hs|].
    change (String.concat "" (stake idx text :: x :: l)) with (stake idx text +:+ String.concat "" (x :: l)).
    rewrite Hc. apply stake_sdrop.
  - constructor; [lia|done].
  - intros _. constructor; [|auto]. intros He. rewrite He in Hst. simpl in Hst. lia.
Qed.

(** Property (functional).  [SplitMessage] loses nothing and always ends: for a
    positive limit the chunks put together are the message, none is longer
    than the limit, and none is empty unless the message is. *)
Theorem SplitMessage_spec text limit :
  (0 < limit)%nat →
  String.concat "" (SplitMessage text limit) = text ∧
  Forall (λ c, String.length c ≤ limit)%nat (SplitMessage text limit) ∧
  (text ≠ "" → Forall (λ c, c ≠ "") (SplitMessage text limit)).
Proof. intros Hl. by apply split_loop_spec. Qed.
Lemma SplitMessage_spec_witness :
  String.concat "" (SplitMessage ("one" +:+ nl +:+ "two three") 6) = "one" +:+ nl +:+ "two three".
Proof. apply (SplitMessage_spec ("one" +:+ nl +:+ "two three") 6). lia. Defined.

(** ** Escaping *)

(** The reader's side: the three entities are read back. *)
Fixpoint unescape (s : string) : string :=
  match s with
  | String "&" (String "a" (String "m" (String "p" (String ";" r)))) => String "&" (unescape r)
  | String "&" (String "l" (String "t" (String ";" r))) => String "<" (unescape r)
  | String "&" (String "g" (String "t" (String ";" r))) => String ">" (unescape r)
  | String c r => String c (unescape r)
  | "" => ""
  end.

Lemma escape_cons c s :
  EscapeTelegramHTML (String c s) =
  (if decide (c = "&"%char) then "&amp;" else if decide (c = "<"%char) then "&lt;"
   else if decide (c = ">"%char) then "&gt;" else String c "") +:+ EscapeTelegramHTML s.
Proof.
  unfold EscapeTelegramHTML. simpl. repeat case_decide; subst; simpl; rewrite ?ReplaceAll_app; simpl; try done.
  all: repeat (case_decide; subst; simpl); try done; congruence.
Qed.
Lemma unescape_plain c r : c ≠ "&"%char → unescape (String c r) = String c (unescape r).
Proof. intros Hc. destruct c as [[] [] [] [] [] [] [] []]; try done; exfalso; congruence. Qed.
Lemma unescape_escape s : unescape (EscapeTelegramHTML s) = s.
Proof.
  induction s as [|c s IH]; [done|]. rewrite escape_cons.
  repeat case_decide; subst; [simpl; by rewrite IH..|].
  change (String c "" +:+ ?x) with (String c x). rewrite unescape_plain by done. by rewrite IH.
Qed.
Lemma escape_no_brackets s x : x ∈ chars (EscapeTelegramHTML s) → x ≠ "<"%char ∧ x ≠ ">"%char.
Proof.
  induction s as [|c s IH]; [by intros ?%elem_of_nil|]. rewrite escape_cons, chars_app, elem_of_app.
  intros [Hx|Hx]; [|auto]. repeat case_decide; subst; simpl in Hx;
    repeat (apply elem_of_cons in Hx as [->|Hx]; [done|]); by apply elem_of_nil in Hx.
Qed.

(** Property (round trip).  Escaping is faithful and complete: reading the three
    entities back gives the text, and no angle bracket is left that could open
    a tag; [EscapeHTML] does the same to the text without its NUL bytes and
    without what is not UTF-8. *)
Theorem escape_round_trip s :
  unescape (EscapeTelegramHTML s) = s ∧
  unescape (EscapeHTML s) = ReplaceAll (ToValidUTF8 s "") (ascii_of_nat 0) "" ∧
  (∀ x, x ∈ chars (EscapeHTML s) → x ≠ "<"%char ∧ x ≠ ">"%char).
Proof.
  assert (EscapeHTML s = EscapeTelegramHTML (ReplaceAll (ToValidUTF8 s "") (ascii_of_nat 0) "")) as Hs by done.
  rewrite Hs. split_and!; [apply unescape_escape|apply unescape_escape|]. apply escape_no_brackets.
Qed.

(** ** The cool-down *)

Definition failed_sends (times : list Z) (c : TelegramClient) : TelegramClient :=
  foldl (λ c now, recordFailure now c) c times.
Lemma failed_sends_count times c :
  0 ≤ failures c → failures c + Z.of_nat (length times) < 2 ^ 31 →
  failures (failed_sends times c) = failures c + Z.of_nat (length times).
Proof.
  revert c. induction times as [|t times IH]; intros c H0 Hb; simpl in *; [lia|].
  assert (failures (recordFailure t c) = failures c + 1) as Hf.
  { unfold recordFailure. simpl. apply wrap_s_id; [lia|]. unfold in_int. change (32 - 1) with 31. lia. }
  fold (failed_sends times (recordFailure t c)). rewrite IH; lia.
Qed.

(** Property (safety).  The cool-down: after three or more chunks that failed in a
    row the client sends nothing for five minutes: every [Send] in that time
    returns the error at once and hands no chunk to the proxy. *)
Theorem cooldown_silences from sent message times last c now :
  0 ≤ failures c → failures c + Z.of_nat (length times) + 1 < 2 ^ 31 →
  (2 ≤ length times)%nat → now < last + 5 * Minute →
  let c' := failed_sends (times ++ [last]) c in
  Send from now sent message c' = (Some cooldown_error, c', []).
Proof.
  intros H0 Hb Hl Hn c'. unfold Send.
  assert (IsCoolingDown now c' = true) as ->; [|done].
  unfold c', failed_sends. rewrite foldl_app. simpl. fold (failed_sends times c).
  pose proof (failed_sends_count times c H0 ltac:(lia)) as Hc.
  unfold IsCoolingDown, recordFailure. simpl. rewrite Hc.
  rewrite wrap_s_id by (lia || (unfold in_int; change (32 - 1) with 31; lia)).
  destruct (Z.leb_spec 3 (failures c + Z.of_nat (length times) + 1)); [lia|lia].
Qed.
Lemma cooldown_silences_witness :
  Send "" 100 (λ _ _ c, (None, c)) "hello" (failed_sends [1; 2; 3] fresh_client) =
  (Some cooldown_error, failed_sends [1; 2; 3] fresh_client, []).
Proof.
  apply (cooldown_silences "" (λ _ _ c, (None, c)) "hello" [1; 2] 3 fresh_client 100); vm_compute; try discriminate;
    repeat constructor.
Defined.

(** ** The retries of a chunk *)

Definition ok_reply (a : try_env) : bool :=
  match t_reply a with Reply st _ => (200 <=? st) && (st <? 300) | NoReply _ => false end.
Definition limited (a : try_env) : bool :=
  match t_reply a with Reply _ ra => 0 <? ra | NoReply _ => false end.

Lemma chunk_loop_result rest delay lastErr now tries c :
  Forall (λ a, t_cancel a = None) tries → length tries = rest →
  (chunk_loop rest delay lastErr now tries c).1.1 = None ↔
  Exists (λ a, ok_reply a = true) tries ∨ (lastErr = None ∧ Forall (λ a, limited a = true) tries).
Proof.
  intros Hc. revert rest delay lastErr now c. induction Hc as [|a tries Ha Hc IH]; intros rest delay lastErr now c Hlen.
  { subst rest. simpl. split; [auto|]. intros [H|[H _]]; [by inversion H|done]. }
  destruct rest as [|rest]; [done|]. injection Hlen as Hlen.
  cbn [chunk_loop]. rewrite Ha, Exists_cons, Forall_cons.
  assert (∀ e w d, (let '(r, ws, c0) := chunk_loop rest d e (t_now a) tries c in (r, w :: ws, c0)).1.1 =
    (chunk_loop rest d e (t_now a) tries c).1.1) as Hlet.
  { intros e w d. by destruct (chunk_loop rest d e (t_now a) tries c) as [[r ws] c0]. }
  unfold ok_reply, limited at 1. destruct (t_reply a) as [e|st ra].
  - rewrite Hlet, IH by done. naive_solver.
  - destruct ((200 <=? st) && (st <? 300)) eqn:Hok; simpl; [naive_solver|].
    destruct (0 <? ra) eqn:Hra; rewrite Hlet, IH by done; naive_solver.
Qed.

(** The half that needs nothing of the context: it never hides an error. *)
Lemma chunk_loop_nil rest delay lastErr now tries c :
  length tries = rest → (chunk_loop rest delay lastErr now tries c).1.1 = None →
  Exists (λ a, ok_reply a = true) tries ∨ (lastErr = None ∧ Forall (λ a, limited a = true) tries).
Proof.
  revert rest delay lastErr now c. induction tries as [|a tries IH]; intros rest delay lastErr now c Hlen.
  { subst rest. simpl. auto. }
  destruct rest as [|rest]; [done|]. injection Hlen as Hlen. cbn [chunk_loop].
  rewrite Exists_cons, Forall_cons. unfold ok_reply, limited at 1.
  assert (∀ e w d, (match t_cancel a with
     | Some ce => (Some ce, [w], c)
     | None => let '(r, ws, c0) := chunk_loop rest d e (t_now a) tries c in (r, w :: ws, c0) end).1.1 = None →
    (chunk_loop rest d e (t_now a) tries c).1.1 = None) as Hlet.
  { intros e w d. destruct (t_cancel a); [done|]. by destruct (chunk_loop rest d e (t_now a) tries c) as [[r ws] c0]. }
  destruct (t_reply a) as [e|st ra].
  - intros Hn%Hlet%IH; [|done]. naive_solver.
  - destruct ((200 <=? st) && (st <? 300)) eqn:Hok; simpl; [auto|].
    destruct (0 <? ra) eqn:Hra; intros Hn%Hlet%IH; naive_solver.
Qed.

(** Property (error).  When [sendChunk] reports success: an attempt was accepted, or
    all three were answered with a request to retry later, in which case
    nothing was delivered although the caller sees no error. *)
Theorem sendChunk_nil tries now c :
  length tries = 3%nat → Forall (λ a, t_cancel a = None) tries →
  (sendChunk None tries now c).1.1 = None ↔
  Exists (λ a, ok_reply a = true) tries ∨ Forall (λ a, limited a = true) tries.
Proof. intros Hl Hc. unfold sendChunk. rewrite chunk_loop_result by done. naive_solver. Qed.
Lemma sendChunk_nil_witness :
  let a := mk_try (Reply 429 5) None 0 in
  (sendChunk None [a; a; a] 0 fresh_client).1.1 = None.
Proof.
  intros a. apply (sendChunk_nil [a; a; a] 0 fresh_client); [done|by repeat constructor|].
  right. by repeat constructor.
Defined.

(** The markup of the engine's notifications is escaped once more on the way:
    the reader sees the tags as text. *)
Example notification_markup_escaped :
  Contains (event_message "USER_SYNC_SUCCESS" (success_message 1 "primary")) "User ID: &lt;b&gt;1&lt;/b&gt;" = true.
Proof. vm_compute. reflexivity. Qed.
