(* ===== verification/Notifier.v ===== *)
(** * The notification goroutine ([internal/observability/telegram.go])

    [Manager]: the goroutine that sends the queued messages, beside the log
    handler and the callbacks that queue them, as labelled steps in any order;
    [Telegram.Send] is what one message costs.  [Drain] cancels the context and
    waits for [Stopped]. *)

From stdpp Require Import base strings list sets.
From Stdlib Require Import ZArith Lia Ascii.
From S2P Require Import Prelude GoStrings Models Telegram TelegramSpec.
Local Open Scope Z_scope.

(** ** Set-up *)

Record TelegramConfig := mk_tgconfig {
  tc_ProxyURL : string; tc_SecretKey : string; tc_GroupID : string; tc_TopicID : string; tc_From : string }.

(** Where the goroutine is: in the first thirty seconds, at the [select], in
    the minute after a failure, emptying the queue, or ended; [early] tells
    that it ended without emptying it. *)
Inductive phase := Warmup | Waiting | Pausing | Draining | Stopped (early : bool).
#[export] Instance phase_eq_dec : EqDecision phase.
Proof. solve_decision. Defined.

(** What the proxy and the context do to one chunk: the error of the request's
    construction and the three attempts. *)
Record chunk_env := mk_chunk { ce_req : option error; ce_try : nat → try_env; ce_now : Z }.
Definition ce_tries (ce : chunk_env) : list try_env := ce_try ce <$> seq 0 3.
Definition sent_in (env : nat → chunk_env) (i : nat) (_ : string) (c : TelegramClient)
  : option error * TelegramClient :=
  let '(r, _, c) := sendChunk (ce_req (env i)) (ce_tries (env i)) (ce_now (env i)) c in (r, c).

(** A message handed to [Send]: what it met, what [Send] returned and the
    chunks that went to [sendChunk]. *)
Record taken := mk_taken {
  t_msg : string; t_env : nat → chunk_env; t_err : option error; t_posted : list string }.

(** [n_accepted] are the messages ever put on the queue and [n_taken] those
    handed to [Send], in order. *)
Record Manager := mk_manager {
  n_cfg : TelegramConfig; n_client : TelegramClient; n_queue : list string; n_ctx : bool; n_phase : phase;
  n_accepted : list string; n_taken : list taken }.
(** [NewClient], [NewManager] and [Start] *)
Definition NewManager (cfg : TelegramConfig) : Manager := mk_manager cfg fresh_client [] false Warmup [] [].
(** [Init]: without a proxy or a group there is no manager. *)
Definition Init (proxyURL secretKey groupID topicID from : string) : option Manager :=
  if bool_decide (proxyURL ≠ "") && bool_decide (groupID ≠ "")
  then Some (NewManager (mk_tgconfig proxyURL secretKey groupID topicID from))
  else None.

(** ** Steps *)

Inductive label :=
| NEvent (waited : bool) (event details : string)       (** [TriggerSystemEvent] *)
| NLog (next : option error) (r : log_record)           (** [TelegramHandler.Handle] *)
| NWarm                                                 (** thirty seconds are over *)
| NTake (now : Z) (env : nat → chunk_env)                (** a message is received and sent *)
| NPauseOver                                            (** a minute is over *)
| NCancel                                               (** [m.cancel()] *)
| NDone.                                                (** [ctx.Done()], or the empty queue when draining *)

Definition set_phase (p : phase) (m : Manager) : Manager :=
  mk_manager (n_cfg m) (n_client m) (n_queue m) (n_ctx m) p (n_accepted m) (n_taken m).
(** The queue after a sender: it may have got one message more. *)
Definition enqueue (q : list string) (m : Manager) : Manager :=
  mk_manager (n_cfg m) (n_client m) q (n_ctx m) (n_phase m)
    (n_accepted m ++ drop (length (n_queue m)) q) (n_taken m).

Definition nstep (a : label) (m : Manager) : option Manager :=
  match a with
  | NEvent waited event details => Some (enqueue (TriggerSystemEvent waited event details (n_queue m)) m)
  | NLog next r => Some (enqueue (Handle next r (n_queue m)).2 m)
  | NWarm => match n_phase m with Warmup => Some (set_phase Waiting m) | _ => None end
  | NTake now env =>
      match n_phase m, n_queue m with
      | Waiting, msg :: q | Draining, msg :: q =>
          let '(err, c, posted) := Send (tc_From (n_cfg m)) now (sent_in env) msg (n_client m) in
          let next := match n_phase m, err with Waiting, Some _ => Pausing | p, _ => p end in
          Some (mk_manager (n_cfg m) c q (n_ctx m) next (n_accepted m)
                  (n_taken m ++ [mk_taken msg env err posted]))
      | _, _ => None
      end
  | NPauseOver => match n_phase m with Pausing => Some (set_phase Waiting m) | _ => None end
  | NCancel =>
      Some (mk_manager (n_cfg m) (n_client m) (n_queue m) true (n_phase m) (n_accepted m) (n_taken m))
  | NDone =>
      if n_ctx m then
        match n_phase m, n_queue m with
        | Warmup, _ | Pausing, _ => Some (set_phase (Stopped true) m)
        | Waiting, _ => Some (set_phase Draining m)
        | Draining, [] => Some (set_phase (Stopped false) m)
        | _, _ => None
        end
      else None
  end.
Fixpoint nruns (l : list label) (m : Manager) : option Manager :=
  match l with [] => Some m | a :: l => nstep a m ≫= nruns l end.

(** ** The handler's other methods *)

(** [WithAttrs] and [WithGroup] keep the queue and the client: what they
    return logs into the same queue.  [H] is the next handler. *)
Record TelegramHandler (H : Type) := mk_handler { th_next : H; th_queue : nat }.
Arguments mk_handler {_}.
Arguments th_next {_}.
Arguments th_queue {_}.
Definition Enabled {H} (next_enabled : H → Z → bool) (h : TelegramHandler H) (level : Z) : bool :=
  next_enabled (th_next h) level.
Definition WithAttrs {H A} (next_with : H → list A → H) (h : TelegramHandler H) (attrs : list A) : TelegramHandler H :=
  mk_handler (next_with (th_next h) attrs) (th_queue h).
Definition WithGroup {H} (next_with : H → string → H) (h : TelegramHandler H) (name : string) : TelegramHandler H :=
  mk_handler (next_with (th_next h) name) (th_queue h).

(** ** Properties *)

(** The pieces of a message, as the proxy is to get them. *)
Definition chunks (from msg : string) : list string := SplitMessage (instance_header from msg) 4000.
(** The proxy took the chunk, or it asked three times to be tried later. *)
Definition delivered (ce : chunk_env) : Prop :=
  ce_req ce = None ∧
  (Exists (λ a, ok_reply a = true) (ce_tries ce) ∨ Forall (λ a, limited a = true) (ce_tries ce)).
(** What became of a message that was handed to [Send]. *)
Definition fared (from : string) (t : taken) : Prop :=
  match t_err t with
  | None => t_posted t = chunks from (t_msg t) ∧ ∀ i, (i < length (t_posted t))%nat → delivered (t_env t i)
  | Some e => t_posted t `prefix_of` chunks from (t_msg t) ∧ (t_posted t = [] → e = cooldown_error)
  end.

Lemma sent_in_nil env i x c c' : sent_in env i x c = (None, c') → delivered (env i).
Proof.
  unfold sent_in, sendChunk, delivered. destruct (ce_req (env i)); [done|]. intros Hs. split; [done|].
  destruct (chunk_loop_nil 3 (Second / 2) None (ce_now (env i)) (ce_tries (env i)) c) as [?|[_ ?]]; auto.
  destruct (chunk_loop _ _ _ _ _ _) as [[r ws] c1]. by simplify_eq.
Qed.
Lemma send_chunks_fared env l c err c' posted :
  send_chunks (sent_in env) l c = (err, c', posted) →
  match err with
  | None => posted = l ∧ ∀ i, (i < length posted)%nat → delivered (env i)
  | Some e => posted `prefix_of` l ∧ posted ≠ []
  end.
Proof.
  revert env c err c' posted. induction l as [|x l IH]; intros env c err c' posted Hs; simpl in Hs.
  { simplify_eq. split; [done|]. simpl. lia. }
  destruct (sent_in env 0 x c) as [[e|] c1] eqn:H0; simplify_eq.
  { split; [|done]. apply prefix_cons, prefix_nil. }
  change (λ i, sent_in env (S i)) with (sent_in (λ i, env (S i))) in Hs.
  destruct (send_chunks _ l c1) as [[r c2] l2] eqn:Hl. simplify_eq. apply IH in Hl. destruct err as [e|].
  - destruct Hl as [Hp _]. split; [by apply prefix_cons|done].
  - destruct Hl as [-> Hd]. split; [done|]. intros [|i] Hi; [by eapply sent_in_nil|]. apply Hd. simpl in Hi. lia.
Qed.
Lemma Send_fared from now env msg c err c' posted :
  Send from now (sent_in env) msg c = (err, c', posted) → fared from (mk_taken msg env err posted).
Proof.
  unfold Send, fared. simpl. case_match; [intros; simplify_eq; split; [apply prefix_nil|done]|].
  intros Hs%send_chunks_fared. destruct err; naive_solver.
Qed.

Record ninv (m : Manager) : Prop := {
  (** first in, first out, and nothing twice *)
  ninv_fifo : n_accepted m = (t_msg <$> n_taken m) ++ n_queue m;
  ninv_fared : Forall (fared (tc_From (n_cfg m))) (n_taken m);
  ninv_cap : (length (n_queue m) ≤ queueCap)%nat;
  ninv_ctx : n_phase m = Draining ∨ (∃ b, n_phase m = Stopped b) → n_ctx m = true }.

Lemma enqueue_inv q m :
  ninv m → (q = n_queue m ∨ ∃ x, q = n_queue m ++ [x] ∧ (length (n_queue m) < queueCap)%nat) → ninv (enqueue q m).
Proof.
  intros [F P C D] [->|(x & -> & Hl)]; constructor; simpl; try done.
  - by rewrite drop_all, app_nil_r.
  - rewrite drop_app_length, F. by rewrite <- app_assoc.
  - rewrite length_app. simpl. lia.
Qed.
Lemma Trigger_queue waited event details q :
  TriggerSystemEvent waited event details q = q ∨
  ∃ x, TriggerSystemEvent waited event details q = q ++ [x] ∧ (length q < queueCap)%nat.
Proof.
  unfold TriggerSystemEvent. destruct waited; [|by left]. destruct (Nat.ltb_spec (length q) queueCap); [|by left].
  right. by eexists.
Qed.
Lemma Handle_queue next r q :
  (Handle next r q).2 = q ∨ ∃ x, (Handle next r q).2 = q ++ [x] ∧ (length q < queueCap)%nat.
Proof.
  unfold Handle. destruct next; [by left|]. case_match; [|by left]. case_match; [by left|].
  destruct (Nat.ltb_spec (length q) queueCap); [|by left]. right. by eexists.
Qed.
Lemma set_phase_inv p m :
  ninv m → (p = Draining ∨ (∃ b, p = Stopped b) → n_ctx m = true) → ninv (set_phase p m).
Proof. intros [F P C D] Hp. by constructor. Qed.
Lemma nstep_inv a m m' : nstep a m = Some m' → ninv m → ninv m'.
Proof.
  intros Hs Hm. destruct a; simpl in Hs.
  - simplify_eq. apply enqueue_inv; [done|]. apply Trigger_queue.
  - simplify_eq. apply enqueue_inv; [done|]. apply Handle_queue.
  - destruct (n_phase m) eqn:Hp; simplify_eq. apply set_phase_inv; naive_solver.
  - destruct (n_queue m) as [|msg q] eqn:Hq; [by destruct (n_phase m)|].
    destruct (Send _ now _ msg (n_client m)) as [[err c] posted] eqn:Hsend. apply Send_fared in Hsend.
    destruct Hm as [F P C D]. rewrite Hq in F, C. simpl in C.
    destruct (n_phase m) eqn:Hp; simplify_eq; constructor; simpl; try lia;
      try (rewrite fmap_app; simpl; by rewrite <- app_assoc);
      try (by apply Forall_app; split; [done|repeat constructor]); destruct err; naive_solver.
  - destruct (n_phase m) eqn:Hp; simplify_eq. apply set_phase_inv; naive_solver.
  - simplify_eq. destruct Hm as [F P C D]. by constructor.
  - destruct (n_ctx m) eqn:Hc; [|done].
    destruct (n_phase m) eqn:Hp, (n_queue m) eqn:Hq; simplify_eq; by apply set_phase_inv.
Qed.
Lemma nruns_inv l m m' : nruns l m = Some m' → ninv m → ninv m'.
Proof.
  revert m. induction l as [|a l IH]; intros m; simpl; [by intros [= ->]|].
  destruct (nstep a m) as [m1|] eqn:H1; simpl; [|done]. intros H2 Hm. eapply IH; [done|]. by eapply nstep_inv.
Qed.

Lemma nruns_cfg l m m' : nruns l m = Some m' → n_cfg m' = n_cfg m.
Proof.
  revert m. induction l as [|a l IH]; intros m; simpl; [by intros [= ->]|].
  destruct (nstep a m) as [m1|] eqn:H1; simpl; [|done]. intros ->%IH.
  destruct a; simpl in H1; try (destruct (Send _ _ _ _ _) as [[err c] posted]);
    repeat (case_match; try done); by simplify_eq.
Qed.

(** C36 (invariant).  The goroutine hands the queued messages to [Send] in the
    order they were queued and each once, and the queue never outgrows its
    capacity.  For a message on which [Send] returned nil, its chunks, all of
    them and in order, were posted, and the proxy took each in one of three
    attempts or asked three times to be tried later; when [Send] failed, a
    prefix of the chunks was posted, and none at all only in the cool-down.  If
    the goroutine ends after emptying the queue, every message that was queued
    until then was handed to [Send]; it ends otherwise only in the first thirty
    seconds or in the minute after a failure, and then what is queued stays
    there unsent. *)
Theorem notifier_order cfg l m :
  nruns l (NewManager cfg) = Some m →
  n_accepted m = (t_msg <$> n_taken m) ++ n_queue m ∧ (length (n_queue m) ≤ queueCap)%nat ∧
  Forall (fared (tc_From cfg)) (n_taken m) ∧
  (∀ m', nstep NDone m = Some m' →
     (n_phase m' = Stopped false → n_accepted m' = t_msg <$> n_taken m') ∧
     (n_phase m' = Stopped true → (n_phase m = Warmup ∨ n_phase m = Pausing) ∧
        n_queue m' = n_queue m ∧ n_taken m' = n_taken m)).
Proof.
  intros Hr. assert (ninv m) as [F P C D]
    by (eapply nruns_inv; [exact Hr|]; by constructor; simpl; [| |lia|naive_solver]).
  rewrite (nruns_cfg _ _ _ Hr) in P.
  split_and!; [done..|]. intros m' Hs. simpl in Hs. destruct (n_ctx m); [|done].
  destruct (n_phase m) eqn:Hp, (n_queue m) eqn:Hq; simplify_eq; simpl; split; intros; try done; auto.
  by rewrite F, app_nil_r.
Qed.

(** ** Concrete runs *)

Definition demo_cfg : TelegramConfig := mk_tgconfig "https://proxy" "" "1" "" "".
Definition demo_proxy (status : Z) : nat → chunk_env :=
  λ _, mk_chunk None (λ _, mk_try (Reply status 0) None 0) 0.
Definition demo_labels : list label :=
  [NEvent true "STARTUP" "a"; NWarm; NTake 0 (demo_proxy 200); NEvent true "SYNC" "b"; NCancel; NDone;
   NTake 1 (demo_proxy 500)].
Lemma notifier_order_witness :
  match nruns demo_labels (NewManager demo_cfg) with
  | Some m => n_accepted m = t_msg <$> n_taken m ∧ t_posted <$> n_taken m = (λ x, [x]) <$> n_accepted m
  | None => False
  end.
Proof.
  destruct (nruns demo_labels (NewManager demo_cfg)) as [m|] eqn:Hm; [|vm_compute in Hm; discriminate Hm].
  pose proof (proj1 (notifier_order demo_cfg demo_labels m Hm)) as Hq. vm_compute in Hm. injection Hm as <-.
  split; [exact Hq|vm_compute; reflexivity].
Defined.
(** A process that stops within thirty seconds says nothing, neither that it
    started nor that it stops; so does one that stops after a failed message. *)
Example drain_in_warmup_loses :
  (λ m, (length (n_queue m), n_taken m)) <$>
    nruns [NEvent true "STARTUP" "a"; NEvent true "SHUTDOWN" "b"; NCancel; NDone] (NewManager demo_cfg)
  = Some (2%nat, []).
Proof. vm_compute. reflexivity. Qed.
