(* ===== verification/Otel.v ===== *)
(** * The OpenTelemetry set-up ([internal/observability/otel.go])

    How [InitOTel] reads its two environment variables, the options it gives
    the exporters, what it returns when an exporter cannot be made, and the
    shutdown of the providers.  The exporters and providers are the library's:
    whether creating one fails is an argument. *)

From stdpp Require Import base gmap strings list sets.
From Stdlib Require Import ZArith Lia Ascii.
From S2P Require Import Prelude GoStrings Models.

(** ** Package [strings] *)

(** [strings.SplitN(s, sep, 2)] for a one-byte separator. *)
Definition SplitN2 (s : string) (sep : ascii) : list string :=
  match Index s (String sep "") with
  | None => [s]
  | Some i => [stake i s; sdrop (S i) s]
  end.
(** [strings.TrimLeft] for a one-byte cut set. *)
Fixpoint TrimLeftByte (s : string) (c : ascii) : string :=
  match s with
  | String d s' => if decide (d = c) then TrimLeftByte s' c else s
  | "" => ""
  end.
Definition TrimSuffix (s suf : string) : string :=
  if HasSuffix s suf then stake (String.length s - String.length suf) s else s.

(** ** The environment variables *)

(** One element of the list of headers. *)
Definition add_header (headers : gmap string string) (pair : string) : gmap string string :=
  let pair := TrimLeftByte (TrimSpace pair) "=" in
  if decide (pair = "") then headers
  else match SplitN2 pair "=" with
  | [k; v] =>
      let key := TrimSpace k in
      let val := TrimSpace v in
      if decide (key ≠ "") then <[key := val]> headers else headers
  | _ =>
      if HasPrefix pair "api-key=" then <["api-key" := TrimPrefix pair "api-key="]> headers
      else <["api-key" := pair]> headers
  end.
Definition parse_headers (headersStr : string) : gmap string string :=
  if decide (headersStr = "") then ∅
  else foldl add_header ∅ (Split headersStr ",").

(** The host and the paths for metrics and traces. *)
Definition parse_endpoint (endpoint : string) : string * string * string :=
  let trimmed := TrimPrefix (TrimPrefix endpoint "https://") "http://" in
  match Index trimmed "/" with
  | None => (trimmed, "/v1/metrics", "/v1/traces")
  | Some idx =>
      let basePath := TrimSuffix (sdrop idx trimmed) "/" in
      if decide (basePath ≠ "")
      then (stake idx trimmed, basePath +:+ "/v1/metrics", basePath +:+ "/v1/traces")
      else (stake idx trimmed, "/v1/metrics", "/v1/traces")
  end.

(** ** [InitOTel] *)

(** The options of an exporter; [eo_headers] is [None] when none are given. *)
Record exporter_options := mk_exporter {
  eo_endpoint : string; eo_path : string; eo_timeout : Z; eo_retry : Z * Z * Z; eo_insecure : bool;
  eo_headers : option (gmap string string) }.
Definition options_for (endpoint path : string) (insecure : bool) (headers : gmap string string) : exporter_options :=
  mk_exporter endpoint path (15 * Second) (2 * Second, 15 * Second, 60 * Second)%Z insecure
    (if decide (headers = ∅) then None else Some headers).

Definition counters_made : list string :=
  ["contestsync.contests.extracted"; "contestsync.user.sync.duration"; "contestsync.users.synced";
   "contestsync.calendar.validations"].
(** A provider: its exporter, how often it exports and how long that may take. *)
Record provider := mk_provider { pv_exporter : exporter_options; pv_interval : Z; pv_timeout : Z }.
Definition new_provider (o : exporter_options) : provider := mk_provider o (30 * Second)%Z (70 * Second)%Z.
(** What is returned: the instruments, and the providers that [Shutdown]
    stops; there may be none for traces. *)
Record OTelMetrics := mk_otel {
  om_service : option string; om_instruments : list string; om_meter : provider; om_tracer : option provider }.

(** [newMetric], [newTrace]: the errors of creating the exporters; [merge]:
    the error of merging the resource, which loses the service name. *)
Definition InitOTel (endpoint headersStr serviceName : string)
  (newMetric newTrace : exporter_options → option error) (merge : option error) : option OTelMetrics :=
  if decide (endpoint = "") then None
  else
    let headers := parse_headers headersStr in
    let '(host, urlPath, traceUrlPath) := parse_endpoint endpoint in
    let insecure := HasPrefix endpoint "http://" in
    let opts := options_for host urlPath insecure headers in
    match newMetric opts with
    | Some _ => None
    | None =>
        let traceOpts := options_for host traceUrlPath insecure headers in
        Some (mk_otel (match merge with None => Some serviceName | Some _ => None end) counters_made (new_provider opts)
                (match newTrace traceOpts with Some _ => None | None => Some (new_provider traceOpts) end))
    end.

(** [errors.Join] *)
Definition Join (errs : list error) : option error :=
  match errs with [] => None | _ => Some (errorf (String.concat (String (ascii_of_nat 10) "") (Error <$> errs))) end.
(** [Shutdown]: the errors arrive on the channel in the order the goroutines
    end; [tracerFirst]: the tracer provider was faster. *)
Definition Shutdown (m : OTelMetrics) (meter tracer : option error) (tracerFirst : bool) : option error :=
  let e1 := match meter with Some e => [errorf ("meter provider shutdown: " +:+ Error e)] | None => [] end in
  let e2 := match om_tracer m, tracer with
            | Some _, Some e => [errorf ("tracer provider shutdown: " +:+ Error e)]
            | _, _ => []
            end in
  Join (if tracerFirst then e2 ++ e1 else e1 ++ e2).

(** ** The headers *)




(** Text of visible ASCII characters, without white space and commas. *)
Definition visible (c : ascii) : Prop := (33 ≤ N_of_ascii c ≤ 126)%N ∧ c ≠ ","%char.
Definition has_foreign_head (p : string) : Prop := match p with String c _ => ¬ visible c | "" => False end.
#[export] Instance visible_dec c : Decision (visible c).
Proof. unfold visible. apply _. Defined.
#[export] Instance foreign_dec p : Decision (has_foreign_head p).
Proof. destruct p; simpl; apply _. Defined.

Lemma Index_char a c b : c ∉ chars a → Index (a +:+ String c b) (String c "") = Some (String.length a).
Proof.
  induction a as [|x a IH]; simpl.
  - intros _. change (String c b) with (String c "" +:+ b). by rewrite prefix_refl.
  - intros Hn. destruct (String.prefix (String c "") (String x (a +:+ String c b))) eqn:Hp.
    + apply prefix_spec in Hp as [t [= -> _]]. set_solver.
    + by rewrite IH by set_solver.
Qed.



(** ** The endpoint *)

Lemma TrimPrefix_other s p : HasPrefix s p = false → TrimPrefix s p = s.
Proof. unfold TrimPrefix. by intros ->. Qed.
Lemma TrimPrefix_app s p : TrimPrefix (p +:+ s) p = s.
Proof. unfold TrimPrefix, HasPrefix. by rewrite prefix_refl, sdrop_app. Qed.
Lemma TrimSuffix_app s suf : TrimSuffix (s +:+ suf) suf = s.
Proof.
  unfold TrimSuffix. destruct (HasSuffix (s +:+ suf) suf) eqn:Hs.
  - rewrite length_app_s. replace (String.length s + String.length suf - String.length suf) with (String.length s) by lia.
    apply stake_app.
  - enough (HasSuffix (s +:+ suf) suf = true) by congruence. apply HasSuffix_spec. by exists s.
Qed.
Lemma Index_no_slash a : ("/"%char ∉ chars a) → Index a "/" = None.
Proof.
  intros Ha. apply Index_None. intros x y ->. apply Ha. rewrite !chars_app. set_solver.
Qed.

(** Property (functional).  The exporter is pointed at the configured host: an
    endpoint with or without a scheme, with any base path and with or without
    a final slash, gives the host and the base path followed by the standard
    path of the signal; the connection is unencrypted exactly for [http]. *)
Theorem endpoint_parsed scheme host base slash :
  scheme ∈ ["https://"; "http://"; ""] → ("/"%char ∉ chars host) →
  base = "" ∨ (∃ b, base = "/" +:+ b ∧ HasSuffix base "/" = false) → slash ∈ [""; "/"] →
  HasPrefix (host +:+ base +:+ slash) "https://" = false → HasPrefix (host +:+ base +:+ slash) "http://" = false →
  let e := scheme +:+ host +:+ base +:+ slash in
  parse_endpoint e = (host, base +:+ "/v1/metrics", base +:+ "/v1/traces") ∧
  HasPrefix e "http://" = bool_decide (scheme = "http://").
Proof.
  intros Hsch Hh Hb Hsl H1 H2 e. set (rest := host +:+ base +:+ slash) in *.
  assert (TrimPrefix (TrimPrefix e "https://") "http://" = rest ∧
    HasPrefix e "http://" = bool_decide (scheme = "http://")) as [Htrim Hins].
  { unfold e. repeat (apply elem_of_cons in Hsch as [->|Hsch]); try by apply elem_of_nil in Hsch.
    - rewrite TrimPrefix_app, TrimPrefix_other by done. split; reflexivity.
    - rewrite (TrimPrefix_other _ "https://") by reflexivity. rewrite TrimPrefix_app. split; [done|].
      apply HasPrefix_spec. by exists rest.
    - simpl. rewrite (TrimPrefix_other rest "https://"), (TrimPrefix_other rest "http://") by done. split; [done|]. exact H2. }
  split; [|done]. unfold parse_endpoint. rewrite Htrim. unfold rest.
  destruct Hb as [->|(b & -> & Hsuf)].
  - repeat (apply elem_of_cons in Hsl as [->|Hsl]); try by apply elem_of_nil in Hsl.
    + rewrite !app_nil_r_s, Index_no_slash by done. done.
    + change ("" +:+ "/") with (String "/" ""). rewrite Index_char by done. rewrite sdrop_app, stake_app. done.
  - change (("/" +:+ b) +:+ slash) with (String "/" (b +:+ slash)). rewrite Index_char by done.
    rewrite sdrop_app, stake_app.
    assert (TrimSuffix (String "/" (b +:+ slash)) "/" = "/" +:+ b) as ->; [|done].
    repeat (apply elem_of_cons in Hsl as [->|Hsl]); try by apply elem_of_nil in Hsl.
    + rewrite app_nil_r_s. unfold TrimSuffix. change (String "/" b) with ("/" +:+ b). by rewrite Hsuf.
    + change (String "/" (b +:+ "/")) with (("/" +:+ b) +:+ "/"). apply TrimSuffix_app.
Qed.

(** ** Degradation *)

(** Property (error).  Telemetry never stops the program: without an endpoint or
    without a metrics exporter there is none, a failed trace exporter or
    resource only leaves out the traces or the name, and the shutdown reports
    an error exactly if a provider that was made failed to stop. *)
Theorem telemetry_degrades endpoint headersStr name newMetric newTrace merge :
  (InitOTel endpoint headersStr name newMetric newTrace merge = None ↔
     endpoint = "" ∨
     newMetric (options_for (parse_endpoint endpoint).1.1 (parse_endpoint endpoint).1.2
       (HasPrefix endpoint "http://") (parse_headers headersStr)) ≠ None) ∧
  (∀ m, InitOTel endpoint headersStr name newMetric newTrace merge = Some m →
     om_instruments m = counters_made ∧ eo_headers (pv_exporter (om_meter m)) ≠ Some ∅ ∧
     (om_service m = Some name ↔ merge = None) ∧
     ∀ meter tracer first, Shutdown m meter tracer first = None ↔
       meter = None ∧ (om_tracer m = None ∨ tracer = None)).
Proof.
  unfold InitOTel. destruct (parse_endpoint endpoint) as [[host path] tpath] eqn:Hp. simpl.
  case_decide as He; [split; [naive_solver|done]|].
  destruct (newMetric _) as [err|] eqn:Hm; [split; [naive_solver|done]|].
  split; [split; [done|naive_solver]|]. intros m [= <-]. simpl. split_and!; [done| | |].
  - case_decide; naive_solver.
  - destruct merge; naive_solver.
  - intros meter tracer first. unfold Shutdown. simpl.
    destruct (newTrace _), meter, tracer, first; simpl; naive_solver.
Qed.

(** ** Concrete values *)

Lemma endpoint_parsed_witness :
  parse_endpoint "http://collector:4318/otlp/" = ("collector:4318", "/otlp/v1/metrics", "/otlp/v1/traces").
Proof.
  refine (proj1 (endpoint_parsed "http://" "collector:4318" "/otlp" "/" _ _ _ _ _ _)).
  - apply (bool_decide_unpack _). vm_compute. exact I.
  - apply (bool_decide_unpack _). vm_compute. exact I.
  - right. exists "otlp". split; reflexivity.
  - apply (bool_decide_unpack _). vm_compute. exact I.
  - reflexivity.
  - reflexivity.
Defined.
