(* ===== verification/Setup.v ===== *)
(** * Configuration and connection pools ([config/config.go], [internal/db/db.go])

    The environment is a function from names to values; a database answers a
    connection attempt or not. *)

From stdpp Require Import base strings list sets.
From Stdlib Require Import ZArith Lia Ascii.
From S2P Require Import Prelude GoStrings.
Local Open Scope Z_scope.

(** ** config.go *)

(** [hex.DecodeString] *)
Definition from_hex (c : ascii) : option N :=
  let n := N_of_ascii c in
  if ((48 <=? n) && (n <=? 57))%N then Some (n - 48)%N
  else if ((97 <=? n) && (n <=? 102))%N then Some (n - 87)%N
  else if ((65 <=? n) && (n <=? 70))%N then Some (n - 55)%N
  else None.
Fixpoint hex_DecodeString (s : string) : option string :=
  match s with
  | "" => Some ""
  | String a (String b s) =>
      match from_hex a, from_hex b, hex_DecodeString s with
      | Some x, Some y, Some r => Some (String (ascii_of_N (x * 16 + y)) r)
      | _, _, _ => None
      end
  | _ => None
  end.

Record Config := {
  DatabaseURL : string; ReadDatabaseURLs : string; ConnectionLimit : Z; ConnectionPoolLimit : Z;
  GoogleClientID : string; GoogleClientSecret : string; GoogleRedirectURL : string;
  SessionSecret : string; EncryptionKey : string; Port : string; WorkerPort : string; Env : string;
  AdminPassword : string; AMQPURL : string; ValkeyURI : string; TelegramProxyURL : string;
  ProxySecretKey : string; TelegramGroupID : string; TelegramGroupTopicID : string; From : string }.

(** [x := a; if x == "" { x = b }] *)
Definition or_else (a b : string) : string := if decide (a = "") then b else a.
Definition or_limit (z d : Z) : Z := if decide (z = 0) then d else z.

(** [None] where the program ends with [log.Fatalf]. *)
Definition Load (Getenv : string → string) : option Config :=
  let connLimit := or_limit (Atoi (Getenv "CONNECTION_LIMIT")).1 800 in
  let connPoolLimit := or_limit (Atoi (Getenv "CONNECTION_POOL_LIMIT")).1 10000 in
  match hex_DecodeString (Getenv "SESSION_SECRET") with
  | None => None
  | Some sessionSecret =>
      match hex_DecodeString (Getenv "ENCRYPTION_KEY") with
      | None => None
      | Some encryptionKey => Some {|
          DatabaseURL := Getenv "POSTGRES_DB"; ReadDatabaseURLs := Getenv "POSTGRES_READ_DB";
          ConnectionLimit := connLimit; ConnectionPoolLimit := connPoolLimit;
          GoogleClientID := Getenv "GOOGLE_CLIENT_ID"; GoogleClientSecret := Getenv "GOOGLE_CLIENT_SECRET";
          GoogleRedirectURL := Getenv "GOOGLE_REDIRECT_URL";
          SessionSecret := sessionSecret; EncryptionKey := encryptionKey;
          Port := or_else (Getenv "PORT") "8080";
          WorkerPort := or_else (or_else (Getenv "WORKER_PORT") (Getenv "PORT")) "8081";
          Env := or_else (Getenv "ENV") "development"; AdminPassword := Getenv "ADMIN_PASSWORD";
          AMQPURL := or_else (Getenv "CLOUDAMQP_URL") (Getenv "AMQP_URL");
          ValkeyURI := Getenv "VALKEY_URI"; TelegramProxyURL := Getenv "TG_PROXY_URL";
          ProxySecretKey := or_else (Getenv "PROXY_SECRET_KEY") (Getenv "ProxySecretKey");
          TelegramGroupID := Getenv "TG_GROUP_ID"; TelegramGroupTopicID := Getenv "TG_GROUP_TOPIC_ID";
          From := Getenv "FROM" |}
      end
  end.

(** ** db.go *)

(** A pool of connections to a URL. *)
Record pgxpool := mk_pgxpool { pool_url : string; MaxConns : Z }.
Record Pool := mk_pool { write : pgxpool; reads : list pgxpool; readIdx : Z }.

Definition WriteDB (p : Pool) : pgxpool := write p.
(** The pool of the call and the state after it; [readIdx] is a [uint64]. *)
Definition ReadDB (p : Pool) : option pgxpool * Pool :=
  match reads p with
  | [] => (Some (write p), p)
  | _ =>
      let added := wrapu64 (readIdx p + 1) in
      let idx := wrapu64 (added - 1) in
      (reads p !! Z.to_nat (idx mod Z.of_nat (length (reads p))), mk_pool (write p) (reads p) added)
  end.

(** [newPool]: the error of parsing, creating or pinging, if any. *)
Definition newPool (connect : string → Z → option error) (dsn : string) (maxConns : Z) : error + pgxpool :=
  match connect dsn maxConns with
  | Some e => inl e
  | None => inr (mk_pgxpool dsn maxConns)
  end.
Definition conns (default limit : Z) : Z :=
  if (0 <? limit) && (limit <=? 2 ^ 31 - 1) then limit else default.

Definition Init (connect : string → Z → option error) (writeURL readURLsRaw : string)
  (writeLimit poolLimit : Z) : error + Pool :=
  if decide (writeURL = "") then inl (errorf "POSTGRES_DB environment variable is not set")
  else
    let writeConns := conns 10 writeLimit in
    let readConns := conns 100 poolLimit in
    match newPool connect writeURL writeConns with
    | inl e => inl (errorf ("write pool: " +:+ Error e))
    | inr writePool =>
        let rawURLs := if decide (readURLsRaw = "") then [] else Split readURLsRaw "," in
        let rs := omap (λ rawURL,
          let rawURL := TrimSpace rawURL in
          if decide (rawURL = "") then None
          else match newPool connect rawURL readConns with inl _ => None | inr r => Some r end) rawURLs in
        inr (mk_pool writePool rs 0)
    end.

(** [Close]: the pools in the order they are closed; the write pool that
    [Init] made is never nil. *)
Definition Close (p : Pool) : list pgxpool := write p :: reads p.

(** ** Round robin *)

(** The pools of [n] reads in a row. *)
Fixpoint read_many (n : nat) (p : Pool) : list (option pgxpool) :=
  match n with
  | O => []
  | S n => let '(r, p) := ReadDB p in r :: read_many n p
  end.

Lemma read_many_slots n p :
  reads p ≠ [] → 0 ≤ readIdx p → readIdx p + Z.of_nat n < 2 ^ 64 →
  read_many n p =
  (λ i, reads p !! Z.to_nat ((readIdx p + Z.of_nat i) mod Z.of_nat (length (reads p)))) <$> seq 0 n.
Proof.
  revert p. induction n as [|n IH]; intros p Hne H0 Hb; [done|]. cbn [read_many]. unfold ReadDB.
  destruct (reads p) as [|r rs] eqn:Hr; [done|]. rewrite <- Hr.
  assert (wrapu64 (readIdx p + 1) = readIdx p + 1) as Hw by (unfold wrap_u; apply Z.mod_small; lia).
  rewrite Hw. assert (wrapu64 (readIdx p + 1 - 1) = readIdx p) as ->
    by (unfold wrap_u; rewrite Z.mod_small; lia).
  cbn [seq fmap list_fmap]. rewrite Z.add_0_r. f_equal.
  rewrite IH; simpl; [|by rewrite Hr|lia|lia].
  rewrite <- fmap_S_seq, <- list_fmap_compose. apply list_fmap_ext. intros i x _. simpl. do 3 f_equal. lia.
Qed.

(** Consecutive residues are all the slots, each once. *)
Lemma residues_perm (n : nat) (k : Z) :
  (0 < n)%nat →
  (λ i, Z.to_nat ((k + Z.of_nat i) mod Z.of_nat n)) <$> seq 0 n ≡ₚ seq 0 n.
Proof.
  intros Hn. apply submseteq_length_Permutation; [|by rewrite length_fmap].
  apply NoDup_submseteq.
  - apply NoDup_fmap_2_strong; [|apply NoDup_seq]. intros i j Hi%elem_of_seq Hj%elem_of_seq Heq.
    pose proof (Z.mod_pos_bound (k + Z.of_nat i) (Z.of_nat n)).
    pose proof (Z.mod_pos_bound (k + Z.of_nat j) (Z.of_nat n)).
    pose proof (Z.div_mod (k + Z.of_nat i) (Z.of_nat n)).
    pose proof (Z.div_mod (k + Z.of_nat j) (Z.of_nat n)).
    set (q := (k + Z.of_nat i) / Z.of_nat n) in *. set (q' := (k + Z.of_nat j) / Z.of_nat n) in *.
    assert (Z.of_nat n * (q - q') = Z.of_nat i - Z.of_nat j) as Hq by lia.
    assert (q - q' = 0) by nia. lia.
  - intros x (i & -> & Hi)%list_elem_of_fmap. apply elem_of_seq.
    pose proof (Z.mod_pos_bound (k + Z.of_nat i) (Z.of_nat n)). lia.
Qed.

(** Property (functional).  Reads are spread evenly: with [n] replicas, any [n] reads
    in a row go to every replica exactly once, and a read always finds a pool,
    as long as the counter does not wrap around within them. *)
Theorem ReadDB_round_robin p :
  reads p ≠ [] → 0 ≤ readIdx p → readIdx p + Z.of_nat (length (reads p)) < 2 ^ 64 →
  read_many (length (reads p)) p ≡ₚ Some <$> reads p.
Proof.
  intros Hne H0 Hb. rewrite read_many_slots by done.
  assert (0 < length (reads p))%nat as Hn by (destruct (reads p); [done|simpl; lia]).
  etrans; [apply reflexive_eq, (list_fmap_compose
    (λ i, Z.to_nat ((readIdx p + Z.of_nat i) mod Z.of_nat (length (reads p)))) (λ i, reads p !! i))|].
  rewrite (residues_perm (length (reads p)) (readIdx p)) by done.
  apply reflexive_eq. apply list_eq. intros i. rewrite !list_lookup_fmap.
  destruct (decide (i < length (reads p))%nat) as [Hi|Hi].
  - rewrite lookup_seq_lt by done. simpl.
    destruct (reads p !! i) eqn:Hx; [done|]. apply lookup_ge_None in Hx. lia.
  - rewrite lookup_seq_ge by lia. simpl. by rewrite lookup_ge_None_2 by lia.
Qed.
Lemma ReadDB_round_robin_witness :
  let p := mk_pool (mk_pgxpool "w" 10) [mk_pgxpool "r1" 5; mk_pgxpool "r2" 5; mk_pgxpool "r3" 5] 7 in
  read_many 3 p ≡ₚ Some <$> reads p.
Proof. intros p. apply (ReadDB_round_robin p); vm_compute; congruence. Defined.

(** Property (bounds).  Whatever the environment says, the pools that [Init] creates
    get a size that pgx accepts: at least one connection and an [int32]. *)
Theorem Init_pool_sizes connect writeURL raw writeLimit poolLimit p :
  Init connect writeURL raw writeLimit poolLimit = inr p →
  Forall (λ r, 1 ≤ MaxConns r < 2 ^ 31) (write p :: reads p).
Proof.
  assert (∀ d l, 1 ≤ d < 2 ^ 31 → 1 ≤ conns d l < 2 ^ 31) as Hc.
  { intros d l Hd. unfold conns. destruct (Z.ltb_spec 0 l), (Z.leb_spec l (2 ^ 31 - 1)); simpl; lia. }
  unfold Init. case_decide; [done|]. unfold newPool. destruct (connect writeURL _); [done|].
  intros [= <-]. constructor; [apply Hc; lia|]. simpl. apply Forall_forall.
  intros r (u & _ & Hr)%elem_of_omap_Some. cbv zeta in Hr. case_decide; [done|].
  destruct (connect (TrimSpace u) _); simplify_eq/=. apply Hc. lia.
Qed.
Lemma Init_pool_sizes_witness :
  match Init (λ _ _, None) "postgres://w" "postgres://r1, ,postgres://r2" (-5) 0 with
  | inr p => Forall (λ r, 1 ≤ MaxConns r < 2 ^ 31) (write p :: reads p)
  | inl _ => False
  end.
Proof.
  destruct (Init (λ _ _, None) "postgres://w" "postgres://r1, ,postgres://r2" (-5) 0) as [e|p] eqn:Hi.
  - vm_compute in Hi. discriminate Hi.
  - exact (Init_pool_sizes _ _ _ _ _ p Hi).
Defined.
