(* ===== verification/Main.v ===== *)
(** * The two programs ([cmd/server/main.go], [cmd/worker/main.go])

    Start-up from the environment to the parts that run, with every reason to
    refuse; the cron table of the scheduler; the order of the shutdown; the
    health check and the keep-alive of the worker.  What the outside answers
    during start-up is the record [Outside]. *)

From stdpp Require Import base gmap strings list sets.
From Stdlib Require Import ZArith Lia Ascii.
From S2P Require Import Prelude GoStrings Models Database GoFloat Auth Effects Syncer Queue Middleware Handlers.
From S2P Require Import Scheduler Admin Router Notifier Otel Setup.
Local Open Scope Z_scope.

(** ** Start-up *)

Inductive log_level := LevelDebug | LevelInfo | LevelWarn | LevelError.
Definition parse_level (s : string) : log_level :=
  if bool_decide (s = "debug") || bool_decide (s = "DEBUG") then LevelDebug
  else if bool_decide (s = "warn") || bool_decide (s = "WARN") then LevelWarn
  else if bool_decide (s = "error") || bool_decide (s = "ERROR") then LevelError
  else LevelInfo.
Inductive log_format := JSONHandler | TextHandler.
Definition choose_format (env : string) : log_format :=
  if decide (env = "production") then JSONHandler else TextHandler.

Record Outside := {
  o_connect : string → Z → option error;        (** Postgres, by URL and pool size *)
  o_ParseURL : string → option error; o_Ping : option error;          (** Valkey *)
  o_dial : dial; o_extraction : list ExtractionTask; o_sync : list SyncTask;   (** the broker *)
  o_newMetric : exporter_options → option error; o_newTrace : exporter_options → option error;
  o_merge : option error;
  o_Sub : option error (** [fs.Sub] of the embedded files *) }.

Inductive deferred :=
| TelegramDrain | OTelShutdown | StopSignals | PoolClose | ValkeyClose | QueueClose | SchedulerStop.
#[export] Instance deferred_eq_dec : EqDecision deferred.
Proof. solve_decision. Defined.

(** What both programs have running, with the [defer]s in the order they
    were registered. *)
Record Boot := mk_boot {
  b_cfg : Config; b_level : log_level; b_format : log_format; b_tg : option Manager; b_otel : option OTelMetrics;
  b_pool : Pool; b_valkey : bool; b_queue : Queue; b_consumers : list consumer; b_defers : list deferred }.
Definition when {A} (b : bool) (x : A) : list A := if b then [x] else [].
Definition is_Some_b {A} (o : option A) : bool := match o with Some _ => true | None => false end.

(** [log.Fatal] ends the process with the message, without the deferred calls. *)
Definition connect_valkey (uri : string) (o : Outside) : string + bool :=
  if decide (uri = "") then inr false
  else match o_ParseURL o uri with
  | Some e => inl ("failed to parse VALKEY_URI: " +:+ Error e)
  | None =>
      match o_Ping o with
      | Some e => inl ("failed to connect to Valkey: " +:+ Error e)
      | None => inr true
      end
  end.
Definition boot (service : string) (checks : Config → option string) (Getenv : string → string) (o : Outside)
  : string + Boot :=
  match Load Getenv with
  | None => inl "invalid configuration"
  | Some cfg =>
      let tg := Notifier.Init (TelegramProxyURL cfg) (ProxySecretKey cfg) (TelegramGroupID cfg)
                  (TelegramGroupTopicID cfg) (From cfg) in
      let otel := InitOTel (Getenv "OTEL_EXPORTER_OTLP_ENDPOINT") (Getenv "OTEL_EXPORTER_OTLP_HEADERS") service
                    (o_newMetric o) (o_newTrace o) (o_merge o) in
      match checks cfg with
      | Some msg => inl msg
      | None =>
          match Setup.Init (o_connect o) (DatabaseURL cfg) (ReadDatabaseURLs cfg) (ConnectionLimit cfg)
                  (ConnectionPoolLimit cfg) with
          | inl e => inl (Error e)
          | inr pool =>
              match connect_valkey (ValkeyURI cfg) o with
              | inl msg => inl msg
              | inr valkey =>
                  let q := Queue.New (AMQPURL cfg) (o_dial o) (o_extraction o) (o_sync o) in
                  inr (mk_boot cfg (parse_level (Getenv "LOG_LEVEL")) (choose_format (Env cfg)) tg otel pool valkey q
                         (StartConsumers q)
                         (when (is_Some_b tg) TelegramDrain ++ when (is_Some_b otel) OTelShutdown
                          ++ [StopSignals; PoolClose] ++ when valkey ValkeyClose ++ [QueueClose]))
              end
          end
      end
  end.

Definition key_check (cfg : Config) : option string :=
  if (String.length (EncryptionKey cfg) =? 32)%nat then None else Some "ENCRYPTION_KEY must be exactly 32 bytes".
Definition server_checks (Getenv : string → string) (cfg : Config) : option string :=
  match key_check cfg with
  | Some msg => Some msg
  | None =>
      if decide (SessionSecret cfg = "") then Some "SESSION_SECRET must be configured and non-empty"
      else if negb (dev_env (Env cfg)) && bool_decide (Getenv "HCAPTCHA_SECRET" = "")
      then Some "HCAPTCHA_SECRET must be configured in production"
      else None
  end.

(** *** The scheduler's table *)

Inductive job := JExtraction | JSyncAll | JPrune | JCleanup.
Definition cron_entries : list (string * job) :=
  [("@every 30m", JExtraction); ("@daily", JSyncAll); ("@daily", JPrune); ("@every 15m", JCleanup)].
(** [Start] also runs one at once. *)
Definition started_at_once : list job := [JExtraction].

(** *** The server *)

Inductive session_kind := ValkeySessions | CookieSessions.
Record ServerParts := mk_parts {
  pt_boot : Boot; pt_handlers : Handlers; pt_AdminPassword : string; pt_sessions : session_kind;
  pt_options : cookie_options; pt_cron : list (string * job); pt_defers : list deferred;
  (** the read pools of syncer, handlers, scheduler and admin handlers *)
  pt_reads : list (option pgxpool) }.
Definition handlers_of (Getenv : string → string) (b : Boot) : Handlers := {|
  h_ReadDB := true; h_Valkey := b_valkey b; h_EncryptionKey := EncryptionKey (b_cfg b); h_Env := Env (b_cfg b);
  h_HCAPTCHA_SECRET := Getenv "HCAPTCHA_SECRET"; h_ENV := Getenv "ENV" |}.
Definition syncer_of (b : Boot) : Syncer := {|
  s_ReadDB := true; s_Valkey := b_valkey b; s_OnTelegramEvent := is_Some_b (b_tg b);
  s_EncryptionKey := EncryptionKey (b_cfg b) |}.
Definition server_main (Getenv : string → string) (o : Outside) : string + ServerParts :=
  match boot "contestsync-server" (server_checks Getenv) Getenv o with
  | inl msg => inl msg
  | inr b =>
      match o_Sub o with
      | Some e => inl (Error e)
      | None =>
          inr (mk_parts b (handlers_of Getenv b) (AdminPassword (b_cfg b))
                 (if b_valkey b then ValkeySessions else CookieSessions) (store_options (Env (b_cfg b)))
                 cron_entries (b_defers b ++ [SchedulerStop]) (read_many 4 (b_pool b)))
      end
  end.

(** *** The worker *)

Definition worker_main (Getenv : string → string) (o : Outside) : string + Boot :=
  boot "contestsync-worker" key_check Getenv o.

(** ** Shutdown *)

(** [ServerShutdown] and [AwaitCleanups] give up after the time they carry:
    requests and clean-ups that take longer go on while the rest is closed.
    [QueueDrain] waits for the consumers as [Consumers] describes; stopping the
    scheduler only keeps new jobs from starting. *)
Inductive action :=
| TriggerShutdown | ServerShutdown (within : Z) | AwaitCleanups (within : Z) | QueueDrain | Deferred (d : deferred).
#[export] Instance action_eq_dec : EqDecision action.
Proof. solve_decision. Defined.
(** After the signal; deferred calls run last in, first out. *)
Definition server_shutdown (p : ServerParts) : list action :=
  when (is_Some_b (b_tg (pt_boot p))) TriggerShutdown
  ++ [ServerShutdown (10 * Second); AwaitCleanups (20 * Second); QueueDrain]
  ++ (Deferred <$> reverse (pt_defers p)).
Definition worker_shutdown (b : Boot) : list action :=
  when (is_Some_b (b_tg b)) TriggerShutdown ++ [ServerShutdown (10 * Second); QueueDrain]
  ++ (Deferred <$> reverse (b_defers b)).

(** ** The worker's health check and keep-alive *)

Section Health.
Context {kv : Type} `{!Valkey kv}.
Context (E : Effects.Env).
Local Open Scope go_scope.
Abbreviation Go := (@M kv).

(** The result of [SELECT 1 + 1] is not looked at and the rollback not either. *)
Definition worker_postgres : Go (option error) (option error) :=
  r <- sql_query E true (λ _ _, 2%Z) ;;
  match r with
  | inl e => leave (Some e)
  | inr _ =>
      b <- sql_probe E ;;
      match b with
      | Some e => leave (Some e)
      | None => _ <- sql_probe E ;; ret None
      end
  end.
Definition worker_ping : Go (option error) (option error) := ext (λ n w,
  (match fate_kv E n with Done => None | Lost e | Unacked e => Some e end, w)).
Definition worker_health (AdminPassword pass : string) (post hasValkey : bool) (q : Queue)
  : Go health_reply health_reply :=
  if post then
    if negb (requireAdmin AdminPassword pass) then leave (Refused unauthorized) else
    pg <- measure E (run worker_postgres) ;;
    vk <- (if hasValkey then r <- measure E (run worker_ping) ;; ret (component r, healthy r)
           else ret (not_configured, true)) ;;
    qu <- measure E (λ w, (Health q, w)) ;;
    let services := <["kafka" := component qu]> (<["valkey" := vk.1]> {["postgres" := component pg]}) in
    if healthy pg && vk.2 && healthy qu
    then ret (Report StatusOK (mk_health "ok" services))
    else ret (Report StatusServiceUnavailable (mk_health "degraded" services))
  else ret Plain.
End Health.

(** Which replica a health check asks: [ReadDB] is called twice, once to see
    that it is not nil. *)
Definition worker_probe (p : Pool) : option pgxpool * Pool :=
  let '(_, p) := ReadDB p in ReadDB p.
Fixpoint worker_probes (n : nat) (p : Pool) : list (option pgxpool) :=
  match n with
  | O => []
  | S n => let '(r, p) := worker_probe p in r :: worker_probes n p
  end.

(** [startWorkerKeepAlive]; [parse] is [time.ParseDuration]. *)
Definition keepalive_interval (parse : string → option Z) (val : string) : Z :=
  let interval := 10 * Second in
  if decide (val = "") then interval
  else match parse val with
  | Some d => if 0 <? d then d else interval
  | None => interval
  end.
(** One tick: the counter and the first and the last byte of the buffer. *)
Definition keepalive_tick (nano : Z) (st : Z * (Z * Z)) : Z * (Z * Z) :=
  let count := wrapu64 (st.1 + 1) in (count, (wrap_u 8 count, wrap_u 8 nano)).

(** ** Properties *)

(** What start-up needs from the outside. *)
Definition reachable_services (cfg : Config) (o : Outside) : Prop :=
  (∃ pool, Setup.Init (o_connect o) (DatabaseURL cfg) (ReadDatabaseURLs cfg) (ConnectionLimit cfg)
             (ConnectionPoolLimit cfg) = inr pool) ∧
  (ValkeyURI cfg ≠ "" → o_ParseURL o (ValkeyURI cfg) = None ∧ o_Ping o = None).
(** What the server needs from its configuration. *)
Definition configured (Getenv : string → string) (cfg : Config) : Prop :=
  String.length (EncryptionKey cfg) = 32%nat ∧ SessionSecret cfg ≠ "" ∧
  (dev_env (Env cfg) = true ∨ Getenv "HCAPTCHA_SECRET" ≠ "").

Lemma key_check_None cfg : key_check cfg = None ↔ String.length (EncryptionKey cfg) = 32%nat.
Proof. unfold key_check. destruct (Nat.eqb_spec (String.length (EncryptionKey cfg)) 32); naive_solver. Qed.
Lemma server_checks_None Getenv cfg : server_checks Getenv cfg = None ↔ configured Getenv cfg.
Proof.
  unfold server_checks, configured. rewrite <- key_check_None. destruct (key_check cfg); [naive_solver|].
  case_decide; [naive_solver|]. destruct (dev_env (Env cfg)); simpl; [naive_solver|].
  case_bool_decide; naive_solver.
Qed.
Lemma connect_valkey_inr uri o b :
  connect_valkey uri o = inr b →
  b = bool_decide (uri ≠ "") ∧ (uri ≠ "" → o_ParseURL o uri = None ∧ o_Ping o = None).
Proof.
  unfold connect_valkey. case_decide; [intros [= <-]; by rewrite bool_decide_eq_false_2 by naive_solver|].
  rewrite bool_decide_eq_true_2 by done. destruct (o_ParseURL o uri), (o_Ping o); naive_solver.
Qed.
Lemma connect_valkey_inl uri o msg :
  connect_valkey uri o = inl msg → uri ≠ "" ∧ (o_ParseURL o uri ≠ None ∨ o_Ping o ≠ None).
Proof. unfold connect_valkey. repeat case_match; naive_solver. Qed.
Lemma boot_inr service checks Getenv o b :
  boot service checks Getenv o = inr b →
  Load Getenv = Some (b_cfg b) ∧ checks (b_cfg b) = None ∧ reachable_services (b_cfg b) o ∧
  b_valkey b = bool_decide (ValkeyURI (b_cfg b) ≠ "") ∧
  b_defers b = when (is_Some_b (b_tg b)) TelegramDrain ++ when (is_Some_b (b_otel b)) OTelShutdown
               ++ [StopSignals; PoolClose] ++ when (b_valkey b) ValkeyClose ++ [QueueClose].
Proof.
  unfold boot. destruct (Load Getenv) as [cfg|]; [|done]. destruct (checks cfg) as [m|] eqn:Hc; [done|].
  destruct (Setup.Init _ _ _ _ _) as [e|pool] eqn:Hi; [done|].
  destruct (connect_valkey _ _) as [m|v] eqn:Hv; [done|]. intros [= <-]. simpl.
  apply connect_valkey_inr in Hv as [-> Hv]. split_and!; try done. split; eauto.
Qed.
Lemma boot_inl service checks Getenv o msg :
  boot service checks Getenv o = inl msg →
  Load Getenv = None ∨ ∃ cfg, Load Getenv = Some cfg ∧
    (checks cfg = Some msg ∨ (checks cfg = None ∧ ¬ reachable_services cfg o)).
Proof.
  unfold boot. destruct (Load Getenv) as [cfg|]; [|by left]. intros Hb. right. exists cfg. split; [done|].
  destruct (checks cfg) as [m|] eqn:Hc; [left; congruence|]. right. split; [done|]. intros [[pool Hi] Hv].
  rewrite Hi in Hb. destruct (connect_valkey _ _) as [m|v] eqn:Hx; [|done].
  apply connect_valkey_inl in Hx. naive_solver.
Qed.

Definition config_error : reply := http_Error StatusInternalServerError "captcha configuration error".
Lemma captcha_answers {kv} Getenv b N resp (w : World kv) :
  dev_env (Env (b_cfg b)) = true ∨ Getenv "HCAPTCHA_SECRET" ≠ "" →
  wp (check_captcha N (handlers_of Getenv b) resp) (λ _ _, True) (λ r _, r ≠ config_error) w.
Proof.
  intros Hcap. unfold check_captcha, handlers_of. simpl.
  assert (bool_decide (Getenv "HCAPTCHA_SECRET" = "") && negb (is_dev (Env (b_cfg b))) = false) as ->.
  { destruct Hcap as [Hdev|Hcap]; [|by rewrite bool_decide_eq_false_2].
    rewrite andb_false_iff, negb_false_iff. right. unfold is_dev, dev_env in *.
    apply bool_decide_eq_true in Hdev. apply bool_decide_eq_true. set_solver. }
  destruct (negb _ || negb _); [|by apply wp_ret]. case_decide; [by apply wp_leave|].
  apply wp_bind. unfold verifyHCaptcha. simpl. case_decide.
  - apply wp_ret. by destruct (is_dev _).
  - apply wp_bind, wp_ext. simpl. apply wp_ret. by repeat case_match.
Qed.

(** C30 (error).  The server starts exactly when it can work: the hexadecimal
    secrets decode, the encryption key has the 32 bytes of AES-256, there is a
    session secret, there is a captcha secret unless this is a development
    environment, and Postgres, Valkey if configured, and the embedded files
    are there.  In every other case it ends before anything is served; and a
    server that started never answers that its captcha is not configured. *)
Theorem server_starts Getenv o :
  match server_main Getenv o with
  | inr p =>
      Load Getenv = Some (b_cfg (pt_boot p)) ∧ configured Getenv (b_cfg (pt_boot p)) ∧
      reachable_services (b_cfg (pt_boot p)) o ∧ o_Sub o = None ∧
      NewCipher (h_EncryptionKey (pt_handlers p)) = None ∧
      (pt_sessions p = ValkeySessions ↔ h_Valkey (pt_handlers p) = true) ∧
      (∀ (kv : Type) N resp (w : World kv),
         wp (check_captcha N (pt_handlers p) resp) (λ _ _, True) (λ r _, r ≠ config_error) w)
  | inl _ =>
      Load Getenv = None ∨ ∃ cfg, Load Getenv = Some cfg ∧
        (¬ configured Getenv cfg ∨ ¬ reachable_services cfg o ∨ o_Sub o ≠ None)
  end.
Proof.
  unfold server_main. destruct (boot _ _ Getenv o) as [msg|b] eqn:Hb.
  - apply boot_inl in Hb as [?|(cfg & Hl & [Hc|[Hc Hr]])]; [by left|right..]; exists cfg; split; auto.
    left. rewrite <- server_checks_None. congruence.
  - apply boot_inr in Hb as (Hl & Hc & Hr & Hv & Hd). apply server_checks_None in Hc.
    destruct (o_Sub o) eqn:Ho; [right; exists (b_cfg b); by auto|]. simpl.
    pose proof Hc as (Hk & Hs & Hcap). split_and!; try done.
    + apply NewCipher_None. rewrite Hk. set_solver.
    + by destruct (b_valkey b).
    + intros kv N resp w. by apply captcha_answers.
Qed.

(** [a] happens before [b]. *)
Definition before {A} (a b : A) (l : list A) : Prop := ∃ i j, (i < j)%nat ∧ l !! i = Some a ∧ l !! j = Some b.
Fixpoint position {A} `{EqDecision A} (a : A) (l : list A) : option nat :=
  match l with [] => None | x :: l => if decide (a = x) then Some 0%nat else S <$> position a l end.
Lemma position_lookup {A} `{EqDecision A} (a : A) l i : position a l = Some i → l !! i = Some a.
Proof.
  revert i. induction l as [|x l IH]; intros i; simpl; [done|]. case_decide; [by intros [= <-]; subst|].
  destruct (position a l) as [j|]; simpl; [|done]. intros [= <-]. by apply IH.
Qed.
Definition before_b {A} `{EqDecision A} (a b : A) (l : list A) : bool :=
  match position a l, position b l with Some i, Some j => (i <? j)%nat | _, _ => false end.
Lemma before_b_true {A} `{EqDecision A} (a b : A) l : before_b a b l = true → before a b l.
Proof.
  unfold before_b. destruct (position a l) as [i|] eqn:Hi; [|done]. destruct (position b l) as [j|] eqn:Hj; [|done].
  intros Hlt%Nat.ltb_lt. exists i, j. eauto using position_lookup.
Qed.

(** The order of the calls of a shutdown, which says nothing about what goes
    on beside them. *)
Definition orderly (b : Boot) (acts : list action) : Prop :=
  NoDup acts ∧ before (ServerShutdown (10 * Second)) QueueDrain acts ∧
  before QueueDrain (Deferred QueueClose) acts ∧ before (Deferred QueueClose) (Deferred PoolClose) acts ∧
  (b_valkey b = true → before (Deferred QueueClose) (Deferred ValkeyClose) acts) ∧
  (is_Some_b (b_tg b) = true → last acts = Some (Deferred TelegramDrain)) ∧
  (is_Some_b (b_otel b) = true → before (Deferred PoolClose) (Deferred OTelShutdown) acts).

(** The order in which both programs make the calls of their shutdown: the
    HTTP server and the consumers before the queue, the queue before Valkey and
    Postgres, the telemetry after them and the notifications last, each part
    that was started once. *)
Lemma shutdown_orderly Getenv o :
  (∀ p, server_main Getenv o = inr p →
     orderly (pt_boot p) (server_shutdown p) ∧
     (∀ d, d ∈ pt_defers p ↔ Deferred d ∈ server_shutdown p) ∧
     before (AwaitCleanups (20 * Second)) QueueDrain (server_shutdown p) ∧
     before QueueDrain (Deferred SchedulerStop) (server_shutdown p)) ∧
  (∀ b, worker_main Getenv o = inr b →
     orderly b (worker_shutdown b) ∧ (∀ d, d ∈ b_defers b ↔ Deferred d ∈ worker_shutdown b)).
Proof.
  assert (∀ ds (pre : list action), (∀ d, Deferred d ∉ pre) →
    ∀ d, d ∈ ds ↔ Deferred d ∈ pre ++ (Deferred <$> reverse ds)) as Hdef.
  { intros ds pre Hpre d. rewrite elem_of_app, list_elem_of_fmap. setoid_rewrite elem_of_reverse.
    split; [intros; right; eauto|]. intros [Hd|(d' & [= <-] & Hd)]; [by destruct (Hpre d)|done]. }
  split.
  - intros p. unfold server_main. destruct (boot _ _ Getenv o) as [|b] eqn:Hb; [done|].
    destruct (o_Sub o); [done|]. intros [= <-]. apply boot_inr in Hb as (_ & _ & _ & _ & Hd).
    split_and!.
    2: { unfold server_shutdown. intros d. rewrite (assoc_L (++)). apply Hdef.
         destruct (is_Some_b _); intros ? ?; set_solver. }
    all: unfold orderly, server_shutdown; simpl; rewrite Hd;
      destruct (is_Some_b (b_tg b)), (is_Some_b (b_otel b)), (b_valkey b); split_and?; intros;
      try done; try (apply before_b_true; vm_compute; reflexivity);
      apply (bool_decide_unpack _); vm_compute; exact I.
  - intros b Hb. apply boot_inr in Hb as (_ & _ & _ & _ & Hd). split.
    2: { unfold worker_shutdown. intros d. rewrite (assoc_L (++)). apply Hdef.
         destruct (is_Some_b _); intros ? ?; set_solver. }
    unfold orderly, worker_shutdown. simpl. rewrite Hd.
    destruct (is_Some_b (b_tg b)), (is_Some_b (b_otel b)), (b_valkey b); split_and?; intros;
      try done; try (apply before_b_true; vm_compute; reflexivity);
      apply (bool_decide_unpack _); vm_compute; exact I.
Qed.

(** Whatever the duration parses to, the ticker gets a positive interval,
    without which [time.NewTicker] panics. *)
Lemma keepalive_positive parse val : 0 < keepalive_interval parse val.
Proof.
  unfold keepalive_interval, Second. case_decide; [lia|]. destruct (parse val) as [d|]; [|lia].
  destruct (Z.ltb_spec 0 d); lia.
Qed.


(** With an even number of replicas the health check of the worker never asks
    those at the positions of the parity the counter starts with. *)
Lemma ReadDB_even p :
  reads p ≠ [] → Z.even (Z.of_nat (length (reads p))) = true →
  ∃ j, (ReadDB p).1 = reads p !! j ∧ Z.even (Z.of_nat j) = Z.even (readIdx p) ∧
       reads (ReadDB p).2 = reads p ∧ Z.even (readIdx (ReadDB p).2) = negb (Z.even (readIdx p)).
Proof.
  intros Hne He. unfold ReadDB. destruct (reads p) as [|r rs] eqn:Hr; [done|]. rewrite <- Hr in *. clear Hr r rs.
  exists (Z.to_nat (wrapu64 (wrapu64 (readIdx p + 1) - 1) mod Z.of_nat (length (reads p)))). simpl. split; [done|].
  assert (0 < Z.of_nat (length (reads p))) as Hpos by (destruct (reads p); simpl; [done|lia]).
  assert (∀ a, Z.even (wrapu64 a) = Z.even a) as Hw.
  { intros a. unfold wrap_u. rewrite Z.mod_eq by lia. rewrite Z.even_sub, Z.even_mul. simpl. by destruct (Z.even a). }
  rewrite Z2Nat.id by (apply Z.mod_pos_bound; lia). split_and!; [|done|].
  - rewrite Z.mod_eq by lia. rewrite Z.even_sub, Z.even_mul, He, Hw, Z.even_sub, Hw, Z.even_add. simpl.
    by destruct (Z.even (readIdx p)).
  - rewrite Hw, Z.even_add. simpl. by destruct (Z.even (readIdx p)).
Qed.
Lemma half_probed n p o :
  reads p ≠ [] → Z.even (Z.of_nat (length (reads p))) = true → o ∈ worker_probes n p →
  ∃ j, o = reads p !! j ∧ Z.even (Z.of_nat j) = negb (Z.even (readIdx p)).
Proof.
  revert p. induction n as [|n IH]; intros p Hne He; simpl; [by intros ?%elem_of_nil|]. unfold worker_probe.
  destruct (ReadDB_even p Hne He) as (i & _ & _ & Hr1 & He1). destruct (ReadDB p) as [o1 p1]. simpl in *.
  rewrite <- Hr1 in Hne, He. destruct (ReadDB_even p1 Hne He) as (j & Ho & Hj & Hr2 & He2).
  destruct (ReadDB p1) as [o2 p2]. simpl in *. intros [->|Hin]%elem_of_cons.
  - exists j. by rewrite Ho, Hj, Hr1, He1.
  - rewrite <- Hr2 in Hne, He. destruct (IH p2 Hne He Hin) as (k & -> & Hk). exists k.
    by rewrite Hr2, Hr1, Hk, He2, He1, negb_involutive.
Qed.

(** A start, and the shutdown that follows it.  The parts are given a replica
    at the start and keep it: the handlers always read from the second. *)
Definition demo_env (k : string) : string :=
  default "" ((list_to_map
    [("SESSION_SECRET", "aa"); ("ENCRYPTION_KEY", String.concat "" (replicate 32 "0f"));
     ("POSTGRES_DB", "w"); ("POSTGRES_READ_DB", "r1, r2"); ("VALKEY_URI", "redis://v"); ("AMQP_URL", "amqp://q");
     ("TG_PROXY_URL", "https://t"); ("TG_GROUP_ID", "1")] : gmap string string) !! k).
Definition demo_outside : Outside := {|
  o_connect _ _ := None; o_ParseURL _ := None; o_Ping := None; o_dial := Dialled; o_extraction := []; o_sync := [];
  o_newMetric _ := None; o_newTrace _ := None; o_merge := None; o_Sub := None |}.
Example server_started :
  match server_main demo_env demo_outside with
  | inr p => server_shutdown p =
      [TriggerShutdown; ServerShutdown (10 * Second); AwaitCleanups (20 * Second); QueueDrain; Deferred SchedulerStop;
       Deferred QueueClose; Deferred ValkeyClose; Deferred PoolClose; Deferred StopSignals; Deferred TelegramDrain] ∧
      b_consumers (pt_boot p) = [AMQPExtraction; AMQPSync] ∧ pt_sessions p = ValkeySessions ∧
      ((λ o, from_option pool_url "" o) <$> pt_reads p) = ["r1"; "r2"; "r1"; "r2"]
  | inl _ => False
  end.
Proof. vm_compute. split_and!; reflexivity. Qed.
