(* ===== verification/Scenario.v ===== *)
(** * A concrete run environment

    An environment in which every call succeeds, a small database and the
    instances needed to run the handlers; the witnesses of the theorems and
    the counterexamples of the findings evaluate here. *)

From stdpp Require Import base gmap strings list sets countable.
From Stdlib Require Import ZArith Lia Ascii.
From S2P Require Import Prelude GoStrings Models Database GoTime Auth EventID Effects Syncer.
Local Open Scope Z_scope.

#[export] Instance CachedUser_countable : Countable CachedUser.
Proof.
  refine (inj_countable'
    (λ u, (cu_ID u, cu_GoogleID u, cu_Email u, cu_RefreshToken u, cu_CalendarID u,
           cu_UseDedicated u, cu_Platforms u, cu_HasCalendarAccess u))
    (λ '(a, b, c, d, e, f, g, h), Build_CachedUser a b c d e f g h) _).
  by intros [].
Defined.
#[export] Instance Contest_countable : Countable Contest.
Proof.
  refine (inj_countable'
    (λ c, (ct_ID c, ct_Name c, ct_URL c, ct_StartTime c, ct_EndTime c, ct_Duration c,
           ct_Platform c, ct_UpdatedAt c))
    (λ '(a, b, c, d, e, f, g, h), Build_Contest a b c d e f g h) _).
  by intros [].
Defined.
#[export] Instance codec_user : Codec CachedUser := countable_codec.
#[export] Instance codec_strings : Codec (list string) := countable_codec.
#[export] Instance codec_contests : Codec (list Contest) := countable_codec.
#[export] Existing Instance toy_aead.

(** One second per call, from the year 2033. *)
Definition calm_clock (n : nat) : Z := (2000000000 + Z.of_nat n) * Second.
Definition calm_google (_ : nat) (q : greq) : gresp :=
  match q with
  | EventsInsert _ ev => inr {| ok_Id := ev_Id ev; ok_TimeZone := "" |}
  | CalendarsInsert _ _ => inr {| ok_Id := "calendar-1"; ok_TimeZone := "" |}
  | _ => inr {| ok_Id := ""; ok_TimeZone := "UTC" |}
  end.
Definition calm : Env := {|
  clock := calm_clock; fate_db _ := Done; fate_kv _ := Done; replica _ d := d;
  deliver _ _ l := l; deliver_sub _ _ _ := reflexivity _;
  google := calm_google; new_service _ := None |}.

Definition demo_key : string := "0123456789abcdef0123456789abcdef".
Definition demo_token : string :=
  match EncryptToken (inr "0123456789ab") "refresh" demo_key with inr t => t | inl _ => "" end.
Definition demo_user (gid : string) (ps : list string) : user_row :=
  mk_user gid (gid +:+ "@example.org") (Some demo_token) None false (Some ps) true None pending 0.
Definition demo_contest (p name : string) (start : Z) : contest_row :=
  mk_contest name ("https://" +:+ p +:+ ".com/c") start (start + Hour) 3600 p 0.
(** Two users, two upcoming contests. *)
Definition demo_db : DB := {|
  users := {[ 1 := demo_user "g1" ["codeforces"; "leetcode"]; 2 := demo_user "g2" ["leetcode"] ]};
  users_id_seq := 3;
  contests := {[ "codeforces_2100000000" := demo_contest "codeforces" "Round 1" (2100000000 * Second);
                 "leetcode_2100000000" := demo_contest "leetcode" "Weekly 1" (2100000000 * Second) ]};
  synced_events := ∅; oauth_states := ∅ |}.

Definition demo_world : World kv_map := mk_world 0 demo_db ∅ ∅ [].
Definition demo_syncer : Syncer :=
  {| s_ReadDB := true; s_Valkey := true; s_OnTelegramEvent := true; s_EncryptionKey := demo_key |}.
Definition local_syncer : Syncer :=
  {| s_ReadDB := true; s_Valkey := false; s_OnTelegramEvent := true; s_EncryptionKey := demo_key |}.

Lemma demo_db_wf : wf_db demo_db.
Proof.
  constructor; simpl.
  - intros u c r H. by rewrite lookup_empty in H.
  - intros u c r H. by rewrite lookup_empty in H.
  - intros u c c' r r' H. by rewrite lookup_empty in H.
  - intros i j u v. rewrite !lookup_insert_Some, !lookup_singleton_Some. naive_solver.
  - intros i u. rewrite !lookup_insert_Some, !lookup_singleton_Some. naive_solver.
  - intros i c. rewrite !lookup_insert_Some, !lookup_singleton_Some.
    intros [[_ <-]|[_ [_ <-]]]; simpl; apply (bool_decide_unpack _); vm_compute; exact I.
  - intros i c. rewrite !lookup_insert_Some, !lookup_singleton_Some.
    intros [[_ <-]|[_ [_ <-]]]; unfold in_int; simpl; lia.
  - intros i u. rewrite !lookup_insert_Some, !lookup_singleton_Some. naive_solver lia.
  - done.
Qed.

Example demo_run :
  let r := SyncUser calm demo_syncer 1 demo_world in
  r.1 = None ∧ size (synced_events (db r.2)) = 2%nat.
Proof. vm_compute. done. Qed.
