(* ===== verification/ExtractionSpec.v ===== *)
(** * Properties of extraction tasks

    Which contests an extraction leaves in the table, and that it touches
    those of its own platform only, in any interleaving. *)

From stdpp Require Import base gmap strings list sets.
From Stdlib Require Import ZArith Lia Ascii.
From S2P Require Import Prelude GoStrings Models Database Effects Extractor ExtractorSpec Extraction.
From S2P Require Import Scenario.
Local Open Scope go_scope.

(** ** Isolation of platforms *)

(** Every contest row is stored under the identifier of its platform. *)
Definition ids_ok (d : DB) : Prop :=
  ∀ id row, contests d !! id = Some row →
    c_platform row ∈ Platforms ∧ ∃ t, id = GenerateContestID (c_platform row) t.

(** The contests of platform [q], their synced events and all users. *)
Definition same_platform (q : string) (d d' : DB) : Prop :=
  (∀ id row, c_platform row = q → contests d' !! id = Some row ↔ contests d !! id = Some row) ∧
  (∀ u id row, contests d !! id = Some row → c_platform row = q →
     synced_events d' !! (u, id) = synced_events d !! (u, id)) ∧
  users d' = users d ∧ oauth_states d' = oauth_states d.

#[export] Instance same_platform_preorder q : PreOrder (same_platform q).
Proof.
  split; [done|]. intros d1 d2 d3 (A1 & B1 & U1 & O1) (A2 & B2 & U2 & O2). split_and!.
  - intros id row Hq. by rewrite A2, A1.
  - intros u id row Hr Hq. rewrite (B2 u id row); [by eapply B1|by apply A1|done].
  - congruence.
  - congruence.
Qed.

Lemma extraction_stmt_ids p q now d d' r :
  p ∈ Platforms → extraction_stmt p q → exec now q d = inr (d', r) → ids_ok d → ids_ok d'.
Proof.
  intros Hp Hq He Hids. destruct q; simpl in Hq; try done; simpl in He.
  - simplify_eq. intros id row [Hr _]%delete_contests_lookup. by apply Hids.
  - destruct Hq as [-> [t ->]]. unfold upsert_contest in He. repeat case_decide; simplify_eq/=.
    intros id row. simpl. rewrite lookup_insert_Some. intros [[<- <-]|[_ Hr]]; [|by apply Hids].
    destruct (contests d !! _) as [c|] eqn:Hc; simpl; [by apply Hids in Hc|]. eauto.
Qed.

Lemma extraction_stmt_frame p q s now d d' r :
  p ∈ Platforms → extraction_stmt p s → p ≠ q → ids_ok d → exec now s d = inr (d', r) →
  same_platform q d d'.
Proof.
  intros Hp Hs Hne Hids He. destruct s; simpl in Hs; try done; simpl in He.
  - simplify_eq. assert (∀ id row, c_platform row = q → obsolete now p newIDs id row = false) as Hob.
    { intros id row <-. unfold obsolete. rewrite bool_decide_eq_false_2 by done. done. }
    split_and!; [|intros u id row Hr Hq|done..].
    + intros id row Hq. rewrite delete_contests_lookup. naive_solver.
    + apply option_eq. intros x. rewrite delete_contests_synced. split; [naive_solver|].
      intros Hx. split; [done|]. exists row. apply delete_contests_lookup. auto.
  - destruct Hs as [-> [t ->]]. unfold upsert_contest in He. repeat case_decide; simplify_eq/=.
    split_and!; [|done..]. intros id row Hq. simpl.
    destruct (decide (id = GenerateContestID p t)) as [->|Hid].
    + rewrite lookup_insert_eq. split.
      * intros [= <-]. destruct (contests d !! _) as [c|] eqn:Hc; simpl in Hq; [|congruence].
        apply Hids in Hc as [Hin [t' [Heq _]%GenerateContestID_inj_lemma]]; [congruence|done|done].
      * intros Hc. destruct (Hids _ _ Hc) as [Hin [t' [Heq _]%GenerateContestID_inj_lemma]]; [congruence|done|done].
    + by rewrite lookup_insert_ne.
Qed.

(** The steps of extractions of platforms other than [q]. *)
Definition other_extractions (q : string) (e : effect) : Prop := ∃ p, p ≠ q ∧ extraction_allow p e.

Section Isolation.
Context {kv : Type} `{!Valkey kv}.
Abbreviation W := (World kv).

Lemma other_extractions_steps q (w w' : W) :
  wsteps (other_extractions q) w w' → ids_ok (db w) →
  ids_ok (db w') ∧ same_platform q (db w) (db w').
Proof.
  induction 1 as [w|w1 w2 w3 Hs _ IH]; intros Hids; [done|].
  assert (ids_ok (db w2) ∧ same_platform q (db w1) (db w2)) as [Hids2 Hsame].
  { destruct Hs as [|now s d' r w (p & Hne & Hs & Hp) He| | | | | | | |]; simpl; try done.
    split; [by eapply extraction_stmt_ids|by eapply extraction_stmt_frame]. }
  destruct (IH Hids2) as [Hids3 Hsame3]. split; [done|]. etrans; eassumption.
Qed.

(** C13 (invariant).  Extractions of platforms do not interfere.  Whatever
    the environment answers, a run of the handler for a platform other than
    [q], failing or not, is a sequence of the atomic steps
    [other_extractions q]; and in any interleaving of such steps, hence of any
    number of concurrent runs for other platforms, every contest row stays
    under an identifier of its own platform, and the contests of [q], the
    synced events of those contests and the users stay as they were. *)
Theorem extraction_isolation `{!Fetching} (E : Env) (hasValkey hasTelegram : bool) (q : string) :
  (∀ p (w : W), p ≠ q →
     wsteps (other_extractions q) w (handleExtraction E hasValkey hasTelegram p w).2) ∧
  (∀ w w' : W, ids_ok (db w) → wsteps (other_extractions q) w w' →
     ids_ok (db w') ∧ same_platform q (db w) (db w')).
Proof.
  split; [|intros w w' Hids Hs; by apply other_extractions_steps].
  intros p w Hne. eapply wsteps_mono; [|apply handleExtraction_wsteps]. intros e He. by exists p.
Qed.
End Isolation.

(** ** What an extraction leaves in the table *)

Definition last_with (id : string) (cs : list Extractor.Contest) : option Extractor.Contest :=
  last (filter (λ c, ID c = id) cs).
(** The row of a fetched contest, given the row it replaces. *)
Definition upserted (now : Z) (old : option contest_row) (c : Extractor.Contest) : contest_row :=
  Database.mk_contest (Name c) (URL c) (StartTime c * Second)%Z (EndTime c * Second)%Z (Duration c)
    (from_option c_platform (Platform c) old) now.

Lemma last_with_cons id c cs :
  last_with id (c :: cs) =
  match last_with id cs with
  | Some c' => Some c'
  | None => if decide (ID c = id) then Some c else None
  end.
Proof.
  unfold last_with. rewrite filter_cons. case_decide; [|by destruct (last _)].
  rewrite last_cons. by destruct (last _).
Qed.

Lemma last_with_elem id cs c : last_with id cs = Some c → c ∈ cs ∧ ID c = id.
Proof.
  unfold last_with. intros [l Hl]%last_Some. assert (c ∈ filter (λ c, ID c = id) cs) as Hin.
  { rewrite Hl. set_solver. }
  apply list_elem_of_filter in Hin. naive_solver.
Qed.

Lemma batch_upserts now p cs d :
  Forall (λ c, Platform c = p ∧ (- 2 ^ 31 ≤ Duration c < 2 ^ 31)%Z) cs → p ∈ check_platforms →
  ∃ d', exec_batch now (upsert <$> cs) d = inr d' ∧
    ∀ id, contests d' !! id =
      match last_with id cs with
      | Some c => Some (upserted now (contests d !! id) c)
      | None => contests d !! id
      end.
Proof.
  intros Hcs Hp. revert d. induction Hcs as [|c cs [Hpl Hdur] Hcs IH]; intros d; simpl; [eauto|].
  unfold upsert_contest. rewrite decide_False by lia. rewrite decide_False by (rewrite Hpl; auto).
  destruct (IH (set_contests (insert (ID c) match contests d !! ID c with
     | Some c0 => Database.mk_contest (Name c) (URL c) (StartTime c * Second)%Z (EndTime c * Second)%Z (Duration c) (c_platform c0) now
     | None => Database.mk_contest (Name c) (URL c) (StartTime c * Second)%Z (EndTime c * Second)%Z (Duration c) (Platform c) now
     end) d)) as (d' & Hd' & Hl).
  exists d'. split; [exact Hd'|]. intros id. rewrite Hl, last_with_cons. simpl.
  destruct (decide (ID c = id)) as [<-|Hne]; [|rewrite lookup_insert_ne by done; by destruct (last_with id cs)].
  rewrite lookup_insert_eq. destruct (last_with (ID c) cs) as [c'|] eqn:Hlast.
  - apply last_with_elem in Hlast as [Hin _]. unfold upserted. f_equal.
    rewrite Forall_forall in Hcs. destruct (Hcs _ Hin) as [Hpl' _].
    destruct (contests d !! ID c); simpl; [done|]. f_equal. congruence.
  - unfold upserted. by destruct (contests d !! ID c).
Qed.

(** ** The handler *)

Section Effect.
Context {kv : Type} `{!Valkey kv} `{!Fetching}.
Context (E : Env) (hasValkey hasTelegram : bool).
Abbreviation W := (World kv).
Abbreviation Go := (@M kv).
Abbreviation handle := (handleExtraction E hasValkey hasTelegram).

(** The tail of the handler writes no table and does not fail. *)
Lemma report_quiet p (w : W) :
  wp (_ <- InvalidateContestsCache E hasValkey p ;;
      logDatabaseContestsTelemetry E hasTelegram ;;; ret None : Go (option error) (option error))
    (λ r w', r = None ∧ db w' = db w) (λ _ _, False) w.
Proof.
  apply wp_bind. eapply (wp_mono _ (λ _ w', db w' = db w) _ (λ _ _, False)); [| |by intros ?? []].
  { unfold InvalidateContestsCache. case_match; [|by apply wp_ret].
    apply wp_ext. by destruct (fate_kv E (tick w)). }
  cbn beta. intros _ w1 <-. apply wp_bind, wp_bind, wp_ext. unfold wp.
  destruct (fate_db E (tick w1)); try done. cbv zeta. cbn [fst snd].
  destruct (Nat.eqb _ _); [|done]. by destruct (hasTelegram && _).
Qed.

(** C12 (functional).  A successful extraction: when the fetcher of a platform
    returns contests with durations that fit the column and the database
    answers, the handler returns nil and afterwards, for every identifier, the
    row is the one of the last fetched contest with that identifier, stamped
    with the time of the batch (the third call of the handler); rows of the
    platform that are not fetched any more are gone exactly when they start
    after the time at which the delete (the second call) is executed; all other
    rows are as before. *)
Theorem handleExtraction_effect p cs (w : W) :
  (∀ n, fate_db E n = Done) → fetcher (tick w) p = Some (inr cs) → cs ≠ [] →
  Forall (λ c, - 2 ^ 31 ≤ Duration c < 2 ^ 31)%Z cs →
  (handle p w).1 = None ∧
  let t := clock E (S (tick w)) in
  let t' := clock E (S (S (tick w))) in
  ∀ id, contests (db (handle p w).2) !! id =
    match last_with id cs with
    | Some c => Some (upserted t' (contests (db w) !! id) c)
    | None =>
        match contests (db w) !! id with
        | Some row => if bool_decide (c_platform row = p) && (t <? c_start row)%Z then None else Some row
        | None => None
        end
    end.
Proof.
  intros Hdb Hf Hne Hdur. pose proof (fetcher_from _ _ _ Hf) as Hfrom.
  assert (p ∈ check_platforms) as Hp.
  { destruct cs as [|c cs]; [done|]. by destruct (Hfrom _ c eq_refl ltac:(by left)) as (_ & _ & _ & ?). }
  unfold handleExtraction.
  cbv zeta. apply (wp_run _ (λ r w', r = None ∧ ∀ id, contests (db w') !! id = _)).
  apply wp_bind, wp_ext. simpl. rewrite Hf. destruct cs as [|c0 cs0] eqn:Hcs; [done|]. rewrite <- Hcs in *.
  apply wp_bind. eapply wp_sql_done; [apply Hdb|done|]. cbn beta.
  set (t := clock E (S (tick w))). set (w1 := bump (log _ _)). assert (db w1 = delete_contests (obsolete t p (ID <$> cs)) (db w)) as Hdb1 by done.
  assert (tick w1 = S (S (tick w))) as Ht1 by done.
  clearbody w1. destruct (batch_upserts (clock E (tick w1)) p cs (db w1)) as (d' & Hb & Hl); [|done|].
  { apply Forall_forall. intros c Hc. split; [by destruct (Hfrom _ c eq_refl Hc)|].
    rewrite Forall_forall in Hdur. by apply Hdur. }
  apply wp_bind, wp_ext. rewrite Hdb, Hb. cbn [fst snd]. set (w2 := bump _).
  assert (db w2 = d') as Hdb2.
  { unfold w2. simpl. clear. generalize (upsert <$> cs) as l. intros l.
    enough (∀ v : W, db (foldl (λ w s, log (EvSql s true) w) v l) = db v) as Hfold by apply Hfold.
    induction l as [|x l IH]; intros v; simpl; [done|]. by rewrite IH. }
  clearbody w2. eapply wp_mono; [apply report_quiet| |by intros ?? []]. cbn beta.
  intros r w3 [-> Hdb3]. split; [done|]. intros id. rewrite Hdb3, Hdb2, Hl, Hdb1, Ht1.
  assert (∀ row, contests (db w) !! id = Some row → obsolete t p (ID <$> cs) id row =
    bool_decide (c_platform row = p) && (t <? c_start row)%Z && bool_decide (id ∉ ID <$> cs)) as Hob by done.
  assert (contests (delete_contests (obsolete t p (ID <$> cs)) (db w)) !! id =
    match contests (db w) !! id with
    | Some row => if obsolete t p (ID <$> cs) id row then None else Some row
    | None => None
    end) as Hdel.
  { apply option_eq. intros row. rewrite delete_contests_lookup.
    destruct (contests (db w) !! id) as [row'|]; [|naive_solver].
    destruct (obsolete t p (ID <$> cs) id row') eqn:Ho; naive_solver congruence. }
  rewrite Hdel. destruct (last_with id cs) as [c|] eqn:Hlast.
  - apply last_with_elem in Hlast as [Hin Hid]. destruct (contests (db w) !! id) as [row|]; [|done].
    rewrite (Hob row eq_refl), (bool_decide_eq_false_2 (id ∉ ID <$> cs)), andb_false_r; [done|].
    intros Hn. apply Hn, list_elem_of_fmap. eauto.
  - destruct (contests (db w) !! id) as [row|]; [|done].
    rewrite (Hob row eq_refl), (bool_decide_eq_true_2 (id ∉ ID <$> cs)), andb_true_r; [done|].
    intros (c & -> & Hin)%list_elem_of_fmap. apply last_None in Hlast.
    assert (c ∈ filter (λ c', ID c' = ID c) cs) as Hc by (by apply list_elem_of_filter).
    rewrite Hlast in Hc. by apply elem_of_nil in Hc.
Qed.

(** Property (safety).  An extraction that fetches nothing leaves everything alone:
    for an unknown platform, a failed fetch or an empty result the tables, the
    store and the trace are untouched, and only the first two are errors. *)
Theorem handleExtraction_idle p (w : W) :
  (∀ cs, fetcher (tick w) p = Some (inr cs) → cs = []) →
  (handle p w).2 = bump w ∧
  ((handle p w).1 = None ↔ fetcher (tick w) p = Some (inr [])).
Proof.
  intros Hnone. unfold handleExtraction, run, bind, fetch_contests, ext.
  destruct (fetcher (tick w) p) as [[e|cs]|] eqn:Hf; simpl; try done.
  rewrite (Hnone cs eq_refl). done.
Qed.
End Effect.

(** ** Concrete runs *)

(** A web on which Codeforces announces two rounds that start together. *)
Definition demo_round (id : Z) (name : string) : cf_contest :=
  mk_cf (GoFloat.float64_of_int id) name "BEFORE" (GoFloat.float64_of_int 2200000000)
    (GoFloat.float64_of_int 7200).
Definition demo_web : Web := {|
  web_NewRequest _ := None; web_Do _ _ := Response 200 "";
  json_codeforces _ := inr {| cf_Status := "OK"; cf_Result := [demo_round 1 "Div 1"; demo_round 2 "Div 2"] |};
  json_code360 _ := inr []; json_leetcode _ := inr {| lc_Errors := []; lc_Contests := [] |};
  json_geeksforgeeks _ := inr []; json_codechef _ := inr []; json_hackerrank _ := inr [];
  web_url_Parse _ := inl (errorf ""); web_now := 2000000000 |}.
#[local] Instance demo_fetching : Fetching := web_fetching (λ _, demo_web).
Definition demo_rounds : list Extractor.Contest :=
  omap (codeforces_contest 2000000000) [demo_round 1 "Div 1"; demo_round 2 "Div 2"].
Definition extracted : World kv_map := (handleExtraction calm true true "codeforces" demo_world).2.

Lemma handleExtraction_effect_witness :
  (handleExtraction calm true true "codeforces" demo_world).1 = None ∧
  contests (db extracted) !! "codeforces_2100000000" = None.
Proof.
  destruct (handleExtraction_effect calm true true "codeforces" demo_rounds demo_world) as [Hr Hl].
  - done.
  - vm_compute. reflexivity.
  - vm_compute. discriminate.
  - apply (bool_decide_unpack _). vm_compute. exact I.
  - split; [exact Hr|]. cbv zeta in Hl. unfold extracted. rewrite Hl. vm_compute. reflexivity.
Defined.

Lemma handleExtraction_idle_witness :
  (handleExtraction calm true true "topcoder" demo_world).2 = bump demo_world.
Proof.
  apply (handleExtraction_idle calm true true "topcoder" demo_world).
  intros cs Hcs. vm_compute in Hcs. discriminate Hcs.
Defined.

Lemma extraction_isolation_witness :
  ids_ok (db extracted) ∧ same_platform "leetcode" demo_db (db extracted).
Proof.
  destruct (extraction_isolation (kv := kv_map) calm true true "leetcode") as [Hrun Hiso].
  apply (Hiso demo_world).
  - intros id row. simpl. rewrite !lookup_insert_Some, lookup_singleton_Some.
    intros [[<- <-]|[_ [<- <-]]]; (split; [apply (bool_decide_unpack _); vm_compute; exact I|]);
      exists 2100000000%Z; vm_compute; reflexivity.
  - apply Hrun. discriminate.
Defined.

(** Two rounds of one platform that start at the same second are one row, and
    the earlier one in the list is lost. *)
Example simultaneous_contests_collide :
  Name <$> demo_rounds = ["Div 1"; "Div 2"] ∧
  c_name <$> contests (db extracted) !! "codeforces_2200000000" = Some "Div 2" ∧
  size (contests (db extracted)) = 2%nat.
Proof. vm_compute. done. Qed.
