(* ===== verification/SchedulerSpec.v ===== *)
(** * Properties of the cron jobs *)

From stdpp Require Import base gmap strings list sets.
From Stdlib Require Import ZArith Lia Ascii.
From S2P Require Import Prelude GoStrings Models Database Effects Extractor ExtractorSpec Extraction.
From S2P Require Import Queue Scheduler Scenario.
Local Open Scope go_scope.

Section Spec.
Context {kv : Type} `{!Valkey kv}.
Context (E : Env).
Abbreviation W := (World kv).

(** What arrives at the broker, and what the caller is told. *)
Definition arrives (p : publication) : bool := match p with Stored | MaybeSent _ => true | _ => false end.
Definition told (p : publication) : option error := match p with NotSent e | MaybeSent e => Some e | _ => None end.

Lemma publish_page_users pub us q : (publish_page pub us q).1.*1 = us.
Proof.
  revert q. induction us as [|u us IH]; intros q; simpl; [done|].
  destruct (PublishSyncTask _ _ _ _ _) as [err q1]. specialize (IH q1).
  destruct (publish_page pub us q1) as [log q2]. exact (f_equal (cons u) IH).
Qed.
Lemma publish_page_broker pub us q :
  inMemory q = false → is_open q (AMQPChannel q) = true →
  broker_sync (publish_page pub us q).2 = broker_sync q ++ ((λ u, mk_task u 0%Z) <$> filter (λ u, arrives (pub u) = true) us) ∧
  (publish_page pub us q).1 = (λ u, (u, told (pub u))) <$> us.
Proof.
  revert q. induction us as [|u us IH]; intros q Hm Ho; simpl; [by rewrite app_nil_r|].
  unfold PublishSyncTask. rewrite Hm. unfold publish. rewrite Ho. rewrite filter_cons.
  destruct (pub u) as [| |e|e] eqn:Hp; simpl;
    match goal with |- context[publish_page pub us ?q1] =>
      destruct (IH q1 Hm Ho) as [H1 H2]; destruct (publish_page pub us q1) as [log q2] end; simpl in *;
    rewrite H1, H2; (split; [by rewrite <- ?app_assoc|done]).
Qed.
Lemma publish_page_memory pub us q :
  inMemory q = true →
  syncCh (publish_page pub us q).2 = syncCh q ++ take (capSync - length (syncCh q)) us ∧
  (publish_page pub us q).1 =
    ((λ u, (u, None)) <$> take (capSync - length (syncCh q)) us) ++
    ((λ u, (u, Some (errorf "in-memory sync queue is full"))) <$> drop (capSync - length (syncCh q)) us).
Proof.
  revert q. induction us as [|u us IH]; intros q Hm; simpl; [rewrite take_nil, drop_nil, app_nil_r; done|].
  unfold PublishSyncTask. rewrite Hm. unfold select_send.
  destruct (Nat.ltb_spec (length (syncCh q)) capSync) as [Hc|Hc]; simpl;
    match goal with |- context[publish_page pub us ?q1] =>
      destruct (IH q1 Hm) as [H1 H2]; destruct (publish_page pub us q1) as [log q2] end; simpl in *; rewrite H1, H2.
  - rewrite length_app. simpl. replace (capSync - length (syncCh q))%nat with (S (capSync - (length (syncCh q) + 1))) by lia.
    cbn [take drop fmap list_fmap app]. by rewrite <- app_assoc.
  - replace (capSync - length (syncCh q))%nat with 0%nat by lia. rewrite !take_0, !drop_0. by rewrite app_nil_r.
Qed.

(** C29 (liveness).  The daily job reaches every user: when the queries are
    answered completely, the paging loop ends within one page more than the
    users fill, and it calls [PublishSyncTask] exactly once for each user that
    has calendar access and a refresh token and for nobody else, whatever
    becomes of each publication.  With an open connection every task whose
    publication arrives is appended to the broker's queue, and an error of one
    does not keep the others from being published; in memory the users are
    appended to the channel as far as it has room, and those beyond are
    answered with an error. *)
Theorem SyncAllUsers_every_user hasEvent pub fuel q (w : W) :
  (∀ n, fate_db E n = Done) → (∀ n d, replica E n d = d) →
  (∀ n A (l : list A), deliver E n l ≡ₚ l) →
  (length (syncable_ids (db w)) < fuel * pageLimit)%nat →
  match SyncAllUsers (R := unit) E hasEvent pub fuel q w with
  | (inr (log, q', finished), _) =>
      let us := log.*1 in
      finished = true ∧ NoDup us ∧
      (∀ i, i ∈ us ↔ ∃ u, users (db w) !! i = Some u ∧ syncable u = true) ∧
      (inMemory q = false → is_open q (AMQPChannel q) = true →
         broker_sync q' = broker_sync q ++ ((λ u, mk_task u 0%Z) <$> filter (λ u, arrives (pub u) = true) us) ∧
         log = (λ u, (u, told (pub u))) <$> us) ∧
      (inMemory q = true →
         syncCh q' = syncCh q ++ take (capSync - length (syncCh q)) us ∧
         log = ((λ u, (u, None)) <$> take (capSync - length (syncCh q)) us) ++
               ((λ u, (u, Some (errorf "in-memory sync queue is full"))) <$> drop (capSync - length (syncCh q)) us))
  | (inl _, _) => False
  end.
Proof.
  intros Hdb Hrep Hdel Hlen.
  assert (wp (SyncAllUsers E hasEvent pub fuel q : @M kv unit _)
    (λ r _, r.2 = true ∧ ∃ us, us ≡ₚ syncable_ids (db w) ∧ r.1 = publish_page pub us q) (λ _ _, False) w) as Hwp.
  { unfold SyncAllUsers. apply wp_bind.
    assert (0 < fuel)%nat as Hf by (destruct fuel; [simpl in Hlen; lia|lia]).
    assert (∀ w1, db w1 = db w → wp (sync_pages E pub fuel 0 q : @M kv unit _)
      (λ r _, r.2 = true ∧ ∃ us, us ≡ₚ syncable_ids (db w) ∧ r.1 = publish_page pub us q) (λ _ _, False) w1) as Hgo.
    { intros w1 Hw1. eapply wp_mono; [apply sync_pages_rest; [done..| |done]| |by intros ?? []].
      - rewrite Hw1. lia.
      - cbn beta. intros r w2 (_ & H1 & us & H2 & H3). rewrite Hw1, drop_0 in H2. eauto. }
    case_match; [|by apply wp_ret, Hgo]. by apply Hgo. }
  unfold wp in Hwp. destruct (SyncAllUsers _ _ _ _ _ _) as [[|[[log q'] fin]] w1]; [done|]. simpl in Hwp.
  destruct Hwp as (-> & us & Hus & Hlog). assert (log = (publish_page pub us q).1) as -> by (by rewrite <- Hlog).
  assert (q' = (publish_page pub us q).2) as -> by (by rewrite <- Hlog). cbv zeta. rewrite publish_page_users.
  split_and!; [done|rewrite Hus; apply syncable_ids_NoDup| |by apply publish_page_broker|by apply publish_page_memory].
  intros i. rewrite Hus. apply syncable_ids_elem.
Qed.

(** Contests that ended before [t] and accounts ungranted at [t'] are gone,
    everything else of the two tables is there, no contests are cached. *)
Definition pruned (t t' : Z) (w w' : W) : Prop :=
  (∀ id row, contests (db w') !! id = Some row ↔
     contests (db w) !! id = Some row ∧ (t ≤ c_end row)%Z) ∧
  (∀ i u, users (db w') !! i = Some u ↔ users (db w) !! i = Some u ∧ ungranted t' u = false) ∧
  ∀ p n, p ∈ Platforms → vk_get n (ContestsCacheKey p) (store w') = None.

(** C40 (functional).  The daily prune removes exactly the contests that have
    ended and the accounts without a token older than a day, each at the time
    its statement ran, and no platform's cached contests survive it. *)
Theorem PruneOldData_effect hasEvent (w : W) :
  (∀ n, fate_db E n = Done) → (∀ n e, fate_kv E n ≠ Lost e) →
  pruned (clock E (tick w)) (clock E (S (tick w))) w (PruneOldData E true true hasEvent w).2.
Proof.
  intros Hdb Hkv. enough (wp (PruneOldData E true true hasEvent)
    (λ _, pruned (clock E (tick w)) (clock E (S (tick w))) w) (λ _ _, False) w) as Hwp.
  { unfold wp in Hwp. by destruct (PruneOldData _ _ _ _ w) as [[] w1]. }
  unfold PruneOldData. apply wp_bind. eapply wp_sql_done; [apply Hdb|done|]. set (w1 := bump _).
  assert (db w1 = delete_contests (λ _ c, (c_end c <? clock E (tick w))%Z) (db w)) as Hdb1 by done.
  assert (tick w1 = S (tick w)) as <- by done. clearbody w1.
  apply wp_bind. eapply wp_sql_done; [apply Hdb|done|]. cbn beta zeta iota. set (w2 := bump _).
  assert (db w2 = delete_users (λ _ u, ungranted (clock E (tick w1)) u) (db w1)) as Hdb2 by done.
  clearbody w2. apply wp_bind.
  assert (∀ w3, db w3 = db w2 → wp (foreach (λ _ p, _ <- InvalidateContestsCache E true p ;; ret tt) Platforms tt)
    (λ _, pruned (clock E (tick w)) (clock E (tick w1)) w) (λ (_ : unit) _, False) w3) as Hgo.
  { intros w3 Hw3. eapply wp_mono; [by apply invalidate_absent| |by intros ?? []]. cbn beta.
    intros _ w4 [Hw4 Hkeys]. unfold pruned. rewrite Hw4, Hw3, Hdb2. split_and!; [| |done].
    - intros id row. change (contests (delete_users ?p ?d)) with (contests d).
      rewrite Hdb1, delete_contests_lookup, Z.ltb_ge. done.
    - intros i u. rewrite delete_users_lookup, Hdb1. done. }
  case_match; [by apply Hgo|by apply wp_ret, Hgo].
Qed.
End Spec.

(** ** Concrete runs *)

(** The second publication fails; the first task is on the broker. *)
Definition demo_pub (u : Z) : publication := if decide (u = 2%Z) then NotSent (errorf "closed") else Stored.
Definition demo_queue : Queue := New "amqp://q" Dialled [] [].
Lemma SyncAllUsers_every_user_witness :
  match SyncAllUsers (R := unit) calm true demo_pub 1 demo_queue demo_world with
  | (inr (log, q', finished), _) => finished = true ∧ NoDup log.*1 ∧ broker_sync q' = [mk_task 1%Z 0%Z]
  | (inl _, _) => False
  end.
Proof.
  pose proof (SyncAllUsers_every_user calm true demo_pub 1 demo_queue demo_world
    (λ _, eq_refl) (λ _ _, eq_refl) (λ _ _ _, reflexivity _) ltac:(vm_compute; repeat constructor)) as H.
  assert (match SyncAllUsers (R := unit) calm true demo_pub 1 demo_queue demo_world with
    | (inr (log, _, _), _) => log.*1 = [1; 2]%Z | (inl _, _) => False end) as Hl by (vm_compute; reflexivity).
  destruct (SyncAllUsers calm true demo_pub 1 demo_queue demo_world) as [[|[[log q'] fin]] w]; [exact H|].
  destruct H as (H1 & H2 & _ & H4 & _). split_and!; [exact H1|exact H2|].
  rewrite (proj1 (H4 eq_refl eq_refl)), Hl. vm_compute. reflexivity.
Defined.
Lemma PruneOldData_effect_witness :
  vk_get 0 (ContestsCacheKey "leetcode") (store (PruneOldData calm true true true demo_world).2) = None.
Proof.
  apply (PruneOldData_effect calm true demo_world); [done|done|].
  apply (bool_decide_unpack _). vm_compute. exact I.
Defined.
