(* ===== verification/SyncSpec.v ===== *)
(** * Properties of the synchronisation engine

    Isolation, lock, status and soundness of [SyncUser], each with the
    concrete run that witnesses its hypotheses. *)

From stdpp Require Import base gmap strings list sets.
From Stdlib Require Import ZArith Lia Ascii.
From S2P Require Import Prelude GoStrings Models Database GoTime Auth EventID Effects Syncer.
From S2P Require Import SyncerFacts SyncSound SyncOutcome SyncComplete Scenario.
Local Open Scope go_scope.

(** The steps others may take while [userID] holds its lock: the body of any
    synchronisation, and everything of synchronisations of other users. *)
Definition lock_free (userID : Z) (e : effect) : Prop :=
  (∃ u, sync_allow u e) ∨ (∃ u, u ≠ userID ∧ syncuser_allow u e).

Lemma lock_free_lock userID : ¬ lock_free userID (FKv (syncLockKey userID)).
Proof.
  intros [[u Hu]|(u & Hne & [Hu|[Hu|Hu]])]; try done.
  - by apply sync_allow_not_lock in Hu.
  - by apply sync_allow_not_lock in Hu.
  - injection Hu as Hu%(inj Itoa). done.
Qed.

Section Spec.
Context {kv : Type} `{!Valkey kv} `{!AEAD}
  `{!Codec CachedUser} `{!Codec (list string)} `{!Codec (list Contest)}.
Context (E : Env) (s : Syncer).
Abbreviation W := (World kv).

(** C6 (invariant).  Synchronising a user keeps the schema's integrity and
    leaves every other user's row and synced events, the contests and the
    OAuth states exactly as they were, whatever fails on the way. *)
Theorem SyncUser_isolation userID v (w : W) :
  wf_db (db w) → userID ≠ v →
  wf_db (db (SyncUser E s userID w).2) ∧ same_for v (db w) (db (SyncUser E s userID w).2).
Proof. intros Hwf Hv. apply others_steps; [by apply SyncUser_others|done]. Qed.

(** Property (safety).  [SyncUser] writes no Valkey key but its user's profile,
    synced set, last-sync time and lock and the contests of platforms: any
    other key reads the same at any time, sessions, rate limits and other
    users' keys included. *)
Theorem SyncUser_key_frame userID vk t (w : W) :
  ¬ sync_key userID vk → vk ≠ KLock userID →
  vk_get t (render vk) (store (SyncUser E s userID w).2) = vk_get t (render vk) (store w).
Proof.
  intros H1 H2. apply (wsteps_kv_frame (syncuser_allow userID)).
  - by apply sync_key_frame.
  - apply SyncUser_wsteps.
Qed.

(** C4 (safety).  Mutual exclusion: once a process has taken the lock of
    [userID] at time [t0], and whatever steps synchronisations take that are
    not the release itself, a second [SyncUser] that starts within the five
    minutes of the lock's lifetime is turned away and touches neither the
    database nor Google. *)
Theorem SyncUser_mutex userID t0 st0 (w1 w2 : W) :
  s_Valkey s = true →
  store w1 = vk_set t0 (syncLockKey userID) "1" syncLockTTL st0 →
  wsteps (lock_free userID) w1 w2 →
  (t0 ≤ clock E (tick w2) < t0 + syncLockTTL)%Z → fate_kv E (tick w2) = Done →
  SyncUser E s userID w2 = (Some already_syncing, bump w2).
Proof.
  intros Hv Hst Hsteps Ht Hf.
  assert (vk_get (clock E (tick w2)) (syncLockKey userID) (store w2) = Some "1") as Hget.
  { rewrite (wsteps_kv_frame (lock_free userID) _ w1 w2) by (done || apply lock_free_lock).
    rewrite Hst. by apply vk_get_set_eq. }
  unfold SyncUser, run. rewrite Hv. unfold bind, kv_setnx, ext, vk_setnx.
  rewrite Hget, Hf. simpl. by rewrite set_store_same.
Qed.

(** C5 (safety).  What becomes of the lock on every path.  A run that took the
    lock leaves it free, whether it succeeded, failed or deleted the account,
    unless its last call, the [DEL], was lost.  A run that is turned away or
    cannot reach Valkey leaves the store as it was, so it never takes the lock
    away from another.  The one path that leaves the lock taken is a [SETNX]
    that took effect although its answer was an error: the run gives up
    without the [DEL], and the lock stays until its five minutes are over. *)
Theorem SyncUser_unlocks userID (w : W) :
  s_Valkey s = true →
  let now := clock E (tick w) in
  let '(r, w') := SyncUser E s userID w in
  match fate_kv E (tick w), vk_get now (syncLockKey userID) (store w) with
  | Done, None =>
      (∀ e, fate_kv E (pred (tick w')) ≠ Lost e) → ∀ t, vk_get t (syncLockKey userID) (store w') = None
  | Done, Some _ => r = Some already_syncing ∧ w' = bump w
  | Lost e, _ => r = Some e ∧ w' = bump w
  | Unacked e, Some _ => r = Some e ∧ w' = bump w
  | Unacked e, None =>
      r = Some e ∧ db w' = db w ∧ trace w' = trace w ∧
      (∀ t, (now ≤ t < now + syncLockTTL)%Z → vk_get t (syncLockKey userID) (store w') = Some "1") ∧
      ∀ t, (now + syncLockTTL ≤ t)%Z → vk_get t (syncLockKey userID) (store w') = None
  end.
Proof.
  intros Hv. cbv zeta. destruct (SyncUser E s userID w) as [r w'] eqn:Hrun.
  destruct (vk_get (clock E (tick w)) (syncLockKey userID) (store w)) as [v|] eqn:Hg, (fate_kv E (tick w)) as [|e|e] eqn:Hf.
  4: { intros Hl t. rewrite (SyncUser_acquired E s userID w Hv Hf Hg) in Hrun. injection Hrun as <- <-.
       rewrite release_tick in Hl. by apply release_absent. }
  all: revert Hrun; unfold SyncUser, run; rewrite Hv; unfold bind, kv_setnx, ext, vk_setnx; rewrite Hg, Hf; simpl;
    rewrite ?set_store_same; intros [= <- <-]; split_and?; try done; simpl.
  - intros t Ht. by apply vk_get_set_eq.
  - intros t Ht. by apply vk_get_set_expired.
Qed.

(** Property (safety).  Without Valkey the process-wide set plays the lock: a user
    in it is turned away with nothing touched, a user not in it is taken out
    again on every path. *)
Theorem SyncUser_local_lock userID (w : W) :
  s_Valkey s = false →
  if decide (userID ∈ syncingUsers w)
  then SyncUser E s userID w = (Some already_syncing, w)
  else syncingUsers (SyncUser E s userID w).2 = syncingUsers w.
Proof.
  intros Hv. unfold SyncUser, run. rewrite Hv. unfold bind, load_or_store.
  destruct (decide (userID ∈ syncingUsers w)) as [Hin|Hni].
  - rewrite bool_decide_eq_true_2 by done. simpl. unfold leave.
    replace ({[userID]} ∪ syncingUsers w) with (syncingUsers w) by set_solver. by destruct w.
  - rewrite bool_decide_eq_false_2 by done. unfold call, deferring.
    pose proof (sync_locked_local E s userID (set_local ({[userID]} ∪ syncingUsers w) w)) as Hl.
    destruct (sync_locked E s userID _) as [r w1]. simpl in *. rewrite Hl. set_solver.
Qed.

(** C2 (safety).  Nothing is recorded that Google did not confirm: every row
    of [synced_events] of the user after a synchronisation was there before,
    or during it Google answered an insert of that contest's event with the
    recorded identifier, or accepted the update of the event with the
    deterministic identifier after a conflict. *)
Theorem SyncUser_records_confirmed userID (w : W) :
  ∃ gid l, trace (SyncUser E s userID w).2 = trace w ++ l ∧
    ∀ c r, synced_events (db (SyncUser E s userID w).2) !! (userID, c) = Some r →
      synced_events (db w) !! (userID, c) = Some r ∨ confirmed_by gid l c (google_event_id r).
Proof. destruct (SyncUser_justified E s userID w) as (gid & l & Hl). by exists gid, l. Qed.

(** C10 (functional).  Either the synchronisation fails before it touches the
    database, or the first statement it sends is the one that sets the status
    to [syncing] and the last one sets it to [success] when [SyncUser] returns
    nil and to [failed] otherwise; if that last statement took effect and the
    user still exists, this is the user's status. *)
Theorem SyncUser_status userID (w : W) :
  ∃ l, trace (SyncUser E s userID w).2 = trace w ++ l ∧
    ((SyncUser E s userID w).1 ≠ None ∧ no_sql l ∧ db (SyncUser E s userID w).2 = db w ∨
     ∃ b b' l0 l1 l2,
       l = l0 ++ EvSql (UpdateSyncing userID) b :: l1
           ++ EvSql (UpdateStatus (status_of (SyncUser E s userID w).1) userID) b' :: l2 ∧
       no_sql l0 ∧ no_sql l2 ∧
       (b' = true → ∀ u, users (db (SyncUser E s userID w).2) !! userID = Some u →
          sync_status u = status_of (SyncUser E s userID w).1)).
Proof.
  destruct (SyncUser_bracketed E s userID w) as
    [[Hr (Hdb & l & Hl & Hn)]|(w1 & w2 & w3 & b & (_ & l0 & T1 & N0) & T2 & Hs & b' & l2 & T4 & N2 & Hst)].
  - exists l. split; [done|]. by left.
  - apply wsteps_trace in Hs as [l1 T3]. eexists. split; [|right; exists b, b', l0, l1, l2; by split].
    rewrite T4, T3, T2, T1, <- !app_assoc. done.
Qed.

(** C3 (safety).  An account is deleted only when Google said, in the same
    run, that its token is revoked or expired; and once the deletion has taken
    effect nothing of the account is left at the end, neither the user nor
    any synced event, whatever the rest of the run does. *)
Theorem SyncUser_deletes_revoked userID (w : W) :
  ∃ l, trace (SyncUser E s userID w).2 = trace w ++ l ∧
    (∀ b, EvSql (DeleteUser userID) b ∈ l →
       ∃ q e, EvGoogle q (inl e) ∈ l ∧ revoked e = true) ∧
    (EvSql (DeleteUser userID) true ∈ l → gone userID (db (SyncUser E s userID w).2)).
Proof.
  destruct (SyncUser_deleted_revoked E s userID w) as (l & Hl & Hd).
  destruct (SyncUser_deletion_final E s userID w) as (l' & Hl' & _ & Hg).
  exists l. assert (l' = l) as -> by (rewrite Hl in Hl'; by simplify_eq). done.
Qed.

(** C1 (liveness).  Completeness: when the services answer and Valkey is not
    configured, a user with a readable token is synchronised: [SyncUser]
    returns nil and the status is [success], every contest of a selected
    platform that starts after the last clock reading of the run is recorded
    (its row exists or its event identifier is already taken), and every row
    left is of a selected platform. *)
Theorem SyncUser_complete userID u tok p (w : W) :
  reliable E → s_Valkey s = false → userID ∉ syncingUsers w → wf_db (db w) →
  users (db w) !! userID = Some u → refresh_token u = Some tok →
  DecryptToken tok (s_EncryptionKey s) = inr p →
  let w' := (SyncUser E s userID w).2 in
  (SyncUser E s userID w).1 = None ∧
  (∃ u', users (db w') !! userID = Some u' ∧ sync_status u' = success) ∧
  (∀ c row, contests (db w) !! c = Some row → c_platform row ∈ default [] (platforms u) →
     (∀ n, (n < tick w')%nat → (clock E n < c_start row)%Z) →
     recorded userID (google_id u) (db w') c) ∧
  (∀ c r, synced_events (db w') !! (userID, c) = Some r →
     ∃ row, contests (db w) !! c = Some row ∧ c_platform row ∈ default [] (platforms u)).
Proof.
  intros HE Hv Hni Hwf Hu Htok Hdec. unfold SyncUser, run. rewrite Hv. unfold bind, load_or_store.
  rewrite bool_decide_eq_false_2 by done. unfold call, deferring.
  set (w1 := set_local _ w).
  destruct (sync_locked_complete E s userID HE Hv (contests (db w)) (google_id u) u tok
    (default [] (platforms u)) w1) as [Hr [(Hp & Hs & Ha) Hst]]; try done; [by exists p|].
  destruct (sync_locked E s userID w1) as [r w2]. simpl in *. by split_and!.
Qed.
End Spec.

(** ** Concrete runs *)

Lemma SyncUser_isolation_witness :
  wf_db (db (SyncUser calm demo_syncer 1 demo_world).2) ∧
  same_for 2 demo_db (db (SyncUser calm demo_syncer 1 demo_world).2).
Proof. apply (SyncUser_isolation calm demo_syncer 1 2 demo_world); [exact demo_db_wf|lia]. Defined.

Lemma SyncUser_key_frame_witness :
  vk_get 0 (render (KUser 2)) (store (SyncUser calm demo_syncer 1 demo_world).2) = None.
Proof.
  rewrite (SyncUser_key_frame calm demo_syncer 1 (KUser 2) 0 demo_world); [done|simpl; lia|done].
Defined.

Lemma SyncUser_mutex_witness :
  let w1 := mk_world 1 demo_db (vk_set (calm_clock 0) (syncLockKey 1) "1" syncLockTTL ∅) ∅ [] in
  SyncUser calm demo_syncer 1 w1 = (Some already_syncing, bump w1).
Proof.
  intros w1. by apply (SyncUser_mutex calm demo_syncer 1 (calm_clock 0) ∅ w1).
Defined.

Lemma SyncUser_unlocks_witness :
  vk_get 0 (syncLockKey 1) (store (SyncUser calm demo_syncer 1 demo_world).2) = None.
Proof.
  pose proof (SyncUser_unlocks calm demo_syncer 1 demo_world eq_refl) as H. cbv zeta in H.
  assert (vk_get (clock calm (tick demo_world)) (syncLockKey 1) (store demo_world) = None) as Hfree
    by (vm_compute; reflexivity).
  rewrite Hfree in H. destruct (SyncUser calm demo_syncer 1 demo_world) as [r w']. by apply H.
Defined.

Lemma SyncUser_local_lock_witness :
  syncingUsers (SyncUser calm local_syncer 1 demo_world).2 = ∅.
Proof. apply (SyncUser_local_lock calm local_syncer 1 demo_world eq_refl). Defined.

Lemma calm_reliable : reliable calm.
Proof.
  constructor; simpl; try done; eauto.
Qed.
Lemma SyncUser_complete_witness :
  recorded 1 "g1" (db (SyncUser calm local_syncer 1 demo_world).2) "leetcode_2100000000".
Proof.
  destruct (SyncUser_complete calm local_syncer 1 (demo_user "g1" ["codeforces"; "leetcode"])
    demo_token "refresh" demo_world) as (_ & _ & Hrec & _); try done.
  - exact calm_reliable.
  - exact demo_db_wf.
  - apply (Hrec _ (demo_contest "leetcode" "Weekly 1" (2100000000 * Second))); [done|..].
    + simpl. set_solver.
    + intros n Hn. assert (tick (SyncUser calm local_syncer 1 demo_world).2 = 12)%nat as Ht
        by (vm_compute; done). rewrite Ht in Hn. simpl. unfold calm_clock, Second. lia.
Defined.

(** ** Two defects, as runs *)

(** What the profile cache holds for a user. *)
Definition cached_profile (uid : Z) (w : World kv_map) : option CachedUser :=
  match vk_get (calm_clock (tick w)) (UserCacheKey uid) (store w) with
  | Some v => unmarshal v
  | None => None
  end.

(** A cold synchronisation fills the profile cache from a query that does not
    select [has_calendar_access]: the cache says the user granted no access
    although the database says he did. *)
Example SyncUser_caches_no_access :
  let w := (SyncUser calm demo_syncer 1 demo_world).2 in
  cu_HasCalendarAccess <$> cached_profile 1 w = Some false ∧
  has_calendar_access <$> users (db w) !! 1%Z = Some true.
Proof. vm_compute. done. Qed.

(** The two writes of saving preferences that matter here. *)
Definition choose (ps : list string) (w : World kv_map) : World kv_map :=
  match exec (calm_clock (tick w)) (UpdatePreferences (Some ps) false 1) (db w) with
  | inr (d, _) => set_store (vk_del 0 (UserCacheKey 1) (store w)) (set_db d w)
  | inl _ => w
  end.
(** Synchronise twice, drop a platform, synchronise, choose the platform again: the
    rows of the platform were deleted but the cached set of synced contests
    was not, so the contest is skipped although the run succeeds. *)
Example stale_synced_set :
  let sync w := (SyncUser calm demo_syncer 1 w).2 in
  let w1 := sync (sync demo_world) in
  let w2 := sync (choose ["leetcode"] w1) in
  let w3 := choose ["codeforces"; "leetcode"] w2 in
  let r := SyncUser calm demo_syncer 1 w3 in
  r.1 = None ∧ synced_events (db w1) !! (1%Z, "codeforces_2100000000") ≠ None ∧
  synced_events (db r.2) !! (1%Z, "codeforces_2100000000") = None.
Proof. vm_compute. done. Qed.
