(* ===== verification/HandlersSpec.v ===== *)
(** * Properties of the user handlers *)

From stdpp Require Import base gmap strings list sets.
From Stdlib Require Import ZArith Lia Ascii Permutation.
From S2P Require Import Extractor.
From S2P Require Import Prelude GoStrings Models Database GoTime Auth EventID Sha256 Effects Syncer.
From S2P Require Import SyncerFacts Middleware MiddlewareSpec Handlers Scenario.
Local Open Scope go_scope.

(** ** The comparison of preferences *)

Abbreviation occ p l := (count_occ String.string_dec l p).

Lemma tally_lookup d ps m p :
  default 0%Z (tally d ps m !! p) = (default 0 (m !! p) + d * Z.of_nat (occ p ps))%Z.
Proof.
  revert m. induction ps as [|q ps IH]; intros m; simpl; [lia|].
  change (tally d (q :: ps) m) with (tally d ps (<[q := (default 0 (m !! q) + d)%Z]> m)).
  rewrite IH. destruct (String.string_dec q p) as [->|Hne]; simplify_map_eq; lia.
Qed.
Lemma all_zero (m : gmap string Z) :
  forallb (λ kv, (kv.2 =? 0)%Z) (map_to_list m) = true ↔ ∀ p, default 0%Z (m !! p) = 0%Z.
Proof.
  rewrite forallb_forall. split.
  - intros H p. destruct (m !! p) as [z|] eqn:Hp; simpl; [|done].
    apply Z.eqb_eq, (H (p, z)), list_elem_of_In, elem_of_map_to_list. done.
  - intros H [p z] Hz. apply list_elem_of_In, elem_of_map_to_list in Hz. apply Z.eqb_eq.
    specialize (H p). rewrite Hz in H. done.
Qed.
Lemma changed_false current cd requested d :
  changed current cd requested d = false ↔ requested ≡ₚ current ∧ d = cd.
Proof.
  assert (forallb (λ kv, (kv.2 =? 0)%Z) (map_to_list (tally (-1) requested (tally 1 current ∅))) = true
    ↔ requested ≡ₚ current) as Hcount.
  { rewrite all_zero, (Permutation_count_occ String.string_dec). split; intros H p; specialize (H p).
    - rewrite !tally_lookup, lookup_empty in H. simpl in H. lia.
    - rewrite !tally_lookup, lookup_empty. simpl. lia. }
  unfold changed. destruct (Nat.eqb_spec (length requested) (length current)) as [Hl|Hl]; simpl.
  - destruct (Bool.eqb_spec d cd) as [->|Hd]; simpl; [|naive_solver].
    rewrite negb_false_iff, Hcount. naive_solver.
  - split; [done|]. intros [Hp _]. by apply Permutation_length in Hp.
Qed.

(** ** Footprint *)

(** The effects the requests of the logged-in user [userID] may have. *)
Definition handler_stmt (userID : Z) (q : stmt) : Prop :=
  match q with UpdatePreferences _ _ id | DeleteUser id => id = userID | _ => False end.
Definition handler_key (userID : Z) (k : vkey) : Prop :=
  match k with
  | KUser u | KLastSync u | KCalVal u => u = userID
  | KPlatforms | KSession _ => True
  | _ => False
  end.
Definition handler_allow (userID : Z) (e : effect) : Prop :=
  match e with
  | FSql q => handler_stmt userID q
  | FKv k => ∃ vk, k = render vk ∧ handler_key userID vk
  | FGoogle q => match q with CalendarsDelete _ | EventsDelete _ _ => True | _ => False end
  | FPublish v => v = userID
  | FRevoke => True
  | FTelegram _ | FLocal _ => False
  end.

Section Foot.
Context {kv : Type} `{!Valkey kv} `{!SessionStore kv} `{!AEAD} `{!Codec CachedUser} `{!Codec validation}
  `{!Codec platforms_payload}.
Context (E : Env) (N : Net) (h : Handlers).
Abbreviation W := (World kv).
Abbreviation Go := (@M kv).

Lemma net_steps {R A} allow (f : nat → A) : respects (wsteps allow) (net f : Go R A).
Proof. intros w. apply wp_ext, step_bump. done. Qed.
Lemma publish_sync_steps {R} (allow : effect → Prop) userID :
  allow (FPublish userID) → respects (wsteps allow) (publish_sync N userID : Go R _).
Proof. intros Ha w. apply wp_ext, step_bump, rtc_once. by apply step_publish. Qed.
#[local] Hint Resolve net_steps ss_Get_steps ss_New_steps : sync_steps.

Ltac footprint _ :=
  simpl; lazymatch goal with
  | |- ∃ vk, UserCacheKey ?u = _ ∧ _ => by exists (KUser u)
  | |- ∃ vk, lastSyncKey ?u = _ ∧ _ => by exists (KLastSync u)
  | |- ∃ vk, CalendarValidationCacheKey ?u = _ ∧ _ => by exists (KCalVal u)
  | |- ∃ vk, PlatformsCacheKey = _ ∧ _ => by exists KPlatforms
  | |- ∀ id, ∃ vk, sessionKey id = _ ∧ _ => intros id; by exists (KSession id)
  | |- _ => done
  end.
Ltac steps := repeat first [ wsteps1 footprint | apply ss_Save_steps; footprint ()
  | apply publish_sync_steps; footprint () | progress intros | progress cbv zeta ].

Section User.
Context (userID : Z).
Abbreviation steps_ok m := (respects (wsteps (handler_allow userID)) m).
Abbreviation run_ok f := (∀ w, wsteps (handler_allow userID) w (f w).2).

Lemma run_steps {R} (m : Go R R) : steps_ok m → run_ok (run m).
Proof. intros Hm w. by apply (respects_run (wsteps (handler_allow userID))). Qed.

Lemma stored_token_steps {R} : steps_ok (stored_token E h userID : Go R _).
Proof. unfold stored_token. steps. Qed.
#[local] Hint Resolve stored_token_steps : sync_steps.
Lemma ManualSync_steps : run_ok (ManualSync E N h userID).
Proof. apply run_steps. unfold last_sync, known_invalid. steps. Qed.
Lemma writeJSONAndCache_steps p ttl :
  steps_ok (writeJSONAndCache E h (CalendarValidationCacheKey userID) p ttl).
Proof. unfold writeJSONAndCache. steps. Qed.
#[local] Hint Resolve writeJSONAndCache_steps : sync_steps.
Lemma ValidateCalendarAccess_steps : run_ok (ValidateCalendarAccess E N h (Some userID)).
Proof. apply run_steps. steps. Qed.
Lemma Logout_steps c : run_ok (Logout c).
Proof. apply run_steps. steps. Qed.
Lemma Me_steps c : run_ok (Me E h (Some userID) c).
Proof. apply run_steps. unfold load_profile, cache_get, cache_put. steps. Qed.
Lemma GetPlatforms_steps : run_ok (GetPlatforms E h).
Proof. apply run_steps. steps. Qed.
Lemma check_captcha_steps resp : steps_ok (check_captcha N h resp).
Proof. unfold check_captcha, verifyHCaptcha. steps. Qed.
Lemma current_prefs_steps : steps_ok (current_prefs E h userID).
Proof. unfold current_prefs, cache_get, cache_put. steps. Qed.
#[local] Hint Resolve check_captcha_steps current_prefs_steps : sync_steps.
Lemma SavePreferences_steps req : run_ok (SavePreferences E N h userID req).
Proof. apply run_steps. steps. Qed.
Lemma DeleteAccount_steps del c : run_ok (DeleteAccount E h userID del c).
Proof. apply run_steps. steps. Qed.
Lemma delete_calendar_steps {R} n cal : steps_ok (delete_calendar E n cal : Go R _).
Proof. induction n; simpl; steps. Qed.
Lemma delete_primary_steps {R} n id : steps_ok (delete_primary E n id : Go R _).
Proof. induction n; simpl; steps. Qed.
#[local] Hint Resolve delete_calendar_steps delete_primary_steps : sync_steps.
Lemma delete_events_steps {R} seen late i b ids : steps_ok (delete_events E seen late i b ids : Go R _).
Proof. revert i b. induction ids; intros; simpl; steps. Qed.
#[local] Hint Resolve delete_events_steps : sync_steps.
Lemma background_cleanup_steps seen late j : steps_ok (background_cleanup E seen late j).
Proof.
  unfold background_cleanup. steps. intros w. apply wp_ext, step_bump, rtc_once. by apply step_revoke.
Qed.
End User.
End Foot.

(** ** Isolation *)

(** A step of a synchronisation or of a request of somebody else than [v]. *)
Definition foreign (v : Z) (e : effect) : Prop :=
  ∃ u, u ≠ v ∧ (syncuser_allow u e ∨ handler_allow u e).

Lemma handler_stmt_same v uid now q d d' r :
  uid ≠ v → wf_db d → handler_stmt uid q → exec now q d = inr (d', r) → same_for v d d'.
Proof.
  intros Hne Hwf Hq He. destruct q; simpl in Hq; try done; subst; simpl in He.
  - simplify_eq. apply delete_other_same; [done|]. intros u. by apply bool_decide_eq_false.
  - case_match; simplify_eq. by apply alter_other_same.
Qed.
Lemma same_for_trans v d1 d2 d3 : same_for v d1 d2 → same_for v d2 d3 → same_for v d1 d3.
Proof.
  intros (A1 & A2 & A3 & A4 & A5) (B1 & B2 & B3 & B4 & B5).
  split_and!; congruence || (intros c; by rewrite B2, A2).
Qed.
Lemma foreign_steps {kv} `{!Valkey kv} v (w w' : World kv) :
  wsteps (foreign v) w w' → wf_db (db w) → wf_db (db w') ∧ same_for v (db w) (db w').
Proof.
  induction 1 as [w|w1 w2 w3 Hs _ IH]; intros Hwf; [done|].
  assert (same_for v (db w1) (db w2)) as H12.
  { destruct Hs as [|now q d' r w (u & Hu & [[Ha|[|]]|Ha]) He| | | | | | | |]; simpl; try done.
    - by eapply sync_stmt_same.
    - by eapply handler_stmt_same. }
  destruct IH as [Hwf3 H23]; [by eapply wstep_wf|]. split; [done|]. by eapply same_for_trans.
Qed.

Section Isolation.
Context {kv : Type} `{!Valkey kv} `{!SessionStore kv} `{!AEAD} `{!Codec CachedUser} `{!Codec validation}
  `{!Codec platforms_payload} `{!Codec (list string)} `{!Codec (list Contest)}.
Context (E : Env) (N : Net) (h : Handlers) (s : Syncer).
Abbreviation W := (World kv).

(** C9 (invariant).  Isolation of users: every request of a logged-in user
    [u], every clean-up it leaves in the background and every synchronisation
    of [u] is a sequence of atomic steps in the footprint [foreign v] of users
    other than [v]; and any interleaving of such steps, of any number of
    concurrent requests, keeps the integrity of the schema and leaves [v]'s
    row, [v]'s synced events, the contests and the OAuth states exactly as
    they were. *)
Theorem requests_isolation v :
  (∀ u (w : W), u ≠ v →
     wsteps (foreign v) w (SyncUser E s u w).2 ∧
     wsteps (foreign v) w (ManualSync E N h u w).2 ∧
     wsteps (foreign v) w (ValidateCalendarAccess E N h (Some u) w).2 ∧
     (∀ c, wsteps (foreign v) w (Me E h (Some u) c w).2 ∧ wsteps (foreign v) w (Logout c w).2) ∧
     wsteps (foreign v) w (GetPlatforms E h w).2 ∧
     (∀ req, wsteps (foreign v) w (SavePreferences E N h u req w).2) ∧
     (∀ del c, wsteps (foreign v) w (DeleteAccount E h u del c w).2) ∧
     (∀ seen late j, wsteps (foreign v) w (background_cleanup E seen late j w).2)) ∧
  (∀ w w' : W, wf_db (db w) → wsteps (foreign v) w w' → wf_db (db w') ∧ same_for v (db w) (db w')).
Proof.
  split; [|intros w w' Hwf Hs; by apply foreign_steps].
  intros u w Hu.
  assert (∀ w', wsteps (handler_allow u) w w' → wsteps (foreign v) w w') as Hh
    by (intros w'; apply wsteps_mono; intros e He; exists u; auto).
  split; [eapply wsteps_mono; [|apply SyncUser_wsteps]; intros e He; exists u; auto|].
  split_and!; intros; try split; apply Hh.
  - apply ManualSync_steps.
  - apply ValidateCalendarAccess_steps.
  - apply Me_steps.
  - apply Logout_steps.
  - apply GetPlatforms_steps.
  - apply SavePreferences_steps.
  - apply DeleteAccount_steps.
  - pose proof (background_cleanup_steps E u seen late j w) as Hb. unfold wp in Hb.
    by destruct (background_cleanup E seen late j w) as [[] w'].
Qed.
End Isolation.

(** ** Logging in *)

Lemma steps_kv_del2 {kv} `{!Valkey kv} (E : Env) {R} (allow : effect → Prop) k1 k2 :
  allow (FKv k1) → allow (FKv k2) →
  respects (wsteps allow) (kv_write E (λ now s, vk_del now k2 (vk_del now k1 s)) : @M kv R _).
Proof.
  intros H1 H2 w. apply wp_ext, step_bump.
  assert (wsteps allow w (set_store (vk_del (clock E (tick w)) k2 (vk_del (clock E (tick w)) k1 (store w))) w)).
  { eapply rtc_l; [by apply (step_kv_del _ (clock E (tick w)) k1)|]. apply rtc_once.
    by apply (step_kv_del _ _ k2 (set_store _ w)). }
  destruct (fate_kv E (tick w)); done.
Qed.

(** What the callback does once the state is accepted. *)
Definition login_allow (e : effect) : Prop :=
  match e with FSql (UpsertUser _ _ _ _) | FKv _ | FPublish _ => True | _ => False end.

Lemma login_steps_oauth {kv} `{!Valkey kv} (w w' : World kv) :
  wsteps login_allow w w' → oauth_states (db w') = oauth_states (db w).
Proof.
  induction 1 as [|w1 w2 w3 Hs _ IH]; [done|]. rewrite IH.
  destruct Hs as [|now q d' r w Ha He| | | | | | | |]; simpl; try done.
  destruct q; simpl in Ha; try done. simpl in He. unfold upsert_user in He.
  repeat case_match; simplify_eq; done.
Qed.

Section Login.
Context {kv : Type} `{!Valkey kv} `{!SessionStore kv} `{!AEAD}.
Context (E : Env) (N : Net) (h : Handlers).
Abbreviation W := (World kv).
Abbreviation Go := (@M kv).
#[local] Hint Resolve net_steps ss_Get_steps ss_New_steps : sync_steps.
Ltac footprint _ := done.
Ltac steps := repeat first [ wsteps1 footprint | apply ss_Save_steps; footprint ()
  | apply publish_sync_steps; footprint () | apply steps_kv_del2; footprint ()
  | progress intros | progress cbv zeta ].

Lemma fetch_account_steps code : respects (wsteps login_allow) (fetch_account N code : Go _ _).
Proof. unfold fetch_account. steps. Qed.
Lemma encrypt_refresh_steps {R} tok : respects (wsteps login_allow) (encrypt_refresh N h tok : Go R _).
Proof. unfold encrypt_refresh. steps. Qed.

(** A state that is not in the table, or was stored ten minutes ago or more. *)
Definition stale (state : string) (w : W) : Prop :=
  ∀ t, oauth_states (db w) !! state = Some t → (t ≤ clock E (tick w) - 10 * Minute)%Z.

(** The state's part of the callback. *)
Lemma consume_state_spec state (w : W) :
  wp (consume_state E state)
    (λ _ w', (∃ t, oauth_states (db w) !! state = Some t ∧ (clock E (tick w) - 10 * Minute < t)%Z) ∧
             oauth_states (db w') !! state = None)
    (λ r w', p_status r = StatusBadRequest ∧ store w' = store w ∧
             (stale state w → db w' = db w)) w.
Proof.
  unfold consume_state. apply wp_bind, wp_ext. cbn beta. apply wp_bind, wp_sql_exec; simpl.
  - intros d' r e He Hr. destruct (oauth_states (db w) !! state) as [t|] eqn:Ht.
    + destruct (Z.ltb_spec (clock E (tick w) - 10 * Minute) t); simplify_eq.
      * destruct Hr as [->|[x ->]]; [apply wp_ret|apply wp_leave].
        { split; [by exists t|]. simpl. by rewrite lookup_delete_eq. }
        split_and!; [done..|]. intros Hs. specialize (Hs t Ht). lia.
      * destruct Hr as [->|[x ->]]; by apply wp_leave.
    + simplify_eq. destruct Hr as [->|[x ->]]; by apply wp_leave.
  - intros e. by apply wp_leave.
Qed.

(** C20 (safety).  An OAuth state is good once, for ten minutes, and only
    with its cookie.  A callback whose cookie is missing or different is
    answered with 400 and leaves the whole world as it was, the state
    included; one whose state is not in the table or is ten minutes old is
    answered with 400 and leaves database and Valkey as they were; and a
    callback that is not answered with 400 carried the state in its cookie,
    the state was in the table, younger than ten minutes, and it is in the
    table no more. *)
Theorem callback_state_once state code oauth_cookie cookie (w : W) :
  let '(r, w') := GoogleCallback E N h state code oauth_cookie cookie w in
  (oauth_cookie ≠ Some state → p_status r = StatusBadRequest ∧ w' = w) ∧
  (stale state w → p_status r = StatusBadRequest ∧ db w' = db w ∧ store w' = store w) ∧
  (p_status r ≠ StatusBadRequest →
     oauth_cookie = Some state ∧ oauth_states (db w') !! state = None ∧
     ∃ t, oauth_states (db w) !! state = Some t ∧ (clock E (tick w) - 10 * Minute < t)%Z).
Proof.
  pose (Q r (w' : W) := (oauth_cookie ≠ Some state → p_status r = StatusBadRequest ∧ w' = w) ∧
    (stale state w → p_status r = StatusBadRequest ∧ db w' = db w ∧ store w' = store w) ∧
    (p_status r ≠ StatusBadRequest → oauth_cookie = Some state ∧ oauth_states (db w') !! state = None ∧
     ∃ t, oauth_states (db w) !! state = Some t ∧ (clock E (tick w) - 10 * Minute < t)%Z)).
  enough (Q (GoogleCallback E N h state code oauth_cookie cookie w).1
            (GoogleCallback E N h state code oauth_cookie cookie w).2) as HQ
    by (unfold Q in HQ; by destruct (GoogleCallback _ _ _ _ _ _ _ w)).
  unfold GoogleCallback. apply wp_run. destruct oauth_cookie as [v|]; [|by apply wp_leave].
  destruct (decide (v ≠ state)) as [|Hv]; [by apply wp_leave|]. apply dec_stable in Hv as ->.
  assert (∀ t, oauth_states (db w) !! state = Some t ∧ (clock E (tick w) - 10 * Minute < t)%Z → ¬ stale state w)
    as Hfresh by (intros t [Ht Hlt] Hs; specialize (Hs t Ht); lia).
  apply wp_bind. eapply wp_mono; [apply consume_state_spec| |].
  2: { cbn beta. intros r w' (Hr & Hst & Hdb). unfold Q. rewrite Hr. naive_solver. }
  cbn beta. intros _ w1 [Hin Hout].
  eapply (wp_mono _ (λ _, wsteps login_allow w1) _ (λ _, wsteps login_allow w1)).
  - apply (λ m (H : respects (wsteps login_allow) m), H w1).
    apply respects_bind; [exact _|apply fetch_account_steps|]. intros [[tok gid] mail].
    apply respects_bind; [exact _|apply encrypt_refresh_steps|]. intros enc. steps.
  - intros r w' Hs. apply login_steps_oauth in Hs. unfold Q. rewrite Hs. naive_solver.
  - intros r w' Hs. apply login_steps_oauth in Hs. unfold Q. rewrite Hs. naive_solver.
Qed.
End Login.

Section NewSession.
Context {kv : Type} `{!Valkey kv} `{!Cookies} `{!Codec (gmap string json_value)} `{!AEAD}.
Context (E : Env) (N : Net) (h : Handlers).
Abbreviation W := (World kv).
Abbreviation Go := (@M kv).
#[local] Instance the_store : SessionStore kv := valkey_store E N.

(** Whoever sends the cookie [c] for a week from tick [n] on is in the session
    made at that tick, with the values [vals]. *)
Definition opens (c : string) (n : nat) (vals : gmap string value) (s : kv) : Prop :=
  ∀ t, (clock E n ≤ t < clock E n + 7 * 86400 * Second)%Z →
    let found := New_session "session" (Some c) Done t s in
    s_ID found = random_key N n ∧
    ∀ k v, vals !! k = Some v → s_Values found !! k = Some (of_json (to_json v)).

Lemma save_fresh {R} vals new (w : W) (L : R → W → Prop) :
  wp (ss_Save (mk_session "" vals new defaultMaxAge))
    (λ r w', db w' = db w ∧ tick w' = S (tick w) ∧
       (r.1.1 = None → ∃ c, r.1.2 = Some (Set_ c) ∧ opens c (tick w) vals (store w'))) L w.
Proof.
  apply wp_call. simpl. unfold valkey_Save, Save. simpl.
  destruct (marshal _) as [val|] eqn:Hm; [|done].
  destruct (fate_kv E (tick w)) as [|e|e]; [|done..].
  destruct (EncodeMulti _ _) as [e|c] eqn:He; [done|]. simpl. split_and!; [done..|].
  intros _. exists c. split; [done|]. intros t Ht. unfold New_session.
  rewrite (DecodeMulti_EncodeMulti _ _ _ He), vk_get_set_eq by (unfold defaultMaxAge; simpl; lia).
  rewrite (unmarshal_marshal _ _ Hm). simpl. split; [done|]. intros k v Hk.
  by rewrite !lookup_fmap, Hk.
Qed.

Lemma start_session_spec cookie userID (w : W) :
  wp (start_session N cookie userID)
    (λ cs w', db w' = db w ∧ ∃ c n vals, last cs = Some ("session", Set_ c) ∧ (tick w ≤ n < tick w')%nat ∧
       opens c n vals (store w') ∧ vals !! "user_id" = Some (VInt userID))
    (λ r _, p_status r = StatusInternalServerError) w.
Proof.
  unfold start_session. apply wp_bind, wp_call. simpl. apply wp_bind, wp_ret. apply wp_bind, wp_call.
  simpl. unfold valkey_Save. destruct (Save _ _ _ _ _ _) as [[[err c1] se'] s']. simpl.
  apply wp_bind, wp_call. simpl. cbn zeta. set (fresh := New_session _ _ _ _ _).
  assert (s_MaxAge fresh = defaultMaxAge) as ->
    by (unfold fresh, New_session; repeat case_match; done).
  unfold generateRandomString. apply wp_bind, wp_bind, wp_ext. simpl. apply wp_ret.
  apply wp_bind. eapply wp_mono; [apply (save_fresh _ _ _ (λ _ _, False))| |by intros ?? []].
  cbn beta. intros [[err2 c2] se2] w2 (Hdb & Htick & Hok). simpl in *.
  destruct err2 as [e|]; [by apply wp_leave|]. destruct (Hok eq_refl) as (c & -> & Ho).
  apply wp_ret. split; [done|]. eexists c, _, _. split_and!; [|..|exact Ho|].
  - simpl. by rewrite last_snoc.
  - simpl. lia.
  - lia.
  - by rewrite lookup_insert_ne, lookup_insert_eq.
Qed.

(** Google's account behind a code. *)
Definition account (code : string) (token : oauth_token) (gid mail : string) : Prop :=
  ∃ n1 n2, Exchange N n1 code = inr token ∧ userinfo N n2 token = inr (Some (gid, mail)).

Lemma fetch_account_spec code (w : W) :
  wp (fetch_account N code)
    (λ a w', db w' = db w ∧ (tick w ≤ tick w')%nat ∧ account code a.1.1 a.1.2 a.2)
    (λ r _, p_status r = StatusInternalServerError) w.
Proof.
  unfold fetch_account. apply wp_bind, wp_ext. simpl.
  destruct (Exchange N _ code) as [e|token] eqn:H1; [by apply wp_leave|].
  apply wp_bind, wp_ext. simpl.
  destruct (userinfo N _ token) as [e|[[gid mail]|]] eqn:H2; [by apply wp_leave| |by apply wp_leave].
  apply wp_ret. simpl. split_and!; [done|lia|]. eexists _, _. eauto.
Qed.

(** The stored token can be read back when there was one to store, the key is
    an AES key and the random source works. *)
Definition readable (token : oauth_token) (enc : string) : Prop :=
  tk_RefreshToken token ≠ "" → String.length (h_EncryptionKey h) ∈ [16; 24; 32] →
  (∀ n, ∃ b, rand_read N n NonceSize = inr b) →
  enc ≠ "" ∧ DecryptToken enc (h_EncryptionKey h) = inr (tk_RefreshToken token).
Lemma DecryptToken_empty key : ∃ e, DecryptToken "" key = inl e.
Proof. unfold DecryptToken. simpl. destruct (NewCipher key); eauto. Qed.
Lemma encrypt_refresh_spec {R} token (w : W) (L : R → W → Prop) :
  wp (encrypt_refresh N h token)
    (λ enc w', db w' = db w ∧ (tick w ≤ tick w')%nat ∧ readable token enc) L w.
Proof.
  unfold encrypt_refresh. case_decide as Hrt; [by apply wp_ret|].
  apply wp_bind, wp_ext. simpl. apply wp_ret. simpl. split_and!; [done|lia|].
  intros _ Hkey Hrand. destruct (Hrand (tick w)) as [b Hb]. unfold NonceSize in Hb. rewrite Hb.
  apply NewCipher_None in Hkey. destruct (EncryptToken _ _ _) as [e|enc] eqn:He;
    [unfold EncryptToken in He; by rewrite Hkey in He|].
  apply decrypt_sealed in He; [|by apply (rand_read_length N (tick w))].
  split; [|done]. intros ->. destruct (DecryptToken_empty (h_EncryptionKey h)). congruence.
Qed.

(** A request with cookie [c] in the week after tick [n] is one of [uid], in a
    session whose identifier was drawn at that tick. *)
Definition logged_in (c : string) (n : nat) (uid : Z) (s : kv) : Prop :=
  ∀ t, (clock E n ≤ t < clock E n + 7 * 86400 * Second)%Z →
    let found := New_session "session" (Some c) Done t s in
    session_user found = Some uid ∧ s_ID found = random_key N n.

Lemma opens_logged_in c n uid vals s :
  (0 < uid < 2 ^ 31)%Z → vals !! "user_id" = Some (VInt uid) → opens c n vals s → logged_in c n uid s.
Proof.
  intros Huid Hv Ho t Ht. destruct (Ho t Ht) as [Hid Hvals]. split; [|done].
  unfold session_user. rewrite (Hvals _ _ Hv), of_json_to_json by (unfold storable, in_int; lia).
  by case_decide; [lia|].
Qed.

(** What a login that started at tick [n0] leaves behind. *)
Definition login_done (code : string) (n0 : nat) (r : reply) (w : W) : Prop :=
  ∃ token gid mail uid u c n,
    account code token gid mail ∧
    users (db w) !! uid = Some u ∧ google_id u = gid ∧ email u = mail ∧
    has_calendar_access u = Contains (tk_scope token) calendar_scope ∧
    (∃ enc, readable token enc ∧ (enc ≠ "" → refresh_token u = Some enc)) ∧
    last (p_cookies r) = Some ("session", Set_ c) ∧
    (n0 ≤ n < tick w)%nat ∧ logged_in c n uid (store w).
Abbreviation redirects code n0 :=
  (λ (r : reply) (w : W), p_status r = StatusSeeOther → login_done code n0 r w).

Lemma consume_state_wf state (w : W) :
  wf_db (db w) →
  wp (consume_state E state) (λ _ w1, wf_db (db w1) ∧ (tick w ≤ tick w1)%nat)
    (λ r _, p_status r = StatusBadRequest) w.
Proof.
  intros Hwf. unfold consume_state. apply wp_bind, wp_ext. simpl. apply wp_bind, wp_sql_exec.
  - intros d' r e He Hr. apply exec_wf_db in He; [|done].
    repeat case_match; try (by apply wp_leave); apply wp_ret; simpl; split; (done || lia).
  - intros e. by apply wp_leave.
Qed.

(** From the upserted row to the reply. *)
Lemma finish_login code n0 token gid mail uid u enc cookie (w : W) :
  account code token gid mail → wf_db (db w) → users (db w) !! uid = Some u →
  google_id u = gid → email u = mail → has_calendar_access u = Contains (tk_scope token) calendar_scope →
  readable token enc → (enc ≠ "" → refresh_token u = Some enc) → (n0 ≤ tick w)%nat →
  wp ((if h_Valkey h
       then _ <- kv_write E (λ now s, vk_del now (CalendarValidationCacheKey uid)
                                        (vk_del now (UserCacheKey uid) s)) ;; ret tt
       else ret tt) ;;;
      cookies <- start_session N cookie uid ;;
      (match platforms u with
       | Some (_ :: _) => _ <- publish_sync N uid ;; ret tt
       | _ => ret tt
       end) ;;;
      ret (mk_reply StatusSeeOther (BRedirect "/preferences") cookies))
    (redirects code n0) (redirects code n0) w.
Proof.
  intros Hacc Hwf Hu Hg Hm Ha Hread Htok Hn0.
  apply wp_bind. eapply (wp_mono _ (λ _ w1, db w1 = db w ∧ (n0 ≤ tick w1)%nat) _ (λ _ _, False));
    [| |by intros ?? []].
  { destruct (h_Valkey h); [|by apply wp_ret]. apply wp_bind, wp_ext.
    destruct (fate_kv E (tick w)); apply wp_ret; simpl; (split; [done|lia]). }
  cbn beta. intros _ w1 [Hdb1 Ht1]. apply wp_bind.
  eapply wp_mono; [apply start_session_spec| |by intros r w2 Hr Hr'; rewrite Hr in Hr'].
  cbn beta. intros cs w2 (Hdb2 & c & n & vals & Hlast & Hn & Hopen & Huser).
  assert (∀ w3 : W, db w3 = db w → store w3 = store w2 → (tick w2 ≤ tick w3)%nat →
    login_done code n0 (mk_reply StatusSeeOther (BRedirect "/preferences") cs) w3) as Hend.
  { intros w3 Hd3 Hs3 Ht3. exists token, gid, mail, uid, u, c, n. rewrite Hd3, Hs3.
    assert (0 < uid < 2 ^ 31)%Z by (apply (wf_seq _ Hwf) in Hu; lia).
    split_and!; eauto; [lia|lia|]. by eapply opens_logged_in. }
  apply wp_bind. destruct (platforms u) as [[|p ps]|];
    [apply wp_ret|apply wp_bind, wp_ext, wp_ret|apply wp_ret];
    apply wp_ret; intros _; apply Hend; simpl; congruence || lia.
Qed.

Lemma callback_redirects state code oauth_cookie cookie (w : W) :
  wf_db (db w) →
  redirects code (tick w) (GoogleCallback E N h state code oauth_cookie cookie w).1
    (GoogleCallback E N h state code oauth_cookie cookie w).2.
Proof.
  intros Hwf. unfold GoogleCallback. apply (wp_run _ (redirects code (tick w))).
  destruct oauth_cookie as [v|]; [|by apply wp_leave].
  destruct (decide (v ≠ state)); [by apply wp_leave|].
  apply wp_bind. eapply wp_mono;
    [by apply consume_state_wf|cbn beta|by intros r w1 Hr Hr'; rewrite Hr in Hr'].
  intros _ w1 [Hwf1 Ht1]. apply wp_bind.
  eapply wp_mono; [apply fetch_account_spec| |by intros r w2 Hr Hr'; rewrite Hr in Hr'].
  cbn beta. intros [[token gid] mail] w2 (Hdb2 & Ht2 & Hacc). simpl in Hacc.
  apply wp_bind. eapply wp_mono; [apply (encrypt_refresh_spec _ _ (λ _ _, False))| |by intros ?? []].
  cbn beta. intros enc w3 (Hdb3 & Ht3 & Hread). apply wp_bind, wp_sql_exec; [|intros e; by apply wp_leave].
  intros d' r e He Hr. rewrite Hdb3, Hdb2 in He.
  assert (wf_db d') as Hwf' by (by eapply exec_wf_db). cbn [exec] in He.
  apply upsert_user_row in He as (uid & u & -> & Hu & Hg & Hm & Ha & Htok).
  destruct Hr as [->|[x ->]]; [|by apply wp_leave].
  by apply (finish_login code (tick w) token gid mail uid u enc); [..|simpl; lia].
Qed.

(** C21 (functional).  A login ends in a session of the right account: after a
    callback that redirects to the preferences there is a row for the Google
    account the code stands for, with its e-mail, its calendar access and,
    when Google sent one, a refresh token that decrypts to it; the cookie the
    reply sets identifies that user for a week, in a session whose identifier
    was drawn during this callback, whatever cookie the request came with. *)
Theorem login_session state code oauth_cookie cookie (w w' : W) r :
  wf_db (db w) →
  GoogleCallback E N h state code oauth_cookie cookie w = (r, w') → p_status r = StatusSeeOther →
  login_done code (tick w) r w'.
Proof.
  intros Hwf Hcb. pose proof (callback_redirects state code oauth_cookie cookie w Hwf) as HQ. by rewrite Hcb in HQ.
Qed.
End NewSession.

(** ** Concrete runs *)

#[export] Existing Instance demo_cookies.
#[export] Existing Instance demo_codec.
#[export] Instance validation_eq_dec : EqDecision validation.
Proof. solve_decision. Defined.
#[export] Instance validation_countable : Countable validation.
Proof.
  refine (inj_countable' (λ v, (v_valid v, v_code v, v_error_type v)) (λ '(a, b, c), mk_validation a b c) _).
  by intros [].
Defined.
#[export] Instance platforms_eq_dec : EqDecision platforms_payload.
Proof. solve_decision. Defined.
#[export] Instance platforms_countable : Countable platforms_payload.
Proof. refine (inj_countable' pl_platforms mk_platforms _). by intros []. Defined.
#[export] Instance codec_validation : Codec validation := countable_codec.
#[export] Instance codec_platforms : Codec platforms_payload := countable_codec.

(** Random bytes that differ from call to call. *)
Definition demo_rand (n k : nat) : string := foldr String "" (replicate k (ascii_of_nat (n mod 256))).
Lemma demo_rand_length n k : String.length (demo_rand n k) = k.
Proof. unfold demo_rand. generalize (ascii_of_nat (n mod 256)) as c. intros c. induction k; simpl; congruence. Qed.
(** A Google that lets the account [gid] in and knows its scope. *)
Definition demo_net (gid : string) : Net.
Proof.
  refine {| rand_read n k := inr (demo_rand n k);
    AuthCodeURL s := "https://accounts.google.com/o/oauth2/auth?state=" +:+ s;
    Exchange _ _ := inr (mk_token "refresh" calendar_scope);
    userinfo _ _ := inr (Some (gid, gid +:+ "@example.org"));
    TokenSource _ _ := inr "access";
    get_tokeninfo _ _ := TiAnswer StatusOK (Some calendar_scope);
    siteverify _ _ _ := inr (Some true);
    PublishTask _ _ := None |}.
  intros n k b [= <-]. apply demo_rand_length.
Defined.
Definition demo_handlers : Handlers := {|
  h_ReadDB := true; h_Valkey := true; h_EncryptionKey := demo_key; h_Env := "dev";
  h_HCAPTCHA_SECRET := ""; h_ENV := "dev" |}.
#[export] Instance demo_store : SessionStore kv_map := valkey_store calm (demo_net "g1").

(** A state was handed out a moment ago. *)
Definition login_world : World kv_map :=
  mk_world 0 (set_oauth (λ _, {["st" := calm_clock 0]}) demo_db) ∅ ∅ [].

Lemma login_session_witness :
  let f := GoogleCallback (SessionStore0 := valkey_store calm (demo_net "g1"))
             calm (demo_net "g1") demo_handlers "st" "code" (Some "st") None login_world in
  login_done calm (demo_net "g1") demo_handlers "code" 0 f.1 f.2.
Proof.
  intros f. apply (login_session calm (demo_net "g1") demo_handlers "st" "code" (Some "st") None login_world).
  - apply set_oauth_wf, demo_db_wf.
  - apply surjective_pairing.
  - vm_compute. reflexivity.
Defined.
Lemma requests_isolation_witness :
  let w1 := (SyncUser calm demo_syncer 1 demo_world).2 in
  let w2 := (SavePreferences calm (demo_net "g1") demo_handlers 1 (Some (mk_prefs (Some ["leetcode"]) true "")) w1).2 in
  let w3 := (DeleteAccount calm demo_handlers 1 true None w2).2 in
  wf_db (db w3) ∧ same_for 2 demo_db (db w3).
Proof.
  intros w1 w2 w3.
  destruct (requests_isolation (kv := kv_map) calm (demo_net "g1") demo_handlers demo_syncer 2) as [Hsteps Hiso].
  apply (Hiso demo_world); [exact demo_db_wf|].
  assert (1 ≠ 2)%Z as Hne by lia.
  destruct (Hsteps 1%Z demo_world Hne) as (H1 & _). fold w1 in H1. clearbody w1.
  destruct (Hsteps 1%Z w1 Hne) as (_ & _ & _ & _ & _ & H2 & _).
  destruct (Hsteps 1%Z w2 Hne) as (_ & _ & _ & _ & _ & _ & H3 & _).
  etrans; [exact H1|]. etrans; [apply H2|apply H3].
Defined.

(** The second use of a state is refused. *)
Example state_used_twice :
  let cb := GoogleCallback calm (demo_net "g1") demo_handlers "st" "code" (Some "st") None in
  let '(r1, w1) := cb login_world in let '(r2, w2) := cb w1 in
  p_status r1 = StatusSeeOther ∧ p_status r2 = StatusBadRequest.
Proof. vm_compute. done. Qed.

(** [GoogleCallback] does not look at the status of the userinfo reply: an
    error body that decodes leaves the identifier empty, and everybody to whom
    that happens is logged into the same account, the first one's. *)
Definition empty_login (state : string) (w : World kv_map) : reply * World kv_map :=
  GoogleCallback calm (demo_net "") demo_handlers state "code" (Some state) None w.
Definition user_of (r : reply) (w : World kv_map) : option Z :=
  match last (p_cookies r) with
  | Some (_, Set_ c) => session_user (New_session "session" (Some c) Done (calm_clock (tick w)) (store w))
  | _ => None
  end.
Example empty_identity_shared :
  let w0 := mk_world 0 (set_oauth (λ _, {["a" := calm_clock 0; "b" := calm_clock 0]}) demo_db) ∅ ∅ [] in
  let '(r1, w1) := empty_login "a" w0 in let '(r2, w2) := empty_login "b" w1 in
  user_of r1 w1 = Some 3%Z ∧ user_of r2 w2 = Some 3%Z.
Proof. vm_compute. done. Qed.

(** After a synchronisation on a cold cache the profile page says that there is
    no calendar access, although the database says there is. *)
Example profile_hides_access :
  let w1 := (SyncUser calm demo_syncer 1 demo_world).2 in
  has_calendar_access <$> users (db w1) !! 1%Z = Some true ∧
  match p_body (Me calm demo_handlers (Some 1%Z) None w1).1 with
  | BProfile p => pr_HasCalendarAccess p = false ∧ pr_RefreshTokenMissing p = true
  | _ => False
  end.
Proof. vm_compute. done. Qed.
