(* ===== verification/Cooldown.v ===== *)
(** * The minute between two synchronisations

    [SyncUser] leaves the time of its end in Valkey, as text; [ManualSync] reads
    it back.  The two components share nothing else. *)

From stdpp Require Import base gmap strings list sets.
From Stdlib Require Import ZArith Lia.
From S2P Require Import Prelude GoStrings Models Database GoTime GoTimeSpec Auth Effects Syncer SyncerFacts SyncOutcome Handlers.
From S2P Require Import Scenario HandlersSpec.

Section Cooldown.
Context {kv : Type} `{!Valkey kv} `{!AEAD} `{!Codec CachedUser} `{!Codec (list string)} `{!Codec (list Contest)}
  `{!Codec validation}.
Context (E : Env) (N : Net) (s : Syncer) (h : Handlers) (userID : Z).
Hypothesis sync_valkey : s_Valkey s = true.
Hypothesis api_valkey : h_Valkey h = true.
Hypothesis answers : ∀ n, fate_kv E n = Done.
Hypothesis clock_mono : ∀ m n, (m ≤ n)%nat → (clock E m ≤ clock E n)%Z.
Abbreviation W := (World kv).

(** The time of the call number [n] is recorded. *)
Definition recorded (lo : nat) (w : W) : Prop :=
  ∃ n, (lo ≤ n)%nat ∧ (S n < tick w)%nat ∧
    ∀ t, (clock E (S n) ≤ t < clock E (S n) + lastSyncTTL)%Z →
      vk_get t (lastSyncKey userID) (store w) = Some (FormatRFC3339 (clock E n)).

Lemma sql_exec_tick {R} st (w : W) :
  wp (sql_exec E st : @M kv R _) (λ _ w1, tick w1 = S (tick w)) (λ _ _, False) w.
Proof. apply wp_ext. simpl. by repeat case_match. Qed.
Lemma finish_records r (w : W) : recorded (tick w) (finish E s userID r w).2.
Proof.
  enough (wp (finish E s userID r) (λ _, recorded (tick w)) (λ _, recorded (tick w)) w) as Hw
    by (unfold wp in Hw; by destruct (finish E s userID r w) as [[?|?] ?]).
  unfold finish, report. rewrite sync_valkey. apply wp_bind.
  eapply wp_mono; [apply sql_exec_tick| |done].
  cbn beta. intros _ w1 Ht. apply wp_bind, wp_bind, wp_ext. simpl. apply wp_bind, wp_ext.
  cbn [fst snd tick bump]. rewrite answers. apply wp_ret.
  set (w2 := bump _). assert (recorded (tick w) w2) as Hw2.
  { exists (tick w1). unfold w2. simpl. split_and!; [lia..|]. intros t Hclock. by apply vk_get_set_eq. }
  destruct (s_OnTelegramEvent s); [|by apply wp_ret].
  destruct Hw2 as (n & Hn). destruct (r.1); exists n; done.
Qed.
Lemma recorded_release lo (w : W) : recorded lo w → recorded lo (release E userID w).
Proof.
  intros (n & Hlo & Hn & Hv). exists n. rewrite release_tick. split_and!; [done|lia|]. intros t Ht.
  unfold release, kv_del, kv_write, ext. rewrite answers. simpl. rewrite vk_get_del_ne; [by apply Hv|].
  by apply (keys_never_collide (KLock userID) (KLastSync userID)).
Qed.

Lemma SyncUser_records (w w1 : W) : SyncUser E s userID w = (None, w1) → recorded (tick w) w1.
Proof.
  intros Hrun. destruct (vk_get (clock E (tick w)) (syncLockKey userID) (store w)) as [v|] eqn:Hlock.
  { revert Hrun. unfold SyncUser, run, bind, kv_setnx, ext, vk_setnx. by rewrite sync_valkey, Hlock, answers. }
  rewrite (SyncUser_acquired E s userID w sync_valkey (answers _) Hlock) in Hrun. injection Hrun as Hnone <-.
  apply recorded_release. revert Hnone.
  apply (wp_run _ (λ r w2, r = None → recorded (tick w) w2)).
  apply wp_bind. eapply wp_mono; [apply wp_and; [apply load_user_fails|apply (load_user_steps E s userID true)]| |].
  2: { cbn beta. intros r w2 [Hr _] ->. done. }
  cbn beta. intros u w2 [_ Hs2]. apply wsteps_tick in Hs2. simpl in Hs2. apply wp_bind.
  eapply wp_mono; [apply sql_exec_tick| |done].
  cbn beta. intros _ w3 Hs3. apply wp_bind, wp_call, wp_ret. intros _. unfold deferring.
  pose proof (wsteps_tick _ _ _ (sync_body_steps E s userID u w3)) as Hs4.
  destruct (sync_body E s u userID w3) as [r w4]. simpl in Hs4. simpl.
  destruct (finish_records r w4) as (n & Hlo & Hn). exists n. split; [lia|done].
Qed.

Definition rate_limited : reply := mk_reply StatusOK (BStatus "rate_limited") [].

(** C39 (safety).  The minute between two synchronisations is kept across the
    components: after a successful [SyncUser] there is a moment during the run
    such that for 59 seconds from it (the time is stored in whole seconds),
    as long as nobody overwrites the key, every request for a manual
    synchronisation of this user is turned away: it asks nobody, queues
    nothing and changes nothing. *)
Theorem cooldown_after_sync (w w1 : W) :
  (∀ n, (n < tick w1)%nat → printable (clock E n)) → SyncUser E s userID w = (None, w1) →
  ∃ n, (tick w ≤ n < tick w1)%nat ∧
    ∀ w2, (tick w1 ≤ tick w2)%nat →
      (∀ t, vk_get t (lastSyncKey userID) (store w2) = vk_get t (lastSyncKey userID) (store w1)) →
      (clock E (S (tick w2)) - clock E n < Minute - Second)%Z →
      ManualSync E N h userID w2 = (rate_limited, bump (bump w2)).
Proof.
  intros Hyear Hrun. destruct (SyncUser_records w w1 Hrun) as (n & Hlo & Hn & Hv).
  exists n. split; [lia|]. intros w2 Ht Hsame Hclock.
  assert (clock E (S n) ≤ clock E (tick w2))%Z as H1 by (apply clock_mono; lia).
  assert (clock E (tick w2) ≤ clock E (S (tick w2)))%Z as H2 by (apply clock_mono; lia).
  assert (clock E n ≤ clock E (S n))%Z as H3 by (apply clock_mono; lia).
  assert (vk_get (clock E (tick w2)) (lastSyncKey userID) (store w2) = Some (FormatRFC3339 (clock E n))) as Hget.
  { rewrite Hsame. apply Hv. unfold lastSyncTTL, Hour, Minute, Second in *. lia. }
  pose proof (RFC3339_round_trip (clock E n) (Hyear n ltac:(lia))) as Hparse.
  unfold ManualSync, last_sync, run, bind, kv_get, time_now, ext. rewrite api_valkey, answers, Hget. cbn -[decide FormatRFC3339 Parse Z.ltb Z.sub layout_RFC3339].
  rewrite decide_False by (intros He; by rewrite He in Hparse). rewrite Hparse. cbn -[Z.ltb Z.sub].
  rewrite (proj2 (Z.ltb_lt _ _)); [done|]. unfold Unix, Minute, Second in *.
  Z.to_euclidean_division_equations. lia.
Qed.
End Cooldown.

Definition synced_world : World kv_map := (SyncUser calm demo_syncer 1 demo_world).2.
Lemma cooldown_after_sync_witness :
  ManualSync calm (demo_net "g1") demo_handlers 1 synced_world = (rate_limited, bump (bump synced_world)).
Proof.
  assert (tick synced_world < 50)%nat as Ht by (vm_compute; lia).
  destruct (cooldown_after_sync calm (demo_net "g1") demo_syncer demo_handlers 1 eq_refl eq_refl (λ _, eq_refl)
    ltac:(intros m n Hmn; unfold calm, clock, calm_clock, Second; lia) demo_world synced_world) as (n & Hn & Hlimited).
  - intros n Hn. eapply (proj1 (Forall_forall printable (calm_clock <$> seq 0 50))).
    + apply (bool_decide_unpack _). vm_compute. exact I.
    + apply list_elem_of_fmap. exists n. split; [reflexivity|]. apply elem_of_seq. lia.
  - assert ((SyncUser calm demo_syncer 1 demo_world).1 = None) as Hr by (vm_compute; reflexivity).
    unfold synced_world. rewrite <- Hr. apply surjective_pairing.
  - apply Hlimited; [lia|reflexivity|]. unfold calm, clock, calm_clock, Minute, Second. lia.
Defined.
