(* ===== verification/RouterSpec.v ===== *)
(** * Properties of the routed server

    What holds of a whole request, from the first middleware to the last
    handler.  [hwp] is the postcondition of a handler; there is one rule per
    middleware, and a property of the server is proved by following the
    middlewares of the route. *)

From stdpp Require Import base gmap strings list sets.
From Stdlib Require Import ZArith Lia Ascii.
From S2P Require Import Prelude GoStrings Models Database Auth Effects Syncer SyncerFacts Queue Middleware MiddlewareSpec.
From S2P Require Import Handlers Feed Scheduler Admin Router Scenario HandlersSpec.
Local Open Scope Z_scope.

(** ** The effects of the middlewares *)

Definition rate_only (e : effect) : Prop := ∃ x, e = FKv ("ratelimit:" +:+ x).
(** Rate limits and sessions. *)
Definition gate (e : effect) : Prop := rate_only e ∨ ∃ id, e = FKv (sessionKey id).

Section Rules.
Context {kv : Type} `{!Valkey kv} `{!SessionStore kv} `{!AEAD} `{!Codec CachedUser} `{!Codec validation}
  `{!Codec platforms_payload} `{!Mux}.
Context (E : Env) (N : Net) (h : Handlers) (S : Wiring).
Abbreviation W := (World kv).
Abbreviation Sv := (Server kv).

(** Nothing but the footprint happened: the queue and the clean-ups are as they were. *)
Definition quiet (allow : effect → Prop) (s s' : Sv) : Prop :=
  wsteps allow (sv_world s) (sv_world s') ∧ sv_queue s' = sv_queue s ∧ sv_jobs s' = sv_jobs s.
#[export] Instance quiet_preorder allow : PreOrder (quiet allow).
Proof.
  split; [by intros s|]. intros s1 s2 s3 (H1 & H2 & H3) (H4 & H5 & H6).
  split_and!; [by etrans|congruence..].
Qed.
Lemma quiet_mono (allow allow' : effect → Prop) s s' :
  (∀ e, allow e → allow' e) → quiet allow s s' → quiet allow' s s'.
Proof. intros Ha (Hw & ? & ?). split_and!; [by eapply wsteps_mono|done..]. Qed.
Lemma quiet_world allow s w : wsteps allow (sv_world s) w → quiet allow s (with_world w s).
Proof. done. Qed.
Lemma gate_kv allow (w w' : W) : (∀ e, allow e → gate e) → wsteps allow w w' → db w' = db w ∧ trace w' = trace w.
Proof.
  intros Ha. induction 1 as [|w1 w2 w3 Hs _ [-> ->]]; [done|].
  destruct Hs as [| | | | | | | | |]; simpl; try done;
    (exfalso; by match goal with H : allow _ |- _ => destruct (Ha _ H) as [[? [=]]|[? [=]]] end).
Qed.
Lemma gate_quiet s s' : quiet gate s s' →
  db (sv_world s') = db (sv_world s) ∧ trace (sv_world s') = trace (sv_world s).
Proof. intros (Hw & _). by eapply gate_kv. Qed.
Lemma rate_gate s s' : quiet rate_only s s' → quiet gate s s'.
Proof. apply quiet_mono. by left. Qed.

Lemma incr_expire_set now key ttl (s : kv) n s' :
  incr_expire now key ttl s = Some (n, s') → ∃ v, s' = vk_set now key v ttl s.
Proof. unfold incr_expire. intros. repeat case_match; simplify_eq; eauto. Qed.
Lemma RateLimit_store valkey pattern max dur now ip (st : limits kv) :
  let st' := (RateLimit valkey pattern max dur now ip st).2 in
  rl_store st' = rl_store st ∨
  ∃ x v, rl_store st' = vk_set now ("ratelimit:" +:+ x) v dur (rl_store st).
Proof.
  unfold RateLimit. destruct (allow now ip 150 (10 * Second) (earlyLimiter st)) as [[] early]; [|by left].
  simpl. set (key := rateLimitKey _ _).
  assert (∃ x, key = "ratelimit:" +:+ x) as [x Hx] by (eexists; reflexivity). clearbody key.
  destruct valkey as [f|].
  - destruct (incr_expire now key dur (rl_store st)) as [[n s']|] eqn:Hi.
    + apply incr_expire_set in Hi as [v ->]. rewrite Hx. destruct f; repeat case_match; simpl; eauto.
    + destruct f; repeat case_match; simpl; eauto.
  - repeat case_match; simpl; eauto.
Qed.
Lemma limit_quiet max dur r s : quiet rate_only s (limit E h S max dur r s).2.
Proof.
  unfold limit. pose proof (RateLimit_store (if h_Valkey h then Some (fate_kv E (tick (sv_world s))) else None)
    (c_pattern r) max dur (clock E (tick (sv_world s))) (getClientIP (s_TRUST_PROXY S) (r_http r))
    (mk_limits (sv_early s) (sv_global s) (store (sv_world s)))) as Hst.
  destruct (RateLimit _ _ _ _ _ _ _) as [a st]; simpl in *. split_and!; [|done..]. apply step_bump. simpl.
  destruct Hst as [->|(x & v & ->)]; [by rewrite set_store_same|].
  apply rtc_once, step_kv_set. by exists x.
Qed.

Lemma limit_tick max dur r s :
  tick (sv_world (limit E h S max dur r s).2) = (1 + tick (sv_world s))%nat.
Proof. unfold limit. by destruct (RateLimit _ _ _ _ _ _ _). Qed.

(** The session that the request's cookie opens in the world [w]. *)
Definition opened (r : request) (w : W) : option error * session :=
  (store_Get (r_cookie r "session") w).1.
Lemma get_session_fresh r w allow :
  c_session r = None →
  ∃ w', get_session r w = (opened r w, with_session (opened r w) r, w') ∧ wsteps allow w w'.
Proof.
  intros Hr. unfold get_session, opened. rewrite Hr. simpl.
  pose proof (store_Get_steps (r_cookie r "session") allow w) as Hs.
  destruct (store_Get _ w) as [g w']. eauto.
Qed.
Lemma get_session_known r w g :
  c_session r = Some g → get_session r w = (g, with_session g r, w).
Proof. intros Hr. unfold get_session. by rewrite Hr. Qed.

(** ** Postconditions of handlers *)

(** The headers that must be on every response. *)
Definition standing (k x : string) : Prop := (∃ env, (k, x) ∈ SecurityHeaders env) ∨ k = "X-Request-Id".
Definition keeps (wr wr' : writer) : Prop :=
  ∀ k x, standing k x → w_Header wr !! k = Some x → w_Header wr' !! k = Some x.
#[export] Instance keeps_preorder : PreOrder keeps.
Proof. split; [by intros wr k x|]. intros w1 w2 w3 H1 H2 k x Hk Hx. eauto. Qed.
Lemma keeps_cookies cs wr : keeps wr (add_cookies cs wr).
Proof. by intros k x. Qed.
(** Headers that may be set late: others, or the same value again. *)
Definition late (kx : string * string) : Prop := ∀ x, standing kx.1 x → x = kx.2.
Lemma keeps_headers l wr : Forall late l → keeps wr (set_headers l wr).
Proof.
  intros Hl. revert wr. induction Hl as [|[k y] l Hk _ IH]; intros wr; [done|]. simpl.
  etrans; [|apply IH]. intros k' x Hs Hx. simpl. destruct (decide (k = k')) as [->|Hne].
  - rewrite (Hk x Hs). apply lookup_insert_eq.
  - by rewrite lookup_insert_ne.
Qed.
Lemma set_headers_other l k wr : k ∉ l.*1 → w_Header (set_headers l wr) !! k = w_Header wr !! k.
Proof.
  revert wr. induction l as [|[k' y] l IH]; intros wr Hk; [done|]. simpl in *.
  rewrite IH by set_solver. apply lookup_insert_ne. set_solver.
Qed.
Lemma set_headers_lookup l k x wr : NoDup l.*1 → (k, x) ∈ l → w_Header (set_headers l wr) !! k = Some x.
Proof.
  revert wr. induction l as [|[k' y] l IH]; intros wr Hnd Hin; [by apply elem_of_nil in Hin|].
  simpl in *. apply NoDup_cons in Hnd as [Hk Hnd]. apply elem_of_cons in Hin as [[= -> ->]|Hin]; [|by apply IH].
  rewrite set_headers_other by done. apply lookup_insert_eq.
Qed.
Lemma standing_names k x : standing k x → k ∈ (SecurityHeaders "production").*1 ∨ k = "X-Request-Id".
Proof.
  intros [[env He]|]; [|by right]. left. apply list_elem_of_fmap. exists (k, x). split; [done|].
  unfold SecurityHeaders in *. rewrite (decide_True _ _ (eq_refl "production")). case_decide; set_solver.
Qed.
Lemma late_other k y : k ∉ (SecurityHeaders "production").*1 → k ≠ "X-Request-Id" → late (k, y).
Proof. intros Hk Hr x Hs. simpl in Hs. apply standing_names in Hs. naive_solver. Qed.
Lemma late_nosniff : late ("X-Content-Type-Options", "nosniff").
Proof.
  intros x [[env He]|Hx]; [|done]. simpl in *. unfold SecurityHeaders in He.
  apply elem_of_app in He as [He|He]; [|case_decide; set_solver].
  repeat (apply elem_of_cons in He as [He|He]; [by simplify_eq|]). by apply elem_of_nil in He.
Qed.
Ltac late_tac := repeat first [ apply Forall_nil_2 | apply Forall_cons_2 | apply late_nosniff
  | apply late_other; [apply (bool_decide_unpack _); vm_compute; exact I|done] ].
Lemma own_headers_late e o : Forall late (own_headers S e o).
Proof.
  destruct o as [r|r|p| | |]; simpl; try by late_tac.
  - destruct (p_body r); try case_decide; late_tac.
  - destruct r as [r| |]; [destruct (p_body r); try case_decide|..]; late_tac.
  - apply Forall_forall. intros [k y] Hk. apply late_other;
      [apply (s_file_headers_ok S "production" p)|apply (s_file_headers_ok S "production" p)];
      apply list_elem_of_fmap; by exists (k, y).
Qed.
Lemma keeps_refuse code hs msg wr : Forall late hs → keeps wr (refuse S (Answer code hs) msg wr).1.
Proof. intros Hl. unfold refuse. etrans; [by apply keeps_headers|apply keeps_headers, own_headers_late]. Qed.

Definition hwp (F : handler) (Q : writer → outcome → Sv → Prop) (r : request) (wr : writer) (s : Sv) : Prop :=
  Q (F r wr s).1.1 (F r wr s).1.2 (F r wr s).2.

Definition is_refusal (code : Z) (o : outcome) : Prop := ∃ msg, o = Replied (http_Error code msg).

Lemma hwp_limit max dur next Q r wr s :
  (∀ wr' o s', quiet rate_only s s' → is_refusal StatusTooManyRequests o → keeps wr wr' → Q wr' o s') →
  (∀ s', quiet rate_only s s' → tick (sv_world s') = (1 + tick (sv_world s))%nat → hwp next Q r wr s') →
  hwp (apply E h S (RateLimitMiddleware max dur) next) Q r wr s.
Proof.
  intros Hno Hyes. unfold hwp, apply. pose proof (limit_quiet max dur r s) as Hq.
  pose proof (limit_tick max dur r s) as Ht.
  destruct (limit E h S max dur r s) as [[[code hs]|] s'] eqn:Hl; simpl in Hq, Ht; [|by apply Hyes].
  unfold limit, RateLimit, too_many in Hl.
  assert (code = StatusTooManyRequests ∧ ∃ y, hs = [("Retry-After", y)]) as [-> [y ->]]
    by (repeat (case_match; simplify_eq/=); eauto).
  apply Hno; [done|by eexists|]. apply keeps_refuse. late_tac.
Qed.
(** Scopes of one address have different keys. *)
Lemma rateLimitKey_scope sc sc' ip : rateLimitKey sc ip = rateLimitKey sc' ip → sc = sc'.
Proof.
  unfold rateLimitKey. intros Heq%(inj (String.append _))%(f_equal chars).
  rewrite !chars_app in Heq. apply app_inv_tail in Heq. by apply chars_inj.
Qed.
(** A client that stays below the limits is let through. *)
Definition under (k : Z) (ip : string) (l : counters) : Prop := ∀ lim, l !! ip = Some lim → hits lim < k.
Lemma under_mono k k' ip l : k ≤ k' → under k ip l → under k' ip l.
Proof. intros Hk Hu lim Hl. specialize (Hu lim Hl). lia. Qed.
Lemma allow_under k now ip max dur l :
  1 ≤ k ≤ max → under k ip l → ∃ l', allow now ip max dur l = (true, l') ∧ under (k + 1) ip l'.
Proof.
  intros Hk Hu. unfold allow. set (l1 := if 10000 <? _ then _ else l).
  assert (under k ip l1) as Hu1.
  { unfold l1. case_match; [|done]. intros lim [Hl _]%map_lookup_filter_Some. by apply Hu. }
  clearbody l1.
  assert (∀ n t, n ≤ k → under (k + 1) ip (<[ip := mk_limit n t]> l1)) as Hins.
  { intros n t Hn lim. rewrite lookup_insert_eq. intros [= <-]. simpl. lia. }
  destruct (l1 !! ip) as [lim|] eqn:Hl; [|eexists; split; [done|apply Hins; lia]].
  specialize (Hu1 lim Hl). destruct (resetTime lim <? now); [eexists; split; [done|apply Hins; lia]|].
  destruct (Z.leb_spec max (hits lim)); [lia|]. eexists. split; [done|]. apply Hins. lia.
Qed.
Definition scope (r : request) : string := if decide (c_pattern r = "") then "unmatched" else c_pattern r.
Definition client (r : request) : string := getClientIP (s_TRUST_PROXY S) (r_http r).
(** What Valkey has counted for the scope, at any time, is below [max]. *)
Definition counted (max : Z) (sc ip : string) (s : Sv) : Prop :=
  ∀ t v, vk_get t (rateLimitKey sc ip) (store (sv_world s)) = Some v → (Atoi v).1 < max.
(** The two outcomes of counting in Valkey. *)
Lemma incr_expire_counted now max sc ip dur (s : Sv) :
  0 < max → counted max sc ip s →
  match incr_expire now (rateLimitKey sc ip) dur (store (sv_world s)) with
  | Some (n, s') => n ≤ max ∧ ∃ v, s' = vk_set now (rateLimitKey sc ip) v dur (store (sv_world s))
  | None => True
  end.
Proof.
  intros Hmax Hc. unfold incr_expire. destruct (vk_get _ _ _) as [v|] eqn:Hg; [|split; [simpl; lia|eauto]].
  apply Hc in Hg. destruct (Atoi v) as [n ok]. simpl in Hg. destruct (ok && _); [split; [lia|eauto]|done].
Qed.
Lemma limit_under max dur i j r s :
  1 ≤ i ≤ 150 → 1 ≤ j ≤ max → under i (client r) (sv_early s) → under j (client r) (sv_global s) →
  counted max (scope r) (client r) s →
  ∃ s', limit E h S max dur r s = (None, s') ∧
    under (i + 1) (client r) (sv_early s') ∧ under (j + 1) (client r) (sv_global s') ∧
    ∀ t k, rateLimitKey (scope r) (client r) ≠ k →
      vk_get t k (store (sv_world s')) = vk_get t k (store (sv_world s)).
Proof.
  intros Hi Hj He Hg Hc. unfold limit. change (getClientIP _ _) with (client r). unfold RateLimit.
  set (now := clock E (tick (sv_world s))).
  destruct (allow_under i now (client r) 150 (10 * Second) (sv_early s)) as (l' & Hl' & Hu'); [done..|].
  destruct (allow_under j now (client r) max dur (sv_global s)) as (g' & Hg' & Hv'); [done..|].
  cbn [earlyLimiter globalLimiter rl_store]. rewrite Hl'. cbn [negb].
  change (if decide (c_pattern r = "") then "unmatched" else c_pattern r) with (scope r).
  assert (under (j + 1) (client r) (sv_global s)) as Hg1 by (eapply under_mono; [|done]; lia).
  pose proof (incr_expire_counted now max (scope r) (client r) dur s) as Hn.
  destruct (incr_expire _ _ _ _) as [[n s']|].
  - destruct Hn as (Hn & v & ->); [lia|done|]. assert ((max <? n) = false) as Hlt by (apply Z.ltb_ge; lia).
    destruct (h_Valkey h); [destruct (fate_kv E _)|]; cbn [earlyLimiter globalLimiter rl_store];
      rewrite ?Hlt, ?Hg'; eexists; (split; [done|]); split_and!; try done; simpl; intros; by rewrite ?vk_get_set_ne.
  - destruct (h_Valkey h); [destruct (fate_kv E _)|]; cbn [earlyLimiter globalLimiter rl_store];
      rewrite ?Hg'; eexists; (split; [done|]); split_and!; done.
Qed.
(** The rule of the limiter for such a client. *)
Lemma hwp_limit_under max dur i j next Q r wr s :
  1 ≤ i ≤ 150 → 1 ≤ j ≤ max → under i (client r) (sv_early s) → under j (client r) (sv_global s) →
  counted max (scope r) (client r) s →
  (∀ s', quiet rate_only s s' → tick (sv_world s') = (1 + tick (sv_world s))%nat →
     under (i + 1) (client r) (sv_early s') → under (j + 1) (client r) (sv_global s') →
     (∀ t k, rateLimitKey (scope r) (client r) ≠ k →
        vk_get t k (store (sv_world s')) = vk_get t k (store (sv_world s))) → hwp next Q r wr s') →
  hwp (apply E h S (RateLimitMiddleware max dur) next) Q r wr s.
Proof.
  intros Hi Hj He Hg Hc Hyes. destruct (limit_under max dur i j r s) as (s' & Hl & He' & Hg' & Hk); [done..|].
  unfold hwp, apply. pose proof (limit_quiet max dur r s) as Hq. pose proof (limit_tick max dur r s) as Ht.
  rewrite Hl in *. by apply Hyes.
Qed.
Lemma hwp_auth next Q r wr s :
  c_session r = None →
  (∀ wr' o s', quiet gate s s' → is_refusal StatusUnauthorized o → keeps wr wr' →
     ((opened r (sv_world s)).1 = None → session_user (opened r (sv_world s)).2 = None) → Q wr' o s') →
  (∀ u se c w', quiet gate s (with_world w' s) → (opened r (sv_world s)).1 = None →
     session_user (opened r (sv_world s)).2 = Some u →
     store_Save (renewed (opened r (sv_world s)).2) (store_Get (r_cookie r "session") (sv_world s)).2
       = ((c.1, c.2, se), w') →
     hwp next Q (with_user u (with_session (None, se) r)) (add_cookies (set_cookies c.2) wr) (with_world w' s)) →
  hwp (apply E h S RequireAuthMiddleware next) Q r wr s.
Proof.
  intros Hr Hno Hyes. unfold hwp, apply, require_auth.
  destruct (get_session_fresh r (sv_world s) gate Hr) as (w1 & Hg & H1).
  assert (w1 = (store_Get (r_cookie r "session") (sv_world s)).2) as Hw1.
  { unfold get_session, opened in Hg. rewrite Hr in Hg. simpl in Hg.
    destruct (store_Get _ _) as [g w'] eqn:Hst. by simplify_eq. }
  rewrite Hg. set (g := opened r (sv_world s)) in *.
  assert (∀ se, wsteps gate w1 (store_Save se w1).2) as Hsave
    by (intros; apply store_Save_steps; intros id; right; by exists id).
  unfold RequireAuth. destruct g.1 as [e|] eqn:He.
  - destruct (store_Save (ended g.2) w1) as [[[err c] se'] w2] eqn:Hs.
    apply Hno; [|by eexists| |].
    + apply quiet_world. etrans; [exact H1|]. specialize (Hsave (ended g.2)). by rewrite Hs in Hsave.
    + etrans; [apply keeps_cookies|]. apply keeps_refuse. late_tac.
    + done.
  - destruct (session_user g.2) as [u|] eqn:Hu.
    + destruct (store_Save (renewed g.2) w1) as [[[err c] se'] w2] eqn:Hs.
      apply (Hyes u se' (err, c) w2); [|done..|by rewrite <- Hw1].
      apply quiet_world. etrans; [exact H1|]. specialize (Hsave (renewed g.2)). by rewrite Hs in Hsave.
    + apply Hno; [by apply quiet_world|by eexists| |done]. apply keeps_refuse. late_tac.
Qed.
(** The session the CSRF check looks at. *)
Definition current_session (r : request) (w : W) : session :=
  match c_session r with Some g => g.2 | None => (opened r w).2 end.
Lemma hwp_csrf next Q r wr s :
  (∀ wr' o s', quiet gate s s' → is_refusal StatusForbidden o → keeps wr wr' → Q wr' o s') →
  (∀ r' s', quiet gate s s' → r_http r' = r_http r → c_user r' = c_user r →
     r' = r ∨ r' = with_session (default (opened r (sv_world s)) (c_session r)) r →
     CSRFMiddleware (r_http r) (current_session r (sv_world s)) = None →
     (c_session r ≠ None → s' = s) → hwp next Q r' wr s') →
  hwp (apply E h S CSRF next) Q r wr s.
Proof.
  intros Hno Hyes. unfold hwp, apply, csrf.
  destruct (has_session_cookie (r_http r)) eqn:Hc; cbn [negb].
  - assert (∃ g w1, get_session r (sv_world s) = (g, with_session g r, w1) ∧ wsteps gate (sv_world s) w1 ∧
      g = default (opened r (sv_world s)) (c_session r) ∧ (c_session r ≠ None → w1 = sv_world s))
      as (g & w1 & Hg & H1 & Hgv & Hw1).
    { destruct (c_session r) as [g|] eqn:Hr.
      - exists g, (sv_world s). by rewrite (get_session_known _ _ g).
      - destruct (get_session_fresh r (sv_world s) gate Hr) as (w1 & Hg & H1).
        exists (opened r (sv_world s)), w1. done. }
    rewrite Hg. change (r_http (with_session g r)) with (r_http r).
    assert (g.2 = current_session r (sv_world s)) as Hcur
      by (unfold current_session; rewrite Hgv; by destruct (c_session r)).
    destruct (CSRFMiddleware (r_http r) g.2) as [[code hs]|] eqn:Hm.
    + assert (code = StatusForbidden ∧ hs = []) as [-> ->]
        by (unfold CSRFMiddleware in Hm; repeat (case_match; simplify_eq/=); done).
      apply Hno; [by apply quiet_world|by eexists|]. apply keeps_refuse. late_tac.
    + apply Hyes; [by apply quiet_world|done..|right; by rewrite Hgv|by rewrite <- Hcur|].
      intros Hs. rewrite (Hw1 Hs). by destruct s.
  - apply Hyes; [done..|by left| |done]. unfold CSRFMiddleware. by rewrite Hc.
Qed.
Lemma hwp_mono (F : handler) (Q Q' : writer → outcome → Sv → Prop) r wr s :
  hwp F Q r wr s → (∀ wr o s, Q wr o s → Q' wr o s) → hwp F Q' r wr s.
Proof. unfold hwp. auto. Qed.

(** The middlewares around all routes. *)
Definition recovered (o : outcome) : outcome :=
  match o with Panicked => Replied (mk_reply StatusInternalServerError (BRaw "") []) | _ => o end.
Definition start_writer (id : string) (wr : writer) : writer :=
  set_headers (SecurityHeaders (h_Env h)) (set_header "X-Request-Id" id wr).
Lemma hwp_root Q r wr s :
  let id := s_uuid S (tick (sv_world s)) in
  hwp (apply E h S (RateLimitMiddleware 300 Minute)
         (λ r wr s, let '((wr, o), s) := dispatch E N h S r wr s in ((wr, recovered o), s))) Q
    (with_requestID id r) (start_writer id wr) (with_world (bump (sv_world s)) s) →
  hwp (serve E N h S) Q r wr s.
Proof. done. Qed.
Lemma hwp_recovered Q r wr s :
  hwp (dispatch E N h S) (λ wr' o, Q wr' (recovered o)) r wr s →
  hwp (λ r wr s, let '((wr, o), s) := dispatch E N h S r wr s in ((wr, recovered o), s)) Q r wr s.
Proof. unfold hwp. by destruct (dispatch E N h S r wr s) as [[wr' o] s']. Qed.
Lemma bump_quiet s : quiet rate_only s (with_world (bump (sv_world s)) s).
Proof. apply quiet_world, rtc_once. constructor. Qed.
Lemma hwp_serve Q r wr s :
  let id := s_uuid S (tick (sv_world s)) in
  (∀ wr' o s', quiet rate_only s s' → is_refusal StatusTooManyRequests o →
     keeps (start_writer id wr) wr' → Q wr' o s') →
  (∀ s', quiet rate_only s s' → tick (sv_world s') = (2 + tick (sv_world s))%nat →
     hwp (dispatch E N h S) (λ wr' o, Q wr' (recovered o)) (with_requestID id r) (start_writer id wr) s') →
  hwp (serve E N h S) Q r wr s.
Proof.
  intros id Hno Hyes. apply hwp_root, hwp_limit.
  - intros wr' o s' Hq Ho Hk. apply Hno; [etrans; [apply bump_quiet|done]|done..].
  - intros s' Hq Ht. apply hwp_recovered, Hyes; [etrans; [apply bump_quiet|done]|done].
Qed.

(** Only a failed assertion that there is a user panics. *)
Lemma endpoint_panics e r (s s' : Sv) :
  run_endpoint E N h S e r s = (Panicked, s') →
  c_user r = None ∧ e ∈ [ESavePreferences; EManualSync; EDeleteAccount].
Proof.
  unfold run_endpoint. cbv zeta.
  destruct e; intros Hrun; repeat (case_match; simplify_eq/=); try done; (split; [done|set_solver]).
Qed.

(** ** A whole route *)

(** A request as the server receives it: nothing is in its context yet. *)
Definition fresh (r : request) : Prop := c_session r = None ∧ c_user r = None.
Definition shapes : list (list middleware) :=
  [[]; [RateLimitMiddleware 10 (15 * Minute); CSRF]; [RequireAuthMiddleware];
   [RequireAuthMiddleware; RateLimitMiddleware 60 Minute]; [RequireAuthMiddleware; CSRF]].
Lemma routes_shapes rt : rt ∈ routes → rt_use rt ∈ shapes.
Proof.
  enough (Forall (λ rt, rt_use rt ∈ shapes) routes) as Hf by (intros; by eapply Forall_forall in Hf).
  repeat (constructor; [apply (bool_decide_unpack _); vm_compute; exact I|]). constructor.
Qed.


(** The user the handler sees: the one of the session behind [RequireAuth],
    otherwise nobody. *)
Definition runs_as (use : list middleware) (r : request) (w : W) (r' : request) : Prop :=
  if decide (RequireAuthMiddleware ∈ use)
  then ∃ u, c_user r' = Some u ∧ (opened r w).1 = None ∧ session_user (opened r w).2 = Some u
  else c_user r' = None.

Lemma hwp_chain use (e : handler) Q r wr (s0 s : Sv) :
  use ∈ shapes → fresh r → quiet rate_only s0 s →
  (∀ code wr' o s', code ∈ [StatusTooManyRequests; StatusUnauthorized; StatusForbidden] →
     quiet gate s0 s' → is_refusal code o → keeps wr wr' → Q wr' o s') →
  (∀ r' wr' s', quiet gate s0 s' → keeps wr wr' → runs_as use r (sv_world s) r' → hwp e Q r' wr' s') →
  hwp (chain E h S use e) Q r wr s.
Proof.
  intros Huse [Hcs Hcu] Hq Hno Hyes.
  assert (∀ next, RequireAuthMiddleware ∈ use →
    (∀ r1 wr1 s1, quiet gate s0 s1 → keeps wr wr1 → runs_as use r (sv_world s) r1 → hwp next Q r1 wr1 s1) →
    hwp (apply E h S RequireAuthMiddleware next) Q r wr s) as Hauth.
  { intros next Hin Hnext. apply hwp_auth; [done| |].
    - intros wr1 o s1 Hq1 Ho Hk _. eapply Hno; [|etrans; [by apply rate_gate|done]|done..]. set_solver.
    - intros u se c w1 Hq1 Hn Hu _. apply Hnext; [etrans; [by apply rate_gate|done]|apply keeps_cookies|].
      unfold runs_as. rewrite decide_True by done. eauto. }
  assert (∀ r1 wr1 s1, quiet gate s0 s1 → keeps wr wr1 → runs_as use r (sv_world s) r1 →
    hwp (apply E h S CSRF e) Q r1 wr1 s1) as Hcsrf.
  { intros r1 wr1 s1 Hq1 Hk1 Hu1. apply hwp_csrf.
    - intros wr2 o s2 Hq2 Ho Hk2. eapply Hno; [|by etrans|done|by etrans]. set_solver.
    - intros r2 s2 Hq2 _ Hu2 _ _ _. apply Hyes; [by etrans|done|]. unfold runs_as. by rewrite Hu2. }
  assert (∀ max dur next r1 wr1 s1, quiet gate s0 s1 → keeps wr wr1 →
    (∀ s2, quiet gate s0 s2 → hwp next Q r1 wr1 s2) →
    hwp (apply E h S (RateLimitMiddleware max dur) next) Q r1 wr1 s1) as Hrate.
  { intros max dur next r1 wr1 s1 Hq1 Hk1 Hnext. apply hwp_limit.
    - intros wr2 o s2 Hq2 Ho Hk2. eapply Hno; [|etrans; [done|by apply rate_gate]|done|by etrans]. set_solver.
    - intros s2 Hq2 _. apply Hnext. etrans; [done|by apply rate_gate]. }
  assert (quiet gate s0 s) as Hq' by (by apply rate_gate).
  unfold shapes in Huse. repeat apply elem_of_cons in Huse as [->|Huse]; try by apply elem_of_nil in Huse; simpl.
  - by apply Hyes.
  - apply Hrate; [done..|]. intros s2 Hq2. by apply Hcsrf.
  - apply Hauth; [set_solver|done].
  - apply Hauth; [set_solver|]. intros r1 wr1 s1 Hq1 Hk1 Hu1. apply Hrate; [done..|]. auto.
  - apply Hauth; [set_solver|done].
Qed.
End Rules.

(** ** Who may change a user's data *)

(** What a request does that neither carries a session of the user [v] nor is
    vouched for by Google as the account [g]. *)
Definition outsider (v : Z) (g : string) (e : effect) : Prop :=
  match e with
  | FSql q =>
      (∃ u, u ≠ v ∧ handler_stmt u q) ∨
      match q with InsertState _ | ConsumeState _ _ => True | UpsertUser gid _ _ _ => gid ≠ g | _ => False end
  | _ => True
  end.
(** The row of [v] and its synced events are as they were. *)
Definition untouched (v : Z) (d d' : DB) : Prop :=
  users d' !! v = users d !! v ∧ ∀ c, synced_events d' !! (v, c) = synced_events d !! (v, c).

Lemma upsert_other v u g now gid mail tok acc d d' r :
  wf_db d → users d !! v = Some u → google_id u = g → gid ≠ g →
  upsert_user now gid mail tok acc d = inr (d', r) → untouched v d d'.
Proof.
  intros Hwf Hu Hg Hne. unfold upsert_user. case_decide; [done|].
  destruct (find_google gid d) as [[id x]|] eqn:Hf; intros [= <- <-]; split; simpl; try done.
  - apply find_google_Some in Hf as [Hx Hxg]. rewrite lookup_insert_ne; [done|]. intros ->. congruence.
  - rewrite lookup_insert_ne; [done|]. intros <-. apply (wf_seq d Hwf) in Hu. lia.
Qed.
Lemma outsider_stmt v u g now q d d' r :
  wf_db d → users d !! v = Some u → google_id u = g → outsider v g (FSql q) →
  exec now q d = inr (d', r) → untouched v d d'.
Proof.
  intros Hwf Hu Hg [(x & Hx & Hq)|Hq] He.
  - destruct (handler_stmt_same v x now q d d' r) as (? & ? & _); done.
  - destruct q; try done; simpl in He; [by eapply upsert_other|..].
    + case_match; simplify_eq. done.
    + repeat case_match; simplify_eq; done.
Qed.
Lemma outsider_steps {kv} `{!Valkey kv} v u (w w' : World kv) :
  wsteps (outsider v (google_id u)) w w' → wf_db (db w) → users (db w) !! v = Some u →
  wf_db (db w') ∧ untouched v (db w) (db w').
Proof.
  induction 1 as [w|w1 w2 w3 Hs _ IH]; intros Hwf Hu; [done|].
  assert (untouched v (db w1) (db w2)) as [Hu2 Hc2].
  { destruct Hs as [|now q d' r w Ha He| | | | | | | |]; simpl; try done. by eapply outsider_stmt. }
  destruct IH as (Hwf3 & Hu3 & Hc3); [by eapply wstep_wf|congruence|].
  split; [done|]. split; [congruence|]. intros c. by rewrite Hc3.
Qed.

Section Outsider.
Context {kv : Type} `{!Valkey kv} `{!SessionStore kv} `{!AEAD} `{!Codec CachedUser} `{!Codec validation}
  `{!Codec platforms_payload} `{!Mux}.
Context (E : Env) (N : Net) (h : Handlers) (S : Wiring) (v : Z) (g : string).
Abbreviation W := (World kv).
Abbreviation Sv := (Server kv).
Abbreviation Go := (@M kv).
Context (Hvouch : ∀ n tok gid mail, userinfo N n tok = inr (Some (gid, mail)) → gid ≠ g).

#[local] Hint Resolve net_steps ss_Get_steps ss_New_steps : sync_steps.
Ltac footprint _ := simpl; auto.
Ltac steps := repeat first [ wsteps1 footprint | apply ss_Save_steps; footprint ()
  | apply publish_sync_steps; footprint () | apply steps_kv_del2; footprint ()
  | progress intros | progress cbv zeta ].
Abbreviation out := (outsider v g).

Lemma handler_outsider u (w w' : W) : u ≠ v → wsteps (handler_allow u) w w' → wsteps out w w'.
Proof. intros Hu. apply wsteps_mono. intros []; simpl; naive_solver. Qed.

Lemma callback_outsider (SS : SessionStore kv) state code oc c (w : W) :
  wsteps out w (GoogleCallback E N h (SessionStore0 := SS) state code oc c w).2.
Proof.
  unfold GoogleCallback. apply (wp_run _ (λ _ w', wsteps out w w')). destruct oc as [x|]; [|by apply wp_leave].
  destruct (decide (x ≠ state)); [by apply wp_leave|].
  apply (wp_bind_respects (wsteps out)); [unfold consume_state; steps| |done].
  intros _ w1 H1. apply wp_bind.
  assert (respects (wsteps out) (fetch_account N code : Go reply _)) as Hf by (unfold fetch_account; steps).
  eapply wp_mono; [apply (wp_and _ _ _ _ _ _ (Hf w1) (fetch_account_spec N code w1))|cbn beta|].
  2: { intros r w2 [H2 _]. by etrans. }
  intros [[tok gid] mail] w2 [H2 (_ & _ & (n1 & n2 & _ & Hi))]. simpl in Hi. apply Hvouch in Hi.
  assert (wsteps out w w2) as H02 by (by etrans).
  eapply (wp_mono _ (λ _, wsteps out w2) _ (λ _, wsteps out w2)); [|intros; by etrans..].
  apply (λ m (Hm : respects (wsteps out) m), Hm w2). unfold encrypt_refresh, start_session, generateRandomString.
  steps.
Qed.
Lemma log_events_outsider evs (w : W) : wsteps out w (log_events evs w).
Proof.
  revert w. induction evs as [|ev evs IH]; intros w; [done|]. simpl. etrans; [|apply IH].
  apply rtc_once. by apply step_telegram.
Qed.
Lemma sync_pages_steps {R} pub fuel offset q : respects (wsteps out) (sync_pages E pub fuel offset q : Go R _).
Proof. revert offset q. induction fuel; intros; simpl; steps. Qed.
#[local] Hint Resolve sync_pages_steps : sync_steps.
Lemma SyncAll_outsider pw pass ev pub fuel q : respects (wsteps out) (SyncAll E pw pass ev pub fuel q : Go _ _).
Proof. unfold SyncAll, SyncAllUsers. steps. Qed.
Lemma HealthCheck_outsider pw pass post rd vk q :
  respects (wsteps out) (HealthCheck E pw pass post rd vk q : Go _ _).
Proof.
  assert (∀ R, respects (wsteps out) (sql_probe E : Go R _)) as Hp by (intros R w; apply wp_ext, step_bump; done).
  assert (respects (wsteps out) (checkPostgres E rd : Go _ _)) as Hpg
    by (unfold checkPostgres; steps; apply Hp).
  assert (respects (wsteps out) (checkValkey E : Go _ _)) as Hvk by (unfold checkValkey; steps).
  unfold HealthCheck, measure. steps; apply respects_call; intros w; try done;
    by apply (respects_run (wsteps out)).
Qed.

Lemma endpoint_outsider e r (s : Sv) :
  c_user r ≠ Some v → wsteps out (sv_world s) (sv_world (run_endpoint E N h S e r s).2).
Proof.
  intros Hu.
  assert (∀ f : W → reply * W, (∀ w, wsteps out w (f w).2) →
    wsteps out (sv_world s) (sv_world (let '(p, w') := f (sv_world s) in (Replied p, with_world w' s)).2)) as Hlift
    by (intros f Hf; specialize (Hf (sv_world s)); by destruct (f (sv_world s))).
  assert (∀ f : Z → outcome * Sv, (∀ u, u ≠ v → wsteps out (sv_world s) (sv_world (f u).2)) →
    wsteps out (sv_world s) (sv_world (match c_user r with Some u => f u | None => (Panicked, s) end).2)) as Huser
    by (intros f Hf; destruct (c_user r) as [u|]; [apply Hf; congruence|done]).
  destruct e; unfold run_endpoint; cbv zeta; try apply Hlift; try apply Huser; intros.
  - pose proof (respects_run (wsteps out) (HealthCheck E (s_AdminPassword S)
      (q_header (r_http r) "X-Admin-Password") (bool_decide (r_Method r = "POST")) (h_ReadDB h) (h_Valkey h)
      (Some (sv_queue s))) (sv_world s) (HealthCheck_outsider _ _ _ _ _ _)) as Hh.
    by destruct (run _ (sv_world s)).
  - apply (respects_run (wsteps out)). unfold feed_platforms. steps.
  - apply (respects_run (wsteps out)). unfold generateRandomString. steps.
  - apply callback_outsider.
  - destruct (UpdateContests _ _ _ _ _) as [[p q'] evs]. apply step_bump, log_events_outsider.
  - pose proof (SyncAll_outsider (s_AdminPassword S) (q_header (r_http r) "X-Admin-Password") (s_hasEvent S)
      (s_sync_pub S (tick (sv_world s))) (s_fuel S) (sv_queue s) (sv_world s)) as Hs. unfold wp in Hs.
    by destruct (SyncAll _ _ _ _ _ _ _ (sv_world s)) as [[]  w']; [|destruct p as [[p ids] []]].
  - destruct (c_user r) as [u|]; [|done]. apply (handler_outsider u); [congruence|]. apply Me_steps.
  - apply (handler_outsider (v + 1)); [lia|]. apply GetPlatforms_steps.
  - destruct (c_user r) as [u|]; [|done]. apply (handler_outsider u); [congruence|].
    apply ValidateCalendarAccess_steps.
  - apply Hlift. intros w. eapply handler_outsider; [done|]. apply SavePreferences_steps.
  - apply Hlift. intros w. eapply handler_outsider; [done|]. apply ManualSync_steps.
  - match goal with |- context [DeleteAccount E h u ?del ?c (sv_world s)] =>
      pose proof (DeleteAccount_steps E h u (SessionStore0 := registered (c_session r)) del c (sv_world s)) as Hd;
      destruct (DeleteAccount E h u del c (sv_world s)) as [[p job] w'] end.
    by apply (handler_outsider u).
  - apply (handler_outsider (v + 1)); [lia|]. apply Logout_steps.
  - done.
Qed.

Definition harmless (s : Sv) (_ : writer) (_ : outcome) (s' : Sv) : Prop :=
  wsteps out (sv_world s) (sv_world s').
Lemma gate_outsider (s s' : Sv) : quiet gate s s' → wsteps out (sv_world s) (sv_world s').
Proof. intros (Hw & _). eapply wsteps_mono; [|exact Hw]. by intros e [[? ->]|[? ->]]. Qed.
Lemma serve_endpoint_harmless e r wr (s s' : Sv) :
  quiet gate s s' → c_user r ≠ Some v → hwp (serve_endpoint E N h S e) (harmless s) r wr s'.
Proof.
  intros Hq Hu. unfold hwp, harmless, serve_endpoint.
  pose proof (endpoint_outsider e r s' Hu) as He. destruct (run_endpoint _ _ _ _ e r s') as [o s2].
  simpl in *. etrans; [by apply gate_outsider|done].
Qed.
(** The session of the request is not one of [v], read at any time of the rate limits. *)
Definition not_of_v (r : request) (s : Sv) : Prop :=
  ∀ w, wsteps rate_only (sv_world s) w → session_user (opened r w).2 ≠ Some v.
Lemma chain_harmless use e r wr (s s' : Sv) :
  use ∈ shapes → fresh r → not_of_v r s → quiet rate_only s s' →
  hwp (chain E h S use (serve_endpoint E N h S e)) (harmless s) r wr s'.
Proof.
  intros Huse Hf Hno Hq. eapply hwp_chain; [done..| |].
  - intros. by apply gate_outsider.
  - intros r1 wr1 s1 Hq1 _ Hu1. apply serve_endpoint_harmless; [done|].
    unfold runs_as in Hu1. case_decide; [|congruence]. destruct Hu1 as (u & -> & _ & Hu).
    destruct Hq as [Hw _]. specialize (Hno _ Hw). congruence.
Qed.
Lemma serve_harmless r wr (s : Sv) :
  fresh r → not_of_v r s → wsteps out (sv_world s) (sv_world (serve E N h S r wr s).2).
Proof.
  intros Hf Hno. apply (hwp_serve E N h S (harmless s)).
  - intros. by apply gate_outsider, rate_gate.
  - intros s' Hq _. unfold hwp, dispatch. simpl.
    destruct (mux_find routes (r_Method r) (r_Path r)) as [rt|] eqn:Hm.
    + apply mux_find_sound in Hm as (Hin & _). by apply (chain_harmless (rt_use rt)); [apply routes_shapes|..].
    + by apply gate_outsider, rate_gate.
Qed.
End Outsider.

Section Served.
Context {kv : Type} `{!Valkey kv} `{!SessionStore kv} `{!AEAD} `{!Codec CachedUser} `{!Codec validation}
  `{!Codec platforms_payload} `{!Mux}.
Context (E : Env) (N : Net) (h : Handlers) (S : Wiring).
Abbreviation W := (World kv).
Abbreviation Sv := (Server kv).

(** C7 (safety).  No request over HTTP, to whatever path, changes the row or
    the synced events of the user [v] or breaks the integrity of the schema,
    unless its session is one of [v] or Google vouches for [v]'s account. *)
Theorem serve_isolation v u r wr (s : Sv) :
  wf_db (db (sv_world s)) → users (db (sv_world s)) !! v = Some u → fresh r →
  (∀ n tok gid mail, userinfo N n tok = inr (Some (gid, mail)) → gid ≠ google_id u) →
  (∀ w, wsteps rate_only (sv_world s) w → session_user (opened r w).2 ≠ Some v) →
  let s' := (serve E N h S r wr s).2 in
  wf_db (db (sv_world s')) ∧ untouched v (db (sv_world s)) (db (sv_world s')).
Proof.
  intros Hwf Hu Hf Hg Hno s'. apply (outsider_steps v u); [|done..]. by apply serve_harmless.
Qed.

(** The route of a static path. *)
Lemma route_found m p rt :
  bool_decide (rt ∈ routes ∧ exactly rt m p ∧ Forall (λ r', exactly r' m p → r' = rt) routes) = true →
  mux_find routes m p = Some rt.
Proof.
  intros (Hin & Hex & Hall)%bool_decide_eq_true. apply mux_find_exact; [done..|].
  intros r' Hr'. by eapply Forall_forall in Hall.
Qed.

(** The routes that change what belongs to a user. *)
Definition guarded : list (string * string * endpoint) :=
  [("POST", "/preferences", ESavePreferences); ("POST", "/sync", EManualSync);
   ("DELETE", "/account", EDeleteAccount); ("POST", "/auth/logout", ELogout)].
Lemma guarded_found m p e :
  (m, p, e) ∈ guarded → mux_find routes m p = Some (mk_route (Some m) p [RequireAuthMiddleware; CSRF] e).
Proof.
  unfold guarded. intros Hg.
  repeat (apply elem_of_cons in Hg as [[= -> -> ->]|Hg]; [apply route_found; vm_compute; reflexivity|]).
  by apply elem_of_nil in Hg.
Qed.

(** The handler of [e] ran, as the user [u] of the session [se] whose token
    the request repeats. *)
Definition ran_for (e : endpoint) (r : request) (s : Sv) (o : outcome) (s' : Sv) : Prop :=
  ∃ u se t s1 s2 r2,
    quiet rate_only s s1 ∧ opened r (sv_world s1) = (None, se) ∧ session_user se = Some u ∧
    s_Values se !! "csrf_token" = Some (VString t) ∧ t ≠ "" ∧ q_header (r_http r) "X-CSRF-Token" = t ∧
    quiet gate s1 s2 ∧ c_user r2 = Some u ∧ r_http r2 = r_http r ∧ r_body r2 = r_body r ∧ r_query r2 = r_query r ∧
    run_endpoint E N h S e r2 s2 = (o, s').

Definition refused (s : Sv) (o : outcome) (s' : Sv) : Prop :=
  quiet gate s s' ∧
  (is_refusal StatusTooManyRequests o ∨ is_refusal StatusUnauthorized o ∨ is_refusal StatusForbidden o).
Definition decided (e : endpoint) (r : request) (s : Sv) (_ : writer) (o : outcome) (s' : Sv) : Prop :=
  refused s (recovered o) s' ∨ ran_for e r s (recovered o) s'.

Lemma refused_decided e r (s s1 s2 : Sv) wr o :
  quiet gate s s1 → quiet gate s1 s2 →
  is_refusal StatusTooManyRequests o ∨ is_refusal StatusUnauthorized o ∨ is_refusal StatusForbidden o →
  decided e r s wr o s2.
Proof.
  intros H1 H2 Ho. left. split; [by etrans|].
  by destruct Ho as [[msg ->]|[[msg ->]|[msg ->]]]; [left|right; left|right; right]; exists msg.
Qed.
(** A session with a user came with a cookie. *)
Lemma opened_cookie r (w : W) se u :
  (∀ w : W, s_Values (store_Get None w).1.2 = ∅) →
  opened r w = (None, se) → session_user se = Some u → q_cookie (r_http r) "session" ≠ None.
Proof.
  intros Hempty Hse Hu Hc. unfold opened, r_cookie in Hse. rewrite Hc in Hse. specialize (Hempty w).
  rewrite Hse in Hempty. simpl in Hempty. unfold session_user in Hu. by rewrite Hempty, lookup_empty in Hu.
Qed.
Lemma user_no_panic e r u (s s' : Sv) o :
  c_user r = Some u → run_endpoint E N h S e r s = (o, s') → recovered o = o.
Proof. intros Hu Hrun. destruct o; try done. apply endpoint_panics in Hrun as [? _]. congruence. Qed.
Lemma guarded_handler m p e r wr (s s1 : Sv) :
  (∀ w : W, s_Values (store_Get None w).1.2 = ∅) →
  (m, p, e) ∈ guarded → fresh r → quiet rate_only s s1 →
  hwp (chain E h S [RequireAuthMiddleware; CSRF] (serve_endpoint E N h S e)) (decided e r s) r wr s1.
Proof.
  intros Hempty Hg [Hcs Hcu] Hq1. cbn [chain foldr]. apply hwp_auth; [done| |].
  { intros wr1 o s2 Hq2 Ho _ _. eapply refused_decided; [by apply rate_gate|done|eauto]. }
  intros u se c w2 Hq2 Hnone Hu Hsave. set (s2 := with_world w2 s1) in *.
  destruct (opened r (sv_world s1)) as [err se0] eqn:Hse. simpl in Hnone, Hu, Hsave. subst err.
  assert (s_Values se = s_Values se0) as Hv.
  { pose proof (store_Save_values (renewed se0) (store_Get (r_cookie r "session") (sv_world s1)).2) as Hv.
    by rewrite Hsave in Hv. }
  apply hwp_csrf.
  { intros wr1 o s3 Hq3 Ho _. eapply refused_decided; [by apply rate_gate|by etrans|eauto]. }
  intros r3 s3 Hq3 Hh3 Hu3 Hr3 Hcsrf _. unfold current_session in Hcsrf. simpl in Hcsrf, Hu3, Hh3.
  apply csrf_token_required in Hcsrf as (t & Ht & Hne & Hhd); [|by eapply opened_cookie].
  rewrite Hv in Ht. right. destruct (run_endpoint E N h S e r3 s3) as [o s4] eqn:Hrun.
  unfold serve_endpoint. rewrite Hrun. simpl. rewrite (user_no_panic e r3 u s3 s4 o Hu3 Hrun).
  exists u, se0, t, s1, s3, r3. split_and!; try done; [by etrans|by destruct Hr3 as [->| ->]..].
Qed.

(** C8 (safety).  A request to one of the routes that change a user's data is
    either refused with 401, 403 or 429 without any effect but on rate limits
    and sessions, or it has a session, its header repeats the CSRF token of
    that session, and the handler runs as the user of that session. *)
Theorem guarded_routes m p e r wr (s : Sv) :
  (∀ w : W, s_Values (store_Get None w).1.2 = ∅) →
  (m, p, e) ∈ guarded → fresh r → r_Method r = m → r_Path r = p →
  let '((_, o), s') := serve E N h S r wr s in refused s o s' ∨ ran_for e r s o s'.
Proof.
  intros Hempty Hg Hf Hm Hp.
  enough (hwp (serve E N h S) (λ _ o s', refused s o s' ∨ ran_for e r s o s') r wr s) as Hw
    by (unfold hwp in Hw; by destruct (serve E N h S r wr s) as [[? ?] ?]).
  apply hwp_serve; [intros; left; split; [by apply rate_gate|by left]|].
  intros s1 Hq1 _. unfold hwp, dispatch. simpl. rewrite Hm, Hp, (guarded_found m p e Hg).
  exact (guarded_handler m p e (with_pattern p (with_requestID (s_uuid S (tick (sv_world s))) r))
    _ s s1 Hempty Hg Hf Hq1).
Qed.

(** Property (safety).  Every response, refusals and files included, carries the
    security headers of the environment and the identifier of its request. *)
Theorem security_headers r wr (s : Sv) :
  fresh r →
  let wr' := (serve E N h S r wr s).1.1 in
  (∀ k x, (k, x) ∈ SecurityHeaders (h_Env h) → w_Header wr' !! k = Some x) ∧
  w_Header wr' !! "X-Request-Id" = Some (s_uuid S (tick (sv_world s))).
Proof.
  intros Hf wr'. set (id := s_uuid S (tick (sv_world s))).
  enough (keeps (start_writer h id wr) wr') as Hk.
  { split.
    - intros k x Hin. apply Hk; [left; by exists (h_Env h)|]. apply set_headers_lookup; [|done].
      unfold SecurityHeaders. case_decide; apply (bool_decide_unpack _); vm_compute; exact I.
    - apply Hk; [by right|]. unfold start_writer. rewrite set_headers_other
        by (unfold SecurityHeaders; case_decide; apply (bool_decide_unpack _); vm_compute; exact I).
      apply lookup_insert_eq. }
  apply (hwp_serve E N h S (λ wr' _ _, keeps (start_writer h id wr) wr')); [done|].
  intros s1 Hq1 _. unfold hwp, dispatch. simpl. destruct (mux_find _ _ _) as [rt|] eqn:Hm; [|done].
  apply mux_find_sound in Hm as (Hin & _).
  apply (hwp_chain E h S (rt_use rt) _ (λ wr' _ _, keeps (start_writer h id wr) wr') _ _ s s1);
    [by apply routes_shapes|done..|].
  intros r2 wr2 s2 _ Hk _. unfold hwp, serve_endpoint.
  destruct (run_endpoint _ _ _ _ _ r2 s2) as [o s3]. simpl. etrans; [exact Hk|]. etrans; [|apply keeps_cookies].
  apply keeps_headers, own_headers_late.
Qed.

(** Handlers that assert that there is a user are behind [RequireAuth]. *)
Lemma assertions_behind_auth rt :
  rt ∈ routes → RequireAuthMiddleware ∈ rt_use rt ∨ rt_endpoint rt ∉ [ESavePreferences; EManualSync; EDeleteAccount].
Proof.
  enough (Forall (λ rt, RequireAuthMiddleware ∈ rt_use rt ∨ rt_endpoint rt ∉ [ESavePreferences; EManualSync; EDeleteAccount])
    routes) as Hf by (intros; by eapply Forall_forall in Hf).
  apply (bool_decide_unpack _). vm_compute. exact I.
Qed.
(** C32 (error).  No request makes a handler panic: the assertion that the
    context has a user is only reached behind the authentication. *)
Theorem dispatch_never_panics r wr (s : Sv) : fresh r → (dispatch E N h S r wr s).1.2 ≠ Panicked.
Proof.
  intros Hf. unfold dispatch. destruct (mux_find _ _ _) as [rt|] eqn:Hm; [|done].
  apply mux_find_sound in Hm as (Hin & _).
  apply (hwp_chain E h S (rt_use rt) _ (λ _ o _, o ≠ Panicked) _ _ s s); [by apply routes_shapes|done..| |].
  - by intros code wr' o s' _ _ [msg ->] _.
  - intros r2 wr2 s2 _ _ Hr2. unfold hwp, serve_endpoint.
    destruct (run_endpoint _ _ _ _ _ r2 s2) as [o s3] eqn:Hrun. simpl. intros ->.
    apply endpoint_panics in Hrun as [Hnone He]. unfold runs_as in Hr2.
    apply assertions_behind_auth in Hin as [Hin|Hin]; [|done].
    rewrite decide_True in Hr2 by done. destruct Hr2 as (u & Hu & _). congruence.
Qed.
End Served.

(** ** From the login to the next request *)

Section Session.
Context {kv : Type} `{!Valkey kv} `{!Cookies} `{!Codec (gmap string json_value)} `{!AEAD} `{!Codec CachedUser}
  `{!Codec validation} `{!Codec platforms_payload} `{!Mux}.
Context (E : Env) (N : Net) (h : Handlers) (S : Wiring).
Abbreviation W := (World kv).
Abbreviation Sv := (Server kv).
#[local] Existing Instance valkey_store.
Abbreviation SS := (valkey_store E N).

(** Rate limiting does not touch sessions. *)
Lemma rate_keeps_session name cookie f t (w w' : W) :
  wsteps rate_only w w' → New_session name cookie f t (store w') = New_session name cookie f t (store w).
Proof.
  intros Hs. unfold New_session. destruct cookie as [c|]; [|done]. destruct (DecodeMulti name c) as [|id]; [done|].
  rewrite (wsteps_kv_frame rate_only (sessionKey id) w w' t); [done| |done]. by intros [x [=]].
Qed.

Section Login.
Context (c : string) (n : nat) (uid : Z) (r : request) (s : Sv).
Context (Hf : fresh r) (Hpat : c_pattern r = "") (Hc : r_cookie r "session" = Some c)
  (Hlog : logged_in E N c n uid (store (sv_world s))).
(** The third external call of the request reads the session. *)
Context (Hnet : fate_kv E (2 + tick (sv_world s)) = Done)
  (Htime : (clock E n ≤ clock E (2 + tick (sv_world s)) < clock E n + 7 * 86400 * Second)%Z).
(** The client has used up none of the limits. *)
Context (Hearly : under 149 (client S r) (sv_early s)) (Hglobal : under 59 (client S r) (sv_global s))
  (Hroot : counted 300 "unmatched" (client S r) s).

Lemma cookie_opens r1 (s1 : Sv) :
  quiet rate_only s s1 → tick (sv_world s1) = (2 + tick (sv_world s))%nat → r_cookie r1 "session" = Some c →
  (opened (SessionStore0 := SS) r1 (sv_world s1)).1 = None ∧
  session_user (opened (SessionStore0 := SS) r1 (sv_world s1)).2 = Some uid.
Proof.
  intros [Hw1 _] Ht1 Hc1. unfold opened. rewrite Hc1.
  split; [done|]. change (session_user (New_session "session" (Some c) (fate_kv E (tick (sv_world s1)))
    (clock E (tick (sv_world s1))) (store (sv_world s1))) = Some uid). rewrite Ht1, Hnet, (rate_keeps_session _ _ _ _ _ _ Hw1).
  by apply Hlog.
Qed.
Definition reached (e : endpoint) (_ : writer) (o : outcome) (s' : Sv) : Prop :=
  ∃ r2 s2, c_user r2 = Some uid ∧ run_endpoint E N h S (SessionStore0 := SS) e r2 s2 = (o, s').
Lemma endpoint_reached e r2 wr2 s2 :
  c_user r2 = Some uid →
  hwp (serve_endpoint E N h S (SessionStore0 := SS) e) (λ wr o, reached e wr (recovered o)) r2 wr2 s2.
Proof.
  intros Hu2. exists r2, s2. split; [done|]. unfold serve_endpoint.
  destruct (run_endpoint _ _ _ _ e r2 s2) as [o s3] eqn:Hrun. simpl.
  by rewrite (user_no_panic E N h S e r2 uid s2 s3 o Hu2 Hrun).
Qed.
(** Opening and renewing the session leaves the counters in Valkey alone. *)
Lemma renewing_keeps_counters max sc ip r1 (s1 : Sv) se res w2 :
  counted max sc ip s1 →
  store_Save (SessionStore := SS) se (store_Get (SessionStore := SS) (r_cookie r1 "session") (sv_world s1)).2
    = (res, w2) →
  counted max sc ip (with_world w2 s1).
Proof.
  intros Hcnt Hs t v. simpl. pose (only e := ∃ id, e = FKv (sessionKey id)).
  assert (wsteps only (sv_world s1) w2) as Hw.
  { replace w2 with (store_Save (SessionStore := SS) se
      (store_Get (SessionStore := SS) (r_cookie r1 "session") (sv_world s1)).2).2 by (by rewrite Hs).
    etrans; [apply (store_Get_steps (SessionStore := SS))|apply (store_Save_steps (SessionStore := SS)); intros id; by exists id]. }
  rewrite (wsteps_kv_frame only _ (sv_world s1) w2 t); [apply Hcnt| |exact Hw]. by intros [id [=]].
Qed.
Lemma chain_reached use e r1 wr s1 :
  use ∈ [[RequireAuthMiddleware]; [RequireAuthMiddleware; RateLimitMiddleware 60 Minute]] →
  quiet rate_only s s1 → tick (sv_world s1) = (2 + tick (sv_world s))%nat → fresh r1 →
  r_cookie r1 "session" = Some c →
  under 150 (client S r1) (sv_early s1) → under 60 (client S r1) (sv_global s1) →
  counted 60 (scope r1) (client S r1) s1 →
  hwp (chain E h S (SessionStore0 := SS) use (serve_endpoint E N h S (SessionStore0 := SS) e))
    (λ wr o, reached e wr (recovered o)) r1 wr s1.
Proof.
  intros Huse Hq1 Ht1 [Hcs _] Hc1 He1 Hg1 Hv1. destruct (cookie_opens r1 s1 Hq1 Ht1 Hc1) as [Hnone Huid].
  assert (∀ next, (∀ se wr2 w2, counted 60 (scope r1) (client S r1) (with_world w2 s1) →
      hwp next (λ wr o, reached e wr (recovered o)) (with_user uid (with_session (None, se) r1)) wr2
        (with_world w2 s1)) →
    hwp (apply E h S (SessionStore0 := SS) RequireAuthMiddleware next)
      (λ wr o, reached e wr (recovered o)) r1 wr s1) as Hauth.
  { intros next Hnext. apply hwp_auth; [done| |].
    - intros wr' o s' _ _ _ Hno. specialize (Hno Hnone). congruence.
    - intros u se k w2 _ _ Hu Hsave. replace u with uid by congruence. apply Hnext.
      by eapply renewing_keeps_counters. }
  apply elem_of_cons in Huse as [->|Huse]; [|apply list_elem_of_singleton in Huse as ->]; apply Hauth;
    intros se wr2 w2 Hv2; [by apply endpoint_reached|].
  apply (hwp_limit_under E h S 60 Minute 150 60); [lia..|done|done|done|]. intros. by apply endpoint_reached.
Qed.

(** C22 (liveness).  A login lasts: in the week after the session of the user
    [uid] was saved, a request with its cookie to a route behind [RequireAuth]
    reaches the handler, which sees the user [uid], when Valkey answers the
    read of the session and the client is below the rate limits (fewer than
    149 requests in the ten seconds and 59 in the window of the process, 300
    for the server and 60 for the route in Valkey). *)
Theorem session_authenticates m p e wr :
  (m, p, e) ∈ [("GET", "/me", EMe); ("GET", "/platforms", EGetPlatforms);
               ("GET", "/auth/calendar/validate", EValidateCalendarAccess)] →
  r_Method r = m → r_Path r = p → counted 60 p (client S r) s →
  let '((wr', o), s') := serve E N h S (SessionStore0 := SS) r wr s in reached e wr' o s'.
Proof.
  intros Hin Hm Hp Hroute.
  enough (hwp (serve E N h S (SessionStore0 := SS)) (reached e) r wr s) as Hw
    by (unfold hwp in Hw; by destruct (serve _ _ _ _ r wr s) as [[? ?] ?]).
  assert (∃ use, mux_find routes m p = Some (mk_route (Some m) p use e) ∧ p ≠ "" ∧ p ≠ "unmatched" ∧
    use ∈ [[RequireAuthMiddleware]; [RequireAuthMiddleware; RateLimitMiddleware 60 Minute]])
    as (use & Hfind & Hne & Hun & Huse).
  { clear Hm Hp Hroute. repeat (apply elem_of_cons in Hin as [[= -> -> ->]|Hin];
      [first [exists [RequireAuthMiddleware]; split; [apply route_found; vm_compute; reflexivity|by split_and!; [..|left]]
             |exists [RequireAuthMiddleware; RateLimitMiddleware 60 Minute];
              split; [apply route_found; vm_compute; reflexivity|by split_and!; [..|right; left]]]|]).
    by apply elem_of_nil in Hin. }
  apply hwp_root, (hwp_limit_under E h S 300 Minute 149 59); [lia..|done|done| |].
  { unfold scope. simpl. rewrite Hpat. exact Hroot. }
  intros s1 Hq1 Ht1 He1 Hg1 Hk1. apply hwp_recovered. unfold hwp, dispatch. simpl. rewrite Hm, Hp, Hfind.
  apply (chain_reached use e); [done|etrans; [apply bump_quiet|exact Hq1]|done..|].
  unfold scope in *. simpl in *. rewrite decide_False by done. rewrite Hpat in Hk1. simpl in Hk1.
  intros t v. rewrite Hk1; [apply Hroute|]. intros Heq%rateLimitKey_scope. congruence.
Qed.
End Login.
End Session.

(** ** Concrete runs *)

(** A router that looks for the path first and for the pattern of everything then. *)
#[export] Instance demo_mux : Mux.
Proof.
  refine {| mux_find t m p :=
    match filter (λ r, exactly r m p) t with
    | r :: _ => Some r
    | [] => head (filter (λ r, takes r m ∧ rt_pattern r = "/*") t)
    end |}.
  - intros t m p r Hf. destruct (filter (λ r, exactly r m p) t) as [|r' l] eqn:Hx.
    + destruct (filter (λ r, takes r m ∧ rt_pattern r = "/*") t) as [|r' l] eqn:Hy; simplify_eq/=.
      assert (r ∈ filter (λ r, takes r m ∧ rt_pattern r = "/*") t) as Hr by (rewrite Hy; set_solver).
      apply list_elem_of_filter in Hr. naive_solver.
    + simplify_eq. assert (r ∈ filter (λ r, exactly r m p) t) as Hr by (rewrite Hx; set_solver).
      apply list_elem_of_filter in Hr as [[? ?] ?]. auto.
  - intros t m p r Hr Hex Hun. destruct (filter (λ r, exactly r m p) t) as [|r' l] eqn:Hx.
    + assert (r ∈ filter (λ r, exactly r m p) t) as Hn by (by apply list_elem_of_filter).
      rewrite Hx in Hn. by apply elem_of_nil in Hn.
    + assert (r' ∈ filter (λ r, exactly r m p) t) as Hn by (rewrite Hx; set_solver).
      apply list_elem_of_filter in Hn as [He Hi]. by rewrite (Hun r' Hi He).
Defined.
Definition demo_wiring : Wiring.
Proof.
  refine {| s_uuid n := "request-" +:+ Itoa (Z.of_nat n); s_TRUST_PROXY := false; s_AdminPassword := "pw";
    s_hasEvent := false; s_extraction _ := (λ p, (p, Stored)) <$> Extractor.Platforms; s_sync_pub _ _ := Stored; s_fuel := 1;
    s_opens p := bool_decide (p ∈ ["index.html"; "about.html"; "app.js"]);
    s_file_headers _ := [("Content-Type", "text/html; charset=utf-8"); ("Accept-Ranges", "bytes")] |}.
  intros env p k Hk. unfold SecurityHeaders.
  repeat (apply elem_of_cons in Hk as [->|Hk]; [split; [case_decide|done];
    apply (bool_decide_unpack _); vm_compute; exact I|]). by apply elem_of_nil in Hk.
Defined.
Definition demo_writer : writer := mk_writer ∅ [].
(** A server before which user 1 logged in with the callback. *)
Definition after_login : (reply * World kv_map) :=
  GoogleCallback calm (demo_net "g1") demo_handlers "st" "code" (Some "st") None login_world.
Definition demo_cookie : option string :=
  match last (p_cookies after_login.1) with Some (_, Set_ c) => Some c | _ => None end.
Definition demo_server : Server kv_map := mk_server after_login.2 ∅ ∅ (New "" Dialled [] []) [].
Definition demo_get (method path : string) (token : string) (cookie : option string) : request :=
  mk_request method path
    (mk_http (λ k, if decide (k = "X-CSRF-Token") then token else "")
       (λ k, if decide (k = "session") then cookie else None) "10.0.0.1:99")
    (λ _, "") "localhost" (Some (mk_prefs (Some ["leetcode"]) true "")) "" None "" None.
Abbreviation demo_serve r s := (serve calm (demo_net "g1") demo_handlers demo_wiring r demo_writer s).
(** The token that [/me] tells the logged-in user. *)
Definition demo_csrf : string :=
  match (demo_serve (demo_get "GET" "/me" "" demo_cookie) demo_server).1.2 with
  | Replied (mk_reply _ (BProfile p) _) => pr_CSRFToken p
  | _ => ""
  end.

(** Without the token the preferences are refused, with it they are saved for
    the logged-in user; nobody gets in without a cookie, and a page is found
    without its extension. *)
Definition status_of (o : outcome) : Z := match o with Replied r => p_status r | _ => 0 end.
Example routed_requests :
  let save token := demo_serve (demo_get "POST" "/preferences" token demo_cookie) demo_server in
  let uid := match users (db (sv_world demo_server)) !! 1%Z with Some u => google_id u | None => "" end in
  status_of (demo_serve (demo_get "GET" "/me" "" None) demo_server).1.2 = 401 ∧
  status_of (save "").1.2 = 403 ∧ status_of (save demo_csrf).1.2 = 200 ∧
  (platforms <$> users (db (sv_world (save demo_csrf).2)) !! 1%Z) = Some (Some ["leetcode"]) ∧
  (demo_serve (demo_get "GET" "/about" "" None) demo_server).1.2 = Served "/about.html" ∧ uid = "g1".
Proof. vm_compute. split_and!; reflexivity. Qed.

Lemma serve_isolation_witness :
  let s' := (demo_serve (demo_get "DELETE" "/account" "" None) demo_server).2 in
  wf_db (db (sv_world s')) ∧ untouched 2 (db (sv_world demo_server)) (db (sv_world s')).
Proof.
  destruct (users (db (sv_world demo_server)) !! 2%Z) as [u|] eqn:Hu; [|vm_compute in Hu; discriminate Hu].
  refine (serve_isolation calm (demo_net "g1") demo_handlers demo_wiring 2 u
    (demo_get "DELETE" "/account" "" None) demo_writer demo_server _ _ _ _ _).
  - assert (users (db login_world) !! 2%Z = Some u) as Hu0 by (vm_compute in Hu |- *; exact Hu).
    eapply (outsider_steps 2 u login_world); [|apply set_oauth_wf, demo_db_wf|exact Hu0].
    apply callback_outsider. intros n tok gid mail [= <- _]. vm_compute in Hu0. injection Hu0 as <-. done.
  - exact Hu.
  - split; reflexivity.
  - intros n tok gid mail [= <- _]. vm_compute in Hu. injection Hu as <-. done.
  - intros w _. vm_compute. discriminate.
Defined.
Lemma guarded_routes_witness :
  let '((_, o), s') := demo_serve (demo_get "POST" "/preferences" demo_csrf demo_cookie) demo_server in
  refused demo_server o s' ∨
  ran_for calm (demo_net "g1") demo_handlers demo_wiring ESavePreferences
    (demo_get "POST" "/preferences" demo_csrf demo_cookie) demo_server o s'.
Proof.
  assert ((("POST", "/preferences"), ESavePreferences) ∈ guarded) as Hin by (by left).
  exact (guarded_routes calm (demo_net "g1") demo_handlers demo_wiring "POST" "/preferences" ESavePreferences
    (demo_get "POST" "/preferences" demo_csrf demo_cookie) demo_writer demo_server
    (λ w, eq_refl) Hin (conj eq_refl eq_refl) eq_refl eq_refl).
Defined.
Lemma security_headers_witness :
  w_Header (demo_serve (demo_get "GET" "/me" "" None) demo_server).1.1 !! "X-Frame-Options" = Some "DENY".
Proof.
  refine (proj1 (security_headers calm (demo_net "g1") demo_handlers demo_wiring
    (demo_get "GET" "/me" "" None) demo_writer demo_server _) "X-Frame-Options" "DENY" _).
  - split; reflexivity.
  - apply (bool_decide_unpack _). vm_compute. exact I.
Defined.
Lemma dispatch_never_panics_witness :
  (dispatch calm (demo_net "g1") demo_handlers demo_wiring (demo_get "POST" "/sync" "" None) demo_writer demo_server).1.2
    ≠ Panicked.
Proof. apply dispatch_never_panics. split; reflexivity. Defined.
Lemma never_counted max sc ip (s : Server kv_map) :
  store (sv_world s) !! rateLimitKey sc ip = None → counted max sc ip s.
Proof. intros Hk t v. simpl. by rewrite Hk. Qed.
Lemma session_authenticates_witness :
  ∃ c uid, demo_cookie = Some c ∧
  let '((wr', o), s') := demo_serve (demo_get "GET" "/me" "" (Some c)) demo_server in
  reached calm (demo_net "g1") demo_handlers demo_wiring uid EMe wr' o s'.
Proof.
  assert (p_status after_login.1 = StatusSeeOther) as Hst by (vm_compute; reflexivity).
  assert (login_done calm (demo_net "g1") demo_handlers "code" (tick login_world) after_login.1 after_login.2) as Hlogin
    by exact (callback_redirects calm (demo_net "g1") demo_handlers "st" "code" (Some "st") None login_world
      (set_oauth_wf _ _ demo_db_wf) Hst).
  destruct Hlogin
    as (token & gid & mail & uid & u & c & n & _ & _ & _ & _ & _ & _ & Hc & Hn & Hlog).
  exists c, uid. split; [unfold demo_cookie; by rewrite Hc|].
  assert (calm_clock n ≤ calm_clock (2 + tick (sv_world demo_server)) < calm_clock n + 7 * 86400 * Second) as Ht.
  { assert (tick (sv_world demo_server) = tick after_login.2) as -> by reflexivity.
    assert (tick after_login.2 = 13%nat) as Ht by (vm_compute; reflexivity). rewrite Ht in *.
    unfold calm_clock, Second. simpl in Hn. lia. }
  assert (∀ k ip, under k ip (∅ : counters)) as Hnew by (intros k ip lim Hl; by rewrite lookup_empty in Hl).
  assert (counted 300 "unmatched" "10.0.0.1" demo_server) as Hall by (by apply never_counted).
  assert (counted 60 "/me" "10.0.0.1" demo_server) as Hrate by (by apply never_counted).
  assert ((("GET", "/me"), EMe) ∈ [(("GET", "/me"), EMe); (("GET", "/platforms"), EGetPlatforms);
    (("GET", "/auth/calendar/validate"), EValidateCalendarAccess)]) as Hin by (by left).
  exact (session_authenticates calm (demo_net "g1") demo_handlers demo_wiring c n uid
    (demo_get "GET" "/me" "" (Some c)) demo_server (conj eq_refl eq_refl) eq_refl eq_refl Hlog eq_refl Ht
    (Hnew 149 _) (Hnew 59 _) Hall
    "GET" "/me" EMe demo_writer Hin eq_refl eq_refl Hrate).
Defined.
