(* ===== verification/AccountSpec.v ===== *)
(** * Properties of preferences, account deletion and manual synchronisation *)

From stdpp Require Import base gmap strings list sets.
From Stdlib Require Import ZArith Lia Ascii Permutation.
From S2P Require Import Extractor.
From S2P Require Import Prelude GoStrings Models Database GoTime Auth EventID Sha256 Effects Syncer.
From S2P Require Import SyncerFacts Middleware MiddlewareSpec Handlers Scenario HandlersSpec.
Local Open Scope go_scope.

(** Neither the database nor Valkey changes. *)
Definition quiet {kv} (w w' : World kv) : Prop := db w' = db w ∧ store w' = store w.
#[export] Instance quiet_preorder {kv} : PreOrder (@quiet kv).
Proof. split; [done|]. intros a b c [? ?] [? ?]. split; congruence. Qed.

Section Preferences.
Context {kv : Type} `{!Valkey kv} `{!Codec CachedUser}.
Context (E : Env) (N : Net) (h : Handlers) (userID : Z).
Abbreviation W := (World kv).
Abbreviation Go := (@M kv).

Abbreviation refused := (λ r : reply, ∃ msg, p_body r = BError msg).

(** An external call made between two moments. *)
Definition between (w w' : W) (n : nat) : Prop := (tick w ≤ n < tick w')%nat.

(** No captcha is needed, or hCaptcha accepted the one of the request. *)
Definition solved (w w' : W) (resp : string) : Prop :=
  (h_HCAPTCHA_SECRET h = "" ∧ is_dev (h_Env h) = true) ∨
  (resp ≠ "" ∧ ∃ n, between w w' n ∧ siteverify N n (h_HCAPTCHA_SECRET h) resp = inr (Some true)).
Lemma check_captcha_spec resp (w : W) :
  wp (check_captcha N h resp) (λ _ w', quiet w w' ∧ (tick w ≤ tick w')%nat ∧ solved w w' resp)
    (λ r w', quiet w w' ∧ refused r) w.
Proof.
  unfold check_captcha, verifyHCaptcha. cbv zeta.
  destruct (bool_decide_reflect (h_HCAPTCHA_SECRET h = "")) as [Hs|Hs]; cbn [negb andb orb].
  - destruct (is_dev (h_Env h)) eqn:Hdev; [|apply wp_leave; split; [done|by eexists]].
    apply wp_ret. split_and!; [done..|]. by left.
  - case_decide as Hr; [apply wp_leave; split; [done|by eexists]|]. rewrite decide_False by done.
    apply wp_bind, wp_bind, wp_ext, wp_ret. cbn [fst snd].
    destruct (siteverify _ _ _ _) as [e|[[]|]] eqn:Hv; try (apply wp_leave; split; [done|by eexists]).
    apply wp_ret. split_and!; [done|simpl; lia|]. right. split; [done|].
    exists (tick w). split; [unfold between; simpl; lia|done].
Qed.

(** The preferences a request finds between two moments: those of the cached
    profile, or those of the row as the database shows it. *)
Definition seen (w w' : W) (cur : list string) (ded : bool) : Prop :=
  ∃ n, between w w' n ∧
   ((h_Valkey h = true ∧ ∃ v u, vk_get (clock E n) (UserCacheKey userID) (store w) = Some v ∧ unmarshal v = Some u ∧
       cur = cu_Platforms u ∧ ded = cu_UseDedicated u) ∨
    (∃ row, users (view E (h_ReadDB h) n (db w)) !! userID = Some row ∧
       cur = default [] (platforms row) ∧ ded = use_dedicated row)).

Lemma current_prefs_db (w : W) (L : reply → W → Prop) :
  (∀ r w', db w' = db w → refused r → L r w') →
  wp (current_prefs E h userID)
    (λ cur w', db w' = db w ∧ (tick w ≤ tick w')%nat ∧ seen w w' cur.1 cur.2) L w.
Proof.
  intros HL. unfold current_prefs, cache_get, cache_put.
  apply wp_bind. apply (wp_mono _ (λ c w1, quiet w w1 ∧ (tick w ≤ tick w1)%nat ∧
      ∀ u, c = Some u → seen w w1 (cu_Platforms u) (cu_UseDedicated u))
    _ (λ _ _, False)); [| |by intros ?? []].
  { destruct (h_Valkey h) eqn:Hvk; [|by apply wp_ret]. apply wp_bind, wp_ext. simpl. apply wp_ret.
    split_and!; [done|simpl; lia|].
    intros u Hu. destruct (fate_kv E (tick w)); [|done..].
    destruct (vk_get _ _ _) as [v|] eqn:Hv; [|done]. exists (tick w). split; [unfold between; simpl; lia|].
    left. eauto 10. }
  cbn beta. intros [u|] w1 ([Hd Hs] & Ht & Hu); [apply wp_ret; simpl; eauto|].
  apply wp_bind, wp_ext. simpl. destruct (fate_db E (tick w1)); [|apply wp_leave; eauto..].
  unfold select_user. rewrite Hd. destruct (users (view E (h_ReadDB h) (tick w1) (db w)) !! userID) as [row|] eqn:Hrow;
    [|apply wp_leave; eauto].
  assert (∀ w2, (tick w1 < tick w2)%nat → seen w w2 (default [] (platforms row)) (use_dedicated row)) as Hseen
    by (intros w2 Hlt; exists (tick w1); split; [unfold between; lia|right; eauto]).
  unfold scan_cached_user. destruct (refresh_token row); [|apply wp_leave; eauto].
  assert (∀ w2 : W, db w2 = db w1 → (tick w1 < tick w2)%nat → db w2 = db w ∧ (tick w ≤ tick w2)%nat ∧
    seen w w2 (default [] (platforms row)) (use_dedicated row)) as Hend
    by (intros w2 Hd2 Ht2; split_and!; [congruence|lia|auto]).
  apply wp_bind. destruct (h_Valkey h); [|apply wp_ret, wp_ret, Hend; simpl; [done|lia]].
  destruct (marshal _); [|apply wp_ret, wp_ret, Hend; simpl; [done|lia]]. apply wp_bind, wp_ext.
  destruct (fate_kv E _); simpl; apply wp_ret, wp_ret, Hend; simpl; (done || lia).
Qed.

(** The tables with the preferences of the request; without a dedicated
    calendar the stored one is forgotten. *)
Definition updated (rq : preferences) (d : DB) : DB :=
  set_users (alter (λ u, with_prefs (rq_Platforms rq) (rq_UseDedicated rq)
    (if rq_UseDedicated rq then calendar_id u else None) u) userID) d.

(** Everything that comes before the update: the captcha, the platforms, and
    the preferences that were found. *)
Definition admitted (w w' : W) (rq : preferences) (cur : list string) (ded : bool) : Prop :=
  solved w w' (rq_CaptchaResponse rq) ∧ Forall (λ p, p ∈ Platforms) (default [] (rq_Platforms rq)) ∧
  seen w w' cur ded.
Definition same_prefs (rq : preferences) (cur : list string) (ded : bool) : Prop :=
  default [] (rq_Platforms rq) ≡ₚ cur ∧ rq_UseDedicated rq = ded.

(** What the reply to a request says about the world before and after it. *)
Definition saved (req : option preferences) (w : W) (r : reply) (w' : W) : Prop :=
  match p_body r with
  | BSaved ch => ∃ rq cur ded,
      req = Some rq ∧ admitted w w' rq cur ded ∧ (ch = false ↔ same_prefs rq cur ded) ∧
      db w' = (if ch then updated rq (db w) else db w) ∧
      (ch = true → h_Valkey h = true → (∀ n e, fate_kv E n ≠ Lost e) →
       ∀ t, vk_get t (UserCacheKey userID) (store w') = None)
  | _ => db w' = db w ∨
      ∃ rq cur ded n e, req = Some rq ∧ admitted w w' rq cur ded ∧ ¬ same_prefs rq cur ded ∧
        r = internal_error ∧ between w w' n ∧ fate_db E n = Unacked e ∧ db w' = updated rq (db w)
  end.

Lemma refused_saved req (w w' : W) r : refused r → db w' = db w → saved req w r w'.
Proof. intros [msg Hr] Hd. unfold saved. rewrite Hr. by left. Qed.

(** Storing changed preferences and dropping the cached profile. *)
Lemma store_prefs rq (w : W) :
  wp (r <- sql_exec E (UpdatePreferences (rq_Platforms rq) (rq_UseDedicated rq) userID) ;;
      match r with
      | inl _ => leave internal_error
      | inr _ => if h_Valkey h then _ <- kv_del E (UserCacheKey userID) ;; ret tt else ret tt
      end)
    (λ _ w', db w' = updated rq (db w) ∧ (tick w ≤ tick w')%nat ∧
       (h_Valkey h = true → (∀ n e, fate_kv E n ≠ Lost e) →
        ∀ t, vk_get t (UserCacheKey userID) (store w') = None))
    (λ r w', r = internal_error ∧ (tick w < tick w')%nat ∧
       (db w' = db w ∨ (∃ e, fate_db E (tick w) = Unacked e) ∧ db w' = updated rq (db w))) w.
Proof.
  apply wp_bind, wp_ext. simpl. destruct (_ && _); simpl.
  { destruct (fate_db E (tick w)); apply wp_leave; simpl; (split_and!; [done|lia|by left]). }
  destruct (fate_db E (tick w)) as [|e|e]; simpl;
    [|apply wp_leave; simpl; split_and!; [done|lia|by left]|apply wp_leave; simpl; split_and!; [done|lia|by right; eauto]].
  destruct (h_Valkey h); [|apply wp_ret; simpl; split_and!; [done|lia|done]].
  set (w1 := bump _). assert (db w1 = updated rq (db w)) as Hd by done.
  assert (tick w ≤ tick w1)%nat as Ht by (simpl; lia). clearbody w1.
  apply wp_bind, wp_ext.
  destruct (fate_kv E (tick w1)) eqn:Hf; apply wp_ret; simpl; (split; [done|]); (split; [lia|]); intros _ Hl t.
  - apply vk_get_del_eq.
  - by destruct (Hl (tick w1) e).
  - apply vk_get_del_eq.
Qed.

Lemma admitted_later (w w1 w2 : W) rq cur ded :
  (tick w1 ≤ tick w2)%nat → admitted w w1 rq cur ded → admitted w w2 rq cur ded.
Proof.
  unfold between. intros Ht (Hs & Hp & (n & Hn & Hseen)). split_and!; [|done|].
  - destruct Hs as [?|(Hr & m & Hm & Hv)]; [by left|right]. split; [done|]. exists m. unfold between in *. split; [lia|done].
  - exists n. unfold between in *. split; [lia|done].
Qed.

(** C23 (functional).  What [SavePreferences] answers is what happened.  If it
    answers that the preferences changed, the captcha was accepted during the
    request, the requested platforms are platforms, the row holds exactly the
    requested platforms and flag, nothing else of the database changed, and no
    cached profile survives to hide them.  It answers that nothing changed
    exactly when the platforms it found are those requested, in any order, and
    the flag is the same, and then the database is untouched.  Any other
    answer leaves the database as it was, with one exception: the answer is
    500, all the checks had passed, and it was the acknowledgement of the
    update that was lost. *)
Theorem SavePreferences_effect req (w : W) :
  let '(r, w') := SavePreferences E N h userID req w in saved req w r w'.
Proof.
  enough (saved req w (SavePreferences E N h userID req w).1 (SavePreferences E N h userID req w).2) as HQ
    by (by destruct (SavePreferences _ _ _ _ _ w)).
  unfold SavePreferences. apply (wp_run _ (saved req w)).
  destruct req as [rq|]; [|apply wp_leave; by left]. apply wp_bind.
  eapply wp_mono; [apply check_captcha_spec|cbn beta|].
  2: { cbn beta. intros r w1 [[Hd _] Hr]. by apply refused_saved. }
  intros _ w1 ([Hd1 Hs1] & Ht1 & Hsol). cbv zeta. destruct (forallb _ _) eqn:Hps; [|by apply wp_leave; left]. simpl.
  apply wp_bind. eapply wp_mono; [apply (current_prefs_db w1 (saved (Some rq) w))| |done].
  { intros r w2 Hd2 Hr. apply refused_saved; [done|congruence]. }
  cbn beta. intros [cur ded] w2 (Hd2 & Ht2 & (n & Hn & Hseen)). simpl in *.
  assert (admitted w w2 rq cur ded) as Hadm.
  { split_and!.
    - destruct Hsol as [?|(Hr & m & Hm & Hv)]; [by left|right]. split; [done|]. exists m. unfold between in *. split; [lia|done].
    - apply Forall_forall. intros p Hp. eapply bool_decide_unpack, Is_true_eq_left.
      by apply (proj1 (forallb_forall _ _) Hps p), list_elem_of_In.
    - exists n. split; [unfold between in *; lia|]. by rewrite <- Hd1, <- Hs1. }
  pose proof (changed_false cur ded (default [] (rq_Platforms rq)) (rq_UseDedicated rq)) as Hch.
  destruct (changed _ _ _ _) eqn:Hc.
  - apply wp_bind. eapply wp_mono; [apply store_prefs|cbn beta|cbn beta].
    + intros _ w3 (Hd3 & Ht3 & Hk). apply wp_ret. exists rq, cur, ded. rewrite Hd3, Hd2, Hd1.
      split_and!; try done. by eapply admitted_later.
    + intros r w3 (-> & Ht3 & [Hd3|[[e He] Hd3]]); [left; congruence|]. right.
      exists rq, cur, ded, (tick w2), e. rewrite Hd3, Hd2, Hd1. split_and!; try done.
      * eapply admitted_later; [|done]. lia.
      * intros Hsame. by apply Hch in Hsame.
      * unfold between. lia.
  - apply wp_bind, wp_ret, wp_ret. exists rq, cur, ded. rewrite Hd2, Hd1. by split_and!.
Qed.
End Preferences.

(** ** Deleting the account *)

Lemma select_event_ids_elem uid d e :
  e ∈ select_event_ids uid d ↔
  ∃ c se, synced_events d !! (uid, c) = Some se ∧ google_event_id se = e.
Proof.
  unfold select_event_ids. rewrite list_elem_of_omap. split.
  - intros ([[u c] se] & Hin & He). apply elem_of_map_to_list in Hin. simpl in He.
    case_decide; simplify_eq. eauto.
  - intros (c & se & Hse & <-). exists ((uid, c), se). split; [by apply elem_of_map_to_list|].
    simpl. by rewrite decide_True.
Qed.
Lemma deleted_user_gone uid d :
  let d' := delete_users (λ i _, bool_decide (i = uid)) d in
  users d' !! uid = None ∧ ∀ c, synced_events d' !! (uid, c) = None.
Proof.
  cbv zeta. set (p := λ (i : Z) (_ : user_row), bool_decide (i = uid)).
  assert (users (delete_users p d) !! uid = None) as Hu.
  { apply eq_None_not_Some. intros [u [_ Hp]%delete_users_lookup].
    unfold p in Hp. by rewrite bool_decide_true in Hp. }
  split; [done|]. intros c. apply eq_None_not_Some. intros [r [_ Hs]%delete_users_synced].
  rewrite Hu in Hs. by apply is_Some_None in Hs.
Qed.

Section Deletion.
Context {kv : Type} `{!Valkey kv} `{!SessionStore kv} `{!AEAD}.
Context (E : Env) (h : Handlers) (userID : Z).
Abbreviation W := (World kv).
Abbreviation Go := (@M kv).

(** The background job is about this account and nothing else. *)
Definition job_of (d : DB) (deleteGoogleData : bool) (j : cleanup) : Prop :=
  ∃ row tok, users d !! userID = Some row ∧ refresh_token row = Some tok ∧
    DecryptToken tok (h_EncryptionKey h) = inr (j_refreshToken j) ∧
    j_calendarID j = default "" (calendar_id row) ∧ j_deleteGoogleData j = deleteGoogleData ∧
    ∀ e, e ∈ j_eventIDs j → ∃ c se, synced_events d !! (userID, c) = Some se ∧ google_event_id se = e.

Definition gone (w w' : W) : Prop :=
  users (db w') !! userID = None ∧ (∀ c, synced_events (db w') !! (userID, c) = None) ∧
  (is_Some (users (db w) !! userID) → h_Valkey h = true → (∀ n e, fate_kv E n ≠ Lost e) →
   ∀ t, vk_get t (UserCacheKey userID) (store w') = None).

Lemma plan_cleanup_job d row ids del j :
  users d !! userID = Some row →
  (∀ e, e ∈ ids → ∃ c se, synced_events d !! (userID, c) = Some se ∧ google_event_id se = e) →
  plan_cleanup h (scan_deletion row) ids del = Some j → job_of d del j.
Proof.
  intros Hrow Hids. unfold plan_cleanup, scan_deletion.
  destruct (refresh_token row) as [tok|] eqn:Htok; [|done]. case_decide; [done|].
  destruct (DecryptToken tok _) as [e|[|x t]] eqn:Hdec; intros [= <-]. exists row, tok. by split_and!.
Qed.

(** Ending the session writes no key but the session's. *)
Definition only_sessions (e : effect) : Prop :=
  match e with FKv k => ∃ id, k = sessionKey id | _ => False end.
Lemma only_sessions_db (w w' : W) : wsteps only_sessions w w' → db w' = db w.
Proof. induction 1 as [|w1 w2 w3 Hst _ IH]; [done|]. rewrite IH. by destruct Hst. Qed.
Lemma end_session_frame {R A} (F : option error * option set_cookie * session → A) cookie (w : W) k
  (Q : A → W → Prop) (L : R → W → Prop) :
  (∀ id, k ≠ sessionKey id) →
  (∀ x w', db w' = db w → (∀ t, vk_get t k (store w') = vk_get t k (store w)) → Q (F x) w') →
  wp (g <- ss_Get cookie ;; s <- ss_Save (ended g.2) ;; ret (F s)) Q L w.
Proof.
  intros Hk HQ. apply wp_bind, wp_call. apply wp_bind, wp_call, wp_ret.
  set (w' := (store_Save _ _).2). assert (wsteps only_sessions w w') as Hs.
  { etrans; [apply (store_Get_steps cookie)|]. apply store_Save_steps. intros id. by exists id. }
  apply HQ; [by apply only_sessions_db|]. intros t. apply (wsteps_kv_frame only_sessions); [|done].
  intros [id Hid]. by apply (Hk id).
Qed.

(** From the deleted row to the reply. *)
Lemma finish_deletion cookie job (w0 w : W) :
  users (db w) !! userID = None → (∀ c, synced_events (db w) !! (userID, c) = None) →
  wp ((if h_Valkey h then _ <- kv_del E (UserCacheKey userID) ;; ret tt else ret tt) ;;;
      g <- ss_Get cookie ;;
      s <- ss_Save (ended g.2) ;;
      ret (mk_reply StatusOK (BStatus "deleted") (set_cookies s.1.2), job))
    (λ (r : reply * option cleanup) w', r.2 = job ∧ gone w0 w') (λ (_ : reply * option cleanup) _, False) w.
Proof.
  intros Hu Hse. apply wp_bind.
  apply (wp_mono _ (λ _ w1, db w1 = db w ∧ (h_Valkey h = true → (∀ n e, fate_kv E n ≠ Lost e) →
    ∀ t, vk_get t (UserCacheKey userID) (store w1) = None)) _ (λ _ _, False)); [| |done].
  - destruct (h_Valkey h); [|by apply wp_ret]. apply wp_bind, wp_ext.
    destruct (fate_kv E (tick w)) eqn:Hf; apply wp_ret; (split; [done|]); simpl; intros _ Hl t.
    + apply vk_get_del_eq.
    + by destruct (Hl (tick w) e).
    + apply vk_get_del_eq.
  - cbn beta. intros _ w1 [Hd1 Hk1]. apply (end_session_frame _ _ _ (UserCacheKey userID)).
    + intros id. apply (diverge_ne "cache:user:v2:" "session:"). done.
    + intros x w2 Hd2 Hk2. split; [done|]. unfold gone. rewrite Hd2, Hd1. split_and!; [done..|].
      intros _ Hv Hl t. rewrite Hk2. by apply Hk1.
Qed.

Lemma delete_row cookie job (w0 w : W) :
  let Q := λ (r : reply * option cleanup) w', r.2 = job ∧ (p_body r.1 = BStatus "deleted" → gone w0 w') in
  wp (d <- sql_exec E (DeleteUser userID) ;;
      match d with
      | inl _ => leave (internal_error, job)
      | inr _ =>
          (if h_Valkey h then _ <- kv_del E (UserCacheKey userID) ;; ret tt else ret tt) ;;;
          g <- ss_Get cookie ;;
          s <- ss_Save (ended g.2) ;;
          ret (mk_reply StatusOK (BStatus "deleted") (set_cookies s.1.2), job)
      end) Q Q w.
Proof.
  intros Q. apply wp_bind, wp_sql_exec; [|intros e; by apply wp_leave].
  intros d' x e He Hr. simpl in He. simplify_eq. destruct Hr as [->|[y ->]]; [|by apply wp_leave].
  eapply wp_mono; [apply (finish_deletion _ _ w0); apply deleted_user_gone| |done].
  cbn beta. intros a w3 [Ha Hg]. by split.
Qed.

(** C24 (safety).  When [DeleteAccount] answers that the account is deleted,
    the row and all synced events of the user are gone, and so is the cached
    profile; and the clean-up it starts in the background, whatever it
    answers, carries the user's own refresh token, calendar and recorded
    events and nothing else. *)
Theorem DeleteAccount_effect del cookie (w : W) :
  wf_db (db w) →
  let '(r, job, w') := DeleteAccount E h userID del cookie w in
  (p_body r = BStatus "deleted" → gone w w') ∧ (∀ j, job = Some j → job_of (db w) del j).
Proof.
  intros Hwf. pose (Q (r : reply * option cleanup) (w' : W) :=
    (p_body r.1 = BStatus "deleted" → gone w w') ∧ (∀ j, r.2 = Some j → job_of (db w) del j)).
  enough (Q (DeleteAccount E h userID del cookie w).1 (DeleteAccount E h userID del cookie w).2) as HQ
    by (by destruct (DeleteAccount _ _ _ _ _ w) as [[r job] w']).
  unfold DeleteAccount. apply (wp_run _ Q). apply wp_bind, wp_ext. cbn [fst snd view].
  set (r := match fate_db E (tick w) with Done => _ | _ => _ end). cbv zeta.
  set (row := match r with inl e => _ | inr (Some x) => _ | inr None => _ end).
  apply wp_bind. apply (wp_mono _ (λ ids w1, db w1 = db w ∧
    ∀ e, e ∈ ids → ∃ c se, synced_events (db w) !! (userID, c) = Some se ∧ google_event_id se = e)
    _ (λ _ _, False)); [| |done].
  { destruct row; [apply wp_ret; split; [done|]; by intros ? ?%elem_of_nil|].
    destruct del; [|apply wp_ret; split; [done|]; by intros ? ?%elem_of_nil].
    apply wp_bind, wp_ext, wp_ret. split; [done|]. intros e. simpl.
    destruct (fate_db E (S (tick w))); [|by intros ?%elem_of_nil..].
    intros He. apply select_event_ids_elem. by eapply elem_of_submseteq; [|apply deliver_sub]. }
  cbn beta. intros ids w1 [Hd1 Hids].
  assert (∀ j, plan_cleanup h row ids del = Some j → job_of (db w) del j) as Hjob.
  { intros j. unfold row, r. destruct (fate_db E (tick w)); [|done..]. unfold select_user.
    destruct (users (db w) !! userID) as [u|] eqn:Hu; [|done]. simpl. by apply plan_cleanup_job. }
  assert (∀ m w2, wp m (λ (r : reply * option cleanup) w', r.2 = plan_cleanup h row ids del ∧
      (p_body r.1 = BStatus "deleted" → gone w w')) (λ (r : reply * option cleanup) w',
      r.2 = plan_cleanup h row ids del ∧ (p_body r.1 = BStatus "deleted" → gone w w')) w2 →
    wp m Q Q w2) as Hdel.
  { intros m w2 Hm. eapply wp_mono; [exact Hm|..]; cbn beta; intros a w3 [Ha Hg]; (split; [done|]); by rewrite Ha. }
  subst r. destruct (fate_db E (tick w)); [|apply Hdel, delete_row..]. unfold select_user.
  destruct (users (db w) !! userID) as [u|] eqn:Hu; [apply Hdel, delete_row|]. apply wp_leave. split; [|done].
  intros _. unfold gone. rewrite Hd1, Hu. split_and!; [done| |by intros []%is_Some_None].
  intros c. apply eq_None_not_Some. intros [se Hse]. apply (wf_fk_user _ Hwf) in Hse as [v Hv]. congruence.
Qed.
End Deletion.

(** ** The clean-up in the background *)

Section Cleanup.
Context {kv : Type} `{!Valkey kv}.
Context (E : Env).
Abbreviation W := (World kv).
Abbreviation Go := (@M kv).

(** Between [w] and [w'] only Google was called, with at most [n] requests,
    all in [P]; the list is what was said. *)
Definition called (P : greq → Prop) (n : nat) (w w' : W) (l : list event) : Prop :=
  quiet w w' ∧ trace w' = trace w ++ l ∧ (length l ≤ n)%nat ∧
  Forall (λ e, ∃ q r, e = EvGoogle q r ∧ P q) l.
(** The request was made and granted. *)
Definition granted (q : greq) (l : list event) : Prop := ∃ ok, EvGoogle q (inr ok) ∈ l.
Abbreviation cooperative := (∀ n q, ∃ ok, google E n q = inr ok).

Lemma called_nil P n (w : W) : called P n w w [].
Proof. split_and!; [done| |simpl; lia|done]. by rewrite app_nil_r. Qed.
Lemma called_bump P n (w w' : W) l : called P n w w' l → called P n w (bump w') l.
Proof. intros (Hq & Ht & Hn & Hl). by split_and!. Qed.
Lemma called_trans P n m (w1 w2 w3 : W) l l' :
  called P n w1 w2 l → called P m w2 w3 l' → called P (n + m) w1 w3 (l ++ l').
Proof.
  intros (Q1 & T1 & N1 & L1) (Q2 & T2 & N2 & L2). split_and!.
  - by transitivity w2.
  - by rewrite T2, T1, app_assoc.
  - rewrite length_app. lia.
  - by apply Forall_app.
Qed.
Lemma called_mono (P P' : greq → Prop) n m (w w' : W) l :
  (∀ q, P q → P' q) → (n ≤ m)%nat → called P n w w' l → called P' m w w' l.
Proof.
  intros HP Hm (Q1 & T1 & N1 & L1). split_and!; [done|done|lia|].
  eapply Forall_impl; [exact L1|]. naive_solver.
Qed.
Lemma called_google q (w : W) :
  called (eq q) 1 w (bump (log (EvGoogle q (google E (tick w) q)) w)) [EvGoogle q (google E (tick w) q)].
Proof. split_and!; [done|done|simpl; lia|]. apply Forall_singleton. eauto. Qed.

(** A retry loop on one request: [n] attempts at most; [a] tells whether the
    token was refused. *)
Definition tried (q : greq) (n : nat) (w : W) (a : bool) (w' : W) : Prop :=
  ∃ l, called (eq q) n w w' l ∧ (cooperative → n ≠ O → a = false ∧ granted q l).

(** One attempt and what follows it. *)
Lemma tried_attempt {R A} q n (refused : A → bool) (k : gresp → Go R A) (w : W) :
  (∀ ok w1, wp (k (inr ok)) (λ a w2, w2 = w1 ∧ refused a = false) (λ _ _, False) w1) →
  (∀ e w1, wp (k (inl e)) (λ _ w2, ∃ l, called (eq q) n w1 w2 l) (λ _ _, False) w1) →
  wp (bind (google_do E q) k) (λ a, tried q (S n) w (refused a)) (λ _ _, False) w.
Proof.
  intros Hok Herr. apply wp_bind, wp_ext. cbn [fst snd].
  pose proof (called_google q w) as Hc. destruct (google E (tick w) q) as [e|ok] eqn:Hg.
  - eapply wp_mono; [apply Herr| |done]. cbn beta. intros a w2 [l Hl].
    eexists. split; [by eapply (called_trans _ 1 n)|].
    intros Hco. destruct (Hco (tick w) q). congruence.
  - eapply wp_mono; [apply Hok| |done]. cbn beta. intros a w2 [-> Ha].
    eexists. split; [eapply called_mono; [|apply le_n_S, Nat.le_0_l|exact Hc]; done|].
    intros _ _. split; [done|]. exists ok. by apply list_elem_of_singleton.
Qed.
Lemma called_again {R A} q n (m : Go R A) (f : A → bool) (w : W) :
  (∀ w, wp m (λ a, tried q n w (f a)) (λ _ _, False) w) →
  wp (sleep ;;; m) (λ _ w', ∃ l, called (eq q) n w w' l) (λ _ _, False) w.
Proof.
  intros Hm. apply wp_bind, wp_ext. simpl. eapply wp_mono; [apply Hm| |done].
  cbn beta. intros a w' (l & Hl & _). by exists l.
Qed.

Lemma delete_primary_called {R} n id (w : W) :
  wp (delete_primary E n id) (tried (EventsDelete "primary" id) n w) (λ (_ : R) _, False) w.
Proof.
  revert w. induction n as [|n IH]; intros w; simpl.
  { apply wp_ret. exists []. split; [apply called_nil|done]. }
  apply (tried_attempt _ _ (λ b, b)); [by intros; apply wp_ret|]. intros e w1.
  repeat case_match; try (apply wp_ret; exists []; by apply called_nil). by apply (called_again _ _ _ (λ b, b)).
Qed.
Lemma delete_calendar_called {R} n cal (w : W) :
  wp (delete_calendar E n cal) (λ _, tried (CalendarsDelete cal) n w false) (λ (_ : R) _, False) w.
Proof.
  revert w. induction n as [|n IH]; intros w; simpl.
  { apply wp_ret. exists []. split; [apply called_nil|done]. }
  apply (tried_attempt _ _ (λ _, false)); [by intros; apply wp_ret|]. intros e w1.
  repeat case_match; try (apply wp_ret; exists []; by apply called_nil). by apply (called_again _ _ _ (λ _, false)).
Qed.

(** The deletion of a list of events: what every goroutine asked for. *)
Lemma delete_events_called {R} seen late i bad ids (w : W) :
  wp (delete_events E seen late i bad ids)
    (λ _ w', ∃ l, called (λ q, ∃ id, id ∈ ids ∧ q = EventsDelete "primary" id) (3 * length ids) w w' l ∧
       (cooperative → (∀ i, late i = false) → bad = false →
        ∀ id, id ∈ ids → granted (EventsDelete "primary" id) l))
    (λ (_ : R) _, False) w.
Proof.
  revert i bad w. induction ids as [|id ids IH]; intros i bad w; cbn [delete_events length].
  { apply wp_ret. exists []. split; [apply called_nil|]. intros _ _ _ id Hid. by apply elem_of_nil in Hid. }
  destruct (bad && seen i) eqn:Hstop.
  { apply wp_ret. exists []. split; [apply called_nil|]. intros _ _ ->. done. }
  apply wp_bind. apply (wp_mono _ (λ b w1, ∃ l, called (eq (EventsDelete "primary" id)) 3 w w1 l ∧
    (cooperative → (∀ i, late i = false) → b = false ∧ granted (EventsDelete "primary" id) l)) _ (λ _ _, False));
    [| |done].
  { destruct (late i) eqn:Hlate.
    - apply wp_ret. exists []. split; [apply called_nil|]. intros _ Hl. by rewrite Hl in Hlate.
    - eapply wp_mono; [apply delete_primary_called| |done]. intros b w1 (l & Hl & Hco). exists l. auto. }
  cbn beta. intros b w1 (l1 & Hl1 & Hg1). apply wp_bind, wp_ext. cbn [fst snd].
  eapply wp_mono; [apply IH| |done]. cbn beta. intros _ w2 (l2 & Hl2 & Hg2). exists (l1 ++ l2). split.
  - eapply called_mono; [| |eapply (called_trans _ 3 (3 * length ids) w w1)].
    + intros q Hq. exact Hq.
    + lia.
    + eapply called_mono; [|done|exact Hl1]. intros q <-. exists id. split; [apply list_elem_of_here|done].
    + eapply called_mono; [|done|exact Hl2]. intros q (id' & Hid & ->). exists id'.
      split; [by apply list_elem_of_further|done].
  - intros Hco Hlate -> id' [->|Hid]%elem_of_cons.
    + destruct (Hg1 Hco Hlate) as [_ [ok Hok]]. exists ok. apply elem_of_app. by left.
    + destruct (Hg1 Hco Hlate) as [-> _].
      destruct (Hg2 Hco Hlate eq_refl id' Hid) as [ok Hok]. exists ok. apply elem_of_app. by right.
Qed.

(** The requests a clean-up may make. *)
Definition cleanup_request (j : cleanup) (q : greq) : Prop :=
  q = CalendarsDelete (j_calendarID j) ∧ j_calendarID j ≠ "" ∧ j_calendarID j ≠ "primary" ∨
  ∃ id, id ∈ take 200 (j_eventIDs j) ∧ q = EventsDelete "primary" id.
(** The request that must be made for the data to be gone. *)
Definition due (j : cleanup) (q : greq) : Prop :=
  if bool_decide (j_calendarID j ≠ "" ∧ j_calendarID j ≠ "primary")
  then q = CalendarsDelete (j_calendarID j)
  else ∃ id, id ∈ take 200 (j_eventIDs j) ∧ q = EventsDelete "primary" id.

Lemma cleanup_called seen late j (w : W) :
  wp (if j_deleteGoogleData j then
        srv <- new_calendar_service E ;;
        match srv with
        | Some _ => ret tt
        | None =>
            if bool_decide (j_calendarID j ≠ "" ∧ j_calendarID j ≠ "primary")
            then delete_calendar E 3 (j_calendarID j)
            else delete_events E seen late 0 false (take 200 (j_eventIDs j))
        end
      else ret tt)
    (λ _ w', ∃ l, called (cleanup_request j) 600 w w' l ∧ (j_deleteGoogleData j = false → l = []) ∧
       (j_deleteGoogleData j = true → (∀ n, new_service E n = None) → cooperative → (∀ i, late i = false) →
        ∀ q, due j q → granted q l)) (λ (_ : unit) _, False) w.
Proof.
  destruct (j_deleteGoogleData j); [|apply wp_ret; exists []; split_and!; [apply called_nil|done..]].
  apply wp_bind, wp_ext. cbn [fst snd]. destruct (new_service E (tick w)) eqn:Hsrv.
  { apply wp_ret. exists []. split_and!; [apply called_bump, called_nil|done|]. intros _ Hn. congruence. }
  unfold due. case_bool_decide as Hcal.
  - eapply wp_mono; [apply delete_calendar_called| |done]. cbn beta. intros _ w' (l & Hl & Hg).
    exists l. split_and!; [|done|].
    + eapply called_mono; [|apply (le_S_n 3 600); lia|exact Hl]. intros q <-. by left.
    + intros _ _ Hco _ q ->. by apply Hg.
  - eapply wp_mono; [apply delete_events_called| |done]. cbn beta. intros _ w' (l & Hl & Hg).
    exists l. split_and!; [|done|].
    + eapply called_mono; [| |exact Hl]; [by right|]. rewrite length_take. lia.
    + intros _ _ Hco Hlate q (id & Hid & ->). by apply Hg.
Qed.

(** The deadline is between ten and twenty seconds after the start. *)
Lemma cleanup_timeout_bounds ids : (10 * Second ≤ cleanup_timeout ids ≤ 20 * Second)%Z.
Proof. unfold cleanup_timeout, Second. repeat case_match; lia. Qed.
Lemma in_time j start turn :
  (∀ i, (turn i < start + 10 * Second)%Z) → ∀ i, past_deadline j start turn i = false.
Proof.
  intros Ht i. unfold past_deadline. apply Z.leb_gt. specialize (Ht i).
  pose proof (cleanup_timeout_bounds (j_eventIDs j)). lia.
Qed.

Definition cleaned (late : nat → bool) (j : cleanup) (w w' : W) : Prop :=
  quiet w w' ∧ ∃ l, trace w' = trace w ++ l ++ [EvRevoke (j_refreshToken j)] ∧
    (length l ≤ 600)%nat ∧ Forall (λ e, ∃ q r, e = EvGoogle q r ∧ cleanup_request j q) l ∧
    (j_deleteGoogleData j = false → l = []) ∧
    (j_deleteGoogleData j = true → (∀ n, new_service E n = None) → cooperative → (∀ i, late i = false) →
     ∀ q, due j q → granted q l).

(** C25 (functional).  The clean-up an account deletion leaves behind ends with
    the revocation of the token, always, and until then it sends at most 600
    requests, each for the user's dedicated calendar or one of the first 200
    recorded events, none of them unless the user asked for the removal of the
    data; and when Google grants the requests and the deadline does not pass,
    the calendar, or every one of these events, is deleted.  It changes neither
    the database nor Valkey, however the deletions are scheduled. *)
Theorem background_cleanup_spec seen late j (w : W) :
  cleaned late j w (background_cleanup E seen late j w).2.
Proof.
  assert (wp (background_cleanup E seen late j) (λ _, cleaned late j w) (λ _ _, False) w) as HQ.
  - unfold background_cleanup. apply wp_bind. eapply wp_mono; [apply cleanup_called| |done].
    cbn beta. intros _ w1 (l & (Hq & Ht & Hn & Hl) & Hno & Hdue). apply wp_ext. split; [done|].
    exists l. split_and!; try done. simpl. by rewrite Ht, <- app_assoc.
  - unfold wp in HQ. by destruct (background_cleanup E seen late j w) as [[] w'].
Qed.
End Cleanup.

(** ** Manual synchronisation *)

Section Manual.
Context {kv : Type} `{!Valkey kv} `{!AEAD} `{!Codec validation}.
Context (E : Env) (N : Net) (h : Handlers) (userID : Z).
Abbreviation W := (World kv).
Abbreviation Go := (@M kv).

(** The database is the same and nobody was told anything. *)
Definition unheard (w w' : W) : Prop := db w' = db w ∧ trace w' = trace w.

(** The time of the last synchronisation that the call [n] finds. *)
Definition last_seen (w : W) (n : nat) (last : option Z) : Prop :=
  (∃ v, h_Valkey h = true ∧ vk_get (clock E n) (lastSyncKey userID) (store w) = Some v ∧
        Parse layout_RFC3339 v = last ∧ last ≠ None) ∨
  (∃ row, users (view E (h_ReadDB h) n (db w)) !! userID = Some row ∧ last_sync_at row = last).

Abbreviation silent := (λ (r : reply) (w' : W), p_body r ≠ BStatus "sync queued").

Lemma last_sync_seen (w : W) :
  wp (last_sync E h userID) (λ last w', unheard w w' ∧ ∃ n, between w w' n ∧ last_seen w n last)
    (λ r w', unheard w w' ∧ silent r w') w.
Proof.
  unfold last_sync. apply wp_bind. apply (wp_mono _ (λ c w1, quiet w w1 ∧ unheard w w1 ∧ (tick w ≤ tick w1)%nat ∧
    ∀ t, c = Some t → ∃ n, between w w1 n ∧ last_seen w n (Some t)) _ (λ _ _, False)); [| |done].
  { destruct (h_Valkey h) eqn:Hvk; [|by apply wp_ret]. apply wp_bind, wp_ext, wp_ret.
    split_and!; [done..|simpl; lia|].
    intros t. cbn [fst]. destruct (fate_kv E (tick w)); [|done..].
    destruct (vk_get _ _ _) as [v|] eqn:Hv; simpl; [|done]. case_decide; [done|].
    intros Ht. exists (tick w). split; [unfold between; simpl; lia|]. left. eauto. }
  cbn beta. intros [t|] w1 ([Hd Hs] & Hu & Ht & Hc); [apply wp_ret; by auto|].
  apply wp_bind, wp_ext. cbn [fst snd]. destruct (fate_db E (tick w1)); [|by apply wp_leave..].
  unfold select_user. rewrite Hd.
  destruct (users (view E (h_ReadDB h) (tick w1) (db w)) !! userID) as [row|] eqn:Hrow; [|by apply wp_leave].
  simpl. assert (∀ w2 : W, (tick w1 < tick w2)%nat → unheard w w2 →
    unheard w w2 ∧ ∃ n, between w w2 n ∧ last_seen w n (last_sync_at row)) as Hend.
  { intros w2 Hlt Hu2. split; [done|]. exists (tick w1). split; [unfold between; lia|right; eauto]. }
  apply wp_bind. destruct (last_sync_at row); [|apply wp_ret, wp_ret, Hend; [simpl; lia|done]].
  destruct (h_Valkey h); [|apply wp_ret, wp_ret, Hend; [simpl; lia|done]]. apply wp_bind, wp_ext.
  destruct (fate_kv E _); apply wp_ret, wp_ret, Hend; (simpl; lia) || done.
Qed.
Lemma stored_token_seen {R} (w : W) :
  wp (stored_token E h userID) (λ o w', unheard w w' ∧ (tick w < tick w')%nat ∧
      ∀ enc, o = Some enc → enc ≠ "" ∧ ∃ row, users (view E (h_ReadDB h) (tick w) (db w)) !! userID = Some row ∧
        refresh_token row = Some enc) (λ (_ : R) _, False) w.
Proof.
  unfold stored_token. apply wp_bind, wp_ext, wp_ret. split_and!; [done..|simpl; lia|]. intros enc. cbn [fst].
  destruct (fate_db E (tick w)); [|done..]. unfold select_user.
  destruct (users (view E (h_ReadDB h) (tick w) (db w)) !! userID) as [row|] eqn:Hrow; simpl; [|done].
  destruct (refresh_token row) eqn:Ht; [|done]. case_decide; [done|]. intros [= <-]. eauto 10.
Qed.

(** Google confirmed, between the call [n1] and the end of the request, that
    the token stored for the user gives access to calendars: [n2] reads the
    row, [n3] exchanges the token and [n4] asks for its scope. *)
Definition confirmed_access (n1 : nat) (w w' : W) : Prop :=
  ∃ n2 n3 n4 row enc rt access scope,
    (n1 ≤ n2 < n3)%nat ∧ (n3 < n4 < tick w')%nat ∧
    users (view E (h_ReadDB h) n2 (db w)) !! userID = Some row ∧ refresh_token row = Some enc ∧
    DecryptToken enc (h_EncryptionKey h) = inr rt ∧ rt ≠ "" ∧
    TokenSource N n3 rt = inr access ∧ get_tokeninfo N n4 access = TiAnswer StatusOK (Some scope) ∧
    Contains scope calendar_scope = true.

(** What a manual synchronisation did: [n0] finds the last synchronisation,
    [n1] reads the clock. *)
Definition manual (w : W) (r : reply) (w' : W) : Prop :=
  db w' = db w ∧
  (p_body r ≠ BStatus "sync queued" ∧ trace w' = trace w ∨
   ∃ err last n0 n1, trace w' = trace w ++ [EvPublishSync userID err] ∧
     (p_body r = BStatus "sync queued" ↔ err = None) ∧
     (tick w ≤ n0 ≤ n1)%nat ∧ (n1 < tick w')%nat ∧ last_seen w n0 last ∧
     (∀ t, last = Some t → (Minute ≤ clock E n1 - t)%Z) ∧ confirmed_access n1 w w').

Lemma manual_silent (w w' : W) r : unheard w w' → silent r w' → manual w r w'.
Proof. intros [Hd Ht] Hr. split; [done|]. by left. Qed.

Lemma manual_refusal_spec ti :
  (∃ r, manual_refusal ti = Some r ∧ p_body r ≠ BStatus "sync queued") ∨
  (manual_refusal ti = None ∧ ∃ scope, ti = TiAnswer StatusOK (Some scope) ∧ Contains scope calendar_scope = true).
Proof.
  destruct ti as [|e|code scope]; simpl; [left; eauto..|].
  destruct (Z.eqb_spec code StatusOK) as [->|]; simpl; [|left; case_match; eauto].
  destruct scope as [scope|]; [|left; eauto]. destruct (Contains scope calendar_scope) eqn:Hc; eauto 10.
Qed.

(** From the decrypted token to the reply. *)
Lemma publish_guarded n0 n1 n2 row enc rt last (w w1 : W) :
  users (view E (h_ReadDB h) n2 (db w)) !! userID = Some row → refresh_token row = Some enc →
  DecryptToken enc (h_EncryptionKey h) = inr rt → rt ≠ "" → unheard w w1 →
  (tick w ≤ n0 ≤ n1)%nat → (n1 ≤ n2 < tick w1)%nat →
  last_seen w n0 last → (∀ t, last = Some t → (Minute ≤ clock E n1 - t)%Z) →
  wp (invalid <- known_invalid E h userID ;;
      if invalid : bool then leave (http_Error StatusForbidden "calendar access permission missing") else
      tok <- net (λ n, TokenSource N n rt) ;;
      match tok with
      | inl _ => leave (http_Error StatusForbidden "google calendar permission revoked")
      | inr access =>
          ti <- net (λ n, get_tokeninfo N n access) ;;
          match manual_refusal ti with
          | Some r => leave r
          | None =>
              err <- publish_sync N userID ;;
              match err with
              | Some _ => leave (http_Error StatusInternalServerError "sync failed to queue")
              | None => ret (mk_reply StatusOK (BStatus "sync queued") [])
              end
          end
      end) (manual w) (manual w) w1.
Proof.
  intros Hrow Htok Hdec Hrt Hu Hn0 Hn2 Hlast Hmin. apply wp_bind.
  apply (wp_mono _ (λ _ w2, unheard w w2 ∧ (tick w1 ≤ tick w2)%nat) _ (λ _ _, False)); [| |done].
  { unfold known_invalid. destruct (h_Valkey h); [|by apply wp_ret]. apply wp_bind, wp_ext, wp_ret.
    split; [done|simpl; lia]. }
  cbn beta. intros [|] w2 [Hu2 Hlt]; [by apply wp_leave, manual_silent|].
  apply wp_bind, wp_ext. cbn [fst snd].
  destruct (TokenSource N (tick w2) rt) as [e|access] eqn:Hacc; [by apply wp_leave, manual_silent|].
  apply wp_bind, wp_ext. cbn [fst snd]. set (ti := get_tokeninfo N _ access).
  destruct (manual_refusal_spec ti) as [(r & -> & Hr)|(-> & scope & Hti & Hscope)];
    [by apply wp_leave, manual_silent|].
  apply wp_bind, wp_ext. cbn [fst snd]. destruct Hu2 as [Hd2 Ht2].
  assert (∀ w3 : W, (S (tick w2) < tick w3)%nat → (n1 < tick w3)%nat ∧ confirmed_access n1 w w3) as Hconf.
  { intros w3 Ht3. split; [lia|]. exists n2, (tick w2), (S (tick w2)), row, enc, rt, access, scope.
    split_and!; try done; lia. }
  destruct (PublishTask N _ userID) as [e|] eqn:Hp; [apply wp_leave|apply wp_ret];
    (split; [done|]); right; eexists _, last, n0, n1; (split; [by simpl; rewrite Ht2|]);
    (split; [done|]); (split; [lia|]); (edestruct Hconf as [Hc1 Hc2]; [|by split_and!]); simpl; lia.
Qed.

(** C26 (safety).  A manual synchronisation queues a task only for the user who
    asks, only when the last synchronisation that the request found is at least
    a minute before the time the request read on the clock, and when, after
    that and during the request, Google confirmed that the token stored for the
    user gives access to calendars; it answers that the task is queued exactly when the
    queue took it; and in no case does it touch the database. *)
Theorem ManualSync_guarded (w : W) :
  let '(r, w') := ManualSync E N h userID w in manual w r w'.
Proof.
  enough (manual w (ManualSync E N h userID w).1 (ManualSync E N h userID w).2) as HQ
    by (by destruct (ManualSync _ _ _ _ w)).
  unfold ManualSync. apply (wp_run _ (manual w)). apply wp_bind.
  eapply wp_mono; [apply last_sync_seen| |intros r w1 [Hu Hr]; by apply manual_silent].
  cbn beta. intros last w1 [Hu1 (n0 & Hn0 & Hlast)]. unfold between in Hn0. apply wp_bind.
  apply (wp_mono _ (λ b w2, unheard w w2 ∧ (b = false → ∃ n1, (n0 ≤ n1 < tick w2)%nat ∧
    ∀ t, last = Some t → (Minute ≤ clock E n1 - t)%Z)) _ (λ _ _, False)); [| |done].
  { destruct last as [t|]; [|apply wp_ret; split; [done|]; intros _; exists n0; split; [lia|done]].
    apply wp_bind, wp_ext, wp_ret. split; [done|]. intros Hb%Z.ltb_ge. exists (tick w1). split; [simpl; lia|].
    by intros ? [= <-]. }
  cbn beta. intros [|] w2 [Hu2 Hnow]; [by apply wp_leave, manual_silent|].
  destruct (Hnow eq_refl) as (n1 & Hn1 & Hmin). apply wp_bind.
  eapply wp_mono; [apply stored_token_seen| |by intros ?? []].
  cbn beta. intros [enc|] w3 (Hu3 & Ht3 & Henc); [|apply wp_leave, manual_silent; [|done]; split;
    [by rewrite (proj1 Hu3), (proj1 Hu2)|by rewrite (proj2 Hu3), (proj2 Hu2)]].
  assert (unheard w w3) as Hu by (destruct Hu2, Hu3; split; congruence).
  destruct (Henc enc eq_refl) as (Hne & row & Hrow & Htok).
  rewrite (proj1 Hu2) in Hrow.
  destruct (DecryptToken enc (h_EncryptionKey h)) as [e|[|c rt]] eqn:Hdec;
    [by apply wp_leave, manual_silent..|].
  apply (publish_guarded n0 n1 (tick w2) row enc (String c rt) last); try done; lia.
Qed.
End Manual.

(** ** Concrete runs *)

Lemma DeleteAccount_effect_witness :
  let f := DeleteAccount calm demo_handlers 1 true None demo_world in
  p_body f.1.1 = BStatus "deleted" ∧ gone calm demo_handlers 1 demo_world f.2.
Proof.
  intros f. assert (p_body f.1.1 = BStatus "deleted") as Hb by (vm_compute; reflexivity).
  split; [exact Hb|].
  pose proof (DeleteAccount_effect calm demo_handlers 1 true None demo_world demo_db_wf) as H.
  fold f in H. clearbody f. destruct f as [[r job] w']. apply H, Hb.
Defined.

(** Each branch is reached: a change, no change, a task that is queued, a
    second one within the minute, and events that are deleted. *)
Example preferences_run :
  let save ps := SavePreferences calm (demo_net "g1") demo_handlers 1 (Some (mk_prefs (Some ps) false "")) in
  let '(r1, w1) := save ["leetcode"; "codeforces"] demo_world in
  let '(r2, w2) := save ["leetcode"] w1 in
  let '(r3, w3) := save ["nowhere"] w2 in
  p_body r1 = BSaved false ∧ p_body r2 = BSaved true ∧ p_status r3 = StatusBadRequest ∧
  platforms <$> users (db w3) !! 1%Z = Some (Some ["leetcode"]).
Proof. vm_compute. done. Qed.
Example manual_run :
  let sync := ManualSync calm (demo_net "g1") demo_handlers 1 in
  let '(r1, w1) := sync demo_world in
  let w2 := (SyncUser calm demo_syncer 1 w1).2 in
  let '(r3, w3) := sync w2 in
  p_body r1 = BStatus "sync queued" ∧ p_body r3 = BStatus "rate_limited".
Proof. vm_compute. done. Qed.
Example deletion_run :
  let w1 := (SyncUser calm demo_syncer 1 demo_world).2 in
  let '(r, job, w2) := DeleteAccount calm demo_handlers 1 true None w1 in
  match job with
  | Some j => j_refreshToken j = "refresh" ∧ length (j_eventIDs j) = 2%nat ∧
      length (trace (background_cleanup calm (λ _, true) (past_deadline j 0 (λ i, Z.of_nat i * (Second / 10))%Z) j w2).2) = (length (trace w2) + 3)%nat
  | None => False
  end.
Proof. vm_compute. done. Qed.
