(* ===== verification/FeedSpec.v ===== *)
(** * Properties of the calendar feed and of the admin handlers *)

From stdpp Require Import base gmap strings list sets sorting.
From Stdlib Require Import ZArith Lia Ascii Permutation.
From S2P Require Import Extractor.
From S2P Require Import Prelude GoStrings Models Database GoTime GoFloat EventID Sha256 Effects Syncer Queue.
From S2P Require Import Middleware MiddlewareSpec Handlers Feed Admin Main Scenario.
Local Open Scope go_scope.

(** ** Escaping *)

(** Reading a text value as RFC 5545 says. *)
Fixpoint unescapeICal (s : string) : string :=
  match s with
  | "" => ""
  | String c r =>
      if decide (c = backslash) then
        match r with
        | "" => String c ""
        | String d r => String (if decide (d = "n"%char) then lf else d) (unescapeICal r)
        end
      else String c (unescapeICal r)
  end.

Definition escape_char (c : ascii) : string :=
  if decide (c = backslash) then String backslash (String backslash "")
  else if decide (c = ";"%char) then String backslash ";"
  else if decide (c = ","%char) then String backslash ","
  else if decide (c = lf) then String backslash "n"
  else if decide (c = cr) then "" else String c "".

Lemma escapeICal_cons c s : escapeICalText (String c s) = escape_char c +:+ escapeICalText s.
Proof.
  unfold escapeICalText. change (String c s) with (String c "" +:+ s). rewrite !ReplaceAll_app. f_equal.
  unfold escape_char. cbn [ReplaceAll]. repeat (case_decide; subst; [reflexivity|]).
  repeat (cbn [ReplaceAll String.append]; rewrite decide_False by done). done.
Qed.
Lemma escape_char_spec c s :
  unescapeICal (escape_char c +:+ s) = (if decide (c = cr) then "" else String c "") +:+ unescapeICal s ∧
  (cr ∉ chars (escape_char c)) ∧ (lf ∉ chars (escape_char c)).
Proof.
  unfold escape_char. repeat (case_decide; subst; [split_and!; [reflexivity|set_solver..]|]).
  split_and!; [|set_solver..]. cbn [String.append unescapeICal]. rewrite !decide_False by done. done.
Qed.

(** Property (round trip).  Text in the feed cannot break out of its line: what
    [escapeICalText] returns has no carriage return and no line feed, and read
    as an iCalendar text value it is the original text without its carriage
    returns. *)
Theorem escapeICalText_round_trip s :
  unescapeICal (escapeICalText s) = ReplaceAll s cr "" ∧
  (cr ∉ chars (escapeICalText s)) ∧ (lf ∉ chars (escapeICalText s)).
Proof.
  induction s as [|c s (IH1 & IH2 & IH3)]; [split_and!; [done|apply not_elem_of_nil..]|].
  rewrite escapeICal_cons, chars_app. destruct (escape_char_spec c (escapeICalText s)) as (H1 & H2 & H3).
  rewrite H1, IH1. split_and!; [|set_solver..]. done.
Qed.

(** ** Who and what the feed is for *)

(** The contests of the window, before ORDER BY and LIMIT. *)
Definition listed (now : Z) (ps : list string) (d : DB) (c : Contest) : Prop :=
  ∃ id row, contests d !! id = Some row ∧ in_window now ps row ∧ c = scan_contest id row.
Lemma select_feed_spec now ps d :
  (∀ c, c ∈ select_feed now ps d → listed now ps d c) ∧ (length (select_feed now ps d) ≤ 500)%nat ∧
  ((length (select_feed now ps d) < 500)%nat → ∀ c, listed now ps d c → c ∈ select_feed now ps d).
Proof.
  unfold select_feed. set (l := omap _ _).
  assert (∀ c, c ∈ l ↔ listed now ps d c) as Hl.
  { intros c. unfold l, listed. rewrite list_elem_of_omap. split.
    - intros ([id row] & Hin & Hc). apply elem_of_map_to_list in Hin. simpl in Hc.
      case_decide; simplify_eq. eauto.
    - intros (id & row & Hrow & Hw & ->). exists (id, row). split; [by apply elem_of_map_to_list|].
      simpl. by rewrite decide_True. }
  assert (∀ c, c ∈ merge_sort by_start l ↔ c ∈ l) as Hm by (intros c; by rewrite merge_sort_Permutation).
  split_and!.
  - intros c (i & Hi & _)%elem_of_take. apply Hl, Hm. by eapply list_elem_of_lookup_2.
  - rewrite length_take. lia.
  - rewrite length_take. intros Hlen c Hc. rewrite take_ge by lia. by apply Hm, Hl.
Qed.

Section Feed.
Context {kv : Type} `{!Valkey kv}.
Context (E : Env) (h : Handlers).
Abbreviation W := (World kv).
Abbreviation Go := (@M kv).

(** The user a request names: by a token, which is his secret or simply his
    number, or else by his number. *)
Definition owner (w : W) (token userIDStr : string) (ps : list string) : Prop :=
  ∃ n uid u, users (view E (h_ReadDB h) n (db w)) !! uid = Some u ∧ ps = default [] (platforms u) ∧
    (token ≠ "" ∧ (token = feed_token uid ∨ token = Itoa uid) ∨
     token = "" ∧ Sscanf_d userIDStr = Some uid ∧ (0 < uid)%Z).

Lemma feed_platforms_owner token userIDStr (w : W) :
  wp (feed_platforms E h token userIDStr)
    (λ ps w', db w' = db w ∧ store w' = store w ∧ trace w' = trace w ∧ owner w token userIDStr ps)
    (λ r w', (db w' = db w ∧ store w' = store w ∧ trace w' = trace w) ∧ p_status r ≠ StatusOK) w.
Proof.
  unfold feed_platforms. case_decide as Htok.
  - apply wp_bind, wp_ext. cbn [fst snd]. destruct (fate_db E (tick w)); [|by apply wp_leave..].
    destruct (filter _ _) as [|u us] eqn:Hf; [by apply wp_leave|]. apply wp_ret. split_and!; [done..|].
    assert (u ∈ filter (λ u, token_matches token u = true)
      (deliver E (tick w) (select_feed_users (view E (h_ReadDB h) (tick w) (db w))))) as Hu
      by (rewrite Hf; apply list_elem_of_here).
    apply list_elem_of_filter in Hu as [Hm Hu].
    apply (λ H, elem_of_submseteq _ _ _ H (deliver_sub _ _ _)) in Hu.
    apply list_elem_of_fmap in Hu as ([uid row] & -> & Hrow). apply elem_of_map_to_list in Hrow.
    exists (tick w), uid, row. split_and!; [done..|]. left. split; [done|].
    unfold token_matches in Hm. apply orb_true_iff in Hm as [Hm|Hm]; apply bool_decide_eq_true in Hm; auto.
  - subst token. case_decide; [|by apply wp_leave].
    destruct (Sscanf_d userIDStr) as [uid|] eqn:Hscan; [|by apply wp_leave].
    destruct (Z.leb_spec uid 0); [by apply wp_leave|]. apply wp_bind, wp_ext. cbn [fst snd].
    destruct (fate_db E (tick w)); [|by apply wp_leave..]. destruct (uid <? 2 ^ 31)%Z; [|by apply wp_leave].
    unfold select_user. destruct (users (view E (h_ReadDB h) (tick w) (db w)) !! uid) as [u|] eqn:Hu; [|by apply wp_leave].
    apply wp_ret. split_and!; [done..|]. exists (tick w), uid, u. auto 10.
Qed.

(** What a reply says about the world it was made in. *)
Definition feed_reply (token userIDStr host : string) (w : W) (r : reply) (w' : W) : Prop :=
  (db w' = db w ∧ store w' = store w ∧ trace w' = trace w) ∧
  (p_status r = StatusOK → ∃ ps n stamp cs,
     owner w token userIDStr ps ∧ p_body r = BRaw (feed_text host stamp cs) ∧
     let eff := match ps with [] => Platforms | _ => ps end in
     let d := view E (h_ReadDB h) n (db w) in
     (∀ c, c ∈ cs → listed (clock E n) eff d c) ∧ (length cs ≤ 500)%nat ∧
     ((length cs < 500)%nat → ∀ c, listed (clock E n) eff d c → c ∈ cs)).

(** C34 (functional).  The feed lists what it should: a request answered with
    200 named a user, and the answer is the calendar of contests of the user's
    platforms, or of all platforms if he chose none, that start between seven
    days ago and sixty days from now; all of them unless there are 500, and
    never more.  No request changes anything. *)
Theorem ServeICalFeed_contents token userIDStr host (w : W) :
  let '(r, w') := ServeICalFeed E h token userIDStr host w in feed_reply token userIDStr host w r w'.
Proof.
  set (Q := feed_reply token userIDStr host w).
  enough (Q (ServeICalFeed E h token userIDStr host w).1 (ServeICalFeed E h token userIDStr host w).2) as HQ
    by (by destruct (ServeICalFeed _ _ _ _ _ w)).
  unfold ServeICalFeed. apply (wp_run _ Q). apply wp_bind.
  eapply wp_mono; [apply feed_platforms_owner| |intros r w1 [Hw Hr]; by split].
  cbn beta. intros ps w1 (Hd & Hs & Ht & Ho). cbv zeta. apply wp_bind, wp_ext. cbn [fst snd].
  destruct (fate_db E (tick w1)); [|by apply wp_leave..]. set (d := view E (h_ReadDB h) (tick w1) (db w1)).
  set (eff := match ps with [] => Platforms | _ => ps end).
  destruct (Nat.eqb_spec (length (deliver E (tick w1) (select_feed (clock E (tick w1)) eff d)))
    (length (select_feed (clock E (tick w1)) eff d))) as [Hlen|];
    apply wp_bind, wp_ext; cbn [fst snd]; [apply wp_ret|by apply wp_leave].
  split; [done|]. intros _. eexists ps, (tick w1), _, _. split_and!; [done..|]. cbv zeta. fold eff.
  rewrite <- Hd. fold d. pose proof (select_feed_spec (clock E (tick w1)) eff d) as (H1 & H2 & H3).
  assert (deliver E (tick w1) (select_feed (clock E (tick w1)) eff d) ≡ₚ select_feed (clock E (tick w1)) eff d) as Hp
    by (apply submseteq_length_Permutation; [apply deliver_sub|lia]).
  rewrite Hlen. split_and!; [|done|]; [intros c|intros ? c]; rewrite Hp; auto.
Qed.
End Feed.

(** ** The admin handlers *)

Lemma requireAdmin_iff AdminPassword pass :
  requireAdmin AdminPassword pass = true ↔
  pass = AdminPassword ∧ AdminPassword ≠ "" ∧ (String.length pass ≤ 256)%nat.
Proof.
  unfold requireAdmin. pose proof (ConstantTimeCompare_eq pass AdminPassword) as Hc.
  destruct (Nat.ltb_spec 256 (String.length pass)); [split; [done|lia]|].
  case_bool_decide as Hpw; simpl; [naive_solver|].
  destruct (Z.eqb_spec (ConstantTimeCompare pass AdminPassword) 1); simpl; naive_solver.
Qed.

Section Admin.
Context {kv : Type} `{!Valkey kv}.
Context (E : Env).
Abbreviation W := (World kv).
Abbreviation Go := (@M kv).

(** Property (safety).  The admin routes are closed without the password: unless the
    request carries exactly the configured password, which must not be empty
    nor longer than 256 bytes, every admin handler answers 401 and does
    nothing, neither to the queue nor to the world; with it, they are open. *)
Theorem admin_guard AdminPassword pass hasEvent names (q : Queue) pub fuel hasRead hasValkey queue (w : W) :
  (requireAdmin AdminPassword pass = true ↔
     pass = AdminPassword ∧ AdminPassword ≠ "" ∧ (String.length pass ≤ 256)%nat) ∧
  (requireAdmin AdminPassword pass = false →
     UpdateContests AdminPassword pass hasEvent names q = (unauthorized, q, []) ∧
     SyncAll E AdminPassword pass hasEvent pub fuel q w = (inr (unauthorized, q, true), w) ∧
     HealthCheck E AdminPassword pass true hasRead hasValkey queue w = (inl (Refused unauthorized), w)).
Proof.
  split; [apply requireAdmin_iff|]. intros Hno.
  unfold UpdateContests, SyncAll, HealthCheck. by rewrite Hno.
Qed.

(** The probes write no key but their own. *)
Definition only_probe (e : effect) : Prop :=
  match e with FKv k => ∃ nano, k = probeKey nano | _ => False end.
Ltac footprint _ := by eexists.
Lemma sql_probe_steps {R} : respects (wsteps only_probe) (sql_probe E : Go R _).
Proof. intros w. apply wp_ext, step_bump. done. Qed.
#[local] Hint Resolve sql_probe_steps : sync_steps.
Lemma measure_steps {R} f :
  (∀ w, wsteps only_probe w (f w).2) → respects (wsteps only_probe) (measure E f : Go R _).
Proof. intros Hf. unfold measure. wsteps_with footprint. by apply respects_call. Qed.
Lemma checkPostgres_steps hasRead (w : W) : wsteps only_probe w (run (checkPostgres E hasRead) w).2.
Proof. apply (respects_run (wsteps only_probe)). unfold checkPostgres. wsteps_with footprint. Qed.
Lemma checkValkey_steps (w : W) : wsteps only_probe w (run (checkValkey E) w).2.
Proof. apply (respects_run (wsteps only_probe)). unfold checkValkey. wsteps_with footprint. Qed.
Lemma HealthCheck_steps pw pass post hasRead hasValkey queue :
  respects (wsteps only_probe) (HealthCheck E pw pass post hasRead hasValkey queue : Go _ _).
Proof.
  unfold HealthCheck. pose proof checkPostgres_steps. pose proof checkValkey_steps.
  repeat first [ apply measure_steps; solve [auto | done] | wsteps1 footprint | progress intros | progress cbv zeta ].
Qed.

(** Every component of a report is as its probe found it. *)
Lemma component_healthy r : healthy r = true ↔ cs_Status (component r) ≠ "unhealthy".
Proof. unfold healthy, component. by destruct r.2. Qed.

Lemma measure_result {R} f (w : W) :
  wp (measure E f) (λ r _, ∃ w1, r.2 = (f w1).1) (λ (_ : R) _, False) w.
Proof.
  unfold measure. apply wp_bind, wp_ext. apply wp_bind, wp_call. apply wp_bind, wp_ext, wp_ret. by eexists.
Qed.

(** The report, as far as the probes decide it. *)
Definition truthful (key : string) (queue : option Queue) (r : health_reply) : Prop :=
  match r with
  | Report code resp =>
      ((code = StatusOK ∧ hr_Status resp = "ok") ∨ (code = StatusServiceUnavailable ∧ hr_Status resp = "degraded")) ∧
      (code = StatusOK ↔ ∀ name c, hr_Services resp !! name = Some c → cs_Status c ≠ "unhealthy") ∧
      dom (hr_Services resp) = {["postgres"; "valkey"; key]} ∧
      (∀ q c, queue = Some q → hr_Services resp !! key = Some c →
         (cs_Status c = "unhealthy" ↔ is_Some (Health q)))
  | _ => False
  end.

(** A service as it is listed: its entry and whether it counts as healthy. *)
Definition entry_ok (e : componentStatus * bool) : Prop := e.2 = true ↔ cs_Status e.1 ≠ "unhealthy".
Lemma report_truthful key queue pg vk qu :
  key ≠ "postgres" → key ≠ "valkey" →
  entry_ok vk → entry_ok qu →
  (∀ q, queue = Some q → (cs_Status qu.1 = "unhealthy" ↔ is_Some (Health q))) →
  let services := <[key := qu.1]> (<["valkey" := vk.1]> {["postgres" := component pg]}) in
  truthful key queue (if healthy pg && vk.2 && qu.2 then Report StatusOK (mk_health "ok" services)
                  else Report StatusServiceUnavailable (mk_health "degraded" services)).
Proof.
  intros Hk1 Hk2 Hvk Hqu Hq services.
  assert ((∀ name c, services !! name = Some c → cs_Status c ≠ "unhealthy") ↔
    cs_Status (component pg) ≠ "unhealthy" ∧ cs_Status vk.1 ≠ "unhealthy" ∧ cs_Status qu.1 ≠ "unhealthy") as Hall.
  { unfold services. split.
    - intros H. split_and!; [apply (H "postgres")|apply (H "valkey")|apply (H key)]; by simplify_map_eq.
    - intros (H1 & H2 & H3) name c. rewrite !lookup_insert_Some, lookup_singleton_Some. naive_solver. }
  assert (dom services = {["postgres"; "valkey"; key]}) as Hdom by (unfold services; set_solver).
  assert (∀ q c, queue = Some q → services !! key = Some c → (cs_Status c = "unhealthy" ↔ is_Some (Health q)))
    as Hqueue by (unfold services; intros q c Hsome; rewrite lookup_insert_eq; intros [= <-]; auto).
  assert (healthy pg && vk.2 && qu.2 = true ↔ ∀ name c, services !! name = Some c → cs_Status c ≠ "unhealthy") as Hb
    by (rewrite Hall, !andb_true_iff, component_healthy; unfold entry_ok in *; tauto).
  destruct (healthy pg && vk.2 && qu.2); (split_and!; [by auto| |done|done]); simpl; by rewrite <- Hb.
Qed.

(** Property (functional).  The health report tells the truth: with the password,
    the check answers 200 and "ok" exactly when no service it lists is
    unhealthy, and 503 and "degraded" otherwise; it lists Postgres, Valkey and
    the queue; the queue is listed as unhealthy exactly when the broker it is
    configured for is disconnected; and the check leaves the database and
    every key but its probe alone. *)
Theorem health_report AdminPassword pass hasRead hasValkey queue (w : W) :
  requireAdmin AdminPassword pass = true →
  match HealthCheck E AdminPassword pass true hasRead hasValkey queue w with
  | (inr r, w') =>
      truthful "queue" queue r ∧ db w' = db w ∧
      ∀ k t, (∀ nano, k ≠ probeKey nano) → vk_get t k (store w') = vk_get t k (store w)
  | (inl _, _) => False
  end.
Proof.
  intros Hpw. pose proof (HealthCheck_steps AdminPassword pass true hasRead hasValkey queue w) as Hs.
  assert (wp (HealthCheck E AdminPassword pass true hasRead hasValkey queue)
    (λ r _, truthful "queue" queue r) (λ _ _, False) w) as Hr.
  { unfold HealthCheck. rewrite Hpw. apply wp_bind. eapply wp_mono; [apply measure_result| |done].
    cbn beta. intros pg w1 _. apply wp_bind.
    apply (wp_mono _ (λ e _, entry_ok e) _ (λ _ _, False)); [| |done].
    { destruct hasValkey; [|by apply wp_ret]. apply wp_bind.
      eapply wp_mono; [apply measure_result| |done]. intros r w2 _. apply wp_ret, component_healthy. }
    cbn beta. intros vk w2 Hvk. apply wp_bind.
    apply (wp_mono _ (λ e _, entry_ok e ∧ ∀ q, queue = Some q → (cs_Status e.1 = "unhealthy" ↔ is_Some (Health q)))
      _ (λ _ _, False)); [| |done].
    { destruct queue as [q|]; [|by apply wp_ret]. apply wp_bind.
      eapply wp_mono; [apply measure_result| |done]. cbn beta. intros r w3 [w4 Hr]. apply wp_ret.
      split; [apply component_healthy|]. intros ? [= <-]. simpl in Hr. unfold component. rewrite Hr.
      destruct (Health q); simpl; [by eauto|]. split; [done|by intros []]. }
    cbn beta. intros qu w3 [Hqu Hq]. pose proof (report_truthful "queue" queue pg vk qu ltac:(done) ltac:(done) Hvk Hqu Hq) as Ht.
    cbv zeta in Ht. by destruct (healthy pg && vk.2 && qu.2); apply wp_ret. }
  unfold wp in Hs, Hr. destruct (HealthCheck E _ _ _ _ _ _ w) as [[|r] w']; [done|]. split; [done|].
  assert (db w' = db w) as Hdb by (clear Hr; induction Hs as [|a b c Hab _ IH]; [done|]; rewrite IH; by destruct Hab).
  split; [done|]. intros k t Hk. apply (wsteps_kv_frame only_probe); [|done]. intros [nano Hn]. by apply (Hk nano).
Qed.

(** Property (functional).  The worker's health report tells the truth about the
    probes it makes, and the check changes nothing: with the password it
    answers 200 and "ok" exactly when no service it lists is unhealthy, and the
    queue, which it calls kafka, is unhealthy exactly when its broker is
    disconnected. *)
Theorem worker_health_report AdminPassword pass hasValkey q (w : W) :
  requireAdmin AdminPassword pass = true →
  match worker_health E AdminPassword pass true hasValkey q w with
  | (inr r, w') =>
      truthful "kafka" (Some q) r ∧ db w' = db w ∧ store w' = store w ∧ trace w' = trace w
  | (inl _, _) => False
  end.
Proof.
  intros Hpw.
  pose (still (w' : W) := db w' = db w ∧ store w' = store w ∧ trace w' = trace w).
  assert (∀ R (f : W → option error * W) (w0 : W), still w0 → (∀ w1, still w1 → still (f w1).2) →
    wp (measure E f) (λ r w', still w' ∧ ∃ w1, r.2 = (f w1).1) (λ (_ : R) _, False) w0) as Hm.
  { intros R f w0 H0 Hf. unfold measure. apply wp_bind, wp_ext. apply wp_bind, wp_call. apply wp_bind, wp_ext, wp_ret.
    split; [by apply (Hf (bump w0))|by eexists]. }
  assert (∀ w1, still w1 → still (run (worker_postgres E) w1).2) as Hpg.
  { intros w1 H1. apply (wp_run (worker_postgres E) (λ _, still)). unfold worker_postgres.
    apply wp_bind, wp_ext. simpl. destruct (fate_db E _); try by apply wp_leave.
    apply wp_bind, wp_ext. simpl. destruct (fate_db E _); try by apply wp_leave.
    apply wp_bind, wp_ext, wp_ret. done. }
  assert (wp (worker_health E AdminPassword pass true hasValkey q)
    (λ r w', truthful "kafka" (Some q) r ∧ still w') (λ _ _, False) w) as Hr.
  { unfold worker_health. rewrite Hpw. apply wp_bind. eapply wp_mono; [by apply Hm| |done].
    cbn beta. intros pg w1 [H1 _]. apply wp_bind.
    apply (wp_mono _ (λ e w', entry_ok e ∧ still w') _ (λ _ _, False)); [| |done].
    { destruct hasValkey; [|by apply wp_ret]. apply wp_bind.
      eapply wp_mono; [by apply Hm| |done]. cbn beta. intros r w2 [H2 _].
      apply wp_ret. split; [apply component_healthy|done]. }
    cbn beta. intros vk w2 [Hvk H2]. apply wp_bind. eapply wp_mono; [by apply Hm| |done].
    cbn beta. intros qu w3 [H3 [w4 Hq]]. simpl in Hq.
    pose proof (report_truthful "kafka" (Some q) pg vk (component qu, healthy qu) ltac:(done) ltac:(done) Hvk
      (component_healthy qu)) as Ht.
    cbv zeta in Ht. simpl in Ht. assert (∀ q0, Some q = Some q0 →
      (cs_Status (component qu) = "unhealthy" ↔ is_Some (Health q0))) as Hun.
    { intros ? [= <-]. unfold component. rewrite Hq. destruct (Health q); simpl; [by eauto|]. split; [done|by intros []]. }
    specialize (Ht Hun). by destruct (healthy pg && vk.2 && healthy qu); apply wp_ret. }
  unfold wp in Hr. by destruct (worker_health E _ _ _ _ _ w) as [[|r] w'].
Qed.
End Admin.

(** ** Concrete runs *)

Lemma worker_health_report_witness :
  match worker_health calm "secret" "secret" true true (New "" Dialled [] []) demo_world with
  | (inr r, w') => truthful "kafka" (Some (New "" Dialled [] [])) r ∧ db w' = db demo_world
  | (inl _, _) => False
  end.
Proof.
  pose proof (worker_health_report calm "secret" "secret" true (New "" Dialled [] []) demo_world eq_refl) as H.
  destruct (worker_health calm _ _ _ _ _ demo_world) as [[|r] w']; [exact H|].
  destruct H as (H1 & H2 & _). by split.
Defined.

Lemma health_report_witness :
  match HealthCheck calm "secret" "secret" true true true None demo_world with
  | (inr r, w') => truthful "queue" None r ∧ db w' = db demo_world
  | (inl _, _) => False
  end.
Proof.
  pose proof (health_report calm "secret" "secret" true true None demo_world eq_refl) as H.
  destruct (HealthCheck calm _ _ _ _ _ _ demo_world) as [[|r] w']; [exact H|].
  destruct H as (H1 & H2 & _). by split.
Defined.

Definition feed_handlers : Handlers := {|
  h_ReadDB := true; h_Valkey := true; h_EncryptionKey := demo_key; h_Env := "dev";
  h_HCAPTCHA_SECRET := ""; h_ENV := "dev" |}.

(** The secret in the feed's address protects nothing: the number of a user is
    taken for his token and gives the same calendar. *)
Example feed_by_plain_number :
  let feed token := (ServeICalFeed calm feed_handlers token "" "host" demo_world).1 in
  p_status (feed "1") = StatusOK ∧ feed "1" = feed (feed_token 1).
Proof. vm_compute. done. Qed.
